(** * s3mpc: a shallow embedding of the core and its specification

    The development follows the Go sources package by package:
    - the language runtime the code relies on (fixed-width integers,
      [time], [strings], [strconv], [float64]);
    - [pkg/types]    : records and their [Validate] methods;
    - [pkg/filter]   : the filter engine ([ParseFilter], [matchesFilter]);
    - [pkg/aws]      : the retrying client ([executeWithRetry]);
    - [pkg/services] : bucket region cache, listing, deletion, dry run,
                       batch size calculation.

    Go's [int] is the 64-bit integer of the build targets (amd64, arm64).
    Strings are byte strings.  Goroutine fan-out is modelled by the order in
    which the workers' results are received (a schedule, any permutation of
    the workers). *)

From Stdlib Require Import ZArith Floats Ascii String List Lia Permutation Bool.
From stdpp Require Import base option list gmap strings pretty.

Local Open Scope string_scope.
Local Open Scope list_scope.
Local Open Scope Z_scope.

(* ===================================================================== *)
(** * Fixed-width integers *)
(* ===================================================================== *)

Module Int64.
Definition min : Z := - 2 ^ 63.
Definition max : Z := 2 ^ 63 - 1.

Definition inRange (z : Z) : Prop := min <= z <= max.

(** Two's-complement wrap-around of an ideal result. *)
Definition wrap (z : Z) : Z := (z + 2 ^ 63) mod 2 ^ 64 - 2 ^ 63.

Definition add (a b : Z) : Z := wrap (a + b).
Definition sub (a b : Z) : Z := wrap (a - b).
Definition neg (a : Z) : Z := wrap (- a).

(** Saturation, as [time.Time.Sub] does. *)
Definition clamp (z : Z) : Z := Z.max min (Z.min max z).
End Int64.

Module Int32.
Definition wrap (z : Z) : Z := (z + 2 ^ 31) mod 2 ^ 32 - 2 ^ 31.
End Int32.

(* ===================================================================== *)
(** * package time *)
(* ===================================================================== *)

Module GoTime.
(** [time.Duration]: an int64 count of nanoseconds. *)
Definition Duration := Z.

Definition Nanosecond : Duration := 1.
Definition Millisecond : Duration := 1000000.
Definition Second : Duration := 1000 * Millisecond.
Definition Minute : Duration := 60 * Second.
Definition Hour : Duration := 60 * Minute.

(** [time.Time]: an instant, in nanoseconds since the zero time
      (January 1, year 1).  Its range is wider than a [Duration]'s. *)
Definition Time := Z.

Definition IsZero (t : Time) : bool := t =? 0.

(** [t.Sub(u)]: the difference, saturated to the Duration range. *)
Definition Sub (t u : Time) : Duration := Int64.clamp (t - u).

(** [time.Since(t)] when the clock reads [now]. *)
Definition Since (now t : Time) : Duration := Sub now t.
End GoTime.

(* ===================================================================== *)
(** * float64 *)
(* ===================================================================== *)

Module Float64.
(** [float64(i)] for an integer [i]: rounded to nearest even. *)
Definition ofInt (z : Z) : float := SF2Prim (binary_normalize prec emax z 0 false).

(** The integer part of a finite float (truncation toward zero);
      [None] for infinities and NaN. *)
Definition trunc (f : float) : option Z :=
  match Prim2SF f with
  | S754_zero _ => Some 0
  | S754_finite s m e =>
      let v := Z.shiftl (Z.pos m) e in Some (if s then - v else v)
  | S754_infinity _ | S754_nan => None
  end.
End Float64.


(* ===================================================================== *)
(** * package strings (byte strings) *)
(* ===================================================================== *)

Module GoStrings.

Definition code (c : ascii) : N := N_of_ascii c.
Definition byte (n : N) : ascii := ascii_of_N n.

Definition between (lo hi : N) (c : ascii) : bool :=
  ((lo <=? code c) && (code c <=? hi))%N.

Definition bytes (s : string) : list ascii := list_ascii_of_string s.
Definition ofBytes (l : list ascii) : string := string_of_list_ascii l.

(** [len(s)], a Go [int]. *)
Definition len (s : string) : Z := Z.of_nat (String.length s).

(** [s[i:]] and [s[:i]] for [0 <= i <= len(s)]. *)
Definition from (i : nat) (s : string) : string := ofBytes (drop i (bytes s)).
Definition upto (i : nat) (s : string) : string := ofBytes (take i (bytes s)).

(** The UTF-8 encodings of the runes for which [unicode.IsSpace] holds:
    tab, LF, VT, FF, CR, space, U+0085, U+00A0, U+1680, U+2000..U+200A,
    U+2028, U+2029, U+202F, U+205F, U+3000. *)
Definition spaceRunes : list (list N) :=
  [ [9]; [10]; [11]; [12]; [13]; [32];
    [194; 133]; [194; 160];
    [225; 154; 128];
    [226; 128; 128]; [226; 128; 129]; [226; 128; 130]; [226; 128; 131];
    [226; 128; 132]; [226; 128; 133]; [226; 128; 134]; [226; 128; 135];
    [226; 128; 136]; [226; 128; 137]; [226; 128; 138];
    [226; 128; 168]; [226; 128; 169]; [226; 128; 175];
    [226; 129; 159];
    [227; 128; 128] ]%N.

(** [stripPrefix p l]: [l] without its prefix [p], if it has it. *)
Fixpoint stripPrefix (p : list N) (l : list ascii) : option (list ascii) :=
  match p, l with
  | [], _ => Some l
  | n :: p', c :: l' => if (code c =? n)%N then stripPrefix p' l' else None
  | _ :: _, [] => None
  end.

Fixpoint stripAny (table : list (list N)) (l : list ascii) : option (list ascii) :=
  match table with
  | [] => None
  | p :: rest =>
      match stripPrefix p l with
      | Some l' => Some l'
      | None => stripAny rest l
      end
  end.

(** Drop leading runes of [table]; every rune has at least one byte, so
    [length l] rounds are enough. *)
Fixpoint trimWith (table : list (list N)) (fuel : nat) (l : list ascii) : list ascii :=
  match fuel with
  | O => l
  | S fuel' =>
      match stripAny table l with
      | Some l' => trimWith table fuel' l'
      | None => l
      end
  end.

Definition trimLeft (l : list ascii) : list ascii :=
  trimWith spaceRunes (length l) l.

(** Trailing runes are found backwards ([utf8.DecodeLastRune]): on the
    reversed string they are the reversed encodings. *)
Definition trimRight (l : list ascii) : list ascii :=
  rev (trimWith (map (@rev N) spaceRunes) (length l) (rev l)).

(** [strings.TrimSpace]. *)
Definition TrimSpace (s : string) : string :=
  ofBytes (trimRight (trimLeft (bytes s))).

Definition isASCII (s : string) : bool :=
  forallb (fun c => (code c <? 128)%N) (bytes s).

Definition lowerByte (c : ascii) : ascii :=
  if between 65 90 c then byte (code c + 32) else c.

Definition upperByte (c : ascii) : ascii :=
  if between 97 122 c then byte (code c - 32) else c.

(** [strings.Split(s, sep)] for a one-byte separator. *)
Fixpoint splitBytes (sep : ascii) (cur : list ascii) (l : list ascii) : list string :=
  match l with
  | [] => [ofBytes (rev cur)]
  | c :: l' =>
      if Ascii.eqb c sep then ofBytes (rev cur) :: splitBytes sep [] l'
      else splitBytes sep (c :: cur) l'
  end.

Definition Split (s : string) (sep : ascii) : list string :=
  splitBytes sep [] (bytes s).

End GoStrings.

(* ===================================================================== *)
(** * package strconv *)
(* ===================================================================== *)

Module Strconv.
Import GoStrings.

Definition isDigit (c : ascii) : bool := between 48 57 c.

Definition digitVal (c : ascii) : Z := Z.of_N (code c) - 48.

(** The value of a string of decimal digits, most significant first. *)
Fixpoint digitsValue (acc : Z) (l : list ascii) : option Z :=
  match l with
  | [] => Some acc
  | c :: l' => if isDigit c then digitsValue (10 * acc + digitVal c) l' else None
  end.

(** [strconv.ParseUint(s, 10, 64)] without the range check: the digits
    must be decimal and there must be at least one (with an explicit base,
    underscores are a syntax error). *)
Definition parseDigits (l : list ascii) : option Z :=
  match l with
  | [] => None
  | _ :: _ => digitsValue 0 l
  end.

(** [strconv.ParseInt(s, 10, 64)]: [None] when Go returns a non-nil error
    (a syntax error, or a value outside the int64 range). *)
Definition ParseInt (s : string) : option Z :=
  match bytes s with
  | [] => None
  | c :: rest =>
      let neg := Ascii.eqb c "-" in
      let digits := if Ascii.eqb c "+" || neg then rest else c :: rest in
      match parseDigits digits with
      | None => None
      | Some un =>
          if negb neg && (2 ^ 63 <=? un) then None
          else if neg && (2 ^ 63 <? un) then None
          else Some (if neg then - un else un)
      end
  end.

End Strconv.

(* ===================================================================== *)
(** * Library functions taken as parameters *)
(* ===================================================================== *)

(** The parts of the Go standard library whose results depend on tables or
    algorithms outside the repository.  Nothing is assumed about them; a
    statement that needs a particular result says so. *)
Record GoLib := {
  (** [strconv.ParseFloat(s, 64)]; [None] when the error is not nil. *)
  ParseFloat : string -> option float;
  (** [math.Pow]. *)
  Pow : float -> float -> float;
  (** [strings.Map(unicode.ToLower, s)] and [strings.Map(unicode.ToUpper, s)],
      which [strings.ToLower] and [strings.ToUpper] use for a string with a
      byte outside ASCII. *)
  mapToLower : string -> string;
  mapToUpper : string -> string;
  (** [strings.EqualFold]. *)
  EqualFold : string -> string -> bool;
  (** The result of converting to int64 a float64 that is NaN, infinite or
      outside the int64 range (implementation-dependent in Go). *)
  convIndefinite : float -> Z
}.

Section WithLib.
Context (lib : GoLib).

(** [strings.ToLower]: the ASCII fast path, else the Unicode mapping. *)
Definition ToLower (s : string) : string :=
  if GoStrings.isASCII s
  then GoStrings.ofBytes (map GoStrings.lowerByte (GoStrings.bytes s))
  else mapToLower lib s.

(** [strings.ToUpper]. *)
Definition ToUpper (s : string) : string :=
  if GoStrings.isASCII s
  then GoStrings.ofBytes (map GoStrings.upperByte (GoStrings.bytes s))
  else mapToUpper lib s.

(** The conversions [int64(f)] and [time.Duration(f)] of a float64. *)
Definition toInt64 (f : float) : Z :=
  match Float64.trunc f with
  | Some z => if (Int64.min <=? z) && (z <=? Int64.max) then z else convIndefinite lib f
  | None => convIndefinite lib f
  end.

End WithLib.

(* ===================================================================== *)
(** * Errors *)
(* ===================================================================== *)

(** An error value of the remote service or of the transport, with what
    [errors.As] and [Error()] observe of it. *)
Record RawError := {
  (** [Some (timeout, temporary)] when the error is a [net.Error]. *)
  asNetError : option (bool * bool);
  (** Whether the error is a [*types.NoSuchBucket]. *)
  asNoSuchBucket : bool;
  message : string
}.

(** [pkg/types.ValidationError]. *)
Record ValidationError := { Field : string; Message : string }.

(** One constructor for each place where the code builds an error;
    [%w] arguments are kept as sub-terms. *)
Inductive error : Type :=
| Raw (e : RawError)
| Validation (e : ValidationError)
| Context_ (reason : string)                 (* [ctx.Err()] *)
(* pkg/filter *)
| InvalidSyntax
| AlreadySpecified (field : string)
| InvalidOperator (operator field : string)
| InvalidAgeFormat (value : string)
| InvalidAgeNumber (value : string)
| NegativeAge (value : string)
| InvalidAgeUnit (unit : string)
| InvalidSizeFormat (value : string)
| SizeNoNumber (value : string)
| InvalidSizeNumber (value : string)
| NegativeSize (value : string)
| InvalidSizeUnit (unit : string)
| UnsupportedField (field : string)
| InvalidCondition (condition : string) (cause : error)
(* pkg/aws *)
| RateLimiter (cause : error)
| RetriesExhausted (retries : Z) (last : error)
| RetriesExhaustedNil (retries : Z)            (* the loop body never ran *)
(* pkg/services *)
| GetBucketLocationFailed (bucket : string) (cause : error)
| InvalidListOptions (cause : error)
| GetRegionFailed (bucket : string) (cause : error)
| ListBucketsFailed (cause : error)
| SomeBucketsFailed (n : nat)
| RegionalClientFailed (bucket : string) (cause : error)
| ListMultipartUploadsFailed (bucket : string) (cause : error)
| InvalidUpload (cause : error)
| ListPartsFailed (uploadID bucket : string) (cause : error)
| AbortFailed (uploadID bucket : string) (cause : error)
| InvalidDeleteOptions (cause : error)
| NoUploadsMatch
| DryRunFailed (cause : error)
| ConfirmationFailed (cause : error)
| ReadInputFailed (cause : error)
| Cancelled
| SomeDeletesFailed (failed total : nat).

(** A Go result pair [(value, error)] with exactly one side meaningful. *)
Inductive result (A : Type) : Type :=
| Ok (a : A)
| Err (e : error).
Arguments Ok {A} a.
Arguments Err {A} e.

(** The messages of the two aggregate errors, as [fmt.Errorf] renders
    them. *)
Definition itoa (n : nat) : string := pretty (Z.of_nat n).

Definition aggregateMessage (e : error) : option string :=
  match e with
  | SomeBucketsFailed n =>
      Some ("failed to list uploads for some buckets: " +:+ itoa n +:+ " errors occurred")
  | SomeDeletesFailed k n =>
      Some ("failed to delete " +:+ itoa k +:+ " out of " +:+ itoa n +:+ " uploads")
  | _ => None
  end.

(* ===================================================================== *)
(** * pkg/types *)
(* ===================================================================== *)

Module MultipartUpload.
Record t := {
  Bucket : string;
  Key : string;
  UploadID : string;
  Initiated : GoTime.Time;
  Size : Z;
  StorageClass : string;
  Region : string
}.
End MultipartUpload.

Module Bucket.
Record t := { Name : string; Region : string }.
End Bucket.

Module ListOptions.
Record t := {
  Region : string;
  BucketName : string;
  MaxResults : Z;
  Offset : Z
}.
End ListOptions.

Module DeleteOptions.
Record t := {
  DryRun : bool;
  Force : bool;
  OlderThan : option GoTime.Duration;
  SmallerThan : option Z;
  LargerThan : option Z;
  BucketName : string;
  Quiet : bool
}.
End DeleteOptions.

Definition blank (s : string) : bool := String.eqb (GoStrings.TrimSpace s) "".

Definition invalid (field msg : string) : option error :=
  Some (Validation {| Field := field; Message := msg |}).

(** [MultipartUpload.Validate]; [None] is Go's nil. *)
Definition MultipartUpload_Validate (m : MultipartUpload.t) : option error :=
  if blank (MultipartUpload.Bucket m) then
    invalid "Bucket" "bucket name cannot be empty"
  else if blank (MultipartUpload.Key m) then
    invalid "Key" "key cannot be empty"
  else if blank (MultipartUpload.UploadID m) then
    invalid "UploadID" "upload ID cannot be empty"
  else if GoTime.IsZero (MultipartUpload.Initiated m) then
    invalid "Initiated" "initiated time cannot be zero"
  else if MultipartUpload.Size m <? 0 then
    invalid "Size" "size cannot be negative"
  else if blank (MultipartUpload.StorageClass m) then
    invalid "StorageClass" "storage class cannot be empty"
  else if blank (MultipartUpload.Region m) then
    invalid "Region" "region cannot be empty"
  else None.

(** [ListOptions.Validate]. *)
Definition ListOptions_Validate (l : ListOptions.t) : option error :=
  if ListOptions.MaxResults l <? 0 then
    invalid "MaxResults" "max results cannot be negative"
  else if ListOptions.Offset l <? 0 then
    invalid "Offset" "offset cannot be negative"
  else None.

Definition optLt0 (o : option Z) : bool :=
  match o with Some v => v <? 0 | None => false end.

(** [DeleteOptions.Validate]. *)
Definition DeleteOptions_Validate (d : DeleteOptions.t) : option error :=
  if optLt0 (DeleteOptions.SmallerThan d) then
    invalid "SmallerThan" "smaller than value cannot be negative"
  else if optLt0 (DeleteOptions.LargerThan d) then
    invalid "LargerThan" "larger than value cannot be negative"
  else
    match DeleteOptions.SmallerThan d, DeleteOptions.LargerThan d with
    | Some s, Some l =>
        if s <=? l then
          invalid "SmallerThan" "smaller than value must be greater than larger than value"
        else None
    | _, _ => None
    end.

(* ===================================================================== *)
(** * pkg/interfaces: the parsed filter *)
(* ===================================================================== *)

Module AgeFilter.
Record t := { Operator : string; Value : string }.
End AgeFilter.

Module SizeFilter.
Record t := { Operator : string; Value : string }.
End SizeFilter.

Module StringFilter.
Record t := { Operator : string; Value : string }.
End StringFilter.

Module Filter.
Record t := {
  Age : option AgeFilter.t;
  Size : option SizeFilter.t;
  StorageClass : option StringFilter.t;
  Region : option StringFilter.t;
  Bucket : option StringFilter.t
}.
(** The zero value [interfaces.Filter{}]. *)
Definition zero : t :=
  {| Age := None; Size := None; StorageClass := None; Region := None; Bucket := None |}.
End Filter.

(* ===================================================================== *)
(** * pkg/filter: the engine *)
(* ===================================================================== *)

Module Engine.
Import GoStrings.

(** ** The condition pattern
    [^(\w+)\s*(>=|<=|!=|>|<|=)\s*(.+)$], matched leftmost-first. *)

Definition isWord (c : ascii) : bool :=
  between 48 57 c || between 65 90 c || between 97 122 c || (code c =? 95)%N.

(** The class [\s] of Go's regexp: tab, LF, FF, CR, space. *)
Definition isReSpace (c : ascii) : bool :=
  ((code c =? 9) || (code c =? 10) || (code c =? 12) || (code c =? 13) || (code c =? 32))%N.

Definition isNewline (c : ascii) : bool := (code c =? 10)%N.

Fixpoint span (p : ascii -> bool) (l : list ascii) : list ascii * list ascii :=
  match l with
  | c :: l' =>
      if p c then let '(a, b) := span p l' in (c :: a, b) else ([], l)
  | [] => ([], [])
  end.

Fixpoint stripBytes (p l : list ascii) : option (list ascii) :=
  match p, l with
  | [], _ => Some l
  | a :: p', c :: l' => if Ascii.eqb a c then stripBytes p' l' else None
  | _ :: _, [] => None
  end.

(** [(.+)$]: at least one byte, none of them a newline. *)
Definition dotPlusToEnd (l : list ascii) : bool :=
  match l with
  | [] => false
  | _ :: _ => forallb (fun c => negb (isNewline c)) l
  end.

(** [\s*(.+)$] after the operator: the greedy [\s*] gives back one byte at
    a time until the rest matches [(.+)$]. *)
Fixpoint giveBack (k : nat) (l : list ascii) : option (list ascii) :=
  if dotPlusToEnd (drop k l) then Some (drop k l)
  else match k with
       | O => None
       | S k' => giveBack k' l
       end.

Definition matchValue (l : list ascii) : option (list ascii) :=
  giveBack (length (fst (span isReSpace l))) l.

Definition operators : list string := [">="; "<="; "!="; ">"; "<"; "="].

(** The alternation, tried in the order it is written. *)
Fixpoint matchOperator (ops : list string) (l : list ascii)
  : option (string * list ascii) :=
  match ops with
  | [] => None
  | op :: ops' =>
      match stripBytes (bytes op) l with
      | Some rest =>
          match matchValue rest with
          | Some v => Some (op, v)
          | None => matchOperator ops' l
          end
      | None => matchOperator ops' l
      end
  end.

(** [re.FindStringSubmatch(condition)]: the three groups, or [None] when
    there is no match ([len(matches) != 4]). *)
Definition FindStringSubmatch (condition : string) : option (string * string * string) :=
  let '(field, rest) := span isWord (bytes condition) in
  match field with
  | [] => None
  | _ :: _ =>
      match matchOperator operators (snd (span isReSpace rest)) with
      | Some (op, v) => Some (ofBytes field, op, ofBytes v)
      | None => None
      end
  end.

Section WithLib.
Context (lib : GoLib).

Definition sixOperators : list string := [">"; "<"; ">="; "<="; "="; "!="].
Definition twoOperators : list string := ["="; "!="].

Definition member (s : string) (l : list string) : bool :=
  existsb (String.eqb s) l.

(** [validateAgeOperator], [validateSizeOperator], [validateStringOperator]. *)
Definition validateAgeOperator (operator : string) : option error :=
  if member operator sixOperators then None else Some (InvalidOperator operator "age").

Definition validateSizeOperator (operator : string) : option error :=
  if member operator sixOperators then None else Some (InvalidOperator operator "size").

Definition validateStringOperator (operator : string) : option error :=
  if member operator twoOperators then None else Some (InvalidOperator operator "string").

Definition scaled (num : float) (unit : Z) : Z :=
  toInt64 lib (PrimFloat.mul num (Float64.ofInt unit)).

(** [parseAgeDuration]. *)
Definition parseAgeDuration (value : string) : result GoTime.Duration :=
  if len value <? 2 then Err (InvalidAgeFormat value)
  else
    let n := String.length value in
    let numStr := upto (n - 1) value in
    let unit := ToLower lib (from (n - 1) value) in
    match ParseFloat lib numStr with
    | None => Err (InvalidAgeNumber value)
    | Some num =>
        if PrimFloat.ltb num 0%float then Err (NegativeAge value)
        else if String.eqb unit "d" then Ok (scaled num (24 * GoTime.Hour))
        else if String.eqb unit "w" then Ok (scaled num (7 * 24 * GoTime.Hour))
        else if String.eqb unit "m" then Ok (scaled num (30 * 24 * GoTime.Hour))
        else if String.eqb unit "y" then Ok (scaled num (365 * 24 * GoTime.Hour))
        else Err (InvalidAgeUnit unit)
    end.

Definition isNumeric (c : ascii) : bool :=
  Strconv.isDigit c || (code c =? 46)%N.

(** The loop [for i := len(value) - 1; i >= 0; i--]: the number of bytes
    after the last digit or dot, or [None] if there is no digit or dot. *)
Fixpoint unitLength (reversed : list ascii) : option nat :=
  match reversed with
  | [] => None
  | c :: r => if isNumeric c then Some O else option_map S (unitLength r)
  end.

(** [parseSizeBytes]. *)
Definition parseSizeBytes (value0 : string) : result Z :=
  let value := ToUpper lib (TrimSpace value0) in
  if len value <? 2 then Err (InvalidSizeFormat value)
  else
    match Strconv.ParseInt value with
    | Some num => if num <? 0 then Err (NegativeSize value) else Ok num
    | None =>
        match unitLength (rev (bytes value)) with
        | None => Err (SizeNoNumber value)
        | Some k =>
            let i := (String.length value - k)%nat in
            let numStr := upto i value in
            let unit := from i value in
            match ParseFloat lib numStr with
            | None => Err (InvalidSizeNumber value)
            | Some num =>
                if PrimFloat.ltb num 0%float then Err (NegativeSize value)
                else if String.eqb unit "B" || String.eqb unit "" then Ok (scaled num 1)
                else if String.eqb unit "KB" then Ok (scaled num 1024)
                else if String.eqb unit "MB" then Ok (scaled num (1024 * 1024))
                else if String.eqb unit "GB" then Ok (scaled num (1024 * 1024 * 1024))
                else if String.eqb unit "TB" then Ok (scaled num (1024 * 1024 * 1024 * 1024))
                else Err (InvalidSizeUnit unit)
            end
        end
    end.

Definition errorOf {A} (r : result A) : option error :=
  match r with Ok _ => None | Err e => Some e end.

Definition validateAgeValue (value : string) : option error := errorOf (parseAgeDuration value).
Definition validateSizeValue (value : string) : option error := errorOf (parseSizeBytes value).

Definition present {A} (o : option A) : bool :=
  match o with Some _ => true | None => false end.

(** [first e k]: return the error [e] if there is one, else go on. *)
Definition check {A} (e : option error) (k : result A) : result A :=
  match e with Some err => Err err | None => k end.

(** [parseCondition]: the filter it leaves in [*filter], or the error. *)
Definition parseCondition (condition : string) (filter : Filter.t) : result Filter.t :=
  match FindStringSubmatch condition with
  | None => Err InvalidSyntax
  | Some (f, operator, v) =>
      let field := ToLower lib f in
      let value := TrimSpace v in
      if String.eqb field "age" then
        if present (Filter.Age filter) then Err (AlreadySpecified "age")
        else check (validateAgeOperator operator)
              (check (validateAgeValue value)
                (Ok {| Filter.Age := Some {| AgeFilter.Operator := operator; AgeFilter.Value := value |};
                       Filter.Size := Filter.Size filter;
                       Filter.StorageClass := Filter.StorageClass filter;
                       Filter.Region := Filter.Region filter;
                       Filter.Bucket := Filter.Bucket filter |}))
      else if String.eqb field "size" then
        if present (Filter.Size filter) then Err (AlreadySpecified "size")
        else check (validateSizeOperator operator)
              (check (validateSizeValue value)
                (Ok {| Filter.Age := Filter.Age filter;
                       Filter.Size := Some {| SizeFilter.Operator := operator; SizeFilter.Value := value |};
                       Filter.StorageClass := Filter.StorageClass filter;
                       Filter.Region := Filter.Region filter;
                       Filter.Bucket := Filter.Bucket filter |}))
      else if String.eqb field "storageclass" then
        if present (Filter.StorageClass filter) then Err (AlreadySpecified "storageClass")
        else check (validateStringOperator operator)
              (Ok {| Filter.Age := Filter.Age filter;
                     Filter.Size := Filter.Size filter;
                     Filter.StorageClass := Some {| StringFilter.Operator := operator; StringFilter.Value := value |};
                     Filter.Region := Filter.Region filter;
                     Filter.Bucket := Filter.Bucket filter |})
      else if String.eqb field "region" then
        if present (Filter.Region filter) then Err (AlreadySpecified "region")
        else check (validateStringOperator operator)
              (Ok {| Filter.Age := Filter.Age filter;
                     Filter.Size := Filter.Size filter;
                     Filter.StorageClass := Filter.StorageClass filter;
                     Filter.Region := Some {| StringFilter.Operator := operator; StringFilter.Value := value |};
                     Filter.Bucket := Filter.Bucket filter |})
      else if String.eqb field "bucket" then
        if present (Filter.Bucket filter) then Err (AlreadySpecified "bucket")
        else check (validateStringOperator operator)
              (Ok {| Filter.Age := Filter.Age filter;
                     Filter.Size := Filter.Size filter;
                     Filter.StorageClass := Filter.StorageClass filter;
                     Filter.Region := Filter.Region filter;
                     Filter.Bucket := Some {| StringFilter.Operator := operator; StringFilter.Value := value |} |})
      else Err (UnsupportedField field)
  end.

(** The loop of [ParseFilter] over the comma-separated conditions. *)
Fixpoint parseConditions (conditions : list string) (filter : Filter.t) : result Filter.t :=
  match conditions with
  | [] => Ok filter
  | c :: rest =>
      let condition := TrimSpace c in
      if String.eqb condition "" then parseConditions rest filter
      else match parseCondition condition filter with
           | Err e => Err (InvalidCondition condition e)
           | Ok filter' => parseConditions rest filter'
           end
  end.

(** [ParseFilter]. *)
Definition ParseFilter (filterStr : string) : result Filter.t :=
  if String.eqb (TrimSpace filterStr) "" then Ok Filter.zero
  else parseConditions (Split filterStr ",") Filter.zero.

(** ** Evaluation *)

(** The absolute value the code computes: [if diff < 0 { diff = -diff }]
    on an int64. *)
Definition absDiff (a b : Z) : Z :=
  let diff := Int64.sub a b in
  if diff <? 0 then Int64.neg diff else diff.

(** [matchesAgeFilter], when [time.Since] reads the clock at [now]. *)
Definition matchesAgeFilter (now : GoTime.Time) (upload : MultipartUpload.t)
    (filter : AgeFilter.t) : bool :=
  let uploadAge := GoTime.Since now (MultipartUpload.Initiated upload) in
  match parseAgeDuration (AgeFilter.Value filter) with
  | Err _ => false
  | Ok filterDuration =>
      let op := AgeFilter.Operator filter in
      if String.eqb op ">" then filterDuration <? uploadAge
      else if String.eqb op "<" then uploadAge <? filterDuration
      else if String.eqb op ">=" then filterDuration <=? uploadAge
      else if String.eqb op "<=" then uploadAge <=? filterDuration
      else if String.eqb op "=" then absDiff uploadAge filterDuration <=? GoTime.Hour
      else if String.eqb op "!=" then GoTime.Hour <? absDiff uploadAge filterDuration
      else false
  end.

(** [matchesSizeFilter]. *)
Definition matchesSizeFilter (upload : MultipartUpload.t) (filter : SizeFilter.t) : bool :=
  match parseSizeBytes (SizeFilter.Value filter) with
  | Err _ => false
  | Ok filterSize =>
      let op := SizeFilter.Operator filter in
      let size := MultipartUpload.Size upload in
      if String.eqb op ">" then filterSize <? size
      else if String.eqb op "<" then size <? filterSize
      else if String.eqb op ">=" then filterSize <=? size
      else if String.eqb op "<=" then size <=? filterSize
      else if String.eqb op "=" then size =? filterSize
      else if String.eqb op "!=" then negb (size =? filterSize)
      else false
  end.

(** [matchesStringFilter]. *)
Definition matchesStringFilter (value : string) (filter : StringFilter.t) : bool :=
  let op := StringFilter.Operator filter in
  if String.eqb op "=" then EqualFold lib value (StringFilter.Value filter)
  else if String.eqb op "!=" then negb (EqualFold lib value (StringFilter.Value filter))
  else false.

Definition holds {A} (o : option A) (p : A -> bool) : bool :=
  match o with Some f => p f | None => true end.

(** [matchesFilter]: every configured predicate must match. *)
Definition matchesFilter (now : GoTime.Time) (upload : MultipartUpload.t)
    (filter : Filter.t) : bool :=
  if negb (holds (Filter.Age filter) (matchesAgeFilter now upload)) then false
  else if negb (holds (Filter.Size filter) (matchesSizeFilter upload)) then false
  else if negb (holds (Filter.StorageClass filter)
                  (matchesStringFilter (MultipartUpload.StorageClass upload))) then false
  else if negb (holds (Filter.Region filter)
                  (matchesStringFilter (MultipartUpload.Region upload))) then false
  else if negb (holds (Filter.Bucket filter)
                  (matchesStringFilter (MultipartUpload.Bucket upload))) then false
  else true.

Definition isEmptyFilter (filter : Filter.t) : bool :=
  negb (present (Filter.Age filter)) && negb (present (Filter.Size filter))
  && negb (present (Filter.StorageClass filter)) && negb (present (Filter.Region filter))
  && negb (present (Filter.Bucket filter)).

(** [ApplyFilter]; [clock i] is what the clock reads when the record at
    index [i] is examined. *)
Definition ApplyFilter (clock : nat -> GoTime.Time) (uploads : list MultipartUpload.t)
    (filter : Filter.t) : list MultipartUpload.t :=
  if isEmptyFilter filter then uploads
  else
    omap (fun '(i, upload) => if matchesFilter (clock i) upload filter then Some upload else None)
         (imap (fun i u => (i, u)) uploads).

End WithLib.
End Engine.

(* ===================================================================== *)
(** * A reference library instance, for concrete runs *)
(* ===================================================================== *)

Module RefLib.
Import GoStrings.

(** Plain decimal digit strings, which [strconv.ParseFloat] reads as the
    nearest float64; every other string is refused here. *)
Definition parseDecimal (s : string) : option float :=
  option_map Float64.ofInt (Strconv.parseDigits (bytes s)).

Fixpoint powNat (x : float) (n : nat) : float :=
  match n with
  | O => 1%float
  | S n' => PrimFloat.mul x (powNat x n')
  end.

(** [x] to a non-negative integral power, by repeated multiplication (exact
    whenever the result is representable); NaN for any other exponent. *)
Definition powIntegral (x y : float) : float :=
  match Float64.trunc y with
  | Some k =>
      if (0 <=? k) && PrimFloat.eqb (Float64.ofInt k) y then powNat x (Z.to_nat k)
      else PrimFloat.nan
  | None => PrimFloat.nan
  end.

Definition equalFoldASCII (s t : string) : bool :=
  String.eqb (ofBytes (map lowerByte (bytes s))) (ofBytes (map lowerByte (bytes t))).

Definition lib : GoLib :=
  {| ParseFloat := parseDecimal;
     Pow := powIntegral;
     mapToLower := fun s => s;
     mapToUpper := fun s => s;
     EqualFold := equalFoldASCII;
     (* amd64: the "integer indefinite" value *)
     convIndefinite := fun _ => Int64.min |}.

End RefLib.

(* ===================================================================== *)
(** * pkg/aws: the retrying, rate-limited client *)
(* ===================================================================== *)

Module RetryConfig.
Record t := {
  MaxRetries : Z;
  BaseDelay : GoTime.Duration;
  MaxDelay : GoTime.Duration;
  BackoffFactor : float
}.
End RetryConfig.

Module S3Client.
Import GoStrings.

(** [DefaultRetryConfig]. *)
Definition DefaultRetryConfig : RetryConfig.t :=
  {| RetryConfig.MaxRetries := 3;
     RetryConfig.BaseDelay := 100 * GoTime.Millisecond;
     RetryConfig.MaxDelay := 30 * GoTime.Second;
     RetryConfig.BackoffFactor := 2%float |}.

Definition eqBytes (a b : list ascii) : bool :=
  String.eqb (ofBytes a) (ofBytes b).

(** [containsSubstring]: the loop over [i = 0 .. len(s)-len(substr)],
    counted down by [n] = the number of start positions left. *)
Fixpoint containsFrom (n : nat) (s substr : list ascii) : bool :=
  match n with
  | O => false
  | S n' =>
      if eqBytes (take (length substr) s) substr then true
      else containsFrom n' (drop 1 s) substr
  end.

Definition containsSubstring (s substr : string) : bool :=
  let ls := bytes s in
  let lsub := bytes substr in
  (* i <= len(s)-len(substr) has no solution when the bound is negative *)
  if (length ls <? length lsub)%nat then false
  else containsFrom (S (length ls - length lsub)) ls lsub.

(** [contains]. *)
Definition contains (s substr : string) : bool :=
  let ls := bytes s in
  let lsub := bytes substr in
  (length lsub <=? length ls)%nat
  && (String.eqb s substr
      || ((length lsub <? length ls)%nat
          && (eqBytes (take (length lsub) ls) lsub
              || eqBytes (drop (length ls - length lsub) ls) lsub
              || containsSubstring s substr))).

Definition retryableErrors : list string :=
  ["RequestTimeout"; "ServiceUnavailable"; "InternalError"; "SlowDown";
   "TooManyRequests"; "RequestTimeTooSkewed"].

(** [isRetryableError] on a non-nil error. *)
Definition isRetryableError (err : RawError) : bool :=
  match asNetError err with
  | Some (timeout, temporary) => timeout || temporary
  | None =>
      if asNoSuchBucket err then false
      else existsb (contains (message err)) retryableErrors
  end.

(** What the client did, in order. *)
Inductive Step : Type :=
| WaitLimiter                      (* [rateLimiter.Wait] returned *)
| Attempt (attempt : Z)            (* [operation()] was called *)
| Sleep (delay : GoTime.Duration). (* [time.After(delay)] fired *)

(** The environment of one [executeWithRetry] call, per attempt number:
    whether the limiter's wait fails, what the operation returns, and
    whether the context is done before the backoff delay has passed. *)
Record Env := {
  limiterWait : Z -> option error;
  operation : Z -> option RawError;
  ctxDone : Z -> option error
}.

Section WithLib.
Context (lib : GoLib) (c : RetryConfig.t).

(** [calculateBackoffDelay]. *)
Definition calculateBackoffDelay (attempt : Z) : GoTime.Duration :=
  let delay :=
    toInt64 lib (PrimFloat.mul (Float64.ofInt (RetryConfig.BaseDelay c))
                               (Pow lib (RetryConfig.BackoffFactor c) (Float64.ofInt attempt))) in
  if RetryConfig.MaxDelay c <? delay then RetryConfig.MaxDelay c else delay.

Definition exhausted (lastErr : option RawError) : option error :=
  Some (match lastErr with
        | Some e => RetriesExhausted (RetryConfig.MaxRetries c) (Raw e)
        | None => RetriesExhaustedNil (RetryConfig.MaxRetries c)
        end).

(** The loop [for attempt := 0; attempt <= MaxRetries; attempt++]; [left]
    is the number of values of [attempt] not yet tried. *)
Fixpoint retryLoop (env : Env) (left : nat) (attempt : Z) (lastErr : option RawError)
    (done : list Step) : option error * list Step :=
  match left with
  | O => (exhausted lastErr, done)
  | S left' =>
      match limiterWait env attempt with
      | Some err => (Some (RateLimiter err), done)
      | None =>
          let done := done ++ [WaitLimiter; Attempt attempt] in
          match operation env attempt with
          | None => (None, done)
          | Some err =>
              if attempt =? RetryConfig.MaxRetries c then (exhausted (Some err), done)
              else if negb (isRetryableError err) then (Some (Raw err), done)
              else
                let delay := calculateBackoffDelay attempt in
                match ctxDone env attempt with
                | Some ctxErr => (Some ctxErr, done)
                | None => retryLoop env left' (attempt + 1) (Some err) (done ++ [Sleep delay])
                end
          end
      end
  end.

(** [executeWithRetry]: the error returned ([None] is nil) and what was
    done on the way. *)
Definition executeWithRetry (env : Env) : option error * list Step :=
  retryLoop env (Z.to_nat (RetryConfig.MaxRetries c + 1)) 0 None [].

End WithLib.

Definition attempts (steps : list Step) : list Z :=
  omap (fun s => match s with Attempt a => Some a | _ => None end) steps.

Definition sleeps (steps : list Step) : list GoTime.Duration :=
  omap (fun s => match s with Sleep d => Some d | _ => None end) steps.

End S3Client.

(* ===================================================================== *)
(** * pkg/services: BucketService and its region cache *)
(* ===================================================================== *)

Module BucketService.

(** The fields of the service that [GetBucketRegion] uses, and what has
    been observed of the world: how many times the clock has been read, and
    the [GetBucketLocation] requests sent to the client so far. *)
Record t := {
  regionCache : gmap string string;
  cacheTime : gmap string GoTime.Time;
  cacheExpiry : GoTime.Duration;
  ticks : nat;
  calls : list string
}.

(** [NewBucketService]. *)
Definition NewBucketService : t :=
  {| regionCache := ∅; cacheTime := ∅; cacheExpiry := 1 * GoTime.Hour;
     ticks := O; calls := [] |}.

Section WithWorld.
(** [clock n]: what the clock shows the [n]-th time it is read. *)
Context (clock : nat -> GoTime.Time).
(** [location n bucket]: the client's answer to the [n]-th
    [GetBucketLocation] request: the location constraint, or an error. *)
Context (location : nat -> string -> result string).

Definition tick (s : t) : t :=
  {| regionCache := regionCache s; cacheTime := cacheTime s;
     cacheExpiry := cacheExpiry s; ticks := S (ticks s); calls := calls s |}.

Definition called (bucketName : string) (s : t) : t :=
  {| regionCache := regionCache s; cacheTime := cacheTime s;
     cacheExpiry := cacheExpiry s; ticks := ticks s;
     calls := calls s ++ [bucketName] |}.

(** The update of the cache under the write lock. *)
Definition store (bucketName region : string) (s : t) : t :=
  {| regionCache := <[bucketName := region]> (regionCache s);
     cacheTime := <[bucketName := clock (ticks s)]> (cacheTime s);
     cacheExpiry := cacheExpiry s; ticks := S (ticks s); calls := calls s |}.

(** Cache miss or expired: fetch from the client. *)
Definition fetch (bucketName : string) (s : t) : result string * t :=
  match location (length (calls s)) bucketName with
  | Err err => (Err (GetBucketLocationFailed bucketName err), called bucketName s)
  | Ok constraint =>
      let region := if String.eqb constraint "" then "us-east-1" else constraint in
      (Ok region, store bucketName region (called bucketName s))
  end.

(** [GetBucketRegion]. *)
Definition GetBucketRegion (bucketName : string) (s : t) : result string * t :=
  match regionCache s !! bucketName, cacheTime s !! bucketName with
  | Some cachedRegion, Some cachedAt =>
      if GoTime.Since (clock (ticks s)) cachedAt <? cacheExpiry s
      then (Ok cachedRegion, tick s)
      else fetch bucketName (tick s)
  | _, _ => fetch bucketName s
  end.

(** [ClearRegionCache]. *)
Definition ClearRegionCache (s : t) : t :=
  {| regionCache := ∅; cacheTime := ∅; cacheExpiry := cacheExpiry s;
     ticks := ticks s; calls := calls s |}.

End WithWorld.
End BucketService.

(* ===================================================================== *)
(** * The storage API, as the services see it *)
(* ===================================================================== *)

(** An entry of a [ListMultipartUploads] page (the SDK's
    [types.MultipartUpload]); pointer fields are options. *)
Module S3Upload.
Record t := {
  Key : option string;
  UploadId : option string;
  Initiated : option GoTime.Time;
  StorageClass : string
}.
End S3Upload.

Module ListMultipartUploadsInput.
Record t := {
  Bucket : string;
  KeyMarker : option string;
  UploadIdMarker : option string;
  MaxUploads : option Z
}.
End ListMultipartUploadsInput.

Module ListMultipartUploadsOutput.
Record t := {
  Uploads : list S3Upload.t;
  IsTruncated : option bool;
  NextKeyMarker : option string;
  NextUploadIdMarker : option string
}.
End ListMultipartUploadsOutput.

(** A region-pinned client ([S3UploadClientInterface]) as one bucket
    listing sees it: the answer to its [page]-th request. *)
Record RegionalClient := {
  ListMultipartUploads :
    nat -> ListMultipartUploadsInput.t -> result ListMultipartUploadsOutput.t
}.

(** A Go call that either returns or panics. *)
Inductive outcome (A : Type) : Type :=
| Returns (a : A)
| Panics.
Arguments Returns {A} a.
Arguments Panics {A}.

(** The order in which the results of [n] workers are received from the
    results channel: worker numbers, each once. *)
Definition schedule := list nat.

Definition validSchedule (sched : schedule) (n : nat) : Prop :=
  Permutation sched (seq 0 n).

(** The items in the order [sched] names them, each with its worker
    number. *)
Definition arrange {A} (sched : schedule) (items : list A) : list (nat * A) :=
  omap (fun i => option_map (pair i) (items !! i)) sched.

(* ===================================================================== *)
(** * pkg/services: UploadService, listing *)
(* ===================================================================== *)

Module UploadService.

(** A line written to the standard error stream. *)
Inductive LogLine : Type :=
| BucketAccessError (number : nat) (err : error)  (* "Bucket access error %d: %v" *)
| MoreErrors (n : nat).                           (* "... and %d more errors" *)

(** What a listing call returns: the records, the error ([None] is nil),
    and what it wrote to the standard error stream. *)
Record Listing := {
  listed : list MultipartUpload.t;
  failure : option error;
  stderr : list LogLine
}.

Definition listingOf (r : result (list MultipartUpload.t)) : Listing :=
  match r with
  | Ok uploads => {| listed := uploads; failure := None; stderr := [] |}
  | Err e => {| listed := []; failure := Some e; stderr := [] |}
  end.

Section Listing.
(** [getRegionalClient]: the client for a region, or the error of building
    it.  (The registry that memoizes the clients is not modelled.) *)
Context (getRegionalClient : string -> result RegionalClient).

(** The body of the loop over [output.Uploads]: the record made from an
    entry, or [None] when the entry is skipped. *)
Definition convert (bucket : Bucket.t) (upload : S3Upload.t) : option MultipartUpload.t :=
  match S3Upload.Key upload, S3Upload.UploadId upload, S3Upload.Initiated upload with
  | Some key, Some uploadId, Some initiated =>
      let storageClass :=
        if String.eqb (S3Upload.StorageClass upload) "" then "STANDARD"
        else S3Upload.StorageClass upload in
      Some {| MultipartUpload.Bucket := Bucket.Name bucket;
              MultipartUpload.Key := key;
              MultipartUpload.UploadID := uploadId;
              MultipartUpload.Initiated := initiated;
              MultipartUpload.StorageClass := storageClass;
              MultipartUpload.Region := Bucket.Region bucket;
              MultipartUpload.Size := 0 |}
  | _, _, _ => None
  end.

Definition isTruncated (output : ListMultipartUploadsOutput.t) : bool :=
  match ListMultipartUploadsOutput.IsTruncated output with
  | Some b => b
  | None => false
  end.

(** One request and the conversion of its page. *)
Definition requestPage (bucket : Bucket.t) (page : nat)
    (keyMarker uploadIDMarker : option string) (maxUploads : option Z)
  : result ListMultipartUploadsOutput.t :=
  match getRegionalClient (Bucket.Region bucket) with
  | Err err => Err (RegionalClientFailed (Bucket.Name bucket) err)
  | Ok regionalClient =>
      match ListMultipartUploads regionalClient page
              {| ListMultipartUploadsInput.Bucket := Bucket.Name bucket;
                 ListMultipartUploadsInput.KeyMarker := keyMarker;
                 ListMultipartUploadsInput.UploadIdMarker := uploadIDMarker;
                 ListMultipartUploadsInput.MaxUploads := maxUploads |} with
      | Err err => Err (ListMultipartUploadsFailed (Bucket.Name bucket) err)
      | Ok output => Ok output
      end
  end.

(** The paging loop of [listUploadsForBucket]; [None] when [fuel] requests
    were not enough to reach a page that is not truncated. *)
Fixpoint listPages (fuel : nat) (bucket : Bucket.t) (opts : ListOptions.t) (page : nat)
    (allUploads : list MultipartUpload.t) (keyMarker uploadIDMarker : option string)
  : option (result (list MultipartUpload.t)) :=
  match fuel with
  | O => None
  | S fuel' =>
      let remaining := ListOptions.MaxResults opts - Z.of_nat (length allUploads) in
      if (0 <? ListOptions.MaxResults opts) && (remaining <=? 0) then Some (Ok allUploads)
      else
        let maxUploads :=
          if 0 <? ListOptions.MaxResults opts then Some (Int32.wrap remaining) else None in
        match requestPage bucket page keyMarker uploadIDMarker maxUploads with
        | Err err => Some (Err err)
        | Ok output =>
            let allUploads :=
              allUploads ++ omap (convert bucket) (ListMultipartUploadsOutput.Uploads output) in
            if isTruncated output then
              listPages fuel' bucket opts (S page) allUploads
                (ListMultipartUploadsOutput.NextKeyMarker output)
                (ListMultipartUploadsOutput.NextUploadIdMarker output)
            else Some (Ok allUploads)
        end
  end.

(** [listUploadsForBucket]. *)
Definition listUploadsForBucket (fuel : nat) (bucket : Bucket.t) (opts : ListOptions.t)
  : option (result (list MultipartUpload.t)) :=
  listPages fuel bucket opts O [] None None.

(** The slice expression [s[lo:hi]], which panics unless
    [0 <= lo <= hi <= len(s)]. *)
Definition slice {A} (s : list A) (lo hi : Z) : outcome (list A) :=
  if (0 <=? lo) && (lo <=? hi) && (hi <=? Z.of_nat (length s))
  then Returns (take (Z.to_nat (hi - lo)) (drop (Z.to_nat lo) s))
  else Panics.

(** [applyPagination]. *)
Definition applyPagination (uploads : list MultipartUpload.t) (opts : ListOptions.t)
  : outcome (list MultipartUpload.t) :=
  let start := ListOptions.Offset opts in
  if Z.of_nat (length uploads) <=? start then Returns []
  else
    let end_ := Z.of_nat (length uploads) in
    let end_ :=
      if (0 <? ListOptions.MaxResults opts)
         && (Int64.add start (ListOptions.MaxResults opts) <? end_)
      then Int64.add start (ListOptions.MaxResults opts)
      else end_ in
    slice uploads start end_.

(** The loop that receives the workers' results. *)
Fixpoint collect (received : list (result (list MultipartUpload.t)))
    (allUploads : list MultipartUpload.t) (errors : list error)
  : list MultipartUpload.t * list error :=
  match received with
  | [] => (allUploads, errors)
  | Err err :: rest => collect rest allUploads (errors ++ [err])
  | Ok uploads :: rest => collect rest (allUploads ++ uploads) errors
  end.

(** The lines for the first three errors, and the count of the others. *)
Definition logErrors (errors : list error) : list LogLine :=
  imap (fun i err => BucketAccessError (S i) err) (take 3 errors)
  ++ (if (3 <? length errors)%nat then [MoreErrors (length errors - 3)] else []).

(** What [listUploadsForBuckets] does once every worker has delivered. *)
Definition finishListing (opts : ListOptions.t)
    (received : list (result (list MultipartUpload.t))) : outcome Listing :=
  let '(allUploads, errors) := collect received [] [] in
  let paginated :=
    if (0 <? ListOptions.Offset opts) || (0 <? ListOptions.MaxResults opts)
    then applyPagination allUploads opts
    else Returns allUploads in
  match paginated with
  | Panics => Panics
  | Returns allUploads =>
      match errors with
      | [] => Returns {| listed := allUploads; failure := None; stderr := [] |}
      | _ :: _ =>
          Returns {| listed := allUploads;
                     failure := Some (SomeBucketsFailed (length errors));
                     stderr := logErrors errors |}
      end
  end.

(** [mapM] for [option]: every worker has to finish. *)
Fixpoint allFinished {A} (l : list (option A)) : option (list A) :=
  match l with
  | [] => Some []
  | None :: _ => None
  | Some a :: rest => option_map (cons a) (allFinished rest)
  end.

(** [listUploadsForBuckets]: one worker per bucket, results received in
    the order [sched]; [None] if a worker is still paging after [fuel]
    requests (the receiving loop then never ends). *)
Definition listUploadsForBuckets (fuel : nat) (sched : schedule)
    (buckets : list Bucket.t) (opts : ListOptions.t) : option (outcome Listing) :=
  match allFinished (map (fun b => listUploadsForBucket fuel b opts) buckets) with
  | None => None
  | Some results => Some (finishListing opts (map snd (arrange sched results)))
  end.

(** The two methods of [interfaces.BucketService] that [ListUploads]
    calls. *)
Context (GetBucketRegion : string -> result string).
Context (ListBuckets : string -> result (list Bucket.t)).

(** [ListUploads]. *)
Definition ListUploads (fuel : nat) (sched : schedule) (opts : ListOptions.t)
  : option (outcome Listing) :=
  match ListOptions_Validate opts with
  | Some err => Some (Returns (listingOf (Err (InvalidListOptions err))))
  | None =>
      if negb (String.eqb (ListOptions.BucketName opts) "") then
        match GetBucketRegion (ListOptions.BucketName opts) with
        | Err err =>
            Some (Returns (listingOf (Err (GetRegionFailed (ListOptions.BucketName opts) err))))
        | Ok region =>
            option_map (fun r => Returns (listingOf r))
              (listUploadsForBucket fuel
                 {| Bucket.Name := ListOptions.BucketName opts; Bucket.Region := region |} opts)
        end
      else
        match ListBuckets "" with
        | Err err => Some (Returns (listingOf (Err (ListBucketsFailed err))))
        | Ok buckets =>
            let buckets :=
              if negb (String.eqb (ListOptions.Region opts) "")
              then filter (fun b => String.eqb (Bucket.Region b) (ListOptions.Region opts) = true) buckets
              else buckets in
            listUploadsForBuckets fuel sched buckets opts
        end
  end.

End Listing.
End UploadService.

(* ===================================================================== *)
(** * The world of the deletion engine *)
(* ===================================================================== *)

(** Breakdown maps, keyed by bucket, region or storage class. *)
Definition sumSizes (uploads : list MultipartUpload.t) : Z :=
  foldl (fun total upload => Int64.add total (MultipartUpload.Size upload)) 0 uploads.

Definition countBy (key : MultipartUpload.t -> string) (uploads : list MultipartUpload.t)
  : gmap string nat :=
  foldl (fun m upload => <[key upload := S (default O (m !! key upload))]> m) ∅ uploads.

Definition sizeBy (key : MultipartUpload.t -> string) (uploads : list MultipartUpload.t)
  : gmap string Z :=
  foldl (fun m upload =>
           <[key upload := Int64.add (default 0 (m !! key upload)) (MultipartUpload.Size upload)]> m)
        ∅ uploads.

Definition groupBy (key : MultipartUpload.t -> string) (uploads : list MultipartUpload.t)
  : gmap string (list MultipartUpload.t) :=
  foldl (fun m upload => <[key upload := default [] (m !! key upload) ++ [upload]]> m) ∅ uploads.

Module DryRunResult.
Record t := {
  TotalUploads : nat;
  TotalSize : Z;
  EstimatedSavings : float;
  Currency : string;
  UploadsByBucket : gmap string nat;
  SizeByBucket : gmap string Z;
  SavingsByBucket : gmap string float;
  UploadsByRegion : gmap string nat;
  SizeByRegion : gmap string Z;
  SavingsByRegion : gmap string float;
  UploadsByStorageClass : gmap string nat;
  SizeByStorageClass : gmap string Z;
  SavingsByStorageClass : gmap string float;
  Uploads : list MultipartUpload.t;
  GeneratedAt : GoTime.Time;
  Command : string;
  Filters : string
}.
End DryRunResult.

Module DeletionError.
Record t := { Upload : MultipartUpload.t; Error : error; Time : GoTime.Time }.
End DeletionError.

(** The snapshot handed to [ReportProgress].  ([CurrentBucket] is written
    by the workers without synchronisation and is left out; [Errors] is
    never filled in by the code.) *)
Module DeletionProgress.
Record t := {
  TotalUploads : nat;
  ProcessedUploads : nat;
  SuccessfulDeletes : nat;
  FailedDeletes : nat;
  StartTime : GoTime.Time
}.
End DeletionProgress.

Module DeletionResult.
Record t := {
  TotalProcessed : nat;
  SuccessfulDeletes : nat;
  FailedDeletes : nat;
  StorageFreed : Z;
  Duration : GoTime.Duration;
  Errors : list DeletionError.t
}.
End DeletionResult.

(** What is written to the output writer, by content. *)
Inductive Output : Type :=
| DeletionSummary (total : nat) (totalSize : Z) (bucketCounts : gmap string nat)
| LegacyDryRunResults (total : nat) (totalSize : Z)
    (bucketCounts : gmap string nat) (bucketSizes : gmap string Z)
| DryRunResults (r : DryRunResult.t).

(** What the engine does to the outside, in order. *)
Inductive Event : Type :=
| AbortMultipartUpload (worker : nat) (bucket key uploadId : string)
| Printed (o : Output)
| ReportProgress (p : DeletionProgress.t)
| ReportCompletion (r : DeletionResult.t).

Definition isAbort (e : Event) : bool :=
  match e with AbortMultipartUpload _ _ _ _ => true | _ => false end.

Record World := {
  ticks : nat;            (* how many times the clock has been read *)
  trace : list Event
}.

(** Computations that read the clock and act on the outside. *)
Definition M (A : Type) : Type := World -> A * World.

#[local] Instance M_ret : MRet M := fun A a w => (a, w).
#[local] Instance M_bind : MBind M := fun A B f m w => let '(a, w') := m w in f a w'.

Definition emit (e : Event) : M unit :=
  fun w => (tt, {| ticks := ticks w; trace := trace w ++ [e] |}).

(** [DryRunService]: its cost calculator, an [interfaces.CostCalculator] of
    which only [EstimateSavings] is called. *)
Record DryRunService := {
  EstimateSavings : list MultipartUpload.t -> result float
}.

Section Deletion.
Context (lib : GoLib).
(** [clock n]: what the clock shows the [n]-th time it is read. *)
Context (clock : nat -> GoTime.Time).
(** The client's answer to the abort request of worker [i]. *)
Context (abortReply : nat -> MultipartUpload.t -> option error).
(** What can be read from the confirmation reader. *)
Context (stdin : string).
(** The dry-run service of the upload service, if it has one. *)
Context (dryRunService : option DryRunService).
(** The renderings [formatDuration] and [formatBytes] of the dry-run
    service (they go through [fmt.Sprintf]). *)
Context (formatDuration : GoTime.Duration -> string).
Context (formatBytes : Z -> string).

(** [time.Now()]. *)
Definition now : M GoTime.Time :=
  fun w => (clock (ticks w), {| ticks := S (ticks w); trace := trace w |}).

Definition optGe (size : Z) (bound : option Z) : bool :=
  match bound with Some b => b <=? size | None => false end.

Definition optLe (size : Z) (bound : option Z) : bool :=
  match bound with Some b => size <=? b | None => false end.

(** [filterUploadsForDeletion] (the same loop in [UploadService] and in
    [DryRunService]). *)
Fixpoint filterUploadsForDeletion (uploads : list MultipartUpload.t) (opts : DeleteOptions.t)
  : M (list MultipartUpload.t) :=
  match uploads with
  | [] => mret []
  | upload :: rest =>
      if negb (String.eqb (DeleteOptions.BucketName opts) "")
         && negb (String.eqb (MultipartUpload.Bucket upload) (DeleteOptions.BucketName opts))
      then filterUploadsForDeletion rest opts
      else
        tooYoung ← match DeleteOptions.OlderThan opts with
                   | Some olderThan =>
                       t ← now;
                       mret (GoTime.Since t (MultipartUpload.Initiated upload) <? olderThan)
                   | None => mret false
                   end;
        if (tooYoung : bool) then filterUploadsForDeletion rest opts
        else if optGe (MultipartUpload.Size upload) (DeleteOptions.SmallerThan opts)
        then filterUploadsForDeletion rest opts
        else if optLe (MultipartUpload.Size upload) (DeleteOptions.LargerThan opts)
        then filterUploadsForDeletion rest opts
        else
          filtered ← filterUploadsForDeletion rest opts;
          mret (upload :: filtered)
  end.

(** ** DryRunService *)

Definition join (parts : list string) (sep : string) : string :=
  match parts with
  | [] => ""
  | p :: ps => foldl (fun acc s => acc +:+ sep +:+ s) p ps
  end.

Definition optPart {A} (o : option A) (f : A -> string) : list string :=
  match o with Some a => [f a] | None => [] end.

Definition flag (b : bool) (s : string) : list string := if b then [s] else [].

(** [buildCommandString]. *)
Definition buildCommandString (opts : DeleteOptions.t) : string :=
  join (["delete"]
        ++ flag (negb (String.eqb (DeleteOptions.BucketName opts) ""))
                ("-b " +:+ DeleteOptions.BucketName opts)
        ++ optPart (DeleteOptions.OlderThan opts) (fun d => "--older-than " +:+ formatDuration d)
        ++ optPart (DeleteOptions.SmallerThan opts) (fun s => "--smaller-than " +:+ formatBytes s)
        ++ optPart (DeleteOptions.LargerThan opts) (fun s => "--larger-than " +:+ formatBytes s)
        ++ flag (DeleteOptions.Force opts) "--force"
        ++ flag (DeleteOptions.Quiet opts) "--quiet") " ".

(** [buildFilterString]. *)
Definition buildFilterString (opts : DeleteOptions.t) : string :=
  join (optPart (DeleteOptions.OlderThan opts) (fun d => "age>" +:+ formatDuration d)
        ++ optPart (DeleteOptions.SmallerThan opts) (fun s => "size<" +:+ formatBytes s)
        ++ optPart (DeleteOptions.LargerThan opts) (fun s => "size>" +:+ formatBytes s)
        ++ flag (negb (String.eqb (DeleteOptions.BucketName opts) ""))
                ("bucket=" +:+ DeleteOptions.BucketName opts)) ",".

(** [calculateCostBreakdowns] for one grouping: a group whose estimate
    fails gets no entry. *)
Definition savingsBy (d : DryRunService) (key : MultipartUpload.t -> string)
    (uploads : list MultipartUpload.t) : gmap string float :=
  omap (fun group => match EstimateSavings d group with
                     | Ok savings => Some savings
                     | Err _ => None
                     end)
       (groupBy key uploads).

(** [SimulateDeletion]. *)
Definition SimulateDeletion (d : DryRunService) (uploads : list MultipartUpload.t)
    (opts : DeleteOptions.t) : M (result DryRunResult.t) :=
  match DeleteOptions_Validate opts with
  | Some err => mret (Err (InvalidDeleteOptions err))
  | None =>
      filteredUploads ← filterUploadsForDeletion uploads opts;
      let estimatedSavings :=
        match EstimateSavings d filteredUploads with
        | Ok savings => savings
        | Err _ => 0%float
        end in
      generatedAt ← now;
      mret (Ok {|
        DryRunResult.TotalUploads := length filteredUploads;
        DryRunResult.TotalSize := sumSizes filteredUploads;
        DryRunResult.EstimatedSavings := estimatedSavings;
        DryRunResult.Currency := "USD";
        DryRunResult.UploadsByBucket := countBy MultipartUpload.Bucket filteredUploads;
        DryRunResult.SizeByBucket := sizeBy MultipartUpload.Bucket filteredUploads;
        DryRunResult.SavingsByBucket := savingsBy d MultipartUpload.Bucket filteredUploads;
        DryRunResult.UploadsByRegion := countBy MultipartUpload.Region filteredUploads;
        DryRunResult.SizeByRegion := sizeBy MultipartUpload.Region filteredUploads;
        DryRunResult.SavingsByRegion := savingsBy d MultipartUpload.Region filteredUploads;
        DryRunResult.UploadsByStorageClass := countBy MultipartUpload.StorageClass filteredUploads;
        DryRunResult.SizeByStorageClass := sizeBy MultipartUpload.StorageClass filteredUploads;
        DryRunResult.SavingsByStorageClass := savingsBy d MultipartUpload.StorageClass filteredUploads;
        DryRunResult.Uploads := filteredUploads;
        DryRunResult.GeneratedAt := generatedAt;
        DryRunResult.Command := buildCommandString opts;
        DryRunResult.Filters := buildFilterString opts
      |})
  end.

(** ** UploadService: deletion *)

(** [DeleteUpload], called by worker [worker]. *)
Definition DeleteUpload (worker : nat) (upload : MultipartUpload.t) : M (option error) :=
  match MultipartUpload_Validate upload with
  | Some err => mret (Some (InvalidUpload err))
  | None =>
      _ ← emit (AbortMultipartUpload worker (MultipartUpload.Bucket upload)
                  (MultipartUpload.Key upload) (MultipartUpload.UploadID upload));
      match abortReply worker upload with
      | Some err =>
          mret (Some (AbortFailed (MultipartUpload.UploadID upload)
                        (MultipartUpload.Bucket upload) err))
      | None => mret None
      end
  end.

(** [reader.ReadString('\n')]: the bytes up to and including the first
    newline; without a newline the read ends in [io.EOF]. *)
Fixpoint throughNewline (l : list ascii) : option (list ascii) :=
  match l with
  | [] => None
  | c :: rest =>
      if Engine.isNewline c then Some [c] else option_map (cons c) (throughNewline rest)
  end.

Definition EOF : error :=
  Raw {| asNetError := None; asNoSuchBucket := false; message := "EOF" |}.

Definition ReadString : result string :=
  match throughNewline (GoStrings.bytes stdin) with
  | Some line => Ok (GoStrings.ofBytes line)
  | None => Err EOF
  end.

(** [promptForConfirmation]. *)
Definition promptForConfirmation (uploads : list MultipartUpload.t) (totalSize : Z)
  : M (result bool) :=
  _ ← emit (Printed (DeletionSummary (length uploads) totalSize
                       (countBy MultipartUpload.Bucket uploads)));
  match ReadString with
  | Err err => mret (Err (ReadInputFailed err))
  | Ok response =>
      let response := GoStrings.TrimSpace (ToLower lib response) in
      mret (Ok (String.eqb response "y" || String.eqb response "yes"))
  end.

(** One worker goroutine: its [DeleteUpload], the counters, and for a
    failure the entry of [errors] with the time at which it was recorded.
    The result is what the worker sends on [resultChan]. *)
Definition runWorker (worker : nat) (u : MultipartUpload.t)
  : M (MultipartUpload.t * option DeletionError.t) :=
  err ← DeleteUpload worker u;
  failure ← match err with
            | Some e =>
                t ← now;
                mret (Some {| DeletionError.Upload := u; DeletionError.Error := e;
                              DeletionError.Time := t |})
            | None => mret None
            end;
  mret (u, failure).

Definition failures (results : list (MultipartUpload.t * option DeletionError.t))
  : list DeletionError.t :=
  omap snd results.

Definition successes (results : list (MultipartUpload.t * option DeletionError.t))
  : list MultipartUpload.t :=
  omap (fun r => match snd r with None => Some (fst r) | Some _ => None end) results.

(** The goroutines of [deleteUploadsWithProgress] besides the workers, and
    where each of them stands.  The progress goroutine loops on its
    [select] until it has returned, which closes [progressDone].  The
    closing goroutine waits for the workers, closes [resultChan], sends on
    [progressDone] (blocked until the progress goroutine receives), and is
    gone.  The caller receives from [resultChan] until it is closed, makes
    the final progress report, then the completion report, and returns. *)
Inductive Reporter := Watching | Stopped.
Inductive Closer := Waiting | Closed | Sending | Gone.
Inductive Caller := Collecting | Reported | Returned.

(** A batch under way: the workers that have not run yet, in the order in
    which they will, the results of those that have, and the other
    goroutines.  [crashed]: a goroutine has panicked. *)
Record Batch := {
  waiting : list (nat * MultipartUpload.t);
  finished : list (MultipartUpload.t * option DeletionError.t);
  reporter : Reporter;
  closer : Closer;
  caller : Caller;
  crashed : bool
}.

(** What the scheduler can let happen next.  A worker's deletion and
    bookkeeping is one turn (a tick that falls inside it is taken before or
    after it); a turn that its goroutine cannot take at that point leaves
    the batch as it is. *)
Inductive Turn :=
| Work           (* the next worker runs *)
| Tick           (* the progress goroutine takes [<-progressTicker.C] *)
| SeeDone        (* the progress goroutine takes [<-ctx.Done()] *)
| TakeSignal     (* the progress goroutine takes [<-progressDone] *)
| CloseResults   (* the closing goroutine: [wg.Wait(); close(resultChan)] *)
| Signal         (* the closing goroutine: [progressDone <- struct{}{}] *)
| FinalProgress  (* the caller: the final progress report *)
| Completion.    (* the caller: the completion report and the return *)

Definition start (order : list (nat * MultipartUpload.t)) : Batch :=
  {| waiting := order; finished := []; reporter := Watching; closer := Waiting;
     caller := Collecting; crashed := false |}.

Definition withReporter (r : Reporter) (c : Closer) (b : Batch) : Batch :=
  {| waiting := waiting b; finished := finished b; reporter := r; closer := c;
     caller := caller b; crashed := crashed b |}.

Definition withCaller (c : Caller) (b : Batch) : Batch :=
  {| waiting := waiting b; finished := finished b; reporter := reporter b;
     closer := closer b; caller := c; crashed := crashed b |}.

(** A send on the closed [progressDone] panics, and so does closing it
    under a blocked sender. *)
Definition crash (b : Batch) : Batch :=
  {| waiting := waiting b; finished := finished b; reporter := Stopped;
     closer := closer b; caller := caller b; crashed := true |}.

(** The counters as the progress goroutine or the caller loads them.
    ([CurrentBucket] is left out, see [DeletionProgress].) *)
Definition snapshot (total : nat) (startTime : GoTime.Time) (b : Batch) : DeletionProgress.t :=
  {| DeletionProgress.TotalUploads := total;
     DeletionProgress.ProcessedUploads := length (finished b);
     DeletionProgress.SuccessfulDeletes := length (successes (finished b));
     DeletionProgress.FailedDeletes := length (failures (finished b));
     DeletionProgress.StartTime := startTime |}.

(** One turn.  [done]: the context is cancelled when the turn is taken. *)
Definition step (done : bool) (total : nat) (startTime : GoTime.Time) (t : Turn) (b : Batch)
  : M Batch :=
  if crashed b then mret b
  else
    match t with
    | Work =>
        match waiting b with
        | [] => mret b
        | (worker, u) :: rest =>
            r ← runWorker worker u;
            mret {| waiting := rest; finished := finished b ++ [r];
                    reporter := reporter b; closer := closer b; caller := caller b;
                    crashed := false |}
        end
    | Tick =>
        match reporter b with
        | Watching => _ ← emit (ReportProgress (snapshot total startTime b)); mret b
        | Stopped => mret b
        end
    | SeeDone =>
        match reporter b, done with
        | Watching, true =>
            match closer b with
            | Sending => mret (crash b)
            | c => mret (withReporter Stopped c b)
            end
        | _, _ => mret b
        end
    | TakeSignal =>
        match reporter b, closer b with
        | Watching, Sending => mret (withReporter Stopped Gone b)
        | _, _ => mret b
        end
    | CloseResults =>
        match waiting b, closer b with
        | [], Waiting => mret (withReporter (reporter b) Closed b)
        | _, _ => mret b
        end
    | Signal =>
        match closer b, reporter b with
        | Closed, Stopped => mret (crash b)
        | Closed, Watching => mret (withReporter Watching Sending b)
        | _, _ => mret b
        end
    | FinalProgress =>
        match caller b, closer b with
        | Collecting, Waiting => mret b
        | Collecting, _ =>
            _ ← emit (ReportProgress (snapshot total startTime b));
            mret (withCaller Reported b)
        | _, _ => mret b
        end
    | Completion =>
        match caller b with
        | Reported =>
            finishedAt ← now;
            _ ← emit (ReportCompletion {|
                   DeletionResult.TotalProcessed := total;
                   DeletionResult.SuccessfulDeletes := length (successes (finished b));
                   DeletionResult.FailedDeletes := length (failures (finished b));
                   DeletionResult.StorageFreed := sumSizes (successes (finished b));
                   DeletionResult.Duration := GoTime.Since finishedAt startTime;
                   DeletionResult.Errors := failures (finished b) |});
            mret (withCaller Returned b)
        | _ => mret b
        end
    end.

(** The context of the call: [ctxDone k] tells whether [ctx.Done()] is
    closed when the [k]-th turn of the batch is taken. *)
Context (ctxDone : nat -> bool).

(** The turns of [script], the first of which is the [k]-th of the
    batch. *)
Fixpoint run (total : nat) (startTime : GoTime.Time) (script : list Turn) (k : nat)
    (b : Batch) : M Batch :=
  match script with
  | [] => mret b
  | t :: rest =>
      b ← step (ctxDone k) total startTime t b;
      run total startTime rest (S k) b
  end.

(** What is left to do once the scheduler's script is used up, in one
    order in which it can be done: the remaining workers, the closing of
    [resultChan], the caller's two reports, and the end of the progress
    goroutine.  (Turns of it that were taken before change nothing.) *)
Definition remaining (total : nat) : list Turn :=
  replicate total Work ++ [CloseResults; FinalProgress; Completion; Signal; TakeSignal].

(** [deleteUploadsWithProgress]: the workers run in the order [sched], and
    [script] interleaves them with the progress goroutine, the closing
    goroutine and the caller.  The outcome is [Panics] when a goroutine
    panics, which ends the program, even after the caller has its result.
    (The semaphore has room for at least one worker: the concurrency is
    checked to be between 1 and 100 before the services are built.) *)
Definition deleteUploadsWithProgress (script : list Turn) (sched : schedule)
    (uploads : list MultipartUpload.t) : M (outcome (option error)) :=
  match uploads with
  | [] => mret (Returns None)
  | _ :: _ =>
      startTime ← now;
      b ← run (length uploads) startTime (script ++ remaining (length uploads)) O
            (start (arrange sched uploads));
      if crashed b then mret Panics
      else
        let errors := failures (finished b) in
        match errors with
        | _ :: _ => mret (Returns (Some (SomeDeletesFailed (length errors) (length uploads))))
        | [] => mret (Returns None)
        end
  end.

(** [DeleteUploads]. *)
Definition DeleteUploads (script : list Turn) (sched : schedule)
    (uploads : list MultipartUpload.t) (opts : DeleteOptions.t)
  : M (outcome (option error)) :=
  match DeleteOptions_Validate opts with
  | Some err => mret (Returns (Some (InvalidDeleteOptions err)))
  | None =>
      filteredUploads ← filterUploadsForDeletion uploads opts;
      match filteredUploads with
      | [] => mret (Returns (Some NoUploadsMatch))
      | _ :: _ =>
          let totalSize := sumSizes filteredUploads in
          if DeleteOptions.DryRun opts then
            match dryRunService with
            | Some d =>
                result ← SimulateDeletion d filteredUploads opts;
                match result with
                | Err err => mret (Returns (Some (DryRunFailed err)))
                | Ok result =>
                    _ ← emit (Printed (DryRunResults result));
                    mret (Returns None)
                end
            | None =>
                _ ← emit (Printed (LegacyDryRunResults (length filteredUploads) totalSize
                                     (countBy MultipartUpload.Bucket filteredUploads)
                                     (sizeBy MultipartUpload.Bucket filteredUploads)));
                mret (Returns None)
            end
          else
            proceed ← (if DeleteOptions.Force opts then mret (Ok true)
                       else promptForConfirmation filteredUploads totalSize);
            match proceed with
            | Err err => mret (Returns (Some (ConfirmationFailed err)))
            | Ok false => mret (Returns (Some Cancelled))
            | Ok true => deleteUploadsWithProgress script sched filteredUploads
            end
      end
  end.

End Deletion.

(* ===================================================================== *)
(** * pkg/services: SizeService, the batch size calculation *)
(* ===================================================================== *)

Module SizeService.

(** The struct sent on the results channel. *)
Module uploadResult.
Record t := {
  upload : MultipartUpload.t;
  err : option error;
  inaccessibleBucket : string
}.
End uploadResult.

Definition withSize (u : MultipartUpload.t) (size : Z) : MultipartUpload.t :=
  {| MultipartUpload.Bucket := MultipartUpload.Bucket u;
     MultipartUpload.Key := MultipartUpload.Key u;
     MultipartUpload.UploadID := MultipartUpload.UploadID u;
     MultipartUpload.Initiated := MultipartUpload.Initiated u;
     MultipartUpload.Size := size;
     MultipartUpload.StorageClass := MultipartUpload.StorageClass u;
     MultipartUpload.Region := MultipartUpload.Region u |}.

Section WithUploadService.
(** [uploadService.GetUploadSize], as answered to worker [i]. *)
Context (GetUploadSize : nat -> MultipartUpload.t -> result Z).

(** The body of a worker goroutine. *)
Definition worker (i : nat) (u : MultipartUpload.t) : uploadResult.t :=
  match GetUploadSize i u with
  | Err e =>
      {| uploadResult.upload := u; uploadResult.err := Some e;
         uploadResult.inaccessibleBucket := MultipartUpload.Bucket u |}
  | Ok size =>
      {| uploadResult.upload := withSize u size; uploadResult.err := None;
         uploadResult.inaccessibleBucket := "" |}
  end.

(** The state of the loop that receives the results. *)
Record Collected := {
  uploadsWithSizes : list MultipartUpload.t;
  inaccessibleBuckets : list string;
  errors : list error;
  bucketErrorMap : gmap string bool
}.

Definition receive (acc : Collected) (r : uploadResult.t) : Collected :=
  match uploadResult.err r with
  | Some e =>
      let b := uploadResult.inaccessibleBucket r in
      if negb (String.eqb b "") && negb (default false (bucketErrorMap acc !! b)) then
        {| uploadsWithSizes := uploadsWithSizes acc;
           inaccessibleBuckets := inaccessibleBuckets acc ++ [b];
           errors := errors acc ++ [e];
           bucketErrorMap := <[b := true]> (bucketErrorMap acc) |}
      else
        {| uploadsWithSizes := uploadsWithSizes acc;
           inaccessibleBuckets := inaccessibleBuckets acc;
           errors := errors acc ++ [e];
           bucketErrorMap := bucketErrorMap acc |}
  | None =>
      {| uploadsWithSizes := uploadsWithSizes acc ++ [uploadResult.upload r];
         inaccessibleBuckets := inaccessibleBuckets acc;
         errors := errors acc;
         bucketErrorMap := bucketErrorMap acc |}
  end.

Definition start : Collected :=
  {| uploadsWithSizes := []; inaccessibleBuckets := []; errors := []; bucketErrorMap := ∅ |}.

(** [calculateUploadSizes]: the sized records, the inaccessible buckets and
    the error ([None] is nil), when the workers' results are received in
    the order [sched]. *)
Definition calculateUploadSizes (sched : schedule) (uploads : list MultipartUpload.t)
  : list MultipartUpload.t * list string * option error :=
  match uploads with
  | [] => (uploads, [], None)
  | _ :: _ =>
      let received := map (fun '(i, u) => worker i u) (arrange sched uploads) in
      let final := foldl receive start received in
      (uploadsWithSizes final, inaccessibleBuckets final, None)
  end.

End WithUploadService.
End SizeService.

(* ===================================================================== *)
(** * Sample data, for concrete runs *)
(* ===================================================================== *)

Module Sample.

Definition accessDenied : error :=
  Raw {| asNetError := None; asNoSuchBucket := false; message := "AccessDenied" |}.

Definition slowDown : RawError :=
  {| asNetError := None; asNoSuchBucket := false; message := "SlowDown: reduce your request rate" |}.

(** A record of 2024-01-01 in bucket [bucket]. *)
Definition upload (bucket key : string) (size : Z) : MultipartUpload.t :=
  {| MultipartUpload.Bucket := bucket;
     MultipartUpload.Key := key;
     MultipartUpload.UploadID := "id-" +:+ key;
     MultipartUpload.Initiated := 63839664000 * GoTime.Second;
     MultipartUpload.Size := size;
     MultipartUpload.StorageClass := "STANDARD";
     MultipartUpload.Region := "eu-west-1" |}.

Definition batch : list MultipartUpload.t :=
  [upload "logs" "a.bin" 10; upload "logs" "b.bin" 20; upload "media" "c.bin" 30].

(** Workers deliver in the order 1, 0, 2. *)
Definition order : schedule := [1; 0; 2]%nat.

Definition order_valid : validSchedule order 3 := perm_swap 0%nat 1%nat [2%nat].

(** A size lookup that fails for every record of bucket [logs]. *)
Definition getUploadSize (i : nat) (u : MultipartUpload.t) : result Z :=
  if String.eqb (MultipartUpload.Bucket u) "logs" then Err accessDenied else Ok 4096.

End Sample.

Module SampleRetry.
(** The limiter always lets the call through, the operation always fails
    with a throttling error, and the context is never cancelled. *)
Definition alwaysSlowDown : S3Client.Env :=
  {| S3Client.limiterWait := fun _ => None;
     S3Client.operation := fun _ => Some Sample.slowDown;
     S3Client.ctxDone := fun _ => None |}.
End SampleRetry.

Module SampleCache.
(** A clock that advances by half an hour at each reading, starting on
    2024-01-01, and a client that places every bucket in [eu-west-1]. *)
Definition clock (n : nat) : GoTime.Time :=
  63839664000 * GoTime.Second + Z.of_nat n * (30 * GoTime.Minute).

Definition location (n : nat) (bucketName : string) : result string := Ok "eu-west-1".
End SampleCache.

Module SampleAge.
(** 2024-01-01, and a record whose initiation time lies more than 292
    years after it, so that [time.Since] saturates at the minimum
    Duration. *)
Definition now : GoTime.Time := 63839664000 * GoTime.Second.

Definition farFuture : MultipartUpload.t :=
  {| MultipartUpload.Bucket := "logs";
     MultipartUpload.Key := "a.bin";
     MultipartUpload.UploadID := "id-a.bin";
     MultipartUpload.Initiated := now + 2 ^ 63;
     MultipartUpload.Size := 0;
     MultipartUpload.StorageClass := "STANDARD";
     MultipartUpload.Region := "eu-west-1" |}.

(** A record initiated [age] before [now]. *)
Definition aged (age : GoTime.Duration) : MultipartUpload.t :=
  {| MultipartUpload.Bucket := "logs";
     MultipartUpload.Key := "a.bin";
     MultipartUpload.UploadID := "id-a.bin";
     MultipartUpload.Initiated := now - age;
     MultipartUpload.Size := 0;
     MultipartUpload.StorageClass := "STANDARD";
     MultipartUpload.Region := "eu-west-1" |}.

Definition ageIs (value : string) : AgeFilter.t :=
  {| AgeFilter.Operator := "="; AgeFilter.Value := value |}.

Definition ageIsNot (value : string) : AgeFilter.t :=
  {| AgeFilter.Operator := "!="; AgeFilter.Value := value |}.
End SampleAge.

Module SampleListing.

Definition entry (key : string) : S3Upload.t :=
  {| S3Upload.Key := Some key;
     S3Upload.UploadId := Some ("id-" +:+ key);
     S3Upload.Initiated := Some (63839664000 * GoTime.Second);
     S3Upload.StorageClass := "" |}.

Definition lastPage (entries : list S3Upload.t) : ListMultipartUploadsOutput.t :=
  {| ListMultipartUploadsOutput.Uploads := entries;
     ListMultipartUploadsOutput.IsTruncated := Some false;
     ListMultipartUploadsOutput.NextKeyMarker := None;
     ListMultipartUploadsOutput.NextUploadIdMarker := None |}.

(** A client that refuses bucket [media] and serves two entries for every
    other bucket. *)
Definition client : RegionalClient :=
  {| ListMultipartUploads := fun page input =>
       if String.eqb (ListMultipartUploadsInput.Bucket input) "media" then Err Sample.accessDenied
       else Ok (lastPage [entry "a.bin"; entry "b.bin"]) |}.

Definition getRegionalClient (region : string) : result RegionalClient := Ok client.

(** A client that serves one entry whose key is present but empty. *)
Definition emptyKeyClient (region : string) : result RegionalClient :=
  Ok {| ListMultipartUploads := fun page input => Ok (lastPage [entry ""]) |}.

Definition bucket (name : string) : Bucket.t :=
  {| Bucket.Name := name; Bucket.Region := "eu-west-1" |}.

Definition buckets : list Bucket.t := [bucket "logs"; bucket "media"; bucket "backup"].

Definition GetBucketRegion (bucketName : string) : result string := Ok "eu-west-1".
Definition ListBuckets (region : string) : result (list Bucket.t) := Ok buckets.

(** A bucket service that knows only the refused bucket. *)
Definition ListRefused (region : string) : result (list Bucket.t) := Ok [bucket "media"].

Definition options (maxResults offset : Z) : ListOptions.t :=
  {| ListOptions.Region := ""; ListOptions.BucketName := "";
     ListOptions.MaxResults := maxResults; ListOptions.Offset := offset |}.

End SampleListing.

(** A client whose only page mixes complete entries with entries that
    lack the key, the upload id or the initiation time. *)
Module SampleSparse.
Definition noKey : S3Upload.t :=
  {| S3Upload.Key := None;
     S3Upload.UploadId := Some "id-x.bin";
     S3Upload.Initiated := Some (63839664000 * GoTime.Second);
     S3Upload.StorageClass := "" |}.

Definition noUploadId : S3Upload.t :=
  {| S3Upload.Key := Some "y.bin";
     S3Upload.UploadId := None;
     S3Upload.Initiated := Some (63839664000 * GoTime.Second);
     S3Upload.StorageClass := "" |}.

Definition noInitiated : S3Upload.t :=
  {| S3Upload.Key := Some "z.bin";
     S3Upload.UploadId := Some "id-z.bin";
     S3Upload.Initiated := None;
     S3Upload.StorageClass := "GLACIER" |}.

Definition page : ListMultipartUploadsOutput.t :=
  SampleListing.lastPage
    [SampleListing.entry "a.bin"; noKey; noUploadId; SampleListing.entry "b.bin"; noInitiated].

Definition client : RegionalClient :=
  {| ListMultipartUploads := fun _ _ => Ok page |}.

Definition getRegionalClient (region : string) : result RegionalClient := Ok client.
End SampleSparse.

Module SampleResults.
Import SampleListing.

(** The records the sample client serves for a bucket. *)
Definition recordsOf (name : string) : list MultipartUpload.t :=
  [Sample.upload name "a.bin" 0; Sample.upload name "b.bin" 0].

(** What the three workers return: [media] is refused. *)
Definition results : list (result (list MultipartUpload.t)) :=
  [Ok (recordsOf "logs");
   Err (ListMultipartUploadsFailed "media" Sample.accessDenied);
   Ok (recordsOf "backup")].

Definition refused : list (result (list MultipartUpload.t)) :=
  [Err (ListMultipartUploadsFailed "media" Sample.accessDenied)].

End SampleResults.

Module SampleDeletion.

(** A clock that starts one day after the sample records were initiated
    and advances by one second at each reading. *)
Definition clock (n : nat) : GoTime.Time :=
  (63839664000 + 86400 + Z.of_nat n) * GoTime.Second.

(** The client refuses to abort the upload of [b.bin]. *)
Definition abortReply (worker : nat) (u : MultipartUpload.t) : option error :=
  if String.eqb (MultipartUpload.Key u) "b.bin" then Some Sample.accessDenied else None.

(** The user answers yes. *)
Definition stdin : string := "yes" +:+ String "010"%char "".

(** A cost calculator that charges nothing. *)
Definition dryRunService : option DryRunService :=
  Some {| EstimateSavings := fun _ => Ok 0%float |}.

Definition formatDuration (d : GoTime.Duration) : string :=
  pretty (d / GoTime.Second) +:+ "s".

Definition formatBytes (size : Z) : string := pretty size +:+ " B".

(** Records older than one hour, in any bucket. *)
Definition options (dryRun force : bool) : DeleteOptions.t :=
  {| DeleteOptions.DryRun := dryRun;
     DeleteOptions.Force := force;
     DeleteOptions.OlderThan := Some GoTime.Hour;
     DeleteOptions.SmallerThan := None;
     DeleteOptions.LargerThan := None;
     DeleteOptions.BucketName := "";
     DeleteOptions.Quiet := false |}.

Definition start : World := {| ticks := 0; trace := [] |}.

End SampleDeletion.

Module SampleBatch.
(** A context that is never cancelled, and one that is cancelled from the
    start. *)
Definition uncancelled (k : nat) : bool := false.
Definition cancelled (k : nat) : bool := true.

(** The ticker fires after the first deletion and once more after the
    caller's final report. *)
Definition script : list Turn :=
  [Work; Tick; Work; Work; CloseResults; FinalProgress; Tick; Signal].

(** A client that refuses nothing. *)
Definition willing (worker : nat) (u : MultipartUpload.t) : option error := None.

(** A record with an empty key. *)
Definition emptyKey : MultipartUpload.t := Sample.upload "logs" "" 20.
End SampleBatch.

Module SampleRecovery.
(** The operation is throttled once and then succeeds; a second
    environment in which it is then refused for good. *)
Definition accessDenied : RawError :=
  {| asNetError := None; asNoSuchBucket := false; message := "AccessDenied" |}.

Definition recovers : S3Client.Env :=
  {| S3Client.limiterWait := fun _ => None;
     S3Client.operation := fun a => if a =? 0 then Some Sample.slowDown else None;
     S3Client.ctxDone := fun _ => None |}.

Definition refused : S3Client.Env :=
  {| S3Client.limiterWait := fun _ => None;
     S3Client.operation := fun a => if a =? 0 then Some Sample.slowDown else Some accessDenied;
     S3Client.ctxDone := fun _ => None |}.
End SampleRecovery.

Module SampleDecline.
(** The user presses return, and a reader that ends before any newline. *)
Definition justReturn : string := String "010"%char "".
Definition closed : string := "yes".
End SampleDecline.

Module SamplePaging.
(** A client that serves three entries per page, or fewer when the request
    allows fewer, refuses a negative [MaxUploads], and reports the first
    two pages as truncated. *)
Definition invalidArgument : error :=
  Raw {| asNetError := None; asNoSuchBucket := false; message := "InvalidArgument" |}.

Definition page (n : nat) (entries : list S3Upload.t) : ListMultipartUploadsOutput.t :=
  {| ListMultipartUploadsOutput.Uploads := entries;
     ListMultipartUploadsOutput.IsTruncated := Some (n <? 2)%nat;
     ListMultipartUploadsOutput.NextKeyMarker := Some "c.bin";
     ListMultipartUploadsOutput.NextUploadIdMarker := Some "id-c.bin" |}.

Definition entries : list S3Upload.t :=
  [SampleListing.entry "a.bin"; SampleListing.entry "b.bin"; SampleListing.entry "c.bin"].

Definition client : RegionalClient :=
  {| ListMultipartUploads := fun n input =>
       match ListMultipartUploadsInput.MaxUploads input with
       | Some m => if m <? 0 then Err invalidArgument
                   else Ok (page n (take (Z.to_nat m) entries))
       | None => Ok (page n entries)
       end |}.

Definition getRegionalClient (region : string) : result RegionalClient := Ok client.

Definition named (bucketName : string) (maxResults offset : Z) : ListOptions.t :=
  {| ListOptions.Region := ""; ListOptions.BucketName := bucketName;
     ListOptions.MaxResults := maxResults; ListOptions.Offset := offset |}.

Definition inRegion (region : string) : ListOptions.t :=
  {| ListOptions.Region := region; ListOptions.BucketName := "";
     ListOptions.MaxResults := 0; ListOptions.Offset := 0 |}.

(** Buckets in two regions. *)
Definition ListBuckets (region : string) : result (list Bucket.t) :=
  Ok [ {| Bucket.Name := "logs"; Bucket.Region := "eu-west-1" |};
       {| Bucket.Name := "backup"; Bucket.Region := "us-east-1" |} ].
End SamplePaging.

(* ===================================================================== *)
(** * pkg/services: UploadService, the size of one upload *)
(* ===================================================================== *)

(** A part of a [ListParts] page (the SDK's [types.Part]); [Size] is a
    pointer. *)
Module S3Part.
Record t := { Size : option Z }.
End S3Part.

Module ListPartsInput.
Record t := {
  Bucket : string;
  Key : string;
  UploadId : string;
  PartNumberMarker : option string
}.
End ListPartsInput.

Module ListPartsOutput.
Record t := {
  Parts : list S3Part.t;
  IsTruncated : option bool;
  NextPartNumberMarker : option string
}.
End ListPartsOutput.

Module UploadParts.

Section WithClient.
(** [s.client.ListParts]: the answer to the [page]-th request of one
    [GetUploadSize] call. *)
Context (ListParts : nat -> ListPartsInput.t -> result ListPartsOutput.t).

Definition request (upload : MultipartUpload.t) (partNumberMarker : option string)
  : ListPartsInput.t :=
  {| ListPartsInput.Bucket := MultipartUpload.Bucket upload;
     ListPartsInput.Key := MultipartUpload.Key upload;
     ListPartsInput.UploadId := MultipartUpload.UploadID upload;
     ListPartsInput.PartNumberMarker := partNumberMarker |}.

(** The loop over [output.Parts]. *)
Definition addParts (totalSize : Z) (parts : list S3Part.t) : Z :=
  foldl (fun total part =>
           match S3Part.Size part with
           | Some size => Int64.add total size
           | None => total
           end) totalSize parts.

Definition isTruncated (output : ListPartsOutput.t) : bool :=
  match ListPartsOutput.IsTruncated output with
  | Some b => b
  | None => false
  end.

(** The paging loop of [GetUploadSize]; [None] when [fuel] requests were
    not enough to reach a page that is not truncated. *)
Fixpoint sumPages (fuel : nat) (upload : MultipartUpload.t) (page : nat) (totalSize : Z)
    (partNumberMarker : option string) : option (result Z) :=
  match fuel with
  | O => None
  | S fuel' =>
      match ListParts page (request upload partNumberMarker) with
      | Err err =>
          Some (Err (ListPartsFailed (MultipartUpload.UploadID upload)
                       (MultipartUpload.Bucket upload) err))
      | Ok output =>
          let totalSize := addParts totalSize (ListPartsOutput.Parts output) in
          if isTruncated output then
            sumPages fuel' upload (S page) totalSize (ListPartsOutput.NextPartNumberMarker output)
          else Some (Ok totalSize)
      end
  end.

(** [GetUploadSize]. *)
Definition GetUploadSize (fuel : nat) (upload : MultipartUpload.t) : option (result Z) :=
  match MultipartUpload_Validate upload with
  | Some err => Some (Err (InvalidUpload err))
  | None => sumPages fuel upload O 0 None
  end.

End WithClient.
End UploadParts.

Module SampleParts.
(** Two pages: parts of 5 MiB and 3 MiB and a part without a size, then a
    last part of 1 MiB. *)
Definition part (size : Z) : S3Part.t := {| S3Part.Size := Some size |}.

Definition first : ListPartsOutput.t :=
  {| ListPartsOutput.Parts := [part (5 * 1024 * 1024); part (3 * 1024 * 1024);
                               {| S3Part.Size := None |}];
     ListPartsOutput.IsTruncated := Some true;
     ListPartsOutput.NextPartNumberMarker := Some "3" |}.

Definition second : ListPartsOutput.t :=
  {| ListPartsOutput.Parts := [part (1024 * 1024)];
     ListPartsOutput.IsTruncated := None;
     ListPartsOutput.NextPartNumberMarker := None |}.

Definition ListParts (page : nat) (input : ListPartsInput.t) : result ListPartsOutput.t :=
  match ListPartsInput.PartNumberMarker input with
  | None => Ok first
  | Some _ => Ok second
  end.
End SampleParts.

(* ===================================================================== *)
(** * pkg/types and pkg/services: the size report *)
(* ===================================================================== *)

Module SizeReport.
Record t := {
  TotalSize : Z;
  TotalCount : Z;
  ByStorageClass : gmap string Z;
  ByBucket : gmap string Z;
  InaccessibleBuckets : list string
}.
End SizeReport.

(** An entry of a breakdown with a negative size.  (Go leaves the order
    of a map iteration open; it decides only which entry is named.) *)
Definition negativeEntry (m : gmap string Z) : option string :=
  fst <$> head (filter (fun kv => kv.2 < 0) (map_to_list m)).

(** [SizeReport.Validate]. *)
Definition SizeReport_Validate (s : SizeReport.t) : option error :=
  if SizeReport.TotalSize s <? 0 then
    invalid "TotalSize" "total size cannot be negative"
  else if SizeReport.TotalCount s <? 0 then
    invalid "TotalCount" "total count cannot be negative"
  else
    match negativeEntry (SizeReport.ByStorageClass s) with
    | Some storageClass =>
        invalid "ByStorageClass"
          ("size for storage class '" +:+ storageClass +:+ "' cannot be negative")
    | None =>
        match negativeEntry (SizeReport.ByBucket s) with
        | Some bucket =>
            invalid "ByBucket" ("size for bucket '" +:+ bucket +:+ "' cannot be negative")
        | None => None
        end
    end.

Module SizeReporting.

(** One round of the loop of [generateSizeReport].  (A slice has fewer
    than 2^63 elements, so the count does not wrap.) *)
Definition addUpload (report : SizeReport.t) (upload : MultipartUpload.t) : SizeReport.t :=
  {| SizeReport.TotalSize := Int64.add (SizeReport.TotalSize report) (MultipartUpload.Size upload);
     SizeReport.TotalCount := SizeReport.TotalCount report + 1;
     SizeReport.ByStorageClass :=
       <[MultipartUpload.StorageClass upload :=
           Int64.add (default 0 (SizeReport.ByStorageClass report
                                   !! MultipartUpload.StorageClass upload))
                     (MultipartUpload.Size upload)]> (SizeReport.ByStorageClass report);
     SizeReport.ByBucket :=
       <[MultipartUpload.Bucket upload :=
           Int64.add (default 0 (SizeReport.ByBucket report !! MultipartUpload.Bucket upload))
                     (MultipartUpload.Size upload)]> (SizeReport.ByBucket report);
     SizeReport.InaccessibleBuckets := SizeReport.InaccessibleBuckets report |}.

(** [generateSizeReport]. *)
Definition generateSizeReport (uploads : list MultipartUpload.t)
    (inaccessibleBuckets : list string) : SizeReport.t :=
  foldl addUpload
    {| SizeReport.TotalSize := 0; SizeReport.TotalCount := 0;
       SizeReport.ByStorageClass := ∅; SizeReport.ByBucket := ∅;
       SizeReport.InaccessibleBuckets := inaccessibleBuckets |}
    uploads.

(** The errors of [CalculateTotalSize], each wrapping its cause. *)
Inductive Failure : Type :=
| ListUploadsFailed (cause : error)        (* "failed to list uploads: %w" *)
| CalculateSizesFailed (cause : error)     (* "failed to calculate upload sizes: %w" *)
| InvalidSizeReport (cause : error).       (* "invalid size report: %w" *)

Section WithUploadService.
(** The two methods of [interfaces.UploadService] that the size service
    calls; [GetUploadSize i] is the call made by worker [i]. *)
Context (ListUploads : ListOptions.t -> list MultipartUpload.t * option error).
Context (GetUploadSize : nat -> MultipartUpload.t -> result Z).

(** [CalculateTotalSize] (and [CalculateBucketSizes], which returns what it
    returns), when the workers deliver in the order [sched]. *)
Definition CalculateTotalSize (sched : schedule) (opts : ListOptions.t)
  : SizeReport.t + Failure :=
  match ListUploads opts with
  | (_, Some err) => inr (ListUploadsFailed err)
  | (uploads, None) =>
      match SizeService.calculateUploadSizes GetUploadSize sched uploads with
      | (_, _, Some err) => inr (CalculateSizesFailed err)
      | (uploadsWithSizes, inaccessibleBuckets, None) =>
          let report := generateSizeReport uploadsWithSizes inaccessibleBuckets in
          match SizeReport_Validate report with
          | Some err => inr (InvalidSizeReport err)
          | None => inl report
          end
      end
  end.

End WithUploadService.
End SizeReporting.
Module SampleSizes.
(** A listing that succeeds with the sample batch, and one that returns
    the batch together with an aggregate error. *)
Definition listsAll (opts : ListOptions.t) : list MultipartUpload.t * option error :=
  (Sample.batch, None).

Definition listsSome (opts : ListOptions.t) : list MultipartUpload.t * option error :=
  (Sample.batch, Some (SomeBucketsFailed 1)).
End SampleSizes.

(* ===================================================================== *)
(** * pkg/services: BucketService, listing the buckets *)
(* ===================================================================== *)

Module BucketListing.

(** The errors of [ListBuckets]. *)
Inductive Failure : Type :=
| ListBucketsFailed (cause : error)   (* "failed to list buckets: %w" *)
| SomeRegionsFailed (n : nat).        (* "failed to get region for some buckets: %d errors occurred" *)

Section WithClient.
(** [s.client.ListBuckets]: the names of [output.Buckets] (a nil [Name] is
    [None]), or the error. *)
Context (clientListBuckets : result (list (option string))).
(** [s.GetBucketRegion] as called for the bucket at index [i] of
    [output.Buckets]. *)
Context (GetBucketRegion : nat -> string -> result string).

(** The loop of [ListBuckets] without a region: a bucket without a name
    or whose region lookup fails is skipped. *)
Definition convertBucket (ib : nat * option string) : option Bucket.t :=
  match ib.2 with
  | None => None
  | Some name =>
      match GetBucketRegion ib.1 name with
      | Err _ => None
      | Ok region => Some {| Bucket.Name := name; Bucket.Region := region |}
      end
  end.

(** The goroutines of [filterBucketsByRegion]: one per bucket that has a
    name. *)
Definition jobs (awsBuckets : list (option string)) : list (nat * string) :=
  omap (fun ib : nat * option string => option_map (pair ib.1) ib.2) (imap pair awsBuckets).

(** What a goroutine sends on the results channel: an error, a bucket of
    the target region, or nothing. *)
Definition message (targetRegion : string) (job : nat * string) : option (result Bucket.t) :=
  match GetBucketRegion job.1 job.2 with
  | Err err => Some (Err err)
  | Ok region =>
      if String.eqb region targetRegion
      then Some (Ok {| Bucket.Name := job.2; Bucket.Region := region |})
      else None
  end.

(** The loop that receives the results. *)
Fixpoint collectBuckets (received : list (result Bucket.t)) (buckets : list Bucket.t)
    (errors : list error) : list Bucket.t * list error :=
  match received with
  | [] => (buckets, errors)
  | Err err :: rest => collectBuckets rest buckets (errors ++ [err])
  | Ok bucket :: rest => collectBuckets rest (buckets ++ [bucket]) errors
  end.

(** [filterBucketsByRegion], when the goroutines run in the order
    [sched]. *)
Definition filterBucketsByRegion (sched : schedule) (awsBuckets : list (option string))
    (targetRegion : string) : list Bucket.t * option Failure :=
  let received := omap (fun j => message targetRegion j.2) (arrange sched (jobs awsBuckets)) in
  let '(buckets, errors) := collectBuckets received [] [] in
  match errors with
  | _ :: _ => (buckets, Some (SomeRegionsFailed (length errors)))
  | [] => (buckets, None)
  end.

(** [ListBuckets] (and [ListBucketsInRegion], which calls it). *)
Definition ListBuckets (sched : schedule) (region : string)
  : list Bucket.t * option Failure :=
  match clientListBuckets with
  | Err err => ([], Some (ListBucketsFailed err))
  | Ok awsBuckets =>
      if negb (String.eqb region "") then filterBucketsByRegion sched awsBuckets region
      else (omap convertBucket (imap pair awsBuckets), None)
  end.

End WithClient.
End BucketListing.

Module SampleBuckets.
(** Three buckets and an entry without a name; the region of [media]
    cannot be resolved. *)
Definition clientListBuckets : result (list (option string)) :=
  Ok [Some "logs"; None; Some "media"; Some "backup"].

Definition GetBucketRegion (i : nat) (name : string) : result string :=
  if String.eqb name "media" then Err Sample.accessDenied
  else if String.eqb name "logs" then Ok "eu-west-1" else Ok "us-east-1".
End SampleBuckets.

(* ===================================================================== *)
(** * pkg/types and pkg/services: the age distribution *)
(* ===================================================================== *)

Module AgeBucket.
Record t := {
  Label : string;
  MinAge : GoTime.Duration;
  MaxAge : GoTime.Duration;
  Count : Z;
  TotalSize : Z
}.
End AgeBucket.

(** [AgeBucket.Validate]. *)
Definition AgeBucket_Validate (a : AgeBucket.t) : option error :=
  if blank (AgeBucket.Label a) then invalid "Label" "label cannot be empty"
  else if AgeBucket.MinAge a <? 0 then invalid "MinAge" "min age cannot be negative"
  else if AgeBucket.MaxAge a <? 0 then invalid "MaxAge" "max age cannot be negative"
  else if negb (AgeBucket.MaxAge a =? 0) && (AgeBucket.MaxAge a <? AgeBucket.MinAge a) then
    invalid "MaxAge" "max age cannot be less than min age"
  else if AgeBucket.Count a <? 0 then invalid "Count" "count cannot be negative"
  else if AgeBucket.TotalSize a <? 0 then invalid "TotalSize" "total size cannot be negative"
  else None.

(** [AgeDistribution.Validate]: the index of the first invalid bucket and
    its error ("age bucket at index %d: %w"), or [None] for nil. *)
Fixpoint AgeDistribution_ValidateFrom (i : nat) (buckets : list AgeBucket.t)
  : option (nat * error) :=
  match buckets with
  | [] => None
  | bucket :: rest =>
      match AgeBucket_Validate bucket with
      | Some err => Some (i, err)
      | None => AgeDistribution_ValidateFrom (S i) rest
      end
  end.

Definition AgeDistribution_Validate (buckets : list AgeBucket.t) : option (nat * error) :=
  AgeDistribution_ValidateFrom O buckets.

Module AgeService.

Definition bucket (label : string) (minAge maxAge : GoTime.Duration) : AgeBucket.t :=
  {| AgeBucket.Label := label; AgeBucket.MinAge := minAge; AgeBucket.MaxAge := maxAge;
     AgeBucket.Count := 0; AgeBucket.TotalSize := 0 |}.

(** The six buckets; a [MaxAge] of 0 means no upper limit. *)
Definition buckets : list AgeBucket.t :=
  [ bucket "1 day" 0 (24 * GoTime.Hour);
    bucket "1 week" (24 * GoTime.Hour) (7 * 24 * GoTime.Hour);
    bucket "1 month" (7 * 24 * GoTime.Hour) (30 * 24 * GoTime.Hour);
    bucket "3 months" (30 * 24 * GoTime.Hour) (90 * 24 * GoTime.Hour);
    bucket "6 months" (90 * 24 * GoTime.Hour) (180 * 24 * GoTime.Hour);
    bucket "1 year+" (180 * 24 * GoTime.Hour) 0 ].

(** The test of the inner loop. *)
Definition fits (b : AgeBucket.t) (age : GoTime.Duration) : bool :=
  if AgeBucket.MaxAge b =? 0 then AgeBucket.MinAge b <=? age
  else (AgeBucket.MinAge b <=? age) && (age <? AgeBucket.MaxAge b).

(** [bucket.Count++; bucket.TotalSize += upload.Size].  (A slice has fewer
    than 2^63 elements, so the count does not wrap.) *)
Definition add (b : AgeBucket.t) (size : Z) : AgeBucket.t :=
  {| AgeBucket.Label := AgeBucket.Label b; AgeBucket.MinAge := AgeBucket.MinAge b;
     AgeBucket.MaxAge := AgeBucket.MaxAge b;
     AgeBucket.Count := AgeBucket.Count b + 1;
     AgeBucket.TotalSize := Int64.add (AgeBucket.TotalSize b) size |}.

(** The inner loop: the first bucket that fits takes the record. *)
Fixpoint place (age : GoTime.Duration) (size : Z) (bs : list AgeBucket.t)
  : list AgeBucket.t :=
  match bs with
  | [] => []
  | b :: rest => if fits b age then add b size :: rest else b :: place age size rest
  end.

(** [CalculateAgeDistribution], when [time.Now()] reads [now]. *)
Definition CalculateAgeDistribution (now : GoTime.Time) (uploads : list MultipartUpload.t)
  : list AgeBucket.t :=
  foldl (fun bs upload =>
           place (GoTime.Sub now (MultipartUpload.Initiated upload))
                 (MultipartUpload.Size upload) bs)
        buckets uploads.

(** [GetAgeDistributionForBucket]. *)
Definition GetAgeDistributionForBucket (now : GoTime.Time)
    (uploads : list MultipartUpload.t) (bucketName : string) : list AgeBucket.t :=
  CalculateAgeDistribution now
    (filter (fun upload => String.eqb (MultipartUpload.Bucket upload) bucketName = true) uploads).

End AgeService.

Module SampleAges.
(** Records aged 1 hour, 2 days, 60 days and 400 days, and one initiated
    an hour after the clock reading. *)
Definition aged (age size : Z) : MultipartUpload.t :=
  {| MultipartUpload.Bucket := "logs";
     MultipartUpload.Key := "a.bin";
     MultipartUpload.UploadID := "id-a.bin";
     MultipartUpload.Initiated := SampleAge.now - age;
     MultipartUpload.Size := size;
     MultipartUpload.StorageClass := "STANDARD";
     MultipartUpload.Region := "eu-west-1" |}.

Definition uploads : list MultipartUpload.t :=
  [ aged GoTime.Hour 1; aged (2 * 24 * GoTime.Hour) 10; aged (60 * 24 * GoTime.Hour) 100;
    aged (400 * 24 * GoTime.Hour) 1000; aged (- GoTime.Hour) 10000 ].
End SampleAges.

(* ===================================================================== *)
(** * Human-readable sizes *)
(* ===================================================================== *)

Module ByteFormat.

(** The operands of the [fmt.Sprintf] call a formatter ends in:
    [Plain n] stands for ["%d B"] of [n], [Scaled bytes div unit] for
    ["%.1f "] of [float64(bytes)/float64(div)] followed by the unit. *)
Inductive t :=
| Plain (bytes : Z)
| Scaled (bytes div : Z) (unit : string).

Definition unit : Z := 1024.

(** [for n := bytes / unit; n >= unit; n /= unit { div *= unit; exp++ }],
    entered with the current [n], [div] and [exp]; [None] when the fuel
    runs out. *)
Fixpoint scale (fuel : nat) (n div : Z) (exp : nat) : option (Z * nat) :=
  match fuel with
  | O => None
  | S fuel =>
      if unit <=? n then scale fuel (Z.quot n unit) (Int64.wrap (div * unit)) (S exp)
      else Some (div, exp)
  end.

(** [FormatBytes] of the output formatter and of the container package;
    indexing the string of unit letters out of range panics. *)
Definition FormatBytes (fuel : nat) (bytes : Z) : option (outcome t) :=
  if bytes <? unit then Some (Returns (Plain bytes))
  else
    match scale fuel (Z.quot bytes unit) unit 0 with
    | None => None
    | Some (div, exp) =>
        Some match String.get exp "KMGTPE" with
             | Some letter => Returns (Scaled bytes div (String letter "B"))
             | None => Panics
             end
    end.

Definition units : list string := ["KB"; "MB"; "GB"; "TB"; "PB"].

(** [FormatSize] of the size service (its literal ["0 B"] is the text of
    [Plain 0]). *)
Definition FormatSize (fuel : nat) (bytes : Z) : option (outcome t) :=
  if bytes =? 0 then Some (Returns (Plain 0))
  else if bytes <? unit then Some (Returns (Plain bytes))
  else
    match scale fuel (Z.quot bytes unit) unit 0 with
    | None => None
    | Some (div, exp) =>
        let '(div, exp) :=
          if (length units <=? exp)%nat then
            let exp := (length units - 1)%nat in
            (Nat.iter (S exp) (fun div => Int64.wrap (div * unit)) 1, exp)
          else (div, exp) in
        Some match units !! exp with
             | Some unit => Returns (Scaled bytes div unit)
             | None => Panics
             end
    end.

End ByteFormat.

(* ===================================================================== *)
(** * internal/container: the duration flag *)
(* ===================================================================== *)

Module DurationFlag.

Inductive Failure :=
| InvalidDurationFormat                 (* "invalid duration format" *)
| UnsupportedUnit (unit : string).      (* "unsupported duration unit: %q (use s, m, h, d, w)" *)

(** The loop over [valueStr], entered with the current [value] (a Go
    [int]).  The source ranges over runes: a byte of 0x80 or more belongs
    to a rune that is no digit (an invalid encoding ranges as U+FFFD), so
    ranging over the bytes rejects the same strings and adds up the same
    digits. *)
Fixpoint digits (valueStr : list ascii) (value : Z) : option Z :=
  match valueStr with
  | [] => Some value
  | r :: rest =>
      if ((GoStrings.code r <? 48) || (57 <? GoStrings.code r))%N then None
      else digits rest (Int64.add (Int64.wrap (value * 10)) (Z.of_N (GoStrings.code r) - 48))
  end.

(** Multiplication of two [time.Duration]s. *)
Definition times (a b : GoTime.Duration) : GoTime.Duration := Int64.wrap (a * b).

(** [App.parseDuration]. *)
Definition parseDuration (durationStr : string) : GoTime.Duration + Failure :=
  if GoStrings.len durationStr <? 2 then inr InvalidDurationFormat
  else
    let unit := GoStrings.from (String.length durationStr - 1) durationStr in
    let valueStr := GoStrings.upto (String.length durationStr - 1) durationStr in
    match digits (GoStrings.bytes valueStr) 0 with
    | None => inr InvalidDurationFormat
    | Some value =>
        if String.eqb unit "s" then inl (times value GoTime.Second)
        else if String.eqb unit "m" then inl (times value GoTime.Minute)
        else if String.eqb unit "h" then inl (times value GoTime.Hour)
        else if String.eqb unit "d" then inl (times (times value 24) GoTime.Hour)
        else if String.eqb unit "w" then inl (times (times (times value 7) 24) GoTime.Hour)
        else inr (UnsupportedUnit unit)
    end.

End DurationFlag.

(* ===================================================================== *)
(** * pkg/services: the CSV fields of a dry-run report *)
(* ===================================================================== *)

Module DryRunCSV.

Definition quote : ascii := "034"%char.
Definition comma : ascii := ","%char.
Definition newline : ascii := "010"%char.

(** [strings.Contains(value, sep)] for a separator of one byte. *)
Definition Contains (value : string) (sep : ascii) : bool :=
  existsb (Ascii.eqb sep) (GoStrings.bytes value).

(** [strings.ReplaceAll(value, old, new)] for an [old] of one byte. *)
Definition ReplaceAll (value : list ascii) (old : ascii) (new : list ascii) : list ascii :=
  flat_map (fun c => if Ascii.eqb c old then new else [c]) value.

(** [DryRunService.escapeCSV]. *)
Definition escapeCSV (value : string) : string :=
  if Contains value comma || Contains value quote || Contains value newline then
    let escaped := ReplaceAll (GoStrings.bytes value) quote [quote; quote] in
    GoStrings.ofBytes (quote :: escaped ++ [quote])
  else value.

End DryRunCSV.

(* ===================================================================== *)
(** * pkg/services: the totals of the age report *)
(* ===================================================================== *)

Module AgeReport.

(** The first loop of [FormatAgeDistribution]:
    [totalCount += bucket.Count; totalSize += bucket.TotalSize], as the
    pair of the two totals. *)
Definition totals (buckets : list AgeBucket.t) : Z * Z :=
  foldl (fun total bucket =>
           (Int64.add (fst total) (AgeBucket.Count bucket),
            Int64.add (snd total) (AgeBucket.TotalSize bucket)))
        (0, 0) buckets.

Definition sevenDays : GoTime.Duration := 7 * 24 * GoTime.Hour.

(** Its last loop, which feeds the warning about uploads older than 7
    days: the pair of [oldUploads] and [oldSize]. *)
Definition old (buckets : list AgeBucket.t) : Z * Z :=
  foldl (fun old bucket =>
           if sevenDays <=? AgeBucket.MinAge bucket then
             (Int64.add (fst old) (AgeBucket.Count bucket),
              Int64.add (snd old) (AgeBucket.TotalSize bucket))
           else old)
        (0, 0) buckets.

(** [ageService.IsOlderThanSevenDays], when [time.Now()] reads [now]:
    [upload.Initiated.Before(now.Add(-7 * 24 * time.Hour))]. *)
Definition IsOlderThanSevenDays (now : GoTime.Time) (upload : MultipartUpload.t) : bool :=
  MultipartUpload.Initiated upload <? now + - 7 * 24 * GoTime.Hour.

End AgeReport.

(* ===================================================================== *)
(** * pkg/services: table cells *)
(* ===================================================================== *)

Module TableText.

(** [s[:i]]: a slice bound outside [0, len(s)] panics. *)
Definition sliceTo (s : string) (i : Z) : outcome string :=
  if (i <? 0) || (GoStrings.len s <? i) then Panics
  else Returns (GoStrings.upto (Z.to_nat i) s).

(** [truncateString]. *)
Definition truncateString (s : string) (maxLen : Z) : outcome string :=
  if GoStrings.len s <=? maxLen then Returns s
  else if maxLen <=? 3 then sliceTo s maxLen
  else
    match sliceTo s (maxLen - 3) with
    | Returns head => Returns (head +:+ "...")
    | Panics => Panics
    end.

End TableText.

(* ===================================================================== *)
(** * Facts about the runtime model *)
(* ===================================================================== *)

Lemma wrap_inRange z : Int64.inRange z -> Int64.wrap z = z.
Proof.
  unfold Int64.inRange, Int64.wrap, Int64.min, Int64.max. intros Hz.
  rewrite Z.mod_small; lia.
Qed.

Lemma bytes_ofBytes l : GoStrings.bytes (GoStrings.ofBytes l) = l.
Proof. apply list_ascii_of_string_of_list_ascii. Qed.

Lemma ofBytes_bytes s : GoStrings.ofBytes (GoStrings.bytes s) = s.
Proof. apply string_of_list_ascii_of_string. Qed.

(** ** Schedules *)

Definition numbered {A} (items : list A) : list (nat * A) := imap pair items.

Lemma arrange_in_order {A} (items : list A) :
  arrange (seq 0 (length items)) items = numbered items.
Proof.
  unfold arrange, numbered.
  induction items as [|x xs IH] using rev_ind; [done|].
  rewrite length_app, Nat.add_1_r, seq_S, omap_app, imap_app. simpl.
  f_equal.
  - rewrite <- IH. apply list_omap_ext, Forall2_same_length_lookup.
    split; [done|]. intros i a b Ha Hb.
    assert (a = b) by congruence. subst b.
    apply lookup_seq in Ha as [-> Hi]. simpl.
    by rewrite lookup_app_l.
  - rewrite lookup_app_r by lia. rewrite Nat.sub_diag. simpl.
    by rewrite Nat.add_0_r.
Qed.

(** A valid schedule delivers every worker's result exactly once. *)
Lemma arrange_Permutation {A} sched (items : list A) :
  validSchedule sched (length items) ->
  Permutation (arrange sched items) (numbered items).
Proof.
  intros Hs. rewrite <- arrange_in_order. unfold arrange.
  by apply omap_Permutation.
Qed.

Lemma numbered_lookup {A} (items : list A) i x :
  (i, x) ∈ numbered items <-> items !! i = Some x.
Proof.
  unfold numbered. rewrite list_elem_of_lookup. split.
  - intros [j Hj]. rewrite list_lookup_imap in Hj.
    destruct (items !! j) eqn:E; simplify_eq/=. done.
  - intros H. exists i. by rewrite list_lookup_imap, H.
Qed.

Lemma numbered_snd {A} (items : list A) : map snd (numbered items) = items.
Proof.
  unfold numbered. change (snd <$> imap pair items = items).
  rewrite fmap_imap. rewrite (imap_ext _ (fun _ x => x)) by done.
  induction items as [|x xs IH]; [done|]. rewrite imap_cons. f_equal. exact IH.
Qed.

Lemma arrange_snd_Permutation {A} sched (items : list A) :
  validSchedule sched (length items) ->
  Permutation (map snd (arrange sched items)) items.
Proof.
  intros Hs. rewrite <- (numbered_snd items) at 2.
  apply Permutation_map, arrange_Permutation, Hs.
Qed.

(* ===================================================================== *)
(** * SizeService: the batch keeps what it could size *)
(* ===================================================================== *)

Section SizeServiceFacts.
Import SizeService.
Context (GetUploadSize : nat -> MultipartUpload.t -> result Z).

(** The record a worker's result contributes to the returned set. *)
Definition sizedBy (r : uploadResult.t) : option MultipartUpload.t :=
  match uploadResult.err r with
  | None => Some (uploadResult.upload r)
  | Some _ => None
  end.

(** Whether a result names [b] as an inaccessible bucket. *)
Definition blames (b : string) (r : uploadResult.t) : Prop :=
  uploadResult.err r <> None /\ uploadResult.inaccessibleBucket r = b.

(** The map [bucketErrorMap] mirrors the list [inaccessibleBuckets]. *)
Definition mirrors (acc : Collected) : Prop :=
  NoDup (inaccessibleBuckets acc)
  /\ forall b, default false (bucketErrorMap acc !! b) = true <-> b ∈ inaccessibleBuckets acc.

Lemma receive_sized acc r :
  uploadsWithSizes (receive acc r) = uploadsWithSizes acc ++ option_list (sizedBy r).
Proof.
  unfold receive, sizedBy. destruct (uploadResult.err r); simpl.
  - case_match; simpl; by rewrite app_nil_r.
  - done.
Qed.

Lemma receive_mirrors acc r : mirrors acc -> mirrors (receive acc r).
Proof.
  intros [Hnd Hmap]. unfold receive.
  destruct (uploadResult.err r) as [e|]; [|done].
  set (b := uploadResult.inaccessibleBucket r).
  destruct (negb (String.eqb b "") && negb (default false (bucketErrorMap acc !! b))) eqn:E;
    [|done].
  apply andb_true_iff in E as [_ Hnew]. apply negb_true_iff in Hnew.
  split; simpl.
  - apply NoDup_app. split_and!; [done| |apply NoDup_singleton].
    intros x Hx Hxb. apply list_elem_of_singleton in Hxb. subst x.
    apply Hmap in Hx. congruence.
  - intros b'. rewrite elem_of_app, list_elem_of_singleton.
    destruct (decide (b' = b)) as [->|Hne].
    + rewrite lookup_insert_eq. simpl. tauto.
    + rewrite lookup_insert_ne by done. rewrite Hmap. tauto.
Qed.

Lemma receive_inaccessible acc r b :
  mirrors acc ->
  b ∈ inaccessibleBuckets (receive acc r)
  <-> b ∈ inaccessibleBuckets acc \/ (b <> "" /\ blames b r).
Proof.
  intros [_ Hmap]. unfold receive, blames.
  destruct (uploadResult.err r) as [e|]; [|naive_solver].
  set (b0 := uploadResult.inaccessibleBucket r).
  destruct (String.eqb_spec b0 ""); simpl.
  - naive_solver.
  - destruct (default false (bucketErrorMap acc !! b0)) eqn:E; simpl.
    + apply Hmap in E. naive_solver.
    + rewrite elem_of_app, list_elem_of_singleton. naive_solver.
Qed.

Lemma collect_results rs : forall acc,
  mirrors acc ->
  let final := foldl receive acc rs in
  uploadsWithSizes final = uploadsWithSizes acc ++ omap sizedBy rs
  /\ mirrors final
  /\ forall b, b ∈ inaccessibleBuckets final
       <-> b ∈ inaccessibleBuckets acc \/ (b <> "" /\ exists r, r ∈ rs /\ blames b r).
Proof.
  induction rs as [|r rs IH]; intros acc Hacc; simpl.
  - split_and!; [by rewrite app_nil_r|done|].
    intros b. split; [by left|]. intros [?|[_ (r & Hr & _)]]; [done|].
    by apply elem_of_nil in Hr.
  - destruct (IH (receive acc r) (receive_mirrors acc r Hacc)) as (Hs & Hm & Hi).
    split_and!; [|done|].
    + rewrite Hs, receive_sized, <- app_assoc. f_equal.
      unfold sizedBy. by destruct (uploadResult.err r).
    + intros b. rewrite Hi, (receive_inaccessible acc r b Hacc).
      setoid_rewrite elem_of_cons. naive_solver.
Qed.

Lemma start_mirrors : mirrors start.
Proof.
  split; simpl; [apply NoDup_nil; done|].
  intros b. rewrite lookup_empty. simpl. split; [done|]. intros H. by apply elem_of_nil in H.
Qed.

(** What worker [i] contributes for record [u]. *)
Definition sizedRecord (iu : nat * MultipartUpload.t) : option MultipartUpload.t :=
  match GetUploadSize iu.1 iu.2 with
  | Ok size => Some (withSize iu.2 size)
  | Err _ => None
  end.

Lemma sizedBy_worker i u : sizedBy (worker GetUploadSize i u) = sizedRecord (i, u).
Proof. unfold sizedBy, worker, sizedRecord. simpl. by destruct (GetUploadSize i u). Qed.

Lemma blames_worker b i u :
  blames b (worker GetUploadSize i u)
  <-> (exists e, GetUploadSize i u = Err e) /\ MultipartUpload.Bucket u = b.
Proof.
  unfold blames, worker. destruct (GetUploadSize i u) as [size|e]; simpl.
  - split; [intros [H _]; done|intros [[e He] _]; done].
  - split; [intros [_ ->]; eauto|intros [_ ->]; done].
Qed.

Lemma sized_received (l : list (nat * MultipartUpload.t)) :
  omap sizedBy (map (fun '(i, u) => worker GetUploadSize i u) l) = omap sizedRecord l.
Proof.
  induction l as [|[i u] l IH]; [done|].
  cbn [map omap list_omap]. rewrite sizedBy_worker, IH. done.
Qed.

(** C5.  For every batch and every order in which the workers deliver, the
    batch size calculation returns a nil error; the records it returns are
    exactly those whose size lookup succeeded (with the size filled in), so
    a record whose lookup failed is dropped; the list of inaccessible
    buckets has no duplicates and holds exactly the non-empty bucket names
    of the records whose lookup failed. *)
Theorem calculateUploadSizes_partial_result sched uploads :
  validSchedule sched (length uploads) ->
  exists sized inaccessible,
    calculateUploadSizes GetUploadSize sched uploads = (sized, inaccessible, None)
    /\ Permutation sized (omap sizedRecord (numbered uploads))
    /\ NoDup inaccessible
    /\ forall b, b ∈ inaccessible
         <-> b <> "" /\ exists i u e,
               uploads !! i = Some u /\ GetUploadSize i u = Err e
               /\ MultipartUpload.Bucket u = b.
Proof.
  intros Hs. unfold calculateUploadSizes.
  destruct uploads as [|u0 us].
  { exists [], []. split_and!; [done|done|apply NoDup_nil; done|].
    intros b. split; [intros H; by apply elem_of_nil in H|].
    intros (_ & i & u & e & H & _). by rewrite lookup_nil in H. }
  set (uploads := u0 :: us) in *.
  set (received := map _ (arrange sched uploads)).
  destruct (collect_results received start start_mirrors) as (Hsized & [Hnd _] & Hin).
  eexists _, _. split; [reflexivity|]. split_and!.
  - rewrite Hsized. change (uploadsWithSizes start) with (@nil MultipartUpload.t).
    rewrite app_nil_l.
    transitivity (omap sizedRecord (arrange sched uploads));
      [|by apply omap_Permutation, arrange_Permutation].
    subst received. by rewrite sized_received.
  - done.
  - intros b. rewrite Hin. change (inaccessibleBuckets start) with (@nil string). split.
    + intros [H|[Hb (r & Hr & Hbl)]]; [by apply elem_of_nil in H|].
      split; [done|]. subst received.
      apply list_elem_of_fmap in Hr as ([i u] & -> & Hiu).
      rewrite (arrange_Permutation sched uploads Hs) in Hiu.
      apply numbered_lookup in Hiu. apply blames_worker in Hbl as [[e He] Hbu].
      eauto 10.
    + intros (Hb & i & u & e & Hiu & He & Hbu). right. split; [done|].
      exists (worker GetUploadSize i u). split.
      * subst received. apply list_elem_of_fmap. exists (i, u). split; [done|].
        rewrite (arrange_Permutation sched uploads Hs). by apply numbered_lookup.
      * apply blames_worker. eauto.
Qed.

End SizeServiceFacts.

(** A batch of three records, two of them in a bucket whose size lookups
    fail. *)
Lemma calculateUploadSizes_partial_result_witness :
  exists sized inaccessible,
    SizeService.calculateUploadSizes Sample.getUploadSize Sample.order Sample.batch
      = (sized, inaccessible, None)
    /\ Permutation sized (omap (sizedRecord Sample.getUploadSize) (numbered Sample.batch))
    /\ NoDup inaccessible
    /\ forall b, b ∈ inaccessible
         <-> b <> "" /\ exists i u e,
               Sample.batch !! i = Some u /\ Sample.getUploadSize i u = Err e
               /\ MultipartUpload.Bucket u = b.
Proof.
  apply (calculateUploadSizes_partial_result Sample.getUploadSize Sample.order Sample.batch).
  exact Sample.order_valid.
Defined.

Example calculateUploadSizes_sample :
  SizeService.calculateUploadSizes Sample.getUploadSize Sample.order Sample.batch
  = ([SizeService.withSize (Sample.upload "media" "c.bin" 30) 4096], ["logs"], None).
Proof. reflexivity. Qed.

(* ===================================================================== *)
(** * The retrying client *)
(* ===================================================================== *)

Section RetryFacts.
Import S3Client.
Context (lib : GoLib).

(** What the default configuration needs of [math.Pow]: the powers
    [2^0], [2^1] and [2^2] are exact. *)
Definition powersOfTwoExact : Prop :=
  Pow lib 2%float (Float64.ofInt 0) = 1%float
  /\ Pow lib 2%float (Float64.ofInt 1) = 2%float
  /\ Pow lib 2%float (Float64.ofInt 2) = 4%float.

Lemma default_delay attempt (p : float) (d : Z) :
  Pow lib 2%float (Float64.ofInt attempt) = p ->
  Float64.trunc (PrimFloat.mul (Float64.ofInt (100 * GoTime.Millisecond)) p) = Some d ->
  Int64.min <= d <= 30 * GoTime.Second ->
  calculateBackoffDelay lib DefaultRetryConfig attempt = d.
Proof.
  intros Hp Ht Hd. unfold calculateBackoffDelay, toInt64.
  cbn [DefaultRetryConfig RetryConfig.BaseDelay RetryConfig.BackoffFactor RetryConfig.MaxDelay].
  rewrite Hp, Ht.
  assert (d <= Int64.max) by (revert Hd; unfold Int64.max, Int64.min, GoTime.Second, GoTime.Millisecond; lia).
  destruct (Z.leb_spec Int64.min d); [|lia].
  destruct (Z.leb_spec d Int64.max); [|lia].
  simpl andb. cbv iota.
  destruct (Z.ltb_spec (30 * GoTime.Second) d); [lia|done].
Qed.

(** An operation that always fails with a retryable error, under a limiter
    that never fails and a context that is never cancelled. *)
Definition alwaysRetryable (env : Env) : Prop :=
  (forall a, limiterWait env a = None)
  /\ (forall a, ctxDone env a = None)
  /\ (forall a, exists e, operation env a = Some e /\ isRetryableError e = true).

(** C3, as amended.  With the default retry configuration, an operation
    that always returns a retryable error is attempted exactly 4 times
    (attempts 0 to 3) and the call then returns the aggregate failure that
    wraps the last error and the retry count 3; between the attempts the
    client sleeps three times, for 100ms, 200ms and 400ms: the [i]-th sleep
    is [min(100ms * 2^(i-1), 30s)], so the third is [min(400ms, 30s)]. *)
Theorem executeWithRetry_default_exhausts env :
  powersOfTwoExact ->
  alwaysRetryable env ->
  exists last steps,
    operation env 3 = Some last
    /\ executeWithRetry lib DefaultRetryConfig env
       = (Some (RetriesExhausted 3 (Raw last)), steps)
    /\ attempts steps = [0; 1; 2; 3]
    /\ sleeps steps
       = [Z.min (100 * GoTime.Millisecond) (30 * GoTime.Second);
          Z.min (200 * GoTime.Millisecond) (30 * GoTime.Second);
          Z.min (400 * GoTime.Millisecond) (30 * GoTime.Second)].
Proof.
  intros (H0 & H1 & H2) (Hlim & Hctx & Hop).
  assert (D0 : calculateBackoffDelay lib DefaultRetryConfig 0 = 100 * GoTime.Millisecond)
    by (apply (default_delay 0 _ _ H0); [reflexivity|vm_compute; split; discriminate]).
  assert (D1 : calculateBackoffDelay lib DefaultRetryConfig 1 = 200 * GoTime.Millisecond)
    by (apply (default_delay 1 _ _ H1); [reflexivity|vm_compute; split; discriminate]).
  assert (D2 : calculateBackoffDelay lib DefaultRetryConfig 2 = 400 * GoTime.Millisecond)
    by (apply (default_delay 2 _ _ H2); [reflexivity|vm_compute; split; discriminate]).
  destruct (Hop 0) as (e0 & E0 & R0), (Hop 1) as (e1 & E1 & R1),
    (Hop 2) as (e2 & E2 & R2), (Hop 3) as (e3 & E3 & R3).
  exists e3. eexists. split; [exact E3|].
  unfold executeWithRetry.
  change (Z.to_nat (RetryConfig.MaxRetries DefaultRetryConfig + 1)) with 4%nat.
  cbn [retryLoop]. rewrite !Hlim, !Hctx.
  change (0 + 1) with 1. change (1 + 1) with 2. change (2 + 1) with 3.
  rewrite E0, E1, E2, E3, R0, R1, R2, D0, D1, D2.
  cbn. split; [reflexivity|]. split; reflexivity.
Qed.

End RetryFacts.

(** The reference library computes the three powers exactly, and the
    throttling error of the sample is retryable. *)
Lemma executeWithRetry_default_exhausts_witness :
  exists last steps,
    S3Client.operation SampleRetry.alwaysSlowDown 3 = Some last
    /\ S3Client.executeWithRetry RefLib.lib S3Client.DefaultRetryConfig SampleRetry.alwaysSlowDown
       = (Some (RetriesExhausted 3 (Raw last)), steps)
    /\ S3Client.attempts steps = [0; 1; 2; 3]
    /\ S3Client.sleeps steps
       = [Z.min (100 * GoTime.Millisecond) (30 * GoTime.Second);
          Z.min (200 * GoTime.Millisecond) (30 * GoTime.Second);
          Z.min (400 * GoTime.Millisecond) (30 * GoTime.Second)].
Proof.
  apply (executeWithRetry_default_exhausts RefLib.lib SampleRetry.alwaysSlowDown).
  - repeat split; vm_compute; reflexivity.
  - split; [|split]; intros a; [reflexivity|reflexivity|].
    exists Sample.slowDown. split; [reflexivity|vm_compute; reflexivity].
Defined.

(** C3 as stated fails: the third backoff sleep is 400ms, not
    [min(800ms, 30s)] = 800ms.  The delay of attempt 3, which is 800ms, is
    never slept, because attempt 3 is the last. *)
Lemma third_backoff_sleep_is_400ms :
  S3Client.sleeps
    (snd (S3Client.executeWithRetry RefLib.lib S3Client.DefaultRetryConfig
            SampleRetry.alwaysSlowDown)) !! 2%nat
  = Some (400 * GoTime.Millisecond)
  /\ 400 * GoTime.Millisecond <> Z.min (800 * GoTime.Millisecond) (30 * GoTime.Second)
  /\ S3Client.calculateBackoffDelay RefLib.lib S3Client.DefaultRetryConfig 3
     = Z.min (800 * GoTime.Millisecond) (30 * GoTime.Second).
Proof. split; [|split]; vm_compute; [reflexivity|discriminate|reflexivity]. Qed.

(* ===================================================================== *)
(** * The region cache *)
(* ===================================================================== *)

Section RegionCacheFacts.
Import BucketService.
Context (clock : nat -> GoTime.Time).
Context (location : nat -> string -> result string).

(** The region a location constraint stands for. *)
Definition regionOf (constraint : string) : string :=
  if String.eqb constraint "" then "us-east-1" else constraint.

(** The cache entry of a bucket: the region and when it was stored. *)
Definition entry (s : t) (bucketName : string) : option (string * GoTime.Time) :=
  match regionCache s !! bucketName, cacheTime s !! bucketName with
  | Some region, Some cachedAt => Some (region, cachedAt)
  | _, _ => None
  end.

Lemma fetch_calls bucketName s :
  calls (fetch clock location bucketName s).2 = calls s ++ [bucketName].
Proof. unfold fetch. by destruct (location _ _). Qed.

Lemma fetch_Ok bucketName s region s' :
  fetch clock location bucketName s = (Ok region, s') ->
  entry s' bucketName = Some (region, clock (ticks s)).
Proof.
  unfold fetch, entry. destruct (location _ _) as [constraint|e]; [|done].
  intros [= <- <-]. simpl. by rewrite !lookup_insert_eq.
Qed.

(** No method changes the expiry the constructor sets. *)
Lemma GetBucketRegion_cacheExpiry bucketName s :
  cacheExpiry (GetBucketRegion clock location bucketName s).2 = cacheExpiry s.
Proof.
  unfold BucketService.GetBucketRegion, fetch.
  repeat case_match; simplify_eq/=; done.
Qed.

(** A successful resolution leaves an entry for the bucket. *)
Lemma GetBucketRegion_Ok_entry bucketName s region s' :
  GetBucketRegion clock location bucketName s = (Ok region, s') ->
  exists cachedAt, entry s' bucketName = Some (region, cachedAt).
Proof.
  unfold BucketService.GetBucketRegion.
  destruct (regionCache s !! bucketName) as [cached|] eqn:Hr;
    [destruct (cacheTime s !! bucketName) as [cachedAt|] eqn:Ht|].
  - case_match.
    + intros [= <- <-]. exists cachedAt. unfold entry. simpl. by rewrite Hr, Ht.
    + intros Hf. eexists. by apply fetch_Ok in Hf.
  - intros Hf. eexists. by apply fetch_Ok in Hf.
  - intros Hf. eexists. by apply fetch_Ok in Hf.
Qed.

(** Resolving another bucket leaves the entry alone. *)
Lemma GetBucketRegion_other bucketName other s :
  other <> bucketName ->
  entry (GetBucketRegion clock location other s).2 bucketName = entry s bucketName.
Proof.
  intros Hne. unfold BucketService.GetBucketRegion, fetch, entry.
  repeat case_match; simplify_eq/=; rewrite ?lookup_insert_ne in * by done;
    simplify_eq/=; done.
Qed.

(** C7.  After a successful resolution of a bucket the cache holds its
    region with the time of storing.  In every later state of the service
    that still holds this entry (expiry 1 hour): if the entry's age is
    under 1 hour, [GetBucketRegion] returns the cached region, sends no
    [GetBucketLocation] request and leaves the cache as it is; once the age
    has reached 1 hour it sends exactly one request, and the region that
    comes back is returned and stored with the time read after the fetch
    (if the request fails, the error is returned and the cache is left as
    it is). *)
Theorem region_cache_reuse_and_refresh bucketName s0 region s1 :
  GetBucketRegion clock location bucketName s0 = (Ok region, s1) ->
  exists cachedAt,
    entry s1 bucketName = Some (region, cachedAt)
    /\ forall s,
        cacheExpiry s = 1 * GoTime.Hour ->
        entry s bucketName = Some (region, cachedAt) ->
        let age := GoTime.Since (clock (ticks s)) cachedAt in
        (age < 1 * GoTime.Hour ->
           exists s', GetBucketRegion clock location bucketName s = (Ok region, s')
             /\ calls s' = calls s
             /\ regionCache s' = regionCache s /\ cacheTime s' = cacheTime s)
        /\ (1 * GoTime.Hour <= age ->
           exists r s', GetBucketRegion clock location bucketName s = (r, s')
             /\ calls s' = calls s ++ [bucketName]
             /\ match location (length (calls s)) bucketName with
                | Ok constraint =>
                    r = Ok (regionOf constraint)
                    /\ entry s' bucketName
                       = Some (regionOf constraint, clock (S (ticks s)))
                | Err err =>
                    r = Err (GetBucketLocationFailed bucketName err)
                    /\ regionCache s' = regionCache s /\ cacheTime s' = cacheTime s
                end).
Proof.
  intros H0. destruct (GetBucketRegion_Ok_entry _ _ _ _ H0) as [cachedAt Hentry].
  exists cachedAt. split; [done|].
  intros s Hexp Hs age. unfold entry in Hs.
  destruct (regionCache s !! bucketName) as [cached|] eqn:Hr; [|done].
  destruct (cacheTime s !! bucketName) as [at_|] eqn:Ht; [|done].
  injection Hs as -> ->.
  unfold BucketService.GetBucketRegion. rewrite Hr, Ht, Hexp. fold age.
  split; intros Hage.
  - destruct (Z.ltb_spec age (1 * GoTime.Hour)); [|lia].
    eexists. split; [reflexivity|]. done.
  - destruct (Z.ltb_spec age (1 * GoTime.Hour)); [lia|].
    unfold fetch. cbn [calls tick].
    destruct (location (length (calls s)) bucketName) as [constraint|err].
    + eexists _, _. split; [reflexivity|]. split; [done|]. split; [done|].
      unfold entry. simpl. by rewrite !lookup_insert_eq.
    + eexists _, _. split; [reflexivity|]. done.
Qed.

End RegionCacheFacts.

(** A fresh service resolves [logs] for the first time. *)
Lemma region_cache_reuse_and_refresh_witness :
  exists cachedAt,
    entry (BucketService.GetBucketRegion SampleCache.clock SampleCache.location "logs"
             BucketService.NewBucketService).2 "logs"
    = Some ("eu-west-1", cachedAt)
    /\ forall s,
        BucketService.cacheExpiry s = 1 * GoTime.Hour ->
        entry s "logs" = Some ("eu-west-1", cachedAt) ->
        let age := GoTime.Since (SampleCache.clock (BucketService.ticks s)) cachedAt in
        (age < 1 * GoTime.Hour ->
           exists s',
             BucketService.GetBucketRegion SampleCache.clock SampleCache.location "logs" s
             = (Ok "eu-west-1", s')
             /\ BucketService.calls s' = BucketService.calls s
             /\ BucketService.regionCache s' = BucketService.regionCache s
             /\ BucketService.cacheTime s' = BucketService.cacheTime s)
        /\ (1 * GoTime.Hour <= age ->
           exists r s',
             BucketService.GetBucketRegion SampleCache.clock SampleCache.location "logs" s
             = (r, s')
             /\ BucketService.calls s' = BucketService.calls s ++ ["logs"]
             /\ match SampleCache.location (length (BucketService.calls s)) "logs" with
                | Ok constraint =>
                    r = Ok (regionOf constraint)
                    /\ entry s' "logs"
                       = Some (regionOf constraint, SampleCache.clock (S (BucketService.ticks s)))
                | Err err =>
                    r = Err (GetBucketLocationFailed "logs" err)
                    /\ BucketService.regionCache s' = BucketService.regionCache s
                    /\ BucketService.cacheTime s' = BucketService.cacheTime s
                end).
Proof.
  apply (region_cache_reuse_and_refresh SampleCache.clock SampleCache.location
           "logs" BucketService.NewBucketService "eu-west-1").
  reflexivity.
Defined.

(** The sample clock in action: resolved at the first reading; half an hour
    later the cache answers; another half hour later the entry is one hour
    old and the client is asked again. *)
Example region_cache_sample :
  let get := BucketService.GetBucketRegion SampleCache.clock SampleCache.location "logs" in
  let s1 := (get BucketService.NewBucketService).2 in
  let s2 := (get s1).2 in
  let s3 := (get s2).2 in
  BucketService.calls s1 = ["logs"]
  /\ BucketService.calls s2 = ["logs"]
  /\ BucketService.calls s3 = ["logs"; "logs"]
  /\ (get s2).1 = Ok "eu-west-1".
Proof. vm_compute. repeat split. Qed.

(* ===================================================================== *)
(** * The filter engine: strings of decimal digits *)
(* ===================================================================== *)

Section DigitFacts.
Import GoStrings Strconv Engine.

Definition digits : list ascii := ["0"; "1"; "2"; "3"; "4"; "5"; "6"; "7"; "8"; "9"]%char.

Lemma isDigit_cases c : isDigit c = true -> In c digits.
Proof.
  destruct c as [[] [] [] [] [] [] [] []]; intros H;
    try (vm_compute in H; discriminate H); simpl; tauto.
Qed.

Ltac by_digit c H :=
  apply isDigit_cases in H; simpl in H;
  repeat (destruct H as [<-|H]; [reflexivity|]); destruct H.

Lemma digit_not_space table c l :
  table = spaceRunes \/ table = map (@rev N) spaceRunes ->
  isDigit c = true -> stripAny table (c :: l) = None.
Proof. intros [->| ->] H; by_digit c H. Qed.

Lemma digit_not_reSpace c : isDigit c = true -> isReSpace c = false.
Proof. intros H; by_digit c H. Qed.

Lemma digit_not_newline c : isDigit c = true -> isNewline c = false.
Proof. intros H; by_digit c H. Qed.

Lemma digit_ascii c : isDigit c = true -> (code c <? 128)%N = true.
Proof. intros H; by_digit c H. Qed.

Lemma digit_upper c : isDigit c = true -> upperByte c = c.
Proof. intros H; by_digit c H. Qed.

Lemma digit_not_sign c :
  isDigit c = true -> Ascii.eqb c "+" || Ascii.eqb c "-" = false.
Proof. intros H; by_digit c H. Qed.

Lemma digit_not_minus c : isDigit c = true -> Ascii.eqb c "-" = false.
Proof. intros H; by_digit c H. Qed.

Lemma digit_not_comma c : isDigit c = true -> Ascii.eqb c "," = false.
Proof. intros H; by_digit c H. Qed.

Lemma digitVal_nonneg c : isDigit c = true -> 0 <= digitVal c.
Proof. intros H. apply isDigit_cases in H. simpl in H.
  repeat (destruct H as [<-|H]; [vm_compute; discriminate|]). destruct H. Qed.

Lemma digitsValue_digits l : forall acc v,
  digitsValue acc l = Some v -> forallb isDigit l = true.
Proof.
  induction l as [|c l IH]; intros acc v; simpl; [done|].
  destruct (isDigit c); [|done]. intros H. simpl. eauto.
Qed.

Lemma digitsValue_nonneg l : forall acc v,
  0 <= acc -> digitsValue acc l = Some v -> 0 <= v.
Proof.
  induction l as [|c l IH]; intros acc v Hacc; simpl.
  - intros [= <-]. done.
  - destruct (isDigit c) eqn:Hc; [|done]. apply IH.
    pose proof (digitVal_nonneg c Hc). lia.
Qed.

(** A decimal numeral: a non-empty string of decimal digits, with its
    value. *)
Definition numeral (n : string) (v : Z) : Prop := parseDigits (bytes n) = Some v.

Lemma numeral_bytes n v :
  numeral n v ->
  exists c rest, bytes n = c :: rest /\ forallb isDigit (c :: rest) = true /\ 0 <= v.
Proof.
  unfold numeral, parseDigits. destruct (bytes n) as [|c rest]; [done|].
  intros H. exists c, rest. split; [done|]. split.
  - by apply digitsValue_digits in H.
  - by apply digitsValue_nonneg in H.
Qed.

Lemma trimWith_head_stays table fuel c l :
  stripAny table (c :: l) = None -> trimWith table fuel (c :: l) = c :: l.
Proof. intros H. destruct fuel; simpl; [done|]. by rewrite H. Qed.

(** [TrimSpace] leaves alone a string that neither starts nor ends with a
    white-space rune. *)
Lemma TrimSpace_untouched s c l d r :
  bytes s = c :: l -> rev (bytes s) = d :: r ->
  stripAny spaceRunes (c :: l) = None ->
  stripAny (map (@rev N) spaceRunes) (d :: r) = None ->
  TrimSpace s = s.
Proof.
  intros Hs Hr Hc Hd. unfold TrimSpace, trimLeft, trimRight.
  rewrite Hs, (trimWith_head_stays _ _ _ _ Hc), <- Hs, Hr.
  rewrite (trimWith_head_stays _ _ _ _ Hd), <- Hr, rev_involutive.
  apply ofBytes_bytes.
Qed.

Lemma forallb_rev_head {A} (p : A -> bool) l d r :
  forallb p l = true -> rev l = d :: r -> p d = true.
Proof.
  intros Hall Hr. rewrite forallb_forall in Hall. apply Hall.
  apply in_rev. rewrite Hr. by left.
Qed.

Lemma TrimSpace_numeral n v : numeral n v -> TrimSpace n = n.
Proof.
  intros Hn. destruct (numeral_bytes n v Hn) as (c & rest & Hb & Hd & _).
  destruct (rev (bytes n)) as [|d r] eqn:Hr.
  { apply (f_equal (@length _)) in Hr. rewrite length_rev, Hb in Hr. done. }
  apply (TrimSpace_untouched n c rest d r Hb Hr).
  - apply digit_not_space; [by left|]. simpl in Hd. by apply andb_true_iff in Hd as [? _].
  - apply digit_not_space; [by right|].
    rewrite <- Hb in Hd. exact (forallb_rev_head _ _ _ _ Hd Hr).
Qed.

Lemma bytes_app s t : bytes (s +:+ t) = bytes s ++ bytes t.
Proof. induction s as [|c s IH]; simpl; [done|]. unfold bytes in *. simpl. by rewrite IH. Qed.

Lemma splitBytes_no_sep sep l : forall cur,
  forallb (fun c => negb (Ascii.eqb c sep)) l = true ->
  splitBytes sep cur l = [ofBytes (rev cur ++ l)].
Proof.
  induction l as [|c l IH]; intros cur; simpl.
  - by rewrite app_nil_r.
  - intros H. apply andb_true_iff in H as [Hc Hl]. apply negb_true_iff in Hc.
    rewrite Hc, IH by done. simpl. by rewrite <- app_assoc.
Qed.

End DigitFacts.

(* ===================================================================== *)
(** * The filter engine: size predicates *)
(* ===================================================================== *)

Section SizeFilterFacts.
Import GoStrings Strconv Engine.
Context (lib : GoLib).

Lemma forallb_impl {A} (p q : A -> bool) l :
  (forall x, p x = true -> q x = true) -> forallb p l = true -> forallb q l = true.
Proof.
  intros Hpq. induction l as [|x l IH]; simpl; [done|].
  intros H. apply andb_true_iff in H as [Hx Hl]. by rewrite (Hpq x Hx), IH.
Qed.

Lemma ToUpper_numeral n v : numeral n v -> ToUpper lib n = n.
Proof.
  intros Hn. destruct (numeral_bytes n v Hn) as (c & rest & Hb & Hd & _).
  rewrite <- Hb in Hd. unfold ToUpper, isASCII.
  rewrite (forallb_impl _ _ _ digit_ascii Hd).
  rewrite <- (ofBytes_bytes n) at 2. f_equal.
  clear Hb. induction (bytes n) as [|x l IH]; simpl; [done|].
  simpl in Hd. apply andb_true_iff in Hd as [Hx Hl].
  by rewrite (digit_upper x Hx), IH.
Qed.

Lemma ParseInt_numeral n v : numeral n v -> v <= Int64.max -> ParseInt n = Some v.
Proof.
  intros Hn Hv. destruct (numeral_bytes n v Hn) as (c & rest & Hb & Hd & Hv0).
  unfold ParseInt. rewrite Hb. simpl in Hd. apply andb_true_iff in Hd as [Hc _].
  rewrite (digit_not_sign c Hc), (digit_not_minus c Hc).
  unfold numeral in Hn. rewrite Hb in Hn. rewrite Hn.
  cbn [negb andb]. unfold Int64.max in Hv.
  destruct (Z.leb_spec (2 ^ 63) v); [lia|done].
Qed.

(** A bare decimal numeral of at least two digits that fits in an int64 is
    read as that many bytes. *)
Lemma parseSizeBytes_numeral n v :
  numeral n v -> 2 <= len n -> v <= Int64.max -> parseSizeBytes lib n = Ok v.
Proof.
  intros Hn Hlen Hv. unfold parseSizeBytes.
  rewrite (TrimSpace_numeral n v Hn), (ToUpper_numeral n v Hn).
  destruct (Z.ltb_spec (len n) 2); [lia|].
  rewrite (ParseInt_numeral n v Hn Hv).
  destruct (numeral_bytes n v Hn) as (_ & _ & _ & _ & Hv0).
  destruct (Z.ltb_spec v 0); [lia|done].
Qed.

Lemma matchValue_numeral n v : numeral n v -> matchValue (bytes n) = Some (bytes n).
Proof.
  intros Hn. destruct (numeral_bytes n v Hn) as (c & rest & Hb & Hd & _).
  unfold matchValue. rewrite Hb.
  assert (Hc : isDigit c = true) by (simpl in Hd; by apply andb_true_iff in Hd as [? _]).
  cbn [span]. rewrite (digit_not_reSpace c Hc). cbn [fst length giveBack drop].
  unfold dotPlusToEnd.
  assert (Hnl : forallb (fun c => negb (isNewline c)) (c :: rest) = true).
  { apply (forallb_impl isDigit); [|exact Hd].
    intros x Hx. by rewrite (digit_not_newline x Hx). }
  by rewrite Hnl.
Qed.

Lemma FindStringSubmatch_size_eq n v :
  numeral n v -> FindStringSubmatch ("size=" +:+ n) = Some ("size", "=", n).
Proof.
  intros Hn. unfold FindStringSubmatch. rewrite bytes_app.
  change (bytes "size=") with ["s"; "i"; "z"; "e"; "="]%char.
  change (span isWord (["s"; "i"; "z"; "e"; "="]%char ++ bytes n))
    with (["s"; "i"; "z"; "e"]%char, ("=" :: bytes n)%char).
  cbv iota beta.
  change (snd (span isReSpace ("=" :: bytes n)%char)) with ("=" :: bytes n)%char.
  change (matchOperator operators ("=" :: bytes n)%char)
    with (match matchValue (bytes n) with
          | Some v => Some ("=", v)
          | None => None
          end).
  rewrite (matchValue_numeral n v Hn). by rewrite ofBytes_bytes.
Qed.

Lemma TrimSpace_size_eq n v : numeral n v -> TrimSpace ("size=" +:+ n) = "size=" +:+ n.
Proof.
  intros Hn. destruct (numeral_bytes n v Hn) as (c & rest & Hb & Hd & _).
  rewrite <- Hb in Hd.
  destruct (rev (bytes n)) as [|d r] eqn:Hr.
  { apply (f_equal (@length _)) in Hr. rewrite length_rev, Hb in Hr. done. }
  apply (TrimSpace_untouched _ "s"%char (["i"; "z"; "e"; "="]%char ++ bytes n)
           d (r ++ ["="; "e"; "z"; "i"; "s"]%char)).
  - by rewrite bytes_app.
  - rewrite bytes_app, rev_app_distr, Hr. done.
  - reflexivity.
  - apply digit_not_space; [by right|]. exact (forallb_rev_head _ _ _ _ Hd Hr).
Qed.

Lemma Split_size_eq n v : numeral n v -> Split ("size=" +:+ n) "," = ["size=" +:+ n].
Proof.
  intros Hn. destruct (numeral_bytes n v Hn) as (c & rest & Hb & Hd & _).
  rewrite <- Hb in Hd. unfold Split. rewrite splitBytes_no_sep.
  - simpl. by rewrite ofBytes_bytes.
  - rewrite bytes_app, forallb_app. apply andb_true_iff. split; [reflexivity|].
    apply (forallb_impl isDigit); [|exact Hd].
    intros x Hx. by rewrite (digit_not_comma x Hx).
Qed.

(** The filter with the single predicate [size = n]. *)
Definition sizeEquals (n : string) : Filter.t :=
  {| Filter.Age := None;
     Filter.Size := Some {| SizeFilter.Operator := "="; SizeFilter.Value := n |};
     Filter.StorageClass := None; Filter.Region := None; Filter.Bucket := None |}.

Lemma nonempty_not_blank s c l : bytes s = c :: l -> String.eqb s "" = false.
Proof. destruct s; [done|]. intros _. done. Qed.

(** C8, as amended.  For every decimal numeral [n] of at least two digits
    whose value is at most 2^63 - 1, parsing [size=n] succeeds and gives the
    single predicate [size = n], which matches exactly the records whose
    [Size] equals the value of [n] (an exact integer comparison); and the
    predicate [size != n] matches exactly the records whose [Size] differs
    from it. *)
Theorem size_equals_bare_integer n v :
  numeral n v -> 2 <= len n -> v <= Int64.max ->
  ParseFilter lib ("size=" +:+ n) = Ok (sizeEquals n)
  /\ (forall now upload,
        matchesFilter lib now upload (sizeEquals n) = (MultipartUpload.Size upload =? v))
  /\ (forall upload,
        matchesSizeFilter lib upload {| SizeFilter.Operator := "!="; SizeFilter.Value := n |}
        = negb (MultipartUpload.Size upload =? v)).
Proof.
  intros Hn Hlen Hv.
  pose proof (parseSizeBytes_numeral n v Hn Hlen Hv) as Hparse.
  split; [|split].
  - unfold ParseFilter. rewrite (TrimSpace_size_eq n v Hn).
    change (String.eqb ("size=" +:+ n) "") with false. cbv iota.
    rewrite (Split_size_eq n v Hn). cbn [parseConditions].
    rewrite (TrimSpace_size_eq n v Hn).
    change (String.eqb ("size=" +:+ n) "") with false. cbv iota.
    unfold parseCondition. rewrite (FindStringSubmatch_size_eq n v Hn).
    rewrite (TrimSpace_numeral n v Hn).
    change (ToLower lib "size") with "size".
    change (String.eqb "size" "age") with false.
    change (String.eqb "size" "size") with true.
    cbv iota. cbn [Filter.zero Filter.Size present Filter.Age Filter.StorageClass
                   Filter.Region Filter.Bucket].
    change (validateSizeOperator "=") with (@None error).
    unfold validateSizeValue. rewrite Hparse. reflexivity.
  - intros now upload. unfold matchesFilter, sizeEquals, holds.
    cbn [Filter.Age Filter.Size Filter.StorageClass Filter.Region Filter.Bucket negb].
    unfold matchesSizeFilter. cbn [SizeFilter.Value SizeFilter.Operator].
    rewrite Hparse.
    change (String.eqb "=" ">") with false. change (String.eqb "=" "<") with false.
    change (String.eqb "=" ">=") with false. change (String.eqb "=" "<=") with false.
    change (String.eqb "=" "=") with true. cbv iota.
    by destruct (MultipartUpload.Size upload =? v).
  - intros upload. unfold matchesSizeFilter. cbn [SizeFilter.Value SizeFilter.Operator].
    by rewrite Hparse.
Qed.

End SizeFilterFacts.

(** [size=104857600] matches exactly 100 MB. *)
Lemma size_equals_bare_integer_witness :
  Engine.ParseFilter RefLib.lib ("size=" +:+ "104857600") = Ok (sizeEquals "104857600")
  /\ (forall now upload,
        Engine.matchesFilter RefLib.lib now upload (sizeEquals "104857600")
        = (MultipartUpload.Size upload =? 100 * 1024 * 1024))
  /\ (forall upload,
        Engine.matchesSizeFilter RefLib.lib upload
          {| SizeFilter.Operator := "!="; SizeFilter.Value := "104857600" |}
        = negb (MultipartUpload.Size upload =? 100 * 1024 * 1024)).
Proof.
  apply (size_equals_bare_integer RefLib.lib "104857600" (100 * 1024 * 1024)).
  - reflexivity.
  - vm_compute. discriminate.
  - vm_compute. discriminate.
Defined.

(** C8 as stated fails: the one-digit numeral [5] is a non-negative
    integer, yet [size=5] is refused by the length check that comes before
    the bare-number case. *)
Lemma size_equals_single_digit_rejected :
  numeral "5" 5
  /\ Engine.ParseFilter RefLib.lib "size=5" = Err (InvalidCondition "size=5" (InvalidSizeFormat "5")).
Proof. split; reflexivity. Qed.

(** The spec's examples: [size<100MB] matches a 50 MB record and rejects a
    200 MB record; the units are multiples of 1024. *)
Example parseSizeBytes_units :
  Engine.parseSizeBytes RefLib.lib "100MB" = Ok (100 * 1024 * 1024)
  /\ Engine.parseSizeBytes RefLib.lib "50B" = Ok 50
  /\ Engine.parseSizeBytes RefLib.lib "2kb" = Ok 2048
  /\ Engine.parseSizeBytes RefLib.lib "1GB" = Ok (1024 * 1024 * 1024)
  /\ Engine.parseSizeBytes RefLib.lib "1TB" = Ok (1024 * 1024 * 1024 * 1024)
  /\ Engine.matchesSizeFilter RefLib.lib (Sample.upload "logs" "a.bin" (50 * 1024 * 1024))
       {| SizeFilter.Operator := "<"; SizeFilter.Value := "100MB" |} = true
  /\ Engine.matchesSizeFilter RefLib.lib (Sample.upload "logs" "a.bin" (200 * 1024 * 1024))
       {| SizeFilter.Operator := "<"; SizeFilter.Value := "100MB" |} = false.
Proof. repeat split; vm_compute; reflexivity. Qed.

(* ===================================================================== *)
(** * The filter engine: age predicates *)
(* ===================================================================== *)

Section AgeFilterFacts.
Import Engine.
Context (lib : GoLib).

(** Away from the int64 corner, the code's [absDiff] is the absolute
    difference. *)
Lemma absDiff_abs a b :
  Int64.min < a - b <= Int64.max -> absDiff a b = Z.abs (a - b).
Proof.
  intros H. unfold absDiff, Int64.sub, Int64.neg.
  rewrite (wrap_inRange (a - b)) by (unfold Int64.inRange; lia).
  destruct (Z.ltb_spec (a - b) 0).
  - rewrite wrap_inRange by (unfold Int64.inRange, Int64.min, Int64.max in *; lia). lia.
  - lia.
Qed.

(** The one-hour tolerance of [=] and [!=], for every record and every
    parsed age value whose difference does not overflow: [=] matches iff
    the age and the filter duration differ by at most one hour, [!=] iff
    they differ by more. *)
Lemma matchesAgeFilter_tolerance now upload value d :
  parseAgeDuration lib value = Ok d ->
  let age := GoTime.Since now (MultipartUpload.Initiated upload) in
  Int64.min < age - d <= Int64.max ->
  (matchesAgeFilter lib now upload {| AgeFilter.Operator := "="; AgeFilter.Value := value |} = true
   <-> Z.abs (age - d) <= GoTime.Hour)
  /\ (matchesAgeFilter lib now upload {| AgeFilter.Operator := "!="; AgeFilter.Value := value |} = true
      <-> GoTime.Hour < Z.abs (age - d)).
Proof.
  intros Hd age Hrange. unfold matchesAgeFilter.
  cbn [AgeFilter.Value AgeFilter.Operator]. rewrite Hd. fold age.
  change (String.eqb "=" ">") with false. change (String.eqb "=" "<") with false.
  change (String.eqb "=" ">=") with false. change (String.eqb "=" "<=") with false.
  change (String.eqb "=" "=") with true.
  change (String.eqb "!=" ">") with false. change (String.eqb "!=" "<") with false.
  change (String.eqb "!=" ">=") with false. change (String.eqb "!=" "<=") with false.
  change (String.eqb "!=" "=") with false. change (String.eqb "!=" "!=") with true.
  cbv iota. rewrite (absDiff_abs age d Hrange).
  split; [apply Z.leb_le|apply Z.ltb_lt].
Qed.

End AgeFilterFacts.

(** The spec's example: [age=7d] matches a record aged 7 days, give or take
    an hour, and rejects one that is 2 hours outside that window. *)
Example age_equals_seven_days :
  Engine.parseAgeDuration RefLib.lib "7d" = Ok (7 * 24 * GoTime.Hour)
  /\ (forall age,
        7 * 24 * GoTime.Hour - GoTime.Hour <= age <= 7 * 24 * GoTime.Hour + GoTime.Hour ->
        Engine.matchesAgeFilter RefLib.lib SampleAge.now (SampleAge.aged age)
          (SampleAge.ageIs "7d") = true)
  /\ Engine.matchesAgeFilter RefLib.lib SampleAge.now
       (SampleAge.aged (7 * 24 * GoTime.Hour + 3 * GoTime.Hour)) (SampleAge.ageIs "7d") = false
  /\ Engine.matchesAgeFilter RefLib.lib SampleAge.now
       (SampleAge.aged (7 * 24 * GoTime.Hour - 3 * GoTime.Hour)) (SampleAge.ageIs "7d") = false.
Proof.
  split; [reflexivity|]. split; [|split; vm_compute; reflexivity].
  intros age Hage.
  assert (Hsince : GoTime.Since SampleAge.now (MultipartUpload.Initiated (SampleAge.aged age)) = age).
  { unfold GoTime.Since, GoTime.Sub, Int64.clamp, SampleAge.aged. cbn [MultipartUpload.Initiated].
    replace (SampleAge.now - (SampleAge.now - age)) with age by lia.
    revert Hage. unfold Int64.min, Int64.max, GoTime.Hour, GoTime.Minute, GoTime.Second,
      GoTime.Millisecond. lia. }
  apply (matchesAgeFilter_tolerance RefLib.lib SampleAge.now (SampleAge.aged age) "7d"
           (7 * 24 * GoTime.Hour) eq_refl).
  - rewrite Hsince. revert Hage.
    unfold Int64.min, Int64.max, GoTime.Hour, GoTime.Minute, GoTime.Second, GoTime.Millisecond. lia.
  - rewrite Hsince. revert Hage.
    unfold GoTime.Hour, GoTime.Minute, GoTime.Second, GoTime.Millisecond. lia.
Qed.

(** C6 fails at the int64 corner.  For a record initiated more than 292
    years after the clock reading, [time.Since] saturates at the minimum
    Duration; subtracting the filter duration [0d] leaves it there, and
    negating the minimum int64 gives the minimum again, which is below one
    hour: [age=0d] matches the record (and [age!=0d] does not), although
    its age and the filter duration differ by 2^63 ns. *)
Lemma age_equality_matches_at_int64_minimum :
  Engine.parseAgeDuration RefLib.lib "0d" = Ok 0
  /\ GoTime.Since SampleAge.now (MultipartUpload.Initiated SampleAge.farFuture) = Int64.min
  /\ Engine.absDiff Int64.min 0 = Int64.min
  /\ Engine.matchesAgeFilter RefLib.lib SampleAge.now SampleAge.farFuture (SampleAge.ageIs "0d") = true
  /\ Engine.matchesAgeFilter RefLib.lib SampleAge.now SampleAge.farFuture (SampleAge.ageIsNot "0d") = false
  /\ GoTime.Hour < Z.abs (Int64.min - 0).
Proof. repeat split; vm_compute; reflexivity. Qed.

(* ===================================================================== *)
(** * Listing one bucket *)
(* ===================================================================== *)

Section BucketListingFacts.
Import UploadService.
Context (getRegionalClient : string -> result RegionalClient).

(** An entry that the client served in some page of the bucket's
    listing. *)
Definition served (bucket : Bucket.t) (entry : S3Upload.t) : Prop :=
  exists client page input output,
    getRegionalClient (Bucket.Region bucket) = Ok client
    /\ ListMultipartUploads client page input = Ok output
    /\ ListMultipartUploadsInput.Bucket input = Bucket.Name bucket
    /\ entry ∈ ListMultipartUploadsOutput.Uploads output.

(** What the listing guarantees of a record it returns. *)
Definition listedRecord (bucket : Bucket.t) (u : MultipartUpload.t) : Prop :=
  MultipartUpload.Size u = 0
  /\ MultipartUpload.StorageClass u <> ""
  /\ MultipartUpload.Bucket u = Bucket.Name bucket
  /\ MultipartUpload.Region u = Bucket.Region bucket.

Lemma convert_skips bucket entry :
  convert bucket entry = None
  <-> S3Upload.Key entry = None \/ S3Upload.UploadId entry = None
      \/ S3Upload.Initiated entry = None.
Proof.
  unfold convert.
  destruct (S3Upload.Key entry), (S3Upload.UploadId entry), (S3Upload.Initiated entry);
    naive_solver.
Qed.

Lemma convert_record bucket entry u :
  convert bucket entry = Some u ->
  listedRecord bucket u
  /\ S3Upload.Key entry = Some (MultipartUpload.Key u)
  /\ S3Upload.UploadId entry = Some (MultipartUpload.UploadID u)
  /\ S3Upload.Initiated entry = Some (MultipartUpload.Initiated u)
  /\ MultipartUpload.StorageClass u
     = (if String.eqb (S3Upload.StorageClass entry) "" then "STANDARD"
        else S3Upload.StorageClass entry).
Proof.
  unfold convert, listedRecord.
  destruct (S3Upload.Key entry), (S3Upload.UploadId entry), (S3Upload.Initiated entry);
    try done.
  intros [= <-]. simpl. split_and!; try done.
  by destruct (String.eqb_spec (S3Upload.StorageClass entry) "").
Qed.

Lemma requestPage_served bucket page keyMarker uploadIDMarker maxUploads output :
  requestPage getRegionalClient bucket page keyMarker uploadIDMarker maxUploads = Ok output ->
  Forall (served bucket) (ListMultipartUploadsOutput.Uploads output).
Proof.
  unfold requestPage. destruct (getRegionalClient (Bucket.Region bucket)) as [client|] eqn:Hc;
    [|done].
  destruct (ListMultipartUploads client page _) as [out|] eqn:Ho; [|done].
  intros [= <-]. apply Forall_forall. intros entry Hentry.
  eexists client, page, _, out. split_and!; [done|exact Ho|done|done].
Qed.

(** An error of the listing is the error of a request: of building the
    regional client, or of one [ListMultipartUploads] call for the
    bucket. *)
Definition requestFails (bucket : Bucket.t) (e : error) : Prop :=
  (exists err,
     getRegionalClient (Bucket.Region bucket) = Err err
     /\ e = RegionalClientFailed (Bucket.Name bucket) err)
  \/ (exists client page input err,
        getRegionalClient (Bucket.Region bucket) = Ok client
        /\ ListMultipartUploads client page input = Err err
        /\ ListMultipartUploadsInput.Bucket input = Bucket.Name bucket
        /\ e = ListMultipartUploadsFailed (Bucket.Name bucket) err).

Lemma requestPage_fails bucket page keyMarker uploadIDMarker maxUploads e :
  requestPage getRegionalClient bucket page keyMarker uploadIDMarker maxUploads = Err e ->
  requestFails bucket e.
Proof.
  unfold requestPage, requestFails.
  destruct (getRegionalClient (Bucket.Region bucket)) as [client|err] eqn:Hc.
  - destruct (ListMultipartUploads client page _) as [out|err] eqn:Ho; [done|].
    intros [= <-]. right. eexists client, page, _, err. by split_and!.
  - intros [= <-]. left. by exists err.
Qed.

(** The paging loop only ever appends the conversion of served entries,
    and only ever fails with the error of a request. *)
Lemma listPages_converted fuel bucket opts : forall page allUploads keyMarker uploadIDMarker r,
  listPages getRegionalClient fuel bucket opts page allUploads keyMarker uploadIDMarker
    = Some r ->
  match r with
  | Ok uploads =>
      exists entries,
        Forall (served bucket) entries
        /\ uploads = allUploads ++ omap (convert bucket) entries
  | Err e => requestFails bucket e
  end.
Proof.
  induction fuel as [|fuel IH]; intros page allUploads keyMarker uploadIDMarker r;
    [done|].
  cbn [listPages].
  destruct (_ && _).
  { intros [= <-]. exists []. split; [constructor|]. by rewrite app_nil_r. }
  destruct (requestPage _ _ _ _ _ _) as [output|err] eqn:Hreq.
  2:{ intros [= <-]. by eapply requestPage_fails. }
  pose proof (requestPage_served _ _ _ _ _ _ Hreq) as Hserved.
  destruct (isTruncated output).
  - intros Hrest. apply IH in Hrest. destruct r as [uploads|e]; [|done].
    destruct Hrest as (entries & Hentries & ->).
    exists (ListMultipartUploadsOutput.Uploads output ++ entries). split.
    + by apply Forall_app.
    + by rewrite omap_app, app_assoc.
  - intros [= <-]. by exists (ListMultipartUploadsOutput.Uploads output).
Qed.

(** A client that answers every request, and whose [n]-th page is the
    last one at the latest. *)
Definition answersWithin (client : RegionalClient) (n : nat) : Prop :=
  (forall page input, exists output, ListMultipartUploads client page input = Ok output)
  /\ (forall input output,
        ListMultipartUploads client n input = Ok output -> isTruncated output = false).

(** With such a client the loop ends in a list, whatever the entries. *)
Lemma listPages_produces bucket opts client n :
  getRegionalClient (Bucket.Region bucket) = Ok client ->
  answersWithin client n ->
  forall fuel page allUploads keyMarker uploadIDMarker,
    (page <= n)%nat -> (n - page < fuel)%nat ->
    exists uploads,
      listPages getRegionalClient fuel bucket opts page allUploads keyMarker uploadIDMarker
      = Some (Ok uploads).
Proof.
  intros Hclient [Hanswers Hlast].
  induction fuel as [|fuel IH]; intros page allUploads keyMarker uploadIDMarker Hpage Hfuel;
    [lia|].
  cbn [listPages].
  destruct (_ && _); [by eexists|].
  unfold requestPage. rewrite Hclient.
  match goal with
  | |- context [ListMultipartUploads client page ?input] =>
      destruct (Hanswers page input) as [output Houtput]; rewrite Houtput
  end.
  destruct (isTruncated output) eqn:Htruncated; [|by eexists].
  assert (page <> n) by (intros ->; apply Hlast in Houtput; congruence).
  apply IH; lia.
Qed.

(** The first request of a listing. *)
Definition firstRequest (bucket : Bucket.t) (opts : ListOptions.t)
  : ListMultipartUploadsInput.t :=
  {| ListMultipartUploadsInput.Bucket := Bucket.Name bucket;
     ListMultipartUploadsInput.KeyMarker := None;
     ListMultipartUploadsInput.UploadIdMarker := None;
     ListMultipartUploadsInput.MaxUploads :=
       if 0 <? ListOptions.MaxResults opts
       then Some (Int32.wrap (ListOptions.MaxResults opts)) else None |}.

Lemma listUploadsForBucket_one_page fuel bucket opts client output :
  getRegionalClient (Bucket.Region bucket) = Ok client ->
  ListMultipartUploads client 0 (firstRequest bucket opts) = Ok output ->
  isTruncated output = false ->
  listUploadsForBucket getRegionalClient (S fuel) bucket opts
  = Some (Ok (omap (convert bucket) (ListMultipartUploadsOutput.Uploads output))).
Proof.
  intros Hclient Houtput Hlast. unfold listUploadsForBucket. cbn [listPages].
  change (Z.of_nat (length (@nil MultipartUpload.t))) with 0. rewrite Z.sub_0_r.
  destruct (Z.ltb_spec 0 (ListOptions.MaxResults opts)).
  - destruct (Z.leb_spec (ListOptions.MaxResults opts) 0); [lia|]. cbn [andb].
    unfold requestPage. rewrite Hclient.
    unfold firstRequest in Houtput.
    destruct (Z.ltb_spec 0 (ListOptions.MaxResults opts)); [|lia].
    by rewrite Houtput, Hlast.
  - cbn [andb]. unfold requestPage. rewrite Hclient.
    unfold firstRequest in Houtput.
    destruct (Z.ltb_spec 0 (ListOptions.MaxResults opts)); [lia|].
    by rewrite Houtput, Hlast.
Qed.

(** C9, as amended.  The listing of a bucket fails only with the error of
    a request, never because of an entry: with a client that answers every
    request and ends its pages, it returns a list whatever the entries are,
    and a listing that ends with its first page returns exactly the
    conversions, in order, of that page's entries.  In general the records
    returned are the conversions, in order, of entries the client served,
    an entry with an absent key, upload id or initiation time being skipped
    without a record and without an error.  Every returned record has
    [Size] 0, a non-empty storage class ("STANDARD" when the entry carries
    none), the name and the region of the bucket that was listed, and the
    key, upload id and initiation time that are present in its entry.
    (Whether these are empty or zero is not checked.) *)
Theorem listUploadsForBucket_records fuel bucket opts :
  (forall uploads,
     listUploadsForBucket getRegionalClient fuel bucket opts = Some (Ok uploads) ->
     (exists entries,
        Forall (served bucket) entries /\ uploads = omap (convert bucket) entries)
     /\ Forall (listedRecord bucket) uploads)
  /\ (forall e,
        listUploadsForBucket getRegionalClient fuel bucket opts = Some (Err e) ->
        requestFails bucket e)
  /\ (forall client n,
        getRegionalClient (Bucket.Region bucket) = Ok client ->
        answersWithin client n ->
        (n < fuel)%nat ->
        exists uploads,
          listUploadsForBucket getRegionalClient fuel bucket opts = Some (Ok uploads))
  /\ (forall client output,
        getRegionalClient (Bucket.Region bucket) = Ok client ->
        ListMultipartUploads client 0 (firstRequest bucket opts) = Ok output ->
        isTruncated output = false ->
        (0 < fuel)%nat ->
        listUploadsForBucket getRegionalClient fuel bucket opts
        = Some (Ok (omap (convert bucket) (ListMultipartUploadsOutput.Uploads output))))
  /\ (forall entry,
        convert bucket entry = None
        <-> S3Upload.Key entry = None \/ S3Upload.UploadId entry = None
            \/ S3Upload.Initiated entry = None)
  /\ (forall entry u,
        convert bucket entry = Some u ->
        S3Upload.Key entry = Some (MultipartUpload.Key u)
        /\ S3Upload.UploadId entry = Some (MultipartUpload.UploadID u)
        /\ S3Upload.Initiated entry = Some (MultipartUpload.Initiated u)
        /\ MultipartUpload.StorageClass u
           = (if String.eqb (S3Upload.StorageClass entry) "" then "STANDARD"
              else S3Upload.StorageClass entry)).
Proof.
  split_and!.
  - intros uploads H. apply listPages_converted in H as (entries & Hserved & ->).
    rewrite app_nil_l. split; [by exists entries|].
    apply Forall_forall. intros u Hu.
    apply list_elem_of_omap in Hu as (entry & _ & Hconv).
    by apply convert_record in Hconv as [? _].
  - intros e H. by apply listPages_converted in H.
  - intros client n Hclient Hanswers Hfuel.
    apply (listPages_produces bucket opts client n Hclient Hanswers); lia.
  - intros client output Hclient Houtput Hlast Hfuel.
    destruct fuel as [|fuel]; [lia|]. by eapply listUploadsForBucket_one_page.
  - apply convert_skips.
  - intros entry u Hconv. by apply convert_record in Hconv as (_ & ? & ? & ? & ?).
Qed.

End BucketListingFacts.

(** The sample page has five entries, three of which lack a field: the
    listing returns the two complete ones and no error. *)
Lemma listUploadsForBucket_records_witness :
  UploadService.listUploadsForBucket SampleSparse.getRegionalClient 1
    (SampleListing.bucket "logs") (SampleListing.options 0 0)
  = Some (Ok [Sample.upload "logs" "a.bin" 0; Sample.upload "logs" "b.bin" 0])
  /\ exists uploads,
       UploadService.listUploadsForBucket SampleSparse.getRegionalClient 5
         (SampleListing.bucket "logs") (SampleListing.options 1 0)
       = Some (Ok uploads).
Proof.
  split.
  - destruct (listUploadsForBucket_records SampleSparse.getRegionalClient 1
                (SampleListing.bucket "logs") (SampleListing.options 0 0))
      as (_ & _ & _ & Hpage & _).
    apply (Hpage SampleSparse.client SampleSparse.page); [reflexivity..|lia].
  - destruct (listUploadsForBucket_records SampleSparse.getRegionalClient 5
                (SampleListing.bucket "logs") (SampleListing.options 1 0))
      as (_ & _ & Hproduced & _).
    apply (Hproduced SampleSparse.client 0%nat); [reflexivity| |lia].
    split; [by eexists|]. by intros input output [= <-].
Defined.

(** C9 as stated fails: an entry whose key is present but empty is not
    skipped, and the record made from it has an empty key (which
    [MultipartUpload.Validate] refuses). *)
Lemma listed_record_with_empty_key :
  exists u,
    UploadService.listUploadsForBucket SampleListing.emptyKeyClient 1
      (SampleListing.bucket "logs") (SampleListing.options 0 0) = Some (Ok [u])
    /\ MultipartUpload.Key u = ""
    /\ MultipartUpload_Validate u
       = Some (Validation {| Field := "Key"; Message := "key cannot be empty" |}).
Proof. eexists. split; [reflexivity|]. split; reflexivity. Qed.

(* ===================================================================== *)
(** * Listing many buckets *)
(* ===================================================================== *)

Section MultiBucketFacts.
Import UploadService.
Context (getRegionalClient : string -> result RegionalClient).
Context (GetBucketRegion : string -> result string).
Context (ListBuckets : string -> result (list Bucket.t)).

(** The record lists of the buckets whose listing succeeded, and the errors
    of the others. *)
Definition oks (results : list (result (list MultipartUpload.t)))
  : list (list MultipartUpload.t) :=
  omap (fun r => match r with Ok l => Some l | Err _ => None end) results.

Definition errs (results : list (result (list MultipartUpload.t))) : list error :=
  omap (fun r => match r with Err e => Some e | Ok _ => None end) results.

(** The aggregate error for [n] failed buckets; nil for none. *)
Definition aggregate (n : nat) : option error :=
  match n with O => None | S _ => Some (SomeBucketsFailed n) end.

(** The part of the union that the options ask for: all of it unless an
    offset or a maximum is set. *)
Definition window (opts : ListOptions.t) (union : list MultipartUpload.t)
  : outcome (list MultipartUpload.t) :=
  if (0 <? ListOptions.Offset opts) || (0 <? ListOptions.MaxResults opts)
  then applyPagination union opts
  else Returns union.

(** The buckets the multi-bucket path lists. *)
Definition selected (opts : ListOptions.t) (all : list Bucket.t) : list Bucket.t :=
  if negb (String.eqb (ListOptions.Region opts) "")
  then filter (fun b => String.eqb (Bucket.Region b) (ListOptions.Region opts) = true) all
  else all.

Lemma Permutation_concat {A} (l k : list (list A)) :
  Permutation l k -> Permutation (concat l) (concat k).
Proof.
  induction 1 as [|x l k Hlk IH|x y l|l k m Hlk IH1 Hkm IH2]; simpl.
  - done.
  - by apply Permutation_app_head.
  - rewrite !app_assoc. apply Permutation_app_tail, Permutation_app_comm.
  - by transitivity (concat k).
Qed.

Lemma collect_spec received : forall allUploads errors,
  collect received allUploads errors
  = (allUploads ++ concat (oks received), errors ++ errs received).
Proof.
  induction received as [|[uploads|err] rest IH]; intros allUploads errors; simpl.
  - by rewrite !app_nil_r.
  - rewrite IH. cbn. by rewrite app_assoc.
  - rewrite IH. cbn. by rewrite <- app_assoc.
Qed.

Lemma allFinished_length {A} (l : list (option A)) results :
  allFinished l = Some results -> length results = length l.
Proof.
  revert results. induction l as [|[a|] l IH]; intros results; simpl; [by intros [= <-]| |done].
  destruct (allFinished l) as [rest|]; [|done]. intros [= <-]. simpl. f_equal. by apply IH.
Qed.

Lemma finishListing_spec opts received :
  finishListing opts received
  = match window opts (concat (oks received)) with
    | Panics => Panics
    | Returns page =>
        Returns {| listed := page;
                   failure := aggregate (length (errs received));
                   stderr := match errs received with
                             | [] => []
                             | _ :: _ => logErrors (errs received)
                             end |}
    end.
Proof.
  unfold finishListing, window. rewrite collect_spec. cbn [app].
  destruct ((0 <? ListOptions.Offset opts) || (0 <? ListOptions.MaxResults opts));
    [destruct (applyPagination _ _); [|done]|]; by destruct (errs received).
Qed.

(** The scenario of the multi-bucket path: valid options without a bucket
    name, a bucket listing that succeeds, workers that all return, and a
    schedule for them. *)
Definition multiBucketRun (fuel : nat) (sched : schedule) (opts : ListOptions.t)
    (results : list (result (list MultipartUpload.t))) : Prop :=
  ListOptions_Validate opts = None
  /\ ListOptions.BucketName opts = ""
  /\ exists all,
       ListBuckets "" = Ok all
       /\ allFinished (map (fun b => listUploadsForBucket getRegionalClient fuel b opts)
                           (selected opts all)) = Some results
       /\ validSchedule sched (length (selected opts all)).

Lemma ListUploads_multiBucket fuel sched opts results :
  multiBucketRun fuel sched opts results ->
  exists received,
    Permutation received results
    /\ ListUploads getRegionalClient GetBucketRegion ListBuckets fuel sched opts
       = Some (finishListing opts received).
Proof.
  intros (Hvalid & Hname & all & Hall & Hfin & Hsched).
  exists (map snd (arrange sched results)). split.
  - apply arrange_snd_Permutation.
    apply allFinished_length in Hfin. rewrite length_map in Hfin. by rewrite Hfin.
  - unfold ListUploads. rewrite Hvalid, Hname, Hall. cbn [String.eqb negb].
    unfold listUploadsForBuckets. fold (selected opts all). by rewrite Hfin.
Qed.

(** C4, as amended.  On the multi-bucket path a failed bucket listing does
    not abort the others: [ListUploads] returns the union of the records of
    the buckets whose listing succeeded (in the order the workers
    delivered), restricted to the offset/maximum window when the options set
    one and whole otherwise, together with one aggregate error that counts
    the buckets that failed (nil if none did). *)
Theorem ListUploads_partial_failure fuel sched opts results :
  multiBucketRun fuel sched opts results ->
  exists union,
    Permutation union (concat (oks results))
    /\ (ListOptions.Offset opts = 0 -> ListOptions.MaxResults opts = 0 ->
        window opts union = Returns union)
    /\ match ListUploads getRegionalClient GetBucketRegion ListBuckets fuel sched opts with
       | Some (Returns l) =>
           window opts union = Returns (listed l)
           /\ failure l = aggregate (length (errs results))
       | Some Panics => window opts union = Panics
       | None => False
       end.
Proof.
  intros Hrun. destruct (ListUploads_multiBucket _ _ _ _ Hrun) as (received & Hperm & ->).
  exists (concat (oks received)). split_and!.
  - apply Permutation_concat. unfold oks. by apply omap_Permutation.
  - intros Ho Hm. unfold window. by rewrite Ho, Hm.
  - rewrite finishListing_spec.
    destruct (window opts (concat (oks received))); [|done].
    cbn [listed failure]. split; [done|].
    f_equal. apply Permutation_length. unfold errs. by apply omap_Permutation.
Qed.

Lemma applyPagination_length uploads opts :
  0 <= ListOptions.Offset opts ->
  0 < ListOptions.MaxResults opts ->
  ListOptions.Offset opts + ListOptions.MaxResults opts <= Int64.max ->
  exists page,
    applyPagination uploads opts = Returns page
    /\ Z.of_nat (length page) <= ListOptions.MaxResults opts.
Proof.
  intros Hoff Hmax Hsum. unfold applyPagination.
  set (start := ListOptions.Offset opts) in *.
  set (m := ListOptions.MaxResults opts) in *.
  set (n := Z.of_nat (length uploads)).
  destruct (Z.leb_spec n start).
  { exists []. split; [done|]. simpl. lia. }
  assert (Hadd : Int64.add start m = start + m).
  { apply wrap_inRange. unfold Int64.inRange, Int64.min in *. lia. }
  rewrite Hadd. destruct (Z.ltb_spec 0 m); [|lia]. cbn [andb].
  unfold slice.
  destruct (Z.ltb_spec (start + m) n).
  - destruct (Z.leb_spec 0 start); [|lia].
    destruct (Z.leb_spec start (start + m)); [|lia].
    destruct (Z.leb_spec (start + m) (Z.of_nat (length uploads))); [|subst n; lia].
    eexists. split; [reflexivity|]. rewrite length_take. lia.
  - destruct (Z.leb_spec 0 start); [|lia].
    destruct (Z.leb_spec start n); [|lia].
    destruct (Z.leb_spec n (Z.of_nat (length uploads))); [|subst n; lia].
    eexists. split; [reflexivity|]. rewrite length_take, length_drop. subst n. lia.
Qed.

Lemma ListOptions_Validate_None opts :
  ListOptions_Validate opts = None ->
  0 <= ListOptions.MaxResults opts /\ 0 <= ListOptions.Offset opts.
Proof.
  unfold ListOptions_Validate, invalid.
  destruct (Z.ltb_spec (ListOptions.MaxResults opts) 0); [done|].
  destruct (Z.ltb_spec (ListOptions.Offset opts) 0); [done|]. done.
Qed.

(** C10, as amended.  On the multi-bucket path, when the offset is at least
    the number of records collected over all buckets, [ListUploads] returns
    an empty list without slicing out of range, and its error is nil
    exactly when no bucket listing failed; and when the maximum is positive
    and offset + maximum does not exceed the largest int, the returned list
    has at most that many records. *)
Theorem ListUploads_pagination_bounds fuel sched opts results :
  multiBucketRun fuel sched opts results ->
  (Z.of_nat (length (concat (oks results))) <= ListOptions.Offset opts ->
   exists l,
     ListUploads getRegionalClient GetBucketRegion ListBuckets fuel sched opts
       = Some (Returns l)
     /\ listed l = []
     /\ (failure l = None <-> errs results = []))
  /\ (0 < ListOptions.MaxResults opts ->
      ListOptions.Offset opts + ListOptions.MaxResults opts <= Int64.max ->
      exists l,
        ListUploads getRegionalClient GetBucketRegion ListBuckets fuel sched opts
          = Some (Returns l)
        /\ Z.of_nat (length (listed l)) <= ListOptions.MaxResults opts).
Proof.
  intros Hrun. pose proof Hrun as (Hvalid & _).
  apply ListOptions_Validate_None in Hvalid as [Hm Ho].
  destruct (ListUploads_multiBucket _ _ _ _ Hrun) as (received & Hperm & ->).
  rewrite finishListing_spec.
  assert (Hlen : length (concat (oks received)) = length (concat (oks results))).
  { apply Permutation_length, Permutation_concat. unfold oks. by apply omap_Permutation. }
  assert (Herrs : length (errs received) = length (errs results)).
  { apply Permutation_length. unfold errs. by apply omap_Permutation. }
  split.
  - intros Hoff. rewrite <- Hlen in Hoff.
    assert (Hw : window opts (concat (oks received)) = Returns []).
    { unfold window, applyPagination.
      destruct ((0 <? ListOptions.Offset opts) || (0 <? ListOptions.MaxResults opts)) eqn:E.
      - destruct (Z.leb_spec (Z.of_nat (length (concat (oks received))))
                    (ListOptions.Offset opts)); [done|lia].
      - apply orb_false_iff in E as [E _]. apply Z.ltb_ge in E.
        destruct (concat (oks received)); [done|]. simpl in Hoff. lia. }
    rewrite Hw. eexists. split; [reflexivity|]. cbn [listed failure]. split; [done|].
    rewrite Herrs. destruct (errs results); simpl; split; done.
  - intros Hpos Hsum. unfold window.
    destruct (Z.ltb_spec 0 (ListOptions.MaxResults opts)); [|lia].
    rewrite orb_true_r.
    destruct (applyPagination_length (concat (oks received)) opts Ho Hpos Hsum)
      as (page & -> & Hpage).
    eexists. split; [reflexivity|]. done.
Qed.

End MultiBucketFacts.

Section MultiBucketSamples.
Import SampleListing SampleResults.

(** The sample runs: three buckets, the second of which is refused. *)
Ltac sample_run all :=
  split; [reflexivity|]; split; [reflexivity|];
  exists all; split; [reflexivity|]; split; [reflexivity|].

Lemma sample_run_whole :
  multiBucketRun getRegionalClient ListBuckets 1 Sample.order (options 0 0) results.
Proof. sample_run buckets. exact Sample.order_valid. Defined.

Lemma sample_run_offset :
  multiBucketRun getRegionalClient ListBuckets 1 Sample.order (options 0 10) results.
Proof. sample_run buckets. exact Sample.order_valid. Defined.

Lemma sample_run_maximum :
  multiBucketRun getRegionalClient ListBuckets 1 Sample.order (options 3 1) results.
Proof. sample_run buckets. exact Sample.order_valid. Defined.

End MultiBucketSamples.

(** Three buckets, one of them refused, no window: the records of the other
    two and an aggregate error that counts one failure. *)
Lemma ListUploads_partial_failure_witness :
  exists union,
    Permutation union (concat (oks SampleResults.results))
    /\ (ListOptions.Offset (SampleListing.options 0 0) = 0 ->
        ListOptions.MaxResults (SampleListing.options 0 0) = 0 ->
        window (SampleListing.options 0 0) union = Returns union)
    /\ match UploadService.ListUploads SampleListing.getRegionalClient
               SampleListing.GetBucketRegion SampleListing.ListBuckets 1 Sample.order
               (SampleListing.options 0 0) with
       | Some (Returns l) =>
           window (SampleListing.options 0 0) union = Returns (UploadService.listed l)
           /\ UploadService.failure l = aggregate (length (errs SampleResults.results))
       | Some Panics => window (SampleListing.options 0 0) union = Panics
       | None => False
       end.
Proof.
  apply (ListUploads_partial_failure SampleListing.getRegionalClient
           SampleListing.GetBucketRegion SampleListing.ListBuckets 1 Sample.order
           (SampleListing.options 0 0) SampleResults.results).
  exact sample_run_whole.
Defined.

Example ListUploads_three_buckets_one_failing :
  exists l,
    UploadService.ListUploads SampleListing.getRegionalClient
      SampleListing.GetBucketRegion SampleListing.ListBuckets 1 Sample.order
      (SampleListing.options 0 0) = Some (Returns l)
    /\ UploadService.listed l
       = SampleResults.recordsOf "logs" ++ SampleResults.recordsOf "backup"
    /\ UploadService.failure l = Some (SomeBucketsFailed 1)
    /\ aggregateMessage (SomeBucketsFailed 1)
       = Some "failed to list uploads for some buckets: 1 errors occurred"
    /\ UploadService.stderr l
       = [UploadService.BucketAccessError 1
            (ListMultipartUploadsFailed "media" Sample.accessDenied)].
Proof. eexists. split; [reflexivity|]. repeat split; vm_compute; reflexivity. Qed.

(** C4 as stated fails when the options set a window: with offset 1 the
    list returned has three records, while the buckets whose listing
    succeeded hold four. *)
Lemma ListUploads_offset_drops_a_record :
  UploadService.listUploadsForBucket SampleListing.getRegionalClient 1
    (SampleListing.bucket "logs") (SampleListing.options 0 1)
    = Some (Ok (SampleResults.recordsOf "logs"))
  /\ UploadService.listUploadsForBucket SampleListing.getRegionalClient 1
       (SampleListing.bucket "backup") (SampleListing.options 0 1)
     = Some (Ok (SampleResults.recordsOf "backup"))
  /\ exists l,
       UploadService.ListUploads SampleListing.getRegionalClient
         SampleListing.GetBucketRegion SampleListing.ListBuckets 1 Sample.order
         (SampleListing.options 0 1) = Some (Returns l)
       /\ UploadService.failure l = Some (SomeBucketsFailed 1)
       /\ ~ Permutation (UploadService.listed l)
            (SampleResults.recordsOf "logs" ++ SampleResults.recordsOf "backup").
Proof.
  split; [reflexivity|]. split; [reflexivity|].
  eexists. split; [reflexivity|]. split; [reflexivity|].
  intros H. apply Permutation_length in H. vm_compute in H. discriminate H.
Qed.

(** An offset beyond the four records collected, and a maximum of three
    from offset one. *)
Lemma ListUploads_pagination_bounds_witness :
  (exists l,
     UploadService.ListUploads SampleListing.getRegionalClient
       SampleListing.GetBucketRegion SampleListing.ListBuckets 1 Sample.order
       (SampleListing.options 0 10) = Some (Returns l)
     /\ UploadService.listed l = []
     /\ (UploadService.failure l = None <-> errs SampleResults.results = []))
  /\ (exists l,
        UploadService.ListUploads SampleListing.getRegionalClient
          SampleListing.GetBucketRegion SampleListing.ListBuckets 1 Sample.order
          (SampleListing.options 3 1) = Some (Returns l)
        /\ Z.of_nat (length (UploadService.listed l))
           <= ListOptions.MaxResults (SampleListing.options 3 1)).
Proof.
  split.
  - apply (ListUploads_pagination_bounds SampleListing.getRegionalClient
             SampleListing.GetBucketRegion SampleListing.ListBuckets 1 Sample.order
             (SampleListing.options 0 10) SampleResults.results sample_run_offset).
    vm_compute. discriminate.
  - apply (ListUploads_pagination_bounds SampleListing.getRegionalClient
             SampleListing.GetBucketRegion SampleListing.ListBuckets 1 Sample.order
             (SampleListing.options 3 1) SampleResults.results sample_run_maximum).
    + reflexivity.
    + vm_compute. discriminate.
Defined.

(** C10 as stated fails: the offset 0 is at least the number of records
    collected (none, the only bucket being refused), the list returned is
    empty, but the error is the aggregate error, not nil. *)
Lemma ListUploads_empty_page_with_error :
  exists l,
    UploadService.ListUploads SampleListing.getRegionalClient
      SampleListing.GetBucketRegion SampleListing.ListRefused 1 [0%nat]
      (SampleListing.options 0 0) = Some (Returns l)
    /\ Z.of_nat (length (concat (oks SampleResults.refused)))
       <= ListOptions.Offset (SampleListing.options 0 0)
    /\ UploadService.listed l = []
    /\ UploadService.failure l = Some (SomeBucketsFailed 1)
    /\ UploadService.failure l <> None.
Proof.
  eexists. split; [reflexivity|]. split; [vm_compute; discriminate|].
  split; [reflexivity|]. split; [reflexivity|discriminate].
Qed.

(** The slice of [applyPagination] goes out of range when offset + maximum
    overflows the int: with two records, offset 1 and the largest maximum,
    the call panics. *)
Example applyPagination_overflow_panics :
  UploadService.applyPagination (SampleResults.recordsOf "logs")
    (SampleListing.options Int64.max 1) = Panics.
Proof. reflexivity. Qed.

(* ===================================================================== *)
(** * The deletion engine *)
(* ===================================================================== *)

Section DeletionFacts.
Context (lib : GoLib).
Context (clock : nat -> GoTime.Time).
Context (abortReply : nat -> MultipartUpload.t -> option error).
Context (stdin : string).
Context (dryRunService : option DryRunService).
Context (formatDuration : GoTime.Duration -> string).
Context (formatBytes : Z -> string).

Lemma bind_run {A B} (m : M A) (k : A -> M B) w :
  (m ≫= k) w = let '(a, w') := m w in k a w'.
Proof. reflexivity. Qed.

Lemma ret_run {A} (a : A) w : (mret a : M A) w = (a, w).
Proof. reflexivity. Qed.

(** Selecting the records reads the clock and does nothing else. *)
Lemma filterUploadsForDeletion_trace uploads opts : forall w,
  trace (filterUploadsForDeletion clock uploads opts w).2 = trace w.
Proof.
  induction uploads as [|u rest IH]; intros w; [done|].
  cbn [filterUploadsForDeletion].
  destruct (_ && _); [apply IH|].
  rewrite bind_run.
  destruct (DeleteOptions.OlderThan opts) as [olderThan|].
  - rewrite bind_run. unfold now at 1. rewrite ret_run.
    destruct (_ <? olderThan); [by rewrite IH|].
    destruct (optGe _ _); [by rewrite IH|].
    destruct (optLe _ _); [by rewrite IH|].
    rewrite bind_run.
    destruct (filterUploadsForDeletion clock rest opts _) as [filtered w'] eqn:E.
    rewrite ret_run. simpl. change w' with (filtered, w').2. rewrite <- E. by rewrite IH.
  - rewrite ret_run.
    destruct (optGe _ _); [by rewrite IH|].
    destruct (optLe _ _); [by rewrite IH|].
    rewrite bind_run.
    destruct (filterUploadsForDeletion clock rest opts _) as [filtered w'] eqn:E.
    rewrite ret_run. simpl. change w' with (filtered, w').2. rewrite <- E. by rewrite IH.
Qed.

(** ** Dry run *)

(** A dry-run result that reports the savings estimate and the breakdown
    by bucket, region and storage class of the records it lists. *)
Definition simulationOf (d : DryRunService) (r : DryRunResult.t) : Prop :=
  let selected := DryRunResult.Uploads r in
  DryRunResult.TotalUploads r = length selected
  /\ DryRunResult.TotalSize r = sumSizes selected
  /\ DryRunResult.EstimatedSavings r
     = match EstimateSavings d selected with Ok savings => savings | Err _ => 0%float end
  /\ DryRunResult.UploadsByBucket r = countBy MultipartUpload.Bucket selected
  /\ DryRunResult.SizeByBucket r = sizeBy MultipartUpload.Bucket selected
  /\ DryRunResult.SavingsByBucket r = savingsBy d MultipartUpload.Bucket selected
  /\ DryRunResult.UploadsByRegion r = countBy MultipartUpload.Region selected
  /\ DryRunResult.SizeByRegion r = sizeBy MultipartUpload.Region selected
  /\ DryRunResult.SavingsByRegion r = savingsBy d MultipartUpload.Region selected
  /\ DryRunResult.UploadsByStorageClass r = countBy MultipartUpload.StorageClass selected
  /\ DryRunResult.SizeByStorageClass r = sizeBy MultipartUpload.StorageClass selected
  /\ DryRunResult.SavingsByStorageClass r = savingsBy d MultipartUpload.StorageClass selected.

Lemma SimulateDeletion_valid d uploads opts w :
  DeleteOptions_Validate opts = None ->
  exists r w',
    SimulateDeletion clock formatDuration formatBytes d uploads opts w = (Ok r, w')
    /\ trace w' = trace w
    /\ simulationOf d r
    /\ DryRunResult.Uploads r = (filterUploadsForDeletion clock uploads opts w).1
    /\ DryRunResult.Currency r = "USD"
    /\ DryRunResult.GeneratedAt r
       = clock (ticks (filterUploadsForDeletion clock uploads opts w).2)
    /\ DryRunResult.Command r = buildCommandString formatDuration formatBytes opts
    /\ DryRunResult.Filters r = buildFilterString formatDuration formatBytes opts.
Proof.
  intros Hvalid. unfold SimulateDeletion. rewrite Hvalid, bind_run.
  pose proof (filterUploadsForDeletion_trace uploads opts w) as Htrace.
  destruct (filterUploadsForDeletion clock uploads opts w) as [filtered w1].
  rewrite bind_run. unfold now. rewrite ret_run.
  eexists _, _. split; [reflexivity|]. split; [exact Htrace|].
  unfold simulationOf. cbn. repeat split.
Qed.

End DeletionFacts.

Section BatchDeletionFacts.
Context (clock : nat -> GoTime.Time).
Context (abortReply : nat -> MultipartUpload.t -> option error).

(** The error of the deletion of record [u] by worker [i]: the validation
    error, else the error of the abort request, else nil. *)
Definition deletionError (iu : nat * MultipartUpload.t) : option error :=
  match MultipartUpload_Validate iu.2 with
  | Some err => Some (InvalidUpload err)
  | None =>
      match abortReply iu.1 iu.2 with
      | Some err =>
          Some (AbortFailed (MultipartUpload.UploadID iu.2) (MultipartUpload.Bucket iu.2) err)
      | None => None
      end
  end.

Definition deletionFails (iu : nat * MultipartUpload.t) : Prop :=
  is_Some (deletionError iu).

#[local] Instance deletionFails_dec iu : Decision (deletionFails iu).
Proof. unfold deletionFails. apply _. Defined.

(** The abort request worker [i] sends for record [u], if the record is
    valid. *)
Definition abortOf (iu : nat * MultipartUpload.t) : option Event :=
  match MultipartUpload_Validate iu.2 with
  | Some _ => None
  | None =>
      Some (AbortMultipartUpload iu.1 (MultipartUpload.Bucket iu.2)
              (MultipartUpload.Key iu.2) (MultipartUpload.UploadID iu.2))
  end.

(** The aggregate error for [k] failed deletions out of [n]; nil for
    none. *)
Definition aggregateDeletes (k n : nat) : option error :=
  match k with O => None | S _ => Some (SomeDeletesFailed k n) end.

Lemma DeleteUpload_spec i u w :
  DeleteUpload abortReply i u w
  = (deletionError (i, u),
     {| ticks := ticks w; trace := trace w ++ option_list (abortOf (i, u)) |}).
Proof.
  unfold DeleteUpload, deletionError, abortOf. cbn [fst snd].
  destruct (MultipartUpload_Validate u).
  - rewrite ret_run. cbn. rewrite app_nil_r. by destruct w.
  - rewrite bind_run. unfold emit. by destruct (abortReply i u).
Qed.

Lemma runWorker_spec i u w :
  exists failure w',
    runWorker clock abortReply i u w = ((u, failure), w')
    /\ trace w' = trace w ++ option_list (abortOf (i, u))
    /\ (is_Some failure <-> deletionFails (i, u)).
Proof.
  unfold runWorker, deletionFails. rewrite bind_run, DeleteUpload_spec.
  destruct (deletionError (i, u)) as [e|].
  - eexists _, _. split; [reflexivity|]. split; [done|]. split; eauto.
  - eexists _, _. split; [reflexivity|]. split; [done|]. split; intros [? ?]; done.
Qed.

Lemma abortOf_isAbort iu :
  filter (fun e => isAbort e = true) (option_list (abortOf iu)) = option_list (abortOf iu).
Proof. unfold abortOf. by destruct (MultipartUpload_Validate iu.2). Qed.

Lemma failures_snoc results u failure :
  failures (results ++ [(u, failure)]) = failures results ++ option_list failure.
Proof. unfold failures. rewrite omap_app. by destruct failure. Qed.

Lemma successes_snoc results u failure :
  successes (results ++ [(u, failure)])
  = successes results ++ match failure with None => [u] | Some _ => [] end.
Proof. unfold successes. rewrite omap_app. by destruct failure. Qed.

(** ** Every interleaving, whatever the context *)

(** Whatever it is told to do, a batch sends no other abort request than
    those of its waiting workers. *)
Lemma step_trace done total startTime t b w :
  exists new,
    trace (step clock abortReply done total startTime t b w).2 = trace w ++ new
    /\ Forall (fun e => isAbort e = true -> e ∈ omap abortOf (waiting b)) new
    /\ (forall e, e ∈ omap abortOf (waiting (step clock abortReply done total startTime t b w).1)
                  -> e ∈ omap abortOf (waiting b)).
Proof.
  assert (Hnone : forall b', waiting b' = waiting b ->
    exists new : list Event,
      trace w = trace w ++ new
      /\ Forall (fun e => isAbort e = true -> e ∈ omap abortOf (waiting b)) new
      /\ (forall e, e ∈ omap abortOf (waiting b') -> e ∈ omap abortOf (waiting b))).
  { intros b' ->. exists []. rewrite app_nil_r. split; [done|]. split; [constructor|done]. }
  assert (Hreport : forall e b', isAbort e = false -> waiting b' = waiting b ->
    exists new : list Event,
      trace w ++ [e] = trace w ++ new
      /\ Forall (fun e => isAbort e = true -> e ∈ omap abortOf (waiting b)) new
      /\ (forall e, e ∈ omap abortOf (waiting b') -> e ∈ omap abortOf (waiting b))).
  { intros e b' He ->. exists [e]. split; [done|]. split; [|done].
    constructor; [|constructor]. by rewrite He. }
  unfold step. destruct (crashed b); [rewrite ret_run; by apply Hnone|].
  destruct t.
  - destruct (waiting b) as [|[i u] rest] eqn:Hwaiting.
    { rewrite ret_run. by apply Hnone. }
    rewrite bind_run.
    destruct (runWorker_spec i u w) as (failure & w' & -> & Htrace & _).
    rewrite ret_run. cbn [fst snd waiting]. exists (option_list (abortOf (i, u))).
    split; [done|]. split.
    + cbn [omap list_omap]. destruct (abortOf (i, u)) as [e|]; [|constructor].
      constructor; [|constructor]. intros _. apply elem_of_cons. by left.
    + intros e He. cbn [omap list_omap]. destruct (abortOf (i, u)); [|done].
      apply elem_of_cons. by right.
  - destruct (reporter b); [|rewrite ret_run; by apply Hnone].
    rewrite bind_run. unfold emit. rewrite ret_run. by apply Hreport.
  - destruct (reporter b), done; try (rewrite ret_run; by apply Hnone).
    destruct (closer b); rewrite ret_run; by apply Hnone.
  - destruct (reporter b), (closer b); rewrite ret_run; by apply Hnone.
  - destruct (waiting b) eqn:Hwaiting, (closer b); rewrite ret_run; apply Hnone;
      by rewrite ?Hwaiting.
  - destruct (closer b), (reporter b); rewrite ret_run; by apply Hnone.
  - destruct (caller b), (closer b); try (rewrite ret_run; by apply Hnone).
    all: rewrite bind_run; unfold emit; rewrite ret_run; by apply Hreport.
  - destruct (caller b); try (rewrite ret_run; by apply Hnone).
    rewrite bind_run. unfold now. rewrite bind_run. unfold emit. rewrite ret_run.
    cbn [snd trace]. by apply Hreport.
Qed.

Lemma run_trace ctxDone total startTime script : forall k b w,
  exists new,
    trace (run clock abortReply ctxDone total startTime script k b w).2 = trace w ++ new
    /\ Forall (fun e => isAbort e = true -> e ∈ omap abortOf (waiting b)) new.
Proof.
  induction script as [|t script IH]; intros k b w.
  - exists []. cbn [run]. rewrite ret_run, app_nil_r. split; [done|constructor].
  - cbn [run]. rewrite bind_run.
    destruct (step_trace (ctxDone k) total startTime t b w) as (new1 & Htrace1 & Hnew1 & Hsuffix).
    destruct (step clock abortReply (ctxDone k) total startTime t b w) as [b1 w1].
    cbn [fst snd] in *.
    destruct (IH (S k) b1 w1) as (new2 & -> & Hnew2).
    exists (new1 ++ new2). rewrite Htrace1, app_assoc. split; [done|].
    apply Forall_app. split; [done|].
    eapply Forall_impl; [exact Hnew2|]. intros e He Habort. by apply Hsuffix, He.
Qed.

(** ** An interleaving during which the context is not cancelled *)

#[local] Ltac settle := cbn in *; first [done | congruence | naive_solver].

(** A progress report of a batch of [total] records started at
    [startTime], made between two turns of the workers. *)
Definition progressTick (total : nat) (startTime : GoTime.Time) (e : Event) : Prop :=
  exists p,
    e = ReportProgress p
    /\ DeletionProgress.TotalUploads p = total
    /\ (DeletionProgress.ProcessedUploads p <= total)%nat
    /\ (DeletionProgress.SuccessfulDeletes p + DeletionProgress.FailedDeletes p
        = DeletionProgress.ProcessedUploads p)%nat
    /\ DeletionProgress.StartTime p = startTime.

Definition abortOrProgress (total : nat) (startTime : GoTime.Time) (e : Event) : Prop :=
  isAbort e = true \/ progressTick total startTime e.

(** The final progress report and the completion report of a batch of
    which [k] deletions failed. *)
Definition finalProgressOf (total : nat) (startTime : GoTime.Time) (k : nat)
    (p : DeletionProgress.t) : Prop :=
  DeletionProgress.TotalUploads p = total
  /\ DeletionProgress.ProcessedUploads p = total
  /\ DeletionProgress.FailedDeletes p = k
  /\ (DeletionProgress.SuccessfulDeletes p + k = total)%nat
  /\ DeletionProgress.StartTime p = startTime.

Definition completionOf (total k : nat) (c : DeletionResult.t) : Prop :=
  DeletionResult.TotalProcessed c = total
  /\ DeletionResult.FailedDeletes c = k
  /\ (DeletionResult.SuccessfulDeletes c + k = total)%nat
  /\ length (DeletionResult.Errors c) = k.


Section Uncancelled.
(** The workers in the order in which they run, the start of the batch,
    and the world in which its first turn is taken. *)
Context (order : list (nat * MultipartUpload.t)).
Context (startTime : GoTime.Time).
Context (w0 : World).

#[local] Notation tick := (progressTick (length order) startTime).
#[local] Notation abortOrTick := (abortOrProgress (length order) startTime).
#[local] Notation finalProgress := (finalProgressOf (length order) startTime).
#[local] Notation completionReport := (completionOf (length order)).

(** The workers [done] have run, the others wait. *)
Definition counted (done waiting : list (nat * MultipartUpload.t))
    (finished : list (MultipartUpload.t * option DeletionError.t)) : Prop :=
  order = done ++ waiting
  /\ length finished = length done
  /\ length (failures finished) = length (filter deletionFails done)
  /\ (length (successes finished) + length (failures finished) = length done)%nat.

(** What the batch has done to the outside so far, by the place at which
    the caller stands. *)
Definition shapeOf (c : Caller) (waiting : list (nat * MultipartUpload.t))
    (finished : list (MultipartUpload.t * option DeletionError.t)) (body : list Event)
  : Prop :=
  let k := length (filter deletionFails order) in
  match c with
  | Collecting =>
      exists done,
        counted done waiting finished
        /\ filter (fun e => isAbort e = true) body = omap abortOf done
        /\ Forall abortOrTick body
  | Reported =>
      counted order waiting finished
      /\ exists during p between,
           body = during ++ ReportProgress p :: between
           /\ filter (fun e => isAbort e = true) during = omap abortOf order
           /\ Forall abortOrTick during
           /\ finalProgress k p
           /\ Forall tick between
  | Returned =>
      counted order waiting finished
      /\ exists during p between c later,
           body = during ++ ReportProgress p :: between ++ ReportCompletion c :: later
           /\ filter (fun e => isAbort e = true) during = omap abortOf order
           /\ Forall abortOrTick during
           /\ finalProgress k p
           /\ Forall tick between
           /\ completionReport k c
           /\ Forall tick later
  end.

Definition shape (b : Batch) (body : list Event) : Prop :=
  shapeOf (caller b) (waiting b) (finished b) body.

(** What holds of a batch after every turn, as long as the context is not
    cancelled: nothing has panicked, [resultChan] is closed only when no
    worker is left, and the progress goroutine stops only on the signal. *)
Definition steady (b : Batch) (w : World) : Prop :=
  crashed b = false
  /\ (closer b <> Waiting -> waiting b = [])
  /\ (reporter b = Stopped -> closer b = Gone)
  /\ (caller b <> Collecting -> closer b <> Waiting)
  /\ exists body, trace w = trace w0 ++ body /\ shape b body.

Lemma counted_all waiting finished :
  counted order waiting finished -> waiting = [].
Proof.
  intros (Horder & _). apply (f_equal length) in Horder. rewrite length_app in Horder.
  destruct waiting; [done|]. cbn in Horder. lia.
Qed.

Lemma counted_done done finished :
  counted done [] finished -> done = order.
Proof. intros (-> & _). by rewrite app_nil_r. Qed.

Lemma shape_counted b body :
  shape b body -> exists done, counted done (waiting b) (finished b).
Proof.
  unfold shape, shapeOf. destruct (caller b).
  - intros (done & ? & _). by exists done.
  - intros (? & _). by exists order.
  - intros (? & _). by exists order.
Qed.

Lemma tick_not_abort e : tick e -> isAbort e = false.
Proof. by intros (p & -> & _). Qed.

Lemma snapshot_tick b body :
  shape b body -> tick (ReportProgress (snapshot (length order) startTime b)).
Proof.
  intros (done & Horder & Hlen & Hfail & Hsum)%shape_counted.
  eexists. split; [reflexivity|]. cbn. split_and!; try done.
  - rewrite Hlen, Horder, length_app. lia.
  - lia.
Qed.

(** A tick goes where the caller stands. *)
Lemma shape_tick b body e : tick e -> shape b body -> shape b (body ++ [e]).
Proof.
  intros He. unfold shape, shapeOf. destruct (caller b).
  - intros (done & Hcounted & Haborts & Hall). exists done. split_and!; [done| |].
    + rewrite filter_app, Haborts.
      rewrite filter_cons_False by (rewrite (tick_not_abort e He); discriminate).
      by rewrite filter_nil, app_nil_r.
    + apply Forall_app. split; [done|]. constructor; [by right|constructor].
  - intros (Hcounted & during & p & between & -> & Haborts & Hall & Hp & Hbetween).
    split; [done|]. exists during, p, (between ++ [e]).
    rewrite <- app_assoc. split_and!; try done.
    apply Forall_app. split; [done|]. by constructor.
  - intros (Hcounted & during & p & between & c & later & -> & Haborts & Hall & Hp
            & Hbetween & Hc & Hlater).
    split; [done|]. exists during, p, between, c, (later ++ [e]).
    split_and!; try done.
    + rewrite <- !app_assoc. cbn. by rewrite <- !app_assoc.
    + apply Forall_app. split; [done|]. by constructor.
Qed.

Lemma step_steady t b w :
  steady b w ->
  steady (step clock abortReply false (length order) startTime t b w).1
         (step clock abortReply false (length order) startTime t b w).2.
Proof.
  intros (Hcrashed & Hclosed & Hstopped & Hcaller & body & Htrace & Hshape).
  assert (Hsame : steady b w) by (split_and!; try done; by exists body).
  unfold step. rewrite Hcrashed. destruct t.
  - (* Work *)
    destruct (waiting b) as [|[i u] rest] eqn:Hwaiting; [by rewrite ret_run|].
    assert (Hcloser : closer b = Waiting).
    { destruct (closer b); try done; by specialize (Hclosed ltac:(done)). }
    assert (Hcollecting : caller b = Collecting).
    { destruct (caller b); try done; by specialize (Hcaller ltac:(done)). }
    rewrite bind_run.
    destruct (runWorker_spec i u w) as (failure & w' & -> & Hw' & Hfailure).
    rewrite ret_run. cbn [fst snd].
    split_and!; [settle|settle|settle|settle|].
    exists (body ++ option_list (abortOf (i, u))). split.
    { by rewrite Hw', Htrace, app_assoc. }
    unfold shape, shapeOf in *. cbn [caller waiting finished]. rewrite Hcollecting in *.
    rewrite Hwaiting in Hshape.
    destruct Hshape as (done & (Horder & Hlen & Hfail & Hsum) & Haborts & Hall).
    exists (done ++ [(i, u)]). unfold counted. split_and!.
    + by rewrite <- app_assoc.
    + rewrite !length_app, Hlen. done.
    + rewrite failures_snoc, filter_app, !length_app, Hfail. f_equal.
      destruct (decide (deletionFails (i, u))) as [Hf|Hf].
      * rewrite filter_cons_True by done. apply Hfailure in Hf as [d ->]. done.
      * rewrite filter_cons_False by done.
        destruct failure as [d|]; [|done]. exfalso. apply Hf, Hfailure. eauto.
    + rewrite failures_snoc, successes_snoc, !length_app. cbn [length].
      destruct failure; simpl; lia.
    + by rewrite filter_app, Haborts, abortOf_isAbort, omap_app.
    + apply Forall_app. split; [done|].
      unfold abortOf. destruct (MultipartUpload_Validate (i, u).2); [constructor|].
      constructor; [by left|constructor].
  - (* Tick *)
    destruct (reporter b) eqn:Hreporter; [|by rewrite ret_run].
    rewrite bind_run. unfold emit. rewrite ret_run. cbn [fst snd].
    split_and!; [settle|settle|settle|settle|].
    exists (body ++ [ReportProgress (snapshot (length order) startTime b)]).
    split; [cbn; by rewrite Htrace, app_assoc|].
    apply shape_tick; [by eapply snapshot_tick|done].
  - (* SeeDone: the context is not cancelled *)
    by destruct (reporter b); rewrite ret_run.
  - (* TakeSignal *)
    destruct (reporter b) eqn:Hreporter, (closer b) eqn:Hcloser; rewrite ret_run;
      try done.
    split_and!; [settle|settle|settle|settle|]. by exists body.
  - (* CloseResults *)
    destruct (waiting b) eqn:Hwaiting, (closer b) eqn:Hcloser; rewrite ret_run;
      try done.
    split_and!; [settle|settle|settle|settle|]. exists body. split; [done|].
    exact Hshape.
  - (* Signal *)
    destruct (closer b) eqn:Hcloser, (reporter b) eqn:Hreporter; rewrite ret_run;
      try done.
    + split_and!; [settle|settle|settle|settle|]. by exists body.
    + by specialize (Hstopped eq_refl).
  - (* FinalProgress *)
    destruct (caller b) eqn:Hcallerb; [|by destruct (closer b); rewrite ret_run..].
    assert (Hreport : closer b <> Waiting ->
      steady (withCaller Reported b)
        {| ticks := ticks w;
           trace := trace w ++ [ReportProgress (snapshot (length order) startTime b)] |}).
    { intros Hcloser. split_and!; [settle|settle|settle|settle|].
      eexists. split; [cbn; by rewrite Htrace, <- app_assoc|].
      unfold shape, shapeOf in *. cbn [caller waiting finished withCaller].
      rewrite Hcallerb in Hshape.
      destruct Hshape as (done & Hcounted & Haborts & Hall).
      rewrite (Hclosed Hcloser) in *. pose proof (counted_done _ _ Hcounted) as ->.
      split; [done|]. exists body, (snapshot (length order) startTime b), [].
      split_and!; try done.
      destruct Hcounted as (_ & Hlen & Hfail & Hsum). unfold finalProgressOf. cbn.
      rewrite Hlen, Hfail. split_and!; try done. lia. }
    destruct (closer b) eqn:Hcloser; [by rewrite ret_run|..];
      rewrite bind_run; unfold emit; rewrite ret_run; by apply Hreport.
  - (* Completion *)
    destruct (caller b) eqn:Hcallerb; [by rewrite ret_run| |by rewrite ret_run].
    rewrite bind_run. unfold now. rewrite bind_run. unfold emit. rewrite ret_run.
    cbn [fst snd]. split_and!; [settle|settle|settle|settle|].
    eexists. split; [cbn; by rewrite Htrace, <- app_assoc|].
    unfold shape, shapeOf in *. cbn [caller waiting finished withCaller].
    rewrite Hcallerb in Hshape.
    destruct Hshape as (Hcounted & during & p & between & -> & Haborts & Hall & Hp & Hbetween).
    split; [done|]. eexists during, p, between, _, [].
    split_and!; try done; [by rewrite <- app_assoc|].
    destruct Hcounted as (_ & Hlen & Hfail & Hsum). unfold completionOf. cbn.
    rewrite Hfail. split_and!; try done. lia.
Qed.

(** The context of the call, never cancelled. *)
Context (ctxDone : nat -> bool).
Hypothesis uncancelled : forall k, ctxDone k = false.

#[local] Notation stepped t b w :=
  (step clock abortReply false (length order) startTime t b w).1.
#[local] Notation ran script k b w :=
  (run clock abortReply ctxDone (length order) startTime script k b w).

(** No turn brings a worker back, reopens [resultChan] or takes the
    caller back; a worker's turn leaves one worker less, and the turns of
    the caller and of the closing goroutine are taken when they can be. *)
Lemma step_progress t b w :
  crashed b = false ->
  (length (waiting (stepped t b w)) <= length (waiting b))%nat
  /\ (closer b <> Waiting -> closer (stepped t b w) <> Waiting)
  /\ (caller b <> Collecting -> caller (stepped t b w) <> Collecting)
  /\ (caller b = Returned -> caller (stepped t b w) = Returned)
  /\ (t = Work -> length (waiting (stepped t b w)) = pred (length (waiting b)))
  /\ (t = CloseResults -> waiting b = [] -> closer (stepped t b w) <> Waiting)
  /\ (t = FinalProgress -> closer b <> Waiting -> caller (stepped t b w) <> Collecting)
  /\ (t = Completion -> caller b <> Collecting -> caller (stepped t b w) = Returned).
Proof.
  intros Hcrashed. unfold step. rewrite Hcrashed. destruct t.
  - destruct (waiting b) as [|[i u] rest] eqn:Hwaiting.
    + rewrite ret_run. cbn [fst]. rewrite Hwaiting. split_and!; settle.
    + rewrite bind_run. destruct (runWorker_spec i u w) as (failure & w' & -> & _).
      rewrite ret_run. split_and!; settle.
  - destruct (reporter b); [rewrite bind_run; unfold emit|]; rewrite ret_run;
      split_and!; settle.
  - destruct (reporter b); rewrite ret_run; split_and!; settle.
  - destruct (reporter b), (closer b) eqn:Hcloser; rewrite ret_run; split_and!; settle.
  - destruct (waiting b) eqn:Hwaiting, (closer b) eqn:Hcloser; rewrite ret_run;
      cbn [fst withReporter waiting closer caller]; rewrite ?Hwaiting, ?Hcloser;
      split_and!; settle.
  - destruct (closer b) eqn:Hcloser, (reporter b); rewrite ret_run;
      cbn [fst withReporter crash waiting closer caller]; rewrite ?Hcloser;
      split_and!; settle.
  - destruct (caller b) eqn:Hcaller, (closer b) eqn:Hcloser;
      rewrite ?bind_run; unfold emit; rewrite ret_run;
      cbn [fst snd withCaller waiting closer caller]; rewrite ?Hcaller, ?Hcloser;
      split_and!; settle.
  - destruct (caller b) eqn:Hcaller;
      rewrite ?bind_run; unfold now; rewrite ?bind_run; unfold emit; rewrite ret_run;
      cbn [fst snd withCaller waiting closer caller]; rewrite ?Hcaller;
      split_and!; settle.
Qed.

Lemma run_cons t script k b w :
  ran (t :: script) k b w
  = ran script (S k) (stepped t b w)
      (step clock abortReply false (length order) startTime t b w).2.
Proof.
  cbn [run]. rewrite bind_run, uncancelled.
  by destruct (step clock abortReply false (length order) startTime t b w).
Qed.

Lemma run_app script1 : forall script2 k b w,
  ran (script1 ++ script2) k b w
  = ran script2 (k + length script1)%nat (ran script1 k b w).1 (ran script1 k b w).2.
Proof.
  induction script1 as [|t script1 IH]; intros script2 k b w.
  - cbn [app run length]. rewrite ret_run, Nat.add_0_r. done.
  - cbn [app length]. rewrite !run_cons, IH. f_equal. lia.
Qed.

Lemma run_steady script : forall k b w,
  steady b w ->
  steady (ran script k b w).1 (ran script k b w).2
  /\ (length (waiting (ran script k b w).1) <= length (waiting b))%nat
  /\ (closer b <> Waiting -> closer (ran script k b w).1 <> Waiting)
  /\ (caller b <> Collecting -> caller (ran script k b w).1 <> Collecting)
  /\ (caller b = Returned -> caller (ran script k b w).1 = Returned).
Proof.
  induction script as [|t script IH]; intros k b w Hsteady.
  - cbn [run]. rewrite ret_run. by split_and!.
  - rewrite run_cons.
    pose proof (step_steady t b w Hsteady) as Hnext.
    destruct (step_progress t b w (proj1 Hsteady)) as (Hw & Hc & Hcol & Hret & _).
    destruct (IH (S k) _ _ Hnext) as (Hs' & Hw' & Hc' & Hcol' & Hret').
    split_and!; [done|lia|eauto..].
Qed.

Lemma run_works m : forall k b w,
  steady b w -> (length (waiting b) <= m)%nat ->
  waiting (ran (replicate m Work) k b w).1 = [].
Proof.
  induction m as [|m IH]; intros k b w Hsteady Hm.
  - cbn [replicate run]. rewrite ret_run. cbn [fst].
    destruct (waiting b); [done|cbn in Hm; lia].
  - cbn [replicate]. rewrite run_cons.
    destruct (step_progress Work b w (proj1 Hsteady)) as (_ & _ & _ & _ & Hwork & _).
    apply IH; [by apply step_steady|]. rewrite (Hwork eq_refl). lia.
Qed.

(** Whatever has been done before, the rest of the batch gets done: the
    caller returns, and nothing has panicked. *)
Lemma run_returns k b w :
  steady b w -> (length (waiting b) <= length order)%nat ->
  steady (ran (remaining (length order)) k b w).1 (ran (remaining (length order)) k b w).2
  /\ caller (ran (remaining (length order)) k b w).1 = Returned.
Proof.
  intros Hsteady Hlen. unfold remaining. rewrite run_app.
  pose proof (run_works (length order) k b w Hsteady Hlen) as Hnone.
  destruct (run_steady (replicate (length order) Work) k b w Hsteady) as (Hs1 & _).
  set (b1 := (ran (replicate (length order) Work) k b w).1) in *.
  set (w1 := (ran (replicate (length order) Work) k b w).2) in *.
  set (k1 := (k + length (replicate (length order) Work))%nat). clearbody k1.
  rewrite !run_cons. cbn [run]. rewrite ret_run. cbn [fst snd].
  destruct (step_progress CloseResults b1 w1 (proj1 Hs1)) as (_ & _ & _ & _ & _ & Hclose & _).
  pose proof (step_steady CloseResults b1 w1 Hs1) as Hs2.
  set (b2 := stepped CloseResults b1 w1) in *.
  set (w2 := (step clock abortReply false (length order) startTime CloseResults b1 w1).2) in *.
  destruct (step_progress FinalProgress b2 w2 (proj1 Hs2)) as (_ & _ & _ & _ & _ & _ & Hfinal & _).
  pose proof (step_steady FinalProgress b2 w2 Hs2) as Hs3.
  set (b3 := stepped FinalProgress b2 w2) in *.
  set (w3 := (step clock abortReply false (length order) startTime FinalProgress b2 w2).2) in *.
  destruct (step_progress Completion b3 w3 (proj1 Hs3)) as (_ & _ & _ & _ & _ & _ & _ & Hcomplete).
  pose proof (step_steady Completion b3 w3 Hs3) as Hs4.
  set (b4 := stepped Completion b3 w3) in *.
  set (w4 := (step clock abortReply false (length order) startTime Completion b3 w3).2) in *.
  destruct (step_progress Signal b4 w4 (proj1 Hs4)) as (_ & _ & _ & Hkeep4 & _).
  pose proof (step_steady Signal b4 w4 Hs4) as Hs5.
  set (b5 := stepped Signal b4 w4) in *.
  set (w5 := (step clock abortReply false (length order) startTime Signal b4 w4).2) in *.
  destruct (step_progress TakeSignal b5 w5 (proj1 Hs5)) as (_ & _ & _ & Hkeep5 & _).
  pose proof (step_steady TakeSignal b5 w5 Hs5) as Hs6.
  split; [exact Hs6|].
  apply Hkeep5, Hkeep4, Hcomplete; [done|]. apply Hfinal; [done|]. by apply Hclose.
Qed.

End Uncancelled.

Lemma finish_batch (errors : list DeletionError.t) (n : nat) :
  match errors with
  | _ :: _ => mret (Returns (Some (SomeDeletesFailed (length errors) n)))
  | [] => mret (Returns None)
  end = (mret (Returns (aggregateDeletes (length errors) n)) : M (outcome (option error))).
Proof. by destruct errors. Qed.

Lemma arrange_length {A} sched (items : list A) :
  validSchedule sched (length items) -> length (arrange sched items) = length items.
Proof.
  intros Hsched. rewrite (Permutation_length (arrange_Permutation sched items Hsched)).
  unfold numbered. apply length_imap.
Qed.

(** A batch during which the context is not cancelled: the caller gets
    its result, nothing panics, and the trace is the abort requests in the
    order of the workers, the final progress report and the completion
    report, with the progress reports of the ticker anywhere between
    them. *)
Lemma deleteUploadsWithProgress_spec ctxDone script sched uploads w :
  uploads <> [] ->
  validSchedule sched (length uploads) ->
  (forall k, ctxDone k = false) ->
  let total := length uploads in
  let k := length (filter deletionFails (numbered uploads)) in
  let startTime := clock (ticks w) in
  exists w' during progress between completion later,
    deleteUploadsWithProgress clock abortReply ctxDone script sched uploads w
      = (Returns (aggregateDeletes k total), w')
    /\ trace w'
       = trace w ++ during ++ ReportProgress progress :: between
           ++ ReportCompletion completion :: later
    /\ filter (fun e => isAbort e = true) during = omap abortOf (arrange sched uploads)
    /\ Forall (abortOrProgress total startTime) during
    /\ finalProgressOf total startTime k progress
    /\ Forall (progressTick total startTime) between
    /\ completionOf total k completion
    /\ Forall (progressTick total startTime) later.
Proof.
  intros Hne Hsched Hctx. destruct uploads as [|u0 us]; [done|]. clear Hne.
  intros total k startTime. unfold deleteUploadsWithProgress.
  set (uploads := u0 :: us) in *.
  rewrite bind_run. unfold now at 1.
  set (order := arrange sched uploads).
  set (w1 := {| ticks := S (ticks w); trace := trace w |}).
  assert (Horder : length order = total) by (by apply arrange_length).
  assert (Hk : length (filter deletionFails order) = k).
  { subst k order. apply Permutation_length, filter_Permutation, arrange_Permutation, Hsched. }
  fold total. rewrite <- Horder.
  assert (Hstart : steady order startTime w1 (start order) w1).
  { split_and!; try done. exists []. split; [by rewrite app_nil_r|].
    exists []. by split_and!. }
  rewrite bind_run, (run_app order startTime ctxDone Hctx).
  destruct (run_steady order startTime w1 ctxDone Hctx script 0 (start order) w1 Hstart)
    as (Hsteady & Hlen & _).
  destruct (run_returns order startTime w1 ctxDone Hctx (0 + length script)
              _ _ Hsteady Hlen) as ((Hcrashed & _ & _ & _ & body & Htrace & Hshape) & Hreturned).
  destruct (run clock abortReply ctxDone (length order) startTime (remaining (length order))
              (0 + length script) _ _) as [b w'].
  cbn [fst snd] in *. rewrite Hcrashed, finish_batch, ret_run.
  unfold shape, shapeOf in Hshape. rewrite Hreturned in Hshape.
  destruct Hshape as ((_ & _ & Hfail & _) & during & p & between & c & later & -> & Haborts
                      & Hduring & Hp & Hbetween & Hc & Hlater).
  rewrite Hfail, Hk, Horder in *.
  exists w', during, p, between, c, later. by split_and!.
Qed.

Context (lib : GoLib).
Context (stdin : string).
Context (dryRunService : option DryRunService).
Context (formatDuration : GoTime.Duration -> string).
Context (formatBytes : Z -> string).

(** The summary printed before the question, unless [Force] is set. *)
Definition promptOf (opts : DeleteOptions.t) (filtered : list MultipartUpload.t)
  : list Event :=
  if DeleteOptions.Force opts then []
  else [Printed (DeletionSummary (length filtered) (sumSizes filtered)
                   (countBy MultipartUpload.Bucket filtered))].

(** The batch goes ahead: [Force] is set, or the answer read from the
    confirmation reader is y or yes. *)
Definition confirmed (opts : DeleteOptions.t) (filtered : list MultipartUpload.t)
    (w : World) : Prop :=
  DeleteOptions.Force opts = true
  \/ (promptForConfirmation lib stdin filtered (sumSizes filtered) w).1 = Ok true.

Lemma promptForConfirmation_spec uploads totalSize w :
  (promptForConfirmation lib stdin uploads totalSize w).2
  = {| ticks := ticks w;
       trace := trace w ++ [Printed (DeletionSummary (length uploads) totalSize
                                       (countBy MultipartUpload.Bucket uploads))] |}.
Proof.
  unfold promptForConfirmation. rewrite bind_run. unfold emit.
  by destruct (ReadString stdin).
Qed.

(** The number of records of the batch whose deletion fails. *)
Definition failedDeletions (filtered : list MultipartUpload.t) : nat :=
  length (filter deletionFails (numbered filtered)).

Lemma aggregateDeletes_None filtered :
  aggregateDeletes (failedDeletions filtered) (length filtered) = None
  <-> Forall (fun iu => deletionError iu = None) (numbered filtered).
Proof.
  unfold failedDeletions. induction (numbered filtered) as [|iu rest IH].
  - split; [constructor|done].
  - destruct (deletionError iu) as [e|] eqn:He.
    + rewrite filter_cons_True by (unfold deletionFails; rewrite He; eauto).
      split; [done|]. intros H. apply Forall_cons in H as [H _]. congruence.
    + rewrite filter_cons_False by (unfold deletionFails; rewrite He; apply is_Some_None).
      rewrite IH. split; [by constructor|]. by intros H; apply Forall_cons in H as [_ H].
Qed.

Lemma deletionError_valid iu :
  MultipartUpload_Validate iu.2 = None ->
  deletionError iu = None <-> abortReply iu.1 iu.2 = None.
Proof.
  intros Hv. unfold deletionError. rewrite Hv.
  by destruct (abortReply iu.1 iu.2).
Qed.

Lemma numbered_Forall_snd {A} (P : A -> Prop) (items : list A) :
  Forall P items -> Forall (fun ix => P ix.2) (numbered items).
Proof.
  rewrite !Forall_lookup. intros H i [j x] Hj.
  unfold numbered in Hj. rewrite list_lookup_imap in Hj.
  destruct (items !! i) as [y|] eqn:Hy; [|done].
  cbn in Hj. injection Hj as <- <-. by eapply H.
Qed.


End BatchDeletionFacts.



(** On the sample batch: one deletion out of three fails, the two other
    uploads are aborted (in the order of the schedule), the error says so,
    and the reporter is called four times: by the ticker after the first
    deletion, by the caller at the end, by the ticker once more, and for
    the completion. *)
Example DeleteUploads_sample_batch :
  let run :=
    DeleteUploads RefLib.lib SampleDeletion.clock SampleDeletion.abortReply
      SampleDeletion.stdin SampleDeletion.dryRunService SampleDeletion.formatDuration
      SampleDeletion.formatBytes SampleBatch.uncancelled SampleBatch.script Sample.order
      Sample.batch (SampleDeletion.options false false) SampleDeletion.start in
  run.1 = Returns (Some (SomeDeletesFailed 1 3))
  /\ (match run.1 with Returns e => e ≫= aggregateMessage | Panics => None end)
     = Some "failed to delete 1 out of 3 uploads"
  /\ omap (fun e => match e with
                    | AbortMultipartUpload _ _ key _ => Some key
                    | ReportProgress p =>
                        Some ("progress " +:+ pretty (DeletionProgress.ProcessedUploads p))
                    | ReportCompletion _ => Some "completion"
                    | Printed _ => None
                    end) (trace run.2)
     = ["b.bin"; "progress 1"; "a.bin"; "c.bin"; "progress 3"; "progress 3"; "completion"].
Proof. vm_compute. repeat split. Qed.

(** When the context is cancelled, the progress goroutine can leave
    through [ctx.Done()]; it closes [progressDone], and the send of the
    closing goroutine then panics, whatever the deletions did. *)
Example DeleteUploads_cancelled_context_panics :
  (DeleteUploads RefLib.lib SampleDeletion.clock SampleBatch.willing
     SampleDeletion.stdin SampleDeletion.dryRunService SampleDeletion.formatDuration
     SampleDeletion.formatBytes SampleBatch.cancelled [SeeDone] Sample.order
     Sample.batch (SampleDeletion.options false true) SampleDeletion.start).1
  = Panics
  /\ (DeleteUploads RefLib.lib SampleDeletion.clock SampleBatch.willing
        SampleDeletion.stdin SampleDeletion.dryRunService SampleDeletion.formatDuration
        SampleDeletion.formatBytes SampleBatch.cancelled [] Sample.order
        Sample.batch (SampleDeletion.options false true) SampleDeletion.start).1
     = Returns None.
Proof. vm_compute. split; reflexivity. Qed.

(* ===================================================================== *)
(** * The retrying client: substring search and the retry loop *)
(* ===================================================================== *)

Section SubstringFacts.
Import S3Client.

(** [sub] occurs in [s]. *)
Definition occursIn (sub s : list ascii) : Prop :=
  exists pre post, s = pre ++ sub ++ post.

Lemma eqBytes_true a b : eqBytes a b = true <-> a = b.
Proof.
  unfold eqBytes. rewrite String.eqb_eq. split; [|by intros ->].
  intros H. by rewrite <- (bytes_ofBytes a), H, bytes_ofBytes.
Qed.

Lemma containsFrom_true n sub : forall s,
  containsFrom n s sub = true
  <-> exists i, (i < n)%nat /\ take (length sub) (drop i s) = sub.
Proof.
  induction n as [|n IH]; intros s; cbn [containsFrom].
  - split; [done|]. intros (i & Hi & _). lia.
  - destruct (eqBytes (take (length sub) s) sub) eqn:E.
    + split; [|done]. intros _. exists 0%nat. split; [lia|]. by apply eqBytes_true.
    + rewrite IH. split.
      * intros (i & Hi & H). exists (S i). split; [lia|].
        by rewrite drop_drop in H.
      * intros ([|i] & Hi & H).
        -- rewrite drop_0 in H. apply eqBytes_true in H. congruence.
        -- exists i. split; [lia|]. by rewrite drop_drop.
Qed.

Lemma occursIn_window sub s :
  occursIn sub s
  <-> exists i, (i + length sub <= length s)%nat /\ take (length sub) (drop i s) = sub.
Proof.
  split.
  - intros (pre & post & ->). exists (length pre). split.
    + rewrite !length_app. lia.
    + rewrite drop_app_length. by rewrite take_app_length.
  - intros (i & Hi & H). exists (take i s), (drop (length sub) (drop i s)).
    rewrite <- H at 1. by rewrite !take_drop.
Qed.

Lemma contains_true s substr :
  contains s substr = true
  <-> occursIn (GoStrings.bytes substr) (GoStrings.bytes s).
Proof.
  unfold contains, containsSubstring.
  set (ls := GoStrings.bytes s). set (lsub := GoStrings.bytes substr).
  rewrite occursIn_window. split.
  - rewrite !andb_true_iff, !orb_true_iff, !andb_true_iff, !orb_true_iff.
    intros [Hle [Heq | [Hlt [[Hpre | Hsuf] | Hsub]]]].
    + apply String.eqb_eq in Heq. exists 0%nat. subst ls lsub. rewrite Heq.
      split; [lia|]. by rewrite drop_0, firstn_all.
    + apply Nat.leb_le in Hle. exists 0%nat. split; [lia|].
      rewrite drop_0. by apply eqBytes_true.
    + apply Nat.leb_le in Hle. exists (length ls - length lsub)%nat. split; [lia|].
      apply eqBytes_true in Hsuf. rewrite take_ge; [done|]. rewrite length_drop. lia.
    + apply Nat.leb_le in Hle.
      destruct (length ls <? length lsub)%nat eqn:E; [done|].
      apply containsFrom_true in Hsub as (i & Hi & H). exists i. split; [lia|done].
  - intros (i & Hi & H).
    assert (Hle : (length lsub <= length ls)%nat) by lia.
    rewrite andb_true_iff. split; [by apply Nat.leb_le|].
    destruct (decide (length lsub = length ls)) as [Heq|Hne].
    + apply orb_true_iff. left. apply String.eqb_eq.
      assert (i = 0%nat) as -> by lia. rewrite drop_0, Heq, firstn_all in H.
      subst ls lsub. by rewrite <- (ofBytes_bytes s), H, ofBytes_bytes.
    + apply orb_true_iff. right. rewrite andb_true_iff. split; [apply Nat.ltb_lt; lia|].
      rewrite !orb_true_iff. right.
      destruct (length ls <? length lsub)%nat eqn:E; [apply Nat.ltb_lt in E; lia|].
      apply containsFrom_true. exists i. split; [lia|done].
Qed.

End SubstringFacts.

(** The hand-written [contains] of the client is the substring test: it
    holds exactly when [substr] occurs in [s] (the empty string occurs in
    every string). *)
Theorem contains_iff_occurs s substr :
  S3Client.contains s substr = true
  <-> occursIn (GoStrings.bytes substr) (GoStrings.bytes s).
Proof. apply contains_true. Qed.

(** Which errors are retried.  A network error is retried exactly when it
    is a timeout or temporary, whatever its message; any other error is
    retried exactly when it is not a [NoSuchBucket] error and its message
    contains one of the six retryable codes, in that spelling, anywhere. *)
Theorem isRetryableError_iff err :
  S3Client.isRetryableError err = true
  <-> match asNetError err with
      | Some (timeout, temporary) => timeout = true \/ temporary = true
      | None =>
          asNoSuchBucket err = false
          /\ exists code,
               In code S3Client.retryableErrors
               /\ occursIn (GoStrings.bytes code) (GoStrings.bytes (message err))
      end.
Proof.
  unfold S3Client.isRetryableError.
  destruct (asNetError err) as [[timeout temporary]|].
  - apply orb_true_iff.
  - destruct (asNoSuchBucket err).
    + split; [done|]. by intros [? _].
    + rewrite existsb_exists. split.
      * intros (code & Hin & H). split; [done|]. exists code. split; [done|].
        by apply contains_true.
      * intros (_ & code & Hin & H). exists code. split; [done|]. by apply contains_true.
Qed.

(** A [NoSuchBucket] error is not retried even when its message names a
    retryable code, and the codes are matched with their case. *)
Example isRetryableError_samples :
  S3Client.isRetryableError
    {| asNetError := None; asNoSuchBucket := true; message := "SlowDown" |} = false
  /\ S3Client.isRetryableError
       {| asNetError := None; asNoSuchBucket := false; message := "slowdown" |} = false
  /\ S3Client.isRetryableError
       {| asNetError := None; asNoSuchBucket := false;
          message := "api error SlowDown: please reduce your request rate" |} = true.
Proof. repeat split. Qed.
Section RetryLoopFacts.
Import S3Client.
Context (lib : GoLib) (c : RetryConfig.t).

(** The retry loop only appends to what was done before. *)
Lemma retryLoop_done env left : forall attempt lastErr done,
  retryLoop lib c env left attempt lastErr done
  = ((retryLoop lib c env left attempt lastErr []).1,
     done ++ (retryLoop lib c env left attempt lastErr []).2).
Proof.
  induction left as [|left IH]; intros attempt lastErr done; cbn [retryLoop].
  - by rewrite app_nil_r.
  - destruct (limiterWait env attempt); [by rewrite app_nil_r|].
    destruct (operation env attempt) as [err|]; [|done].
    destruct (attempt =? RetryConfig.MaxRetries c); [done|].
    destruct (negb (isRetryableError err)); [done|].
    destruct (ctxDone env attempt); [done|].
    rewrite IH. rewrite (IH _ _ (_ ++ _)). cbn [fst snd].
    by rewrite <- !app_assoc.
Qed.

Lemma calculateBackoffDelay_le attempt :
  calculateBackoffDelay lib c attempt <= RetryConfig.MaxDelay c.
Proof. unfold calculateBackoffDelay. case_match; lia. Qed.

(** What one run of the loop does, from attempt number [attempt] on. *)
Lemma retryLoop_run env left : forall attempt lastErr,
  left = Z.to_nat (RetryConfig.MaxRetries c + 1 - attempt) ->
  let run := retryLoop lib c env left attempt lastErr [] in
  attempts run.2 = map (fun k => attempt + Z.of_nat k) (seq 0 (length (attempts run.2)))
  /\ (length (attempts run.2) <= left)%nat
  /\ (length (sleeps run.2) <= left - 1)%nat
  /\ Forall (fun d => d <= RetryConfig.MaxDelay c) (sleeps run.2)
  /\ (run.1 = None
      <-> exists a, last (attempts run.2) = Some a /\ operation env a = None).
Proof.
  induction left as [|left IH]; intros attempt lastErr Hleft; cbn [retryLoop].
  - cbn. split_and!; [done|lia|lia|constructor|].
    split; [by destruct lastErr|]. by intros (a & Ha & _).
  - destruct (limiterWait env attempt).
    { cbn. split_and!; [done|lia|lia|constructor|]. split; [done|]. by intros (a & Ha & _). }
    destruct (operation env attempt) as [err|] eqn:Hop.
    2:{ cbn. rewrite Z.add_0_r. split_and!; [done|lia|lia|constructor|].
        split; [|done]. intros _. by exists attempt. }
    destruct (attempt =? RetryConfig.MaxRetries c) eqn:Hlast.
    { cbn. rewrite Z.add_0_r. split_and!; [done|lia|lia|constructor|].
      split; [done|]. intros (a & [= <-] & Ha). congruence. }
    destruct (negb (isRetryableError err)).
    { cbn. rewrite Z.add_0_r. split_and!; [done|lia|lia|constructor|].
      split; [done|]. intros (a & [= <-] & Ha). congruence. }
    destruct (ctxDone env attempt).
    { cbn. rewrite Z.add_0_r. split_and!; [done|lia|lia|constructor|].
      split; [done|]. intros (a & [= <-] & Ha). congruence. }
    rewrite retryLoop_done. cbn [fst snd].
    apply Z.eqb_neq in Hlast.
    assert (Hleft' : left = Z.to_nat (RetryConfig.MaxRetries c + 1 - (attempt + 1))) by lia.
    specialize (IH (attempt + 1) (Some err) Hleft').
    set (run := retryLoop lib c env left (attempt + 1) (Some err) []) in *.
    cbn zeta in IH. destruct IH as (Hatt & Hlen & Hsl & Hdelay & Hnil).
    unfold attempts, sleeps in *.
    rewrite !omap_app. cbn [omap list_omap app].
    set (att := omap _ run.2) in *. set (sl := omap _ run.2) in *.
    split_and!.
    + cbn [length seq map]. rewrite Z.add_0_r. f_equal.
      rewrite Hatt at 1. rewrite <- seq_shift, map_map.
      apply map_ext. intros k. lia.
    + cbn [length]. lia.
    + cbn [length]. lia.
    + constructor; [apply calculateBackoffDelay_le|done].
    + rewrite Hnil. destruct att as [|a0 att'] eqn:Hatt'.
      * split; [by intros (a & Ha & _)|]. intros (a & [= <-] & Ha). congruence.
      * by rewrite last_cons_cons.
Qed.

End RetryLoopFacts.

(** For every retry configuration and every behaviour of the limiter, the
    operation and the context, [executeWithRetry] calls the operation at
    most [MaxRetries + 1] times, for the attempt numbers 0, 1, 2, ... in
    order, sleeps at most [MaxRetries] times and never longer than
    [MaxDelay]. *)
Theorem executeWithRetry_bounded lib c env :
  let steps := (S3Client.executeWithRetry lib c env).2 in
  S3Client.attempts steps = map Z.of_nat (seq 0 (length (S3Client.attempts steps)))
  /\ (length (S3Client.attempts steps) <= Z.to_nat (RetryConfig.MaxRetries c + 1))%nat
  /\ (length (S3Client.sleeps steps) <= Z.to_nat (RetryConfig.MaxRetries c))%nat
  /\ Forall (fun d => d <= RetryConfig.MaxDelay c) (S3Client.sleeps steps).
Proof.
  unfold S3Client.executeWithRetry.
  destruct (retryLoop_run lib c env (Z.to_nat (RetryConfig.MaxRetries c + 1)) 0 None)
    as (Hatt & Hlen & Hsl & Hdelay & _); [f_equal; lia|].
  cbn zeta. split_and!; [|done|lia|done].
  rewrite Hatt at 1. apply map_ext. intros k. lia.
Qed.

(** [executeWithRetry] returns nil exactly when the last call of the
    operation returned nil: a failure of the last attempt made is never
    reported as success, and a success never as failure. *)
Theorem executeWithRetry_nil_iff_last_attempt_succeeded lib c env :
  (S3Client.executeWithRetry lib c env).1 = None
  <-> exists a,
        last (S3Client.attempts (S3Client.executeWithRetry lib c env).2) = Some a
        /\ S3Client.operation env a = None.
Proof.
  unfold S3Client.executeWithRetry.
  destruct (retryLoop_run lib c env (Z.to_nat (RetryConfig.MaxRetries c + 1)) 0 None)
    as (_ & _ & _ & _ & Hnil); [f_equal; lia|].
  exact Hnil.
Qed.
Section RetryOutcomeFacts.
Import S3Client.
Context (lib : GoLib) (c : RetryConfig.t).

(** Before attempt [a], the limiter let every attempt through, every
    attempt failed with a retryable error, and the context was not
    cancelled during the backoff. *)
Definition retriedBefore (env : Env) (a : Z) : Prop :=
  forall i, 0 <= i < a ->
    limiterWait env i = None /\ ctxDone env i = None
    /\ exists e, operation env i = Some e /\ isRetryableError e = true.

(** The steps of [a] failed attempts, each followed by its backoff. *)
Definition rounds (a : nat) : list Step :=
  flat_map (fun i => [WaitLimiter; Attempt (Z.of_nat i);
                      Sleep (calculateBackoffDelay lib c (Z.of_nat i))])
           (seq 0 a).

Lemma executeWithRetry_prefix env (a : nat) :
  Z.of_nat a <= RetryConfig.MaxRetries c ->
  retriedBefore env (Z.of_nat a) ->
  exists lastErr,
    executeWithRetry lib c env
    = retryLoop lib c env (S (Z.to_nat (RetryConfig.MaxRetries c) - a)) (Z.of_nat a)
        lastErr (rounds a).
Proof.
  induction a as [|a IH]; intros Hle Hretried.
  - exists None. unfold executeWithRetry. f_equal. lia.
  - destruct IH as (lastErr & ->); [lia|intros i Hi; apply Hretried; lia|].
    destruct (Hretried (Z.of_nat a)) as (Hlim & Hctx & e & Hop & Hretry); [lia|].
    exists (Some e).
    replace (S (Z.to_nat (RetryConfig.MaxRetries c) - a))
      with (S (S (Z.to_nat (RetryConfig.MaxRetries c) - S a))) by lia.
    cbn [retryLoop]. rewrite Hlim, Hop, Hretry, Hctx.
    destruct (Z.eqb_spec (Z.of_nat a) (RetryConfig.MaxRetries c)) as [Heq|_]; [lia|].
    cbn [negb]. replace (Z.of_nat (S a)) with (Z.of_nat a + 1) by lia.
    f_equal. unfold rounds. rewrite seq_S, flat_map_app. cbn.
    by rewrite <- !app_assoc.
Qed.

End RetryOutcomeFacts.

(** The five ways out of [executeWithRetry].  When the attempts before
    attempt [a] were all retried, the call ends at attempt [a] if the
    limiter fails (its error is wrapped, the operation is not called), if
    the operation succeeds (nil), if [a] is the last attempt (the error is
    wrapped as the failure after [MaxRetries] retries, retryable or not),
    if the error is not retryable (it is returned as it is), or if the
    context is cancelled during the backoff (the context's error); in each
    case nothing is done after it. *)
Theorem executeWithRetry_outcome lib c env (a : nat) :
  Z.of_nat a <= RetryConfig.MaxRetries c ->
  retriedBefore env (Z.of_nat a) ->
  let attempted := rounds lib c a ++ [S3Client.WaitLimiter; S3Client.Attempt (Z.of_nat a)] in
  (forall err, S3Client.limiterWait env (Z.of_nat a) = Some err ->
     S3Client.executeWithRetry lib c env = (Some (RateLimiter err), rounds lib c a))
  /\ (S3Client.limiterWait env (Z.of_nat a) = None ->
      (S3Client.operation env (Z.of_nat a) = None ->
         S3Client.executeWithRetry lib c env = (None, attempted))
      /\ (forall e, S3Client.operation env (Z.of_nat a) = Some e ->
          (Z.of_nat a = RetryConfig.MaxRetries c ->
             S3Client.executeWithRetry lib c env
             = (Some (RetriesExhausted (RetryConfig.MaxRetries c) (Raw e)), attempted))
          /\ (Z.of_nat a < RetryConfig.MaxRetries c ->
              (S3Client.isRetryableError e = false ->
                 S3Client.executeWithRetry lib c env = (Some (Raw e), attempted))
              /\ (forall ctxErr, S3Client.isRetryableError e = true ->
                    S3Client.ctxDone env (Z.of_nat a) = Some ctxErr ->
                    S3Client.executeWithRetry lib c env = (Some ctxErr, attempted))))).
Proof.
  intros Hle Hretried attempted.
  destruct (executeWithRetry_prefix lib c env a Hle Hretried) as (lastErr & ->).
  cbn [S3Client.retryLoop]. split; [by intros err ->|].
  intros ->. split; [by intros ->|].
  intros e ->. split.
  - intros Heq. by destruct (Z.eqb_spec (Z.of_nat a) (RetryConfig.MaxRetries c)).
  - intros Hlt. destruct (Z.eqb_spec (Z.of_nat a) (RetryConfig.MaxRetries c)); [lia|].
    split; [by intros ->|]. by intros ctxErr -> ->.
Qed.

(** A throttled first attempt with the default configuration: the second
    attempt ends the call, with nil if it succeeds and with the very error
    if it is refused. *)
Lemma executeWithRetry_outcome_witness :
  S3Client.executeWithRetry RefLib.lib S3Client.DefaultRetryConfig SampleRecovery.recovers
  = (None,
     [S3Client.WaitLimiter; S3Client.Attempt 0; S3Client.Sleep (100 * GoTime.Millisecond);
      S3Client.WaitLimiter; S3Client.Attempt 1])
  /\ S3Client.executeWithRetry RefLib.lib S3Client.DefaultRetryConfig SampleRecovery.refused
     = (Some (Raw SampleRecovery.accessDenied),
        [S3Client.WaitLimiter; S3Client.Attempt 0; S3Client.Sleep (100 * GoTime.Millisecond);
         S3Client.WaitLimiter; S3Client.Attempt 1]).
Proof.
  assert (Hretried : forall env,
            S3Client.limiterWait env = (fun _ => None) ->
            S3Client.ctxDone env = (fun _ => None) ->
            S3Client.operation env 0 = Some Sample.slowDown ->
            retriedBefore env (Z.of_nat 1)).
  { intros env Hlim Hctx Hop i Hi. assert (i = 0) as -> by lia.
    rewrite Hlim, Hctx. split; [done|]. split; [done|].
    exists Sample.slowDown. split; [done|]. vm_compute. reflexivity. }
  split.
  - pose proof (executeWithRetry_outcome RefLib.lib S3Client.DefaultRetryConfig
                  SampleRecovery.recovers 1) as H.
    destruct H as (_ & H); [vm_compute; discriminate|by apply Hretried|].
    destruct (H eq_refl) as (Hnil & _).
    etransitivity; [apply Hnil; reflexivity|vm_compute; reflexivity].
  - pose proof (executeWithRetry_outcome RefLib.lib S3Client.DefaultRetryConfig
                  SampleRecovery.refused 1) as H.
    destruct H as (_ & H); [vm_compute; discriminate|by apply Hretried|].
    destruct (H eq_refl) as (_ & H').
    destruct (H' SampleRecovery.accessDenied eq_refl) as (_ & H'').
    destruct H'' as (Hraw & _); [vm_compute; reflexivity|].
    etransitivity; [apply Hraw; vm_compute; reflexivity|vm_compute; reflexivity].
Defined.

(* ===================================================================== *)
(** * The filter engine: what a parsed filter is, and what it selects *)
(* ===================================================================== *)

Section ParsedFilterFacts.
Import Engine.
Context (lib : GoLib).

Definition validString (o : option StringFilter.t) : Prop :=
  forall f, o = Some f -> member (StringFilter.Operator f) twoOperators = true.

(** A filter whose operators are among those of its fields and whose age
    and size values parse. *)
Definition wellFormed (filter : Filter.t) : Prop :=
  (forall a, Filter.Age filter = Some a ->
     member (AgeFilter.Operator a) sixOperators = true
     /\ exists d, parseAgeDuration lib (AgeFilter.Value a) = Ok d)
  /\ (forall s, Filter.Size filter = Some s ->
        member (SizeFilter.Operator s) sixOperators = true
        /\ exists n, parseSizeBytes lib (SizeFilter.Value s) = Ok n)
  /\ validString (Filter.StorageClass filter)
  /\ validString (Filter.Region filter)
  /\ validString (Filter.Bucket filter).

Definition count {A} (o : option A) : nat :=
  match o with Some _ => 1%nat | None => 0%nat end.

(** The number of fields a filter constrains. *)
Definition fieldCount (filter : Filter.t) : nat :=
  (count (Filter.Age filter) + count (Filter.Size filter)
   + count (Filter.StorageClass filter) + count (Filter.Region filter)
   + count (Filter.Bucket filter))%nat.

(** The conditions of a filter string: its comma-separated parts, trimmed,
    without the empty ones. *)
Definition conditionsOf (filterStr : string) : list string :=
  filter (fun c => c <> "") (map GoStrings.TrimSpace (GoStrings.Split filterStr ",")).

Lemma wellFormed_zero : wellFormed Filter.zero.
Proof. by repeat split. Qed.

Lemma check_Ok {A} e (k : result A) r :
  check e k = Ok r -> e = None /\ k = Ok r.
Proof. by destruct e. Qed.

Lemma validate_member operator field l :
  (if member operator l then None else Some (InvalidOperator operator field)) = None ->
  member operator l = true.
Proof. by destruct (member operator l). Qed.

Lemma errorOf_None {A} (r : result A) : errorOf r = None -> exists a, r = Ok a.
Proof. destruct r; [eauto|done]. Qed.

(** A condition that is accepted sets one field that was not set, with a
    valid operator and value, and leaves the others as they were. *)
Lemma parseCondition_Ok condition filter filter' :
  parseCondition lib condition filter = Ok filter' ->
  wellFormed filter ->
  wellFormed filter' /\ fieldCount filter' = S (fieldCount filter).
Proof.
  unfold parseCondition. destruct (FindStringSubmatch condition) as [[[f operator] v]|]; [|done].
  intros H (Hage & Hsize & Hclass & Hregion & Hbucket).
  repeat match type of H with
         | (if String.eqb ?a ?b then _ else _) = _ => destruct (String.eqb a b)
         end; [| | | | |done];
    match type of H with
    | (if present ?o then _ else _) = _ => destruct o eqn:Hfield; [done|]
    end; cbn [present] in H.
  - apply check_Ok in H as [Hop H]. apply check_Ok in H as [Hval [= <-]].
    apply validate_member in Hop. apply errorOf_None in Hval.
    split; [|unfold fieldCount; cbn; rewrite Hfield; cbn; lia].
    unfold wellFormed. cbn. split_and!; try done. by intros ? [= <-].
  - apply check_Ok in H as [Hop H]. apply check_Ok in H as [Hval [= <-]].
    apply validate_member in Hop. apply errorOf_None in Hval.
    split; [|unfold fieldCount; cbn; rewrite Hfield; cbn; lia].
    unfold wellFormed. cbn. split_and!; try done. by intros ? [= <-].
  - apply check_Ok in H as [Hop [= <-]]. apply validate_member in Hop.
    split; [|unfold fieldCount; cbn; rewrite Hfield; cbn; lia].
    unfold wellFormed. cbn. split_and!; try done. by intros ? [= <-].
  - apply check_Ok in H as [Hop [= <-]]. apply validate_member in Hop.
    split; [|unfold fieldCount; cbn; rewrite Hfield; cbn; lia].
    unfold wellFormed. cbn. split_and!; try done. by intros ? [= <-].
  - apply check_Ok in H as [Hop [= <-]]. apply validate_member in Hop.
    split; [|unfold fieldCount; cbn; rewrite Hfield; cbn; lia].
    unfold wellFormed. cbn. split_and!; try done. by intros ? [= <-].
Qed.

Lemma parseConditions_Ok conditions : forall start final,
  parseConditions lib conditions start = Ok final ->
  wellFormed start ->
  wellFormed final
  /\ (fieldCount final
      = fieldCount start
        + length (filter (fun c => c <> "") (map GoStrings.TrimSpace conditions)))%nat.
Proof.
  induction conditions as [|c rest IH]; intros f f' H Hwf; cbn [parseConditions] in H.
  - injection H as <-. split; [done|]. cbn. lia.
  - cbn [map]. destruct (String.eqb_spec (GoStrings.TrimSpace c) "") as [Hblank|Hcond].
    + rewrite filter_cons_False by (by intros ?). by apply IH.
    + rewrite filter_cons_True by done.
      destruct (parseCondition lib (GoStrings.TrimSpace c) f) as [f1|] eqn:Hc; [|done].
      destruct (parseCondition_Ok _ _ _ Hc Hwf) as [Hwf1 Hcount].
      destruct (IH _ _ H Hwf1) as [Hwf' Hcount'].
      split; [done|]. rewrite Hcount', Hcount. cbn [length]. lia.
Qed.

End ParsedFilterFacts.

(** Every filter that [ParseFilter] returns is well formed: the operator
    of each field is one the field supports (six for age and size, [=] and
    [!=] for the string fields) and the age and size values parse, so that
    the evaluation of the filter never falls into its default branches. *)
Theorem ParseFilter_well_formed lib filterStr filter :
  Engine.ParseFilter lib filterStr = Ok filter -> wellFormed lib filter.
Proof.
  unfold Engine.ParseFilter. destruct (String.eqb _ ""); [intros [= <-]; apply wellFormed_zero|].
  intros H. by apply (parseConditions_Ok lib _ _ _ H), wellFormed_zero.
Qed.

(** [ParseFilter] accepts one condition per field: the filter it returns
    constrains exactly as many fields as the string has non-empty
    conditions (none for a blank string), so a string with two conditions
    on one field is refused. *)
Theorem ParseFilter_one_field_per_condition lib filterStr filter :
  Engine.ParseFilter lib filterStr = Ok filter ->
  fieldCount filter
  = if String.eqb (GoStrings.TrimSpace filterStr) "" then 0%nat
    else length (conditionsOf filterStr).
Proof.
  unfold Engine.ParseFilter. destruct (String.eqb _ ""); [by intros [= <-]|].
  intros H. by destruct (parseConditions_Ok lib _ _ _ H (wellFormed_zero lib)) as [_ ->].
Qed.

Lemma ParseFilter_well_formed_witness :
  wellFormed RefLib.lib
    {| Filter.Age := Some {| AgeFilter.Operator := ">"; AgeFilter.Value := "7d" |};
       Filter.Size := Some {| SizeFilter.Operator := "<"; SizeFilter.Value := "100MB" |};
       Filter.StorageClass := None; Filter.Region := None;
       Filter.Bucket := Some {| StringFilter.Operator := "="; StringFilter.Value := "logs" |} |}.
Proof.
  apply (ParseFilter_well_formed RefLib.lib "age>7d, size<100MB,bucket = logs").
  vm_compute. reflexivity.
Defined.

Lemma ParseFilter_one_field_per_condition_witness :
  fieldCount
    {| Filter.Age := Some {| AgeFilter.Operator := ">"; AgeFilter.Value := "7d" |};
       Filter.Size := Some {| SizeFilter.Operator := "<"; SizeFilter.Value := "100MB" |};
       Filter.StorageClass := None; Filter.Region := None;
       Filter.Bucket := Some {| StringFilter.Operator := "="; StringFilter.Value := "logs" |} |}
  = 3%nat.
Proof.
  apply (ParseFilter_one_field_per_condition RefLib.lib "age>7d, size<100MB,bucket = logs").
  vm_compute. reflexivity.
Defined.

(** Two conditions on one field, an operator the field does not support
    and an unknown field are refused. *)
Example ParseFilter_refusals :
  Engine.ParseFilter RefLib.lib "age>7d,age<30d"
  = Err (InvalidCondition "age<30d" (AlreadySpecified "age"))
  /\ Engine.ParseFilter RefLib.lib "bucket>logs"
     = Err (InvalidCondition "bucket>logs" (InvalidOperator ">" "string"))
  /\ Engine.ParseFilter RefLib.lib "owner=me"
     = Err (InvalidCondition "owner=me" (UnsupportedField "owner"))
  /\ Engine.ParseFilter RefLib.lib "age" = Err (InvalidCondition "age" InvalidSyntax)
  /\ Engine.ParseFilter RefLib.lib " , ,, " = Ok Filter.zero.
Proof. repeat split; vm_compute; reflexivity. Qed.

Section ApplyFilterFacts.
Import Engine.
Context (lib : GoLib).

(** The loop of [ApplyFilter] from index [k] on. *)
Lemma omap_imap_sublist {A} (p : nat -> A -> bool) (l : list A) : forall k,
  sublist (omap (fun '(i, x) => if p i x then Some x else None)
             (imap (fun i x => ((k + i)%nat, x)) l)) l.
Proof.
  induction l as [|x l IH]; intros k; [constructor|].
  cbn [imap omap list_omap].
  rewrite (imap_ext _ (fun i x => ((S k + i)%nat, x))) by (intros; cbn; f_equal; lia).
  destruct (p (k + 0)%nat x); [apply sublist_skip|apply sublist_cons]; apply IH.
Qed.

Lemma elem_of_omap_imap {A} (p : nat -> A -> bool) (l : list A) (y : A) : forall k,
  y ∈ omap (fun '(i, x) => if p i x then Some x else None)
        (imap (fun i x => ((k + i)%nat, x)) l)
  <-> exists i, l !! i = Some y /\ p (k + i)%nat y = true.
Proof.
  induction l as [|x l IH]; intros k.
  - cbn. split; [by intros ?%elem_of_nil|]. by intros (i & ? & _).
  - cbn [imap omap list_omap].
    rewrite (imap_ext _ (fun i x => ((S k + i)%nat, x))) by (intros; cbn; f_equal; lia).
    destruct (p (k + 0)%nat x) eqn:Hp.
    + rewrite elem_of_cons, IH. split.
      * intros [->|(i & Hi & H)]; [by exists 0%nat|].
        exists (S i). split; [done|]. by replace (k + S i)%nat with (S k + i)%nat by lia.
      * intros ([|i] & Hi & H).
        -- left. by injection Hi.
        -- right. exists i. split; [done|].
           by replace (S k + i)%nat with (k + S i)%nat by lia.
    + rewrite IH. split.
      * intros (i & Hi & H). exists (S i). split; [done|].
        by replace (k + S i)%nat with (S k + i)%nat by lia.
      * intros ([|i] & Hi & H).
        -- injection Hi as <-. congruence.
        -- exists i. split; [done|]. by replace (S k + i)%nat with (k + S i)%nat by lia.
Qed.

End ApplyFilterFacts.

(** [ApplyFilter] only selects: what it returns is a sublist of the
    records it was given, in their order; with an empty filter it is the
    whole list, and otherwise a record is returned exactly when it is a
    record of the list that matches the filter at the time it is
    examined. *)
Theorem ApplyFilter_selects lib clock uploads f :
  sublist (Engine.ApplyFilter lib clock uploads f) uploads
  /\ (Engine.isEmptyFilter f = true -> Engine.ApplyFilter lib clock uploads f = uploads)
  /\ (Engine.isEmptyFilter f = false ->
      forall u,
        u ∈ Engine.ApplyFilter lib clock uploads f
        <-> exists i, uploads !! i = Some u
                      /\ Engine.matchesFilter lib (clock i) u f = true).
Proof.
  unfold Engine.ApplyFilter. destruct (Engine.isEmptyFilter f).
  - split; [done|]. split; [done|]. discriminate.
  - split; [|split; [discriminate|]].
    + apply (omap_imap_sublist (fun i u => Engine.matchesFilter lib (clock i) u f) uploads 0).
    + intros _ u.
      apply (elem_of_omap_imap (fun i u => Engine.matchesFilter lib (clock i) u f) uploads u 0).
Qed.

(* ===================================================================== *)
(** * The deletion engine: what is selected, and when anything is aborted *)
(* ===================================================================== *)

Section SelectionFacts.
Context (clock : nat -> GoTime.Time).

(** The bucket and size bounds of the options, which do not depend on the
    clock. *)
Definition withinBounds (opts : DeleteOptions.t) (u : MultipartUpload.t) : bool :=
  (String.eqb (DeleteOptions.BucketName opts) ""
   || String.eqb (MultipartUpload.Bucket u) (DeleteOptions.BucketName opts))
  && negb (optGe (MultipartUpload.Size u) (DeleteOptions.SmallerThan opts))
  && negb (optLe (MultipartUpload.Size u) (DeleteOptions.LargerThan opts)).

(** The age bound: at some reading of the clock from the [n]-th on, the
    record was at least as old as [OlderThan]. *)
Definition oldEnough (opts : DeleteOptions.t) (n : nat) (u : MultipartUpload.t) : Prop :=
  forall olderThan, DeleteOptions.OlderThan opts = Some olderThan ->
    exists m, (n <= m)%nat
              /\ olderThan <= GoTime.Since (clock m) (MultipartUpload.Initiated u).

Lemma withinBounds_iff opts u :
  withinBounds opts u = true
  <-> (DeleteOptions.BucketName opts = ""
       \/ MultipartUpload.Bucket u = DeleteOptions.BucketName opts)
      /\ (forall s, DeleteOptions.SmallerThan opts = Some s -> MultipartUpload.Size u < s)
      /\ (forall l, DeleteOptions.LargerThan opts = Some l -> l < MultipartUpload.Size u).
Proof.
  unfold withinBounds, optGe, optLe.
  rewrite !andb_true_iff, orb_true_iff, !negb_true_iff, !String.eqb_eq.
  destruct (DeleteOptions.SmallerThan opts) as [s|], (DeleteOptions.LargerThan opts) as [l|];
    rewrite ?Z.leb_gt; (split; intros H; destruct_and!; split_and!).
  all: first [ done | by intros ? ?; simplify_eq | by eauto ].
Qed.

Lemma oldEnough_later opts n m u : (n <= m)%nat -> oldEnough opts m u -> oldEnough opts n u.
Proof.
  intros Hnm H d Hd. destruct (H d Hd) as (k & Hk & Hage). exists k. split; [lia|done].
Qed.

(** The clock after the age test of one record, and the outcome of the
    test. *)
Definition afterAgeTest (opts : DeleteOptions.t) (w : World) : World :=
  match DeleteOptions.OlderThan opts with
  | Some _ => {| ticks := S (ticks w); trace := trace w |}
  | None => w
  end.

Definition tooYoung (opts : DeleteOptions.t) (w : World) (u : MultipartUpload.t) : bool :=
  match DeleteOptions.OlderThan opts with
  | Some olderThan =>
      GoTime.Since (clock (ticks w)) (MultipartUpload.Initiated u) <? olderThan
  | None => false
  end.

(** One round of the loop of [filterUploadsForDeletion]. *)
Lemma filterUploadsForDeletion_cons u rest opts w :
  filterUploadsForDeletion clock (u :: rest) opts w
  = if negb (String.eqb (DeleteOptions.BucketName opts) "")
       && negb (String.eqb (MultipartUpload.Bucket u) (DeleteOptions.BucketName opts))
    then filterUploadsForDeletion clock rest opts w
    else if tooYoung opts w u
            || optGe (MultipartUpload.Size u) (DeleteOptions.SmallerThan opts)
            || optLe (MultipartUpload.Size u) (DeleteOptions.LargerThan opts)
    then filterUploadsForDeletion clock rest opts (afterAgeTest opts w)
    else ((u :: (filterUploadsForDeletion clock rest opts (afterAgeTest opts w)).1),
          (filterUploadsForDeletion clock rest opts (afterAgeTest opts w)).2).
Proof.
  cbn [filterUploadsForDeletion]. unfold tooYoung, afterAgeTest.
  destruct (negb _ && negb _); [done|].
  rewrite bind_run.
  destruct (DeleteOptions.OlderThan opts) as [olderThan|].
  - rewrite bind_run. unfold now. rewrite ret_run.
    destruct (_ <? olderThan); [done|]. cbn [orb].
    destruct (optGe _ _); [done|]. destruct (optLe _ _); [done|].
    rewrite bind_run. cbn [orb]. by destruct (filterUploadsForDeletion clock rest opts _).
  - rewrite ret_run. cbn [orb].
    destruct (optGe _ _); [done|]. destruct (optLe _ _); [done|].
    rewrite bind_run. cbn [orb]. by destruct (filterUploadsForDeletion clock rest opts _).
Qed.

Lemma filterUploadsForDeletion_run uploads opts : forall w,
  sublist (filterUploadsForDeletion clock uploads opts w).1
    (filter (fun u => withinBounds opts u = true) uploads)
  /\ Forall (oldEnough opts (ticks w)) (filterUploadsForDeletion clock uploads opts w).1
  /\ (DeleteOptions.OlderThan opts = None ->
      filterUploadsForDeletion clock uploads opts w
      = (filter (fun u => withinBounds opts u = true) uploads, w)).
Proof.
  induction uploads as [|u rest IH]; intros w.
  - cbn. split_and!; [constructor|constructor|done].
  - rewrite filterUploadsForDeletion_cons.
    assert (Hlater : forall x, oldEnough opts (ticks (afterAgeTest opts w)) x
                               -> oldEnough opts (ticks w) x).
    { intros x. apply oldEnough_later. unfold afterAgeTest.
      destruct (DeleteOptions.OlderThan opts); cbn; lia. }
    assert (Hsame : DeleteOptions.OlderThan opts = None -> afterAgeTest opts w = w).
    { unfold afterAgeTest. by intros ->. }
    destruct (negb _ && negb _) eqn:Hbucket.
    { rewrite filter_cons_False; [apply IH|].
      unfold withinBounds. apply andb_true_iff in Hbucket as [H1 H2].
      apply negb_true_iff in H1, H2. rewrite H1, H2. cbn. discriminate. }
    assert (Hb : String.eqb (DeleteOptions.BucketName opts) ""
                 || String.eqb (MultipartUpload.Bucket u) (DeleteOptions.BucketName opts) = true).
    { destruct (String.eqb (DeleteOptions.BucketName opts) ""); [done|].
      by destruct (String.eqb (MultipartUpload.Bucket u) (DeleteOptions.BucketName opts)). }
    destruct (IH (afterAgeTest opts w)) as (Hsub & Hold & Hnone).
    destruct (tooYoung opts w u) eqn:Hyoung; cbn [orb].
    { split_and!.
      - destruct (withinBounds opts u) eqn:Hw.
        + rewrite filter_cons_True by done. by apply sublist_cons.
        + by rewrite filter_cons_False by congruence.
      - eapply Forall_impl; [exact Hold|exact Hlater].
      - intros Hno. unfold tooYoung in Hyoung. by rewrite Hno in Hyoung. }
    destruct (optGe _ _ || optLe _ _) eqn:Hsize.
    { rewrite filter_cons_False.
      2:{ unfold withinBounds. rewrite Hb. cbn [andb].
          apply orb_true_iff in Hsize as [->| ->]; cbn; [discriminate|].
          rewrite andb_false_r. discriminate. }
      split_and!; [done|eapply Forall_impl; [exact Hold|exact Hlater]|].
      intros Hno. by rewrite (Hsame Hno) in *; apply Hnone. }
    apply orb_false_iff in Hsize as [Hge Hle].
    rewrite filter_cons_True by (unfold withinBounds; by rewrite Hb, Hge, Hle).
    cbn [fst snd]. split_and!.
    + by apply sublist_skip.
    + constructor; [|eapply Forall_impl; [exact Hold|exact Hlater]].
      intros d Hd. exists (ticks w). split; [lia|].
      unfold tooYoung in Hyoung. rewrite Hd in Hyoung. by apply Z.ltb_ge in Hyoung.
    + intros Hno. rewrite (Hsame Hno) in *. by rewrite (Hnone Hno).
Qed.

(** The bucket test, which decides whether the clock is read for a
    record. *)
Definition inBucket (opts : DeleteOptions.t) (u : MultipartUpload.t) : bool :=
  String.eqb (DeleteOptions.BucketName opts) ""
  || String.eqb (MultipartUpload.Bucket u) (DeleteOptions.BucketName opts).

(** The index of the clock reading made for the record at position [i]
    of [uploads], when the next reading at the start of the call is the
    [n]-th: one reading is made for every record that passes the bucket
    test. *)
Definition readingFor (opts : DeleteOptions.t) (n : nat) (uploads : list MultipartUpload.t)
    (i : nat) : nat :=
  (n + length (filter (fun u => inBucket opts u = true) (take i uploads)))%nat.

(** The age test at the [m]-th reading of the clock. *)
Definition oldAt (opts : DeleteOptions.t) (m : nat) (u : MultipartUpload.t) : bool :=
  match DeleteOptions.OlderThan opts with
  | Some olderThan => olderThan <=? GoTime.Since (clock m) (MultipartUpload.Initiated u)
  | None => true
  end.

(** The record at position [i] passes every test, the age test at the
    reading made for it. *)
Definition selectedAt (opts : DeleteOptions.t) (n : nat) (uploads : list MultipartUpload.t)
    (i : nat) (u : MultipartUpload.t) : bool :=
  withinBounds opts u && oldAt opts (readingFor opts n uploads i) u.

Lemma readingFor_skip opts n u rest i :
  inBucket opts u = false ->
  readingFor opts n (u :: rest) (S i) = readingFor opts n rest i.
Proof.
  intros Hu. unfold readingFor. cbn [take].
  rewrite filter_cons_False by congruence. done.
Qed.

Lemma readingFor_read opts n u rest i :
  inBucket opts u = true ->
  readingFor opts n (u :: rest) (S i) = readingFor opts (S n) rest i.
Proof.
  intros Hu. unfold readingFor. cbn [take].
  rewrite filter_cons_True by done. cbn [length]. lia.
Qed.

Lemma oldAt_unset opts m m' u :
  DeleteOptions.OlderThan opts = None -> oldAt opts m u = oldAt opts m' u.
Proof. unfold oldAt. by intros ->. Qed.

Lemma tooYoung_oldAt opts w u : tooYoung opts w u = negb (oldAt opts (ticks w) u).
Proof.
  unfold tooYoung, oldAt. destruct (DeleteOptions.OlderThan opts) as [d|]; [|done].
  by rewrite Z.leb_antisym, negb_involutive.
Qed.

Lemma afterAgeTest_ticks opts w :
  ticks (afterAgeTest opts w)
  = match DeleteOptions.OlderThan opts with Some _ => S (ticks w) | None => ticks w end.
Proof. unfold afterAgeTest. by destruct (DeleteOptions.OlderThan opts). Qed.

(** The loop, record by record: what is kept and how often the clock is
    read. *)
Lemma filterUploadsForDeletion_exact opts uploads : forall w k (p : nat -> MultipartUpload.t -> bool),
  (forall i x, uploads !! i = Some x ->
               p (k + i)%nat x = selectedAt opts (ticks w) uploads i x) ->
  filterUploadsForDeletion clock uploads opts w
  = (omap (fun '(i, x) => if p i x then Some x else None)
       (imap (fun i x => ((k + i)%nat, x)) uploads),
     {| ticks := match DeleteOptions.OlderThan opts with
                 | Some _ => readingFor opts (ticks w) uploads (length uploads)
                 | None => ticks w
                 end;
        trace := trace w |}).
Proof.
  induction uploads as [|u rest IH]; intros w k p Hp.
  - cbn. unfold readingFor. cbn. rewrite Nat.add_0_r.
    destruct w. by destruct (DeleteOptions.OlderThan opts).
  - rewrite filterUploadsForDeletion_cons. cbn [imap omap list_omap].
    rewrite (imap_ext _ (fun i x => ((S k + i)%nat, x))) by (intros; cbn; f_equal; lia).
    pose proof (Hp 0%nat u eq_refl) as Hu. unfold selectedAt in Hu.
    change (readingFor opts (ticks w) (u :: rest) 0) with (ticks w + 0)%nat in Hu.
    rewrite !Nat.add_0_r in Hu.
    destruct (inBucket opts u) eqn:Hin.
    + assert (Hb : negb (String.eqb (DeleteOptions.BucketName opts) "")
                   && negb (String.eqb (MultipartUpload.Bucket u)
                                       (DeleteOptions.BucketName opts)) = false).
      { unfold inBucket in Hin. apply orb_true_iff in Hin as [-> | ->]; [done|].
        by rewrite andb_false_r. }
      rewrite Hb.
      assert (Hrest : forall i x, rest !! i = Some x ->
                p (S k + i)%nat x = selectedAt opts (ticks (afterAgeTest opts w)) rest i x).
      { intros i x Hx. replace (S k + i)%nat with (k + S i)%nat by lia.
        rewrite (Hp (S i) x Hx). unfold selectedAt. f_equal.
        rewrite (readingFor_read _ _ _ _ _ Hin), afterAgeTest_ticks.
        destruct (DeleteOptions.OlderThan opts) eqn:Hold; [done|].
        by apply oldAt_unset. }
      rewrite (IH (afterAgeTest opts w) (S k) p Hrest), afterAgeTest_ticks.
      assert (Hw : withinBounds opts u
                   = negb (optGe (MultipartUpload.Size u) (DeleteOptions.SmallerThan opts))
                     && negb (optLe (MultipartUpload.Size u) (DeleteOptions.LargerThan opts))).
      { unfold withinBounds. fold (inBucket opts u). by rewrite Hin. }
      assert (Hticks :
        match DeleteOptions.OlderThan opts with
        | Some _ => readingFor opts
                      match DeleteOptions.OlderThan opts with
                      | Some _ => S (ticks w) | None => ticks w
                      end rest (length rest)
        | None => match DeleteOptions.OlderThan opts with
                  | Some _ => S (ticks w) | None => ticks w
                  end
        end
        = match DeleteOptions.OlderThan opts with
          | Some _ => readingFor opts (ticks w) (u :: rest) (length (u :: rest))
          | None => ticks w
          end).
      { destruct (DeleteOptions.OlderThan opts); [|done].
        cbn [length]. by rewrite (readingFor_read _ _ _ _ _ Hin). }
      rewrite Hticks, Nat.add_0_r, Hu, Hw, tooYoung_oldAt.
      replace (trace (afterAgeTest opts w)) with (trace w)
        by (unfold afterAgeTest; by destruct (DeleteOptions.OlderThan opts)).
      destruct (oldAt opts (ticks w) u), (optGe _ _), (optLe _ _); reflexivity.
    + assert (Hb : negb (String.eqb (DeleteOptions.BucketName opts) "")
                   && negb (String.eqb (MultipartUpload.Bucket u)
                                       (DeleteOptions.BucketName opts)) = true).
      { unfold inBucket in Hin. apply orb_false_iff in Hin as [-> ->]. done. }
      rewrite Hb.
      assert (Hrest : forall i x, rest !! i = Some x ->
                p (S k + i)%nat x = selectedAt opts (ticks w) rest i x).
      { intros i x Hx. replace (S k + i)%nat with (k + S i)%nat by lia.
        rewrite (Hp (S i) x Hx). unfold selectedAt.
        by rewrite (readingFor_skip _ _ _ _ _ Hin). }
      rewrite (IH w (S k) p Hrest), Nat.add_0_r, Hu.
      unfold withinBounds. fold (inBucket opts u). rewrite Hin. cbn [andb].
      cbn [length]. by rewrite (readingFor_skip _ _ _ _ _ Hin).
Qed.

Lemma oldAt_true opts m u :
  oldAt opts m u = true
  <-> forall olderThan, DeleteOptions.OlderThan opts = Some olderThan ->
        olderThan <= GoTime.Since (clock m) (MultipartUpload.Initiated u).
Proof.
  unfold oldAt. destruct (DeleteOptions.OlderThan opts) as [d|].
  - rewrite Z.leb_le. split; [by intros H ? [= <-]|by intros H; apply H].
  - split; [by intros _ ? ?|done].
Qed.

End SelectionFacts.

(** [filterUploadsForDeletion] (of the upload service and of the dry-run
    service) selects, in their order, exactly the records of the list that
    are in the named bucket (if one is named), strictly smaller than
    [SmallerThan], strictly larger than [LargerThan] and at least
    [OlderThan] old at the clock reading made for them: the clock is read
    once for every record that passes the bucket test, and a record is
    judged by its own reading.  Without [OlderThan] it returns exactly the
    records within the bucket and size bounds and does not read the
    clock. *)
Theorem filterUploadsForDeletion_selects clock uploads opts w :
  let selected := (filterUploadsForDeletion clock uploads opts w).1 in
  selected
  = omap (fun '(i, u) => if selectedAt clock opts (ticks w) uploads i u then Some u else None)
      (imap (fun i u => (i, u)) uploads)
  /\ sublist selected uploads
  /\ (forall u,
        u ∈ selected
        <-> exists i,
              uploads !! i = Some u
              /\ (DeleteOptions.BucketName opts = ""
                  \/ MultipartUpload.Bucket u = DeleteOptions.BucketName opts)
              /\ (forall s, DeleteOptions.SmallerThan opts = Some s -> MultipartUpload.Size u < s)
              /\ (forall l, DeleteOptions.LargerThan opts = Some l -> l < MultipartUpload.Size u)
              /\ (forall olderThan,
                    DeleteOptions.OlderThan opts = Some olderThan ->
                    olderThan
                    <= GoTime.Since (clock (readingFor opts (ticks w) uploads i))
                         (MultipartUpload.Initiated u)))
  /\ (filterUploadsForDeletion clock uploads opts w).2
     = {| ticks := match DeleteOptions.OlderThan opts with
                   | Some _ => readingFor opts (ticks w) uploads (length uploads)
                   | None => ticks w
                   end;
          trace := trace w |}
  /\ (DeleteOptions.OlderThan opts = None ->
      filterUploadsForDeletion clock uploads opts w
      = (filter (fun u => withinBounds opts u = true) uploads, w)).
Proof.
  pose proof (filterUploadsForDeletion_exact clock opts uploads w 0
                (selectedAt clock opts (ticks w) uploads) ltac:(done)) as Hexact.
  destruct (filterUploadsForDeletion_run clock uploads opts w) as (_ & _ & Hnone).
  cbn zeta. rewrite Hexact. cbn [fst snd]. split_and!; [done| | |done|].
  - apply (omap_imap_sublist (selectedAt clock opts (ticks w) uploads) uploads 0).
  - intros u.
    rewrite (elem_of_omap_imap (selectedAt clock opts (ticks w) uploads) uploads u 0).
    split.
    + intros (i & Hi & Hsel). exists i. split; [done|].
      unfold selectedAt in Hsel. apply andb_true_iff in Hsel as [Hw Hold].
      apply withinBounds_iff in Hw as (? & ? & ?). split_and!; try done.
      by apply oldAt_true.
    + intros (i & Hi & Hb & Hs & Hl & Hold). exists i. split; [done|].
      unfold selectedAt. apply andb_true_iff. split.
      * by apply withinBounds_iff.
      * by apply oldAt_true.
  - intros Hno. rewrite <- Hexact. by apply Hnone.
Qed.

(* ===================================================================== *)
(** * The deletion engine: the dry run *)
(* ===================================================================== *)

Section DryRunFacts.
Context (lib : GoLib).
Context (clock : nat -> GoTime.Time).
Context (abortReply : nat -> MultipartUpload.t -> option error).
Context (stdin : string).
Context (dryRunService : option DryRunService).
Context (formatDuration : GoTime.Duration -> string).
Context (formatBytes : Z -> string).
Context (ctxDone : nat -> bool).

(** The clock never runs backwards. *)
Definition steadyClock : Prop := forall i j, (i <= j)%nat -> clock i <= clock j.

Lemma Since_mono now now' t : now <= now' -> GoTime.Since now t <= GoTime.Since now' t.
Proof. unfold GoTime.Since, GoTime.Sub, Int64.clamp, Int64.min, Int64.max. lia. Qed.

Lemma oldAt_later opts m m' u :
  DeleteOptions.OlderThan opts = None \/ steadyClock ->
  (m <= m')%nat -> oldAt clock opts m u = true -> oldAt clock opts m' u = true.
Proof.
  intros Hclock Hm. unfold oldAt.
  destruct (DeleteOptions.OlderThan opts) as [d|]; [|done].
  destruct Hclock as [?|Hclock]; [done|].
  rewrite !Z.leb_le. intros Hold. etransitivity; [exact Hold|].
  by apply Since_mono, Hclock.
Qed.

(** Records that pass every test from now on are all kept. *)
Lemma filterUploadsForDeletion_keeps opts selected : forall w,
  Forall (fun u => withinBounds opts u = true
                   /\ forall m, (ticks w <= m)%nat -> oldAt clock opts m u = true) selected ->
  (filterUploadsForDeletion clock selected opts w).1 = selected.
Proof.
  induction selected as [|u rest IH]; intros w Hall; [done|].
  apply Forall_cons in Hall as [[Hw Hold] Hrest].
  rewrite filterUploadsForDeletion_cons, tooYoung_oldAt, (Hold (ticks w)) by lia.
  unfold withinBounds in Hw. apply andb_true_iff in Hw as [Hw Hl].
  apply andb_true_iff in Hw as [Hb Hs]. apply negb_true_iff in Hs, Hl.
  rewrite Hs, Hl. cbn [negb orb].
  assert (Hbucket : negb (String.eqb (DeleteOptions.BucketName opts) "")
                    && negb (String.eqb (MultipartUpload.Bucket u)
                                        (DeleteOptions.BucketName opts)) = false).
  { apply orb_true_iff in Hb as [-> | ->]; [done|]. by rewrite andb_false_r. }
  rewrite Hbucket. cbn [fst]. f_equal. apply IH.
  eapply Forall_impl; [exact Hrest|]. intros x [Hx Hxold]. split; [done|].
  intros m Hm. apply Hxold. rewrite afterAgeTest_ticks in Hm.
  destruct (DeleteOptions.OlderThan opts); lia.
Qed.

Lemma readingFor_le opts n uploads i :
  (readingFor opts n uploads i <= readingFor opts n uploads (length uploads))%nat.
Proof.
  unfold readingFor. rewrite firstn_all.
  rewrite <- (take_drop i uploads) at 2. rewrite filter_app, length_app. lia.
Qed.

(** The selection of a selection: when the clock does not run backwards
    (or no age is asked for), selecting again keeps every record. *)
Lemma filterUploadsForDeletion_again uploads opts w :
  DeleteOptions.OlderThan opts = None \/ steadyClock ->
  (filterUploadsForDeletion clock (filterUploadsForDeletion clock uploads opts w).1 opts
     (filterUploadsForDeletion clock uploads opts w).2).1
  = (filterUploadsForDeletion clock uploads opts w).1.
Proof.
  intros Hclock.
  pose proof (filterUploadsForDeletion_exact clock opts uploads w 0
                (selectedAt clock opts (ticks w) uploads) ltac:(done)) as Hexact.
  rewrite Hexact. cbn [fst snd]. apply filterUploadsForDeletion_keeps.
  apply Forall_forall. intros u Hu.
  apply (elem_of_omap_imap (selectedAt clock opts (ticks w) uploads) uploads u 0) in Hu
    as (i & Hi & Hsel).
  unfold selectedAt in Hsel. apply andb_true_iff in Hsel as [Hw Hold]. split; [done|].
  cbn [ticks]. intros m Hm.
  pose proof (readingFor_le opts (ticks w) uploads i) as Hle.
  destruct (DeleteOptions.OlderThan opts) eqn:Hage.
  - destruct Hclock as [Hnone|Hsteady]; [congruence|].
    eapply oldAt_later; [by right| |exact Hold]. cbn [Nat.add]. lia.
  - unfold oldAt. by rewrite Hage.
Qed.

(** What the dry run prints for the records [filtered] that the options
    matched, selected up to the world [w1].  With a dry-run service it is
    the simulation result: the records that [SimulateDeletion] selects
    from [filtered] with the same options, their count, total size,
    savings estimate and breakdowns by bucket, region and storage class,
    the currency, the time of the simulation, and the command and filter
    strings. *)
Definition dryRunReport (opts : DeleteOptions.t) (filtered : list MultipartUpload.t)
    (w1 : World) (report : Output) : Prop :=
  match dryRunService with
  | Some d =>
      exists r,
        report = DryRunResults r
        /\ DryRunResult.Uploads r = (filterUploadsForDeletion clock filtered opts w1).1
        /\ simulationOf d r
        /\ DryRunResult.Currency r = "USD"
        /\ DryRunResult.GeneratedAt r
           = clock (ticks (filterUploadsForDeletion clock filtered opts w1).2)
        /\ DryRunResult.Command r = buildCommandString formatDuration formatBytes opts
        /\ DryRunResult.Filters r = buildFilterString formatDuration formatBytes opts
  | None =>
      report = LegacyDryRunResults (length filtered) (sumSizes filtered)
                 (countBy MultipartUpload.Bucket filtered)
                 (sizeBy MultipartUpload.Bucket filtered)
  end.


End DryRunFacts.


Section AbortSafetyFacts.
Context (lib : GoLib).
Context (clock : nat -> GoTime.Time).
Context (abortReply : nat -> MultipartUpload.t -> option error).
Context (stdin : string).
Context (dryRunService : option DryRunService).
Context (formatDuration : GoTime.Duration -> string).
Context (formatBytes : Z -> string).
Context (ctxDone : nat -> bool).

(** An abort request for a valid record of [selected]. *)
Definition abortsOneOf (selected : list MultipartUpload.t) (e : Event) : Prop :=
  exists worker u,
    e = AbortMultipartUpload worker (MultipartUpload.Bucket u) (MultipartUpload.Key u)
          (MultipartUpload.UploadID u)
    /\ u ∈ selected /\ MultipartUpload_Validate u = None.

Lemma abortOf_arrange sched (selected : list MultipartUpload.t) :
  Forall (abortsOneOf selected) (omap abortOf (arrange sched selected)).
Proof.
  apply Forall_forall. intros e He.
  apply list_elem_of_omap in He as ([i u] & Hin & He).
  unfold arrange in Hin. apply list_elem_of_omap in Hin as (j & _ & Hj).
  destruct (selected !! j) as [x|] eqn:Hx; [|done]. cbn in Hj. injection Hj as <- <-.
  unfold abortOf in He. cbn [fst snd] in He.
  destruct (MultipartUpload_Validate x) eqn:Hv; [done|]. injection He as <-.
  exists j, x. split; [done|]. split; [by eapply list_elem_of_lookup_2|done].
Qed.

Lemma arrange_nil {A} sched : arrange sched (@nil A) = [].
Proof. unfold arrange. by induction sched. Qed.

(** The trace of a batch, whatever the schedule, the interleaving and the
    context: the only abort requests are those of the workers. *)
Lemma deleteUploadsWithProgress_trace script sched selected w :
  exists new,
    trace (deleteUploadsWithProgress clock abortReply ctxDone script sched selected w).2
    = trace w ++ new
    /\ Forall (abortsOneOf selected) (filter (fun e => isAbort e = true) new).
Proof.
  unfold deleteUploadsWithProgress. destruct selected as [|u0 us].
  - exists []. rewrite ret_run. cbn. split; [by rewrite app_nil_r|constructor].
  - set (selected := u0 :: us). rewrite bind_run. unfold now at 1. rewrite bind_run.
    set (w1 := {| ticks := S (ticks w); trace := trace w |}).
    destruct (run_trace clock abortReply ctxDone (length selected) (clock (ticks w))
                (script ++ remaining (length selected)) 0
                (start (arrange sched selected)) w1) as (new & Htrace & Hnew).
    destruct (run clock abortReply ctxDone (length selected) (clock (ticks w))
                (script ++ remaining (length selected)) 0
                (start (arrange sched selected)) w1) as [b w2].
    cbn [fst snd] in *. exists new. split.
    + destruct (crashed b); [by rewrite ret_run|].
      by destruct (failures (finished b)); rewrite ret_run.
    + apply Forall_forall. intros e [He Hin]%list_elem_of_filter.
      rewrite Forall_forall in Hnew. specialize (Hnew e Hin He).
      pose proof (abortOf_arrange sched selected) as Hall.
      rewrite Forall_forall in Hall. by apply Hall.
Qed.

(** What [DeleteUploads] adds to the trace. *)
Lemma DeleteUploads_trace script sched uploads opts w :
  let selected := (filterUploadsForDeletion clock uploads opts w).1 in
  let w1 := (filterUploadsForDeletion clock uploads opts w).2 in
  exists new,
    trace (DeleteUploads lib clock abortReply stdin dryRunService formatDuration formatBytes
             ctxDone script sched uploads opts w).2 = trace w ++ new
    /\ Forall (fun e => isAbort e = true -> abortsOneOf selected e) new
    /\ (Exists (fun e => isAbort e = true) new ->
        DeleteOptions_Validate opts = None
        /\ DeleteOptions.DryRun opts = false
        /\ confirmed lib stdin opts selected w1).
Proof.
  cbn zeta. unfold DeleteUploads.
  assert (Hnone : forall (P : Prop), Exists (fun e => isAbort e = true) [] -> P)
    by (intros P H; by apply Exists_nil in H).
  assert (Hbatch : forall selected (new : list Event),
            Forall (abortsOneOf selected) (filter (fun e => isAbort e = true) new) ->
            Forall (fun e => isAbort e = true -> abortsOneOf selected e) new).
  { intros selected new Hnew. rewrite Forall_forall in Hnew. apply Forall_forall.
    intros e Hin He. apply Hnew. by apply list_elem_of_filter. }
  destruct (DeleteOptions_Validate opts) eqn:Hvalid.
  { exists []. rewrite ret_run, app_nil_r. split; [done|]. split; [constructor|apply Hnone]. }
  rewrite bind_run.
  pose proof (filterUploadsForDeletion_trace clock uploads opts w) as Htrace.
  destruct (filterUploadsForDeletion clock uploads opts w) as [selected w1].
  cbn [fst snd] in *. destruct selected as [|u0 us] eqn:Hsel.
  { exists []. rewrite ret_run, app_nil_r. split; [done|]. split; [constructor|apply Hnone]. }
  rewrite <- Hsel. clear Hsel.
  assert (Hprinted : forall o (P : Prop),
            Exists (fun e => isAbort e = true) [Printed o] -> P).
  { intros o P H. apply Exists_cons in H as [H|H]; [discriminate H|by apply Exists_nil in H]. }
  destruct (DeleteOptions.DryRun opts) eqn:Hdry.
  { destruct dryRunService as [d|].
    - rewrite bind_run.
      destruct (SimulateDeletion_valid clock formatDuration formatBytes d selected opts w1 Hvalid)
        as (r & w2 & -> & Htrace2 & _).
      rewrite bind_run. unfold emit. rewrite ret_run.
      exists [Printed (DryRunResults r)]. cbn [snd trace]. rewrite Htrace2, Htrace.
      split; [done|]. split; [by repeat constructor|apply Hprinted].
    - rewrite bind_run. unfold emit. rewrite ret_run. eexists [Printed _].
      cbn [snd trace]. rewrite Htrace.
      split; [done|]. split; [by repeat constructor|apply Hprinted]. }
  rewrite bind_run. unfold confirmed.
  destruct (DeleteOptions.Force opts) eqn:Hforce.
  { rewrite ret_run.
    destruct (deleteUploadsWithProgress_trace script sched selected w1) as (new & -> & Hnew).
    exists new. rewrite Htrace. split; [done|].
    split; [by apply Hbatch|by intros _; split_and!; [..|left]]. }
  pose proof (promptForConfirmation_spec lib stdin selected (sumSizes selected) w1) as Hp.
  destruct (promptForConfirmation lib stdin selected (sumSizes selected) w1) as [answer w2].
  cbn [fst snd] in *. subst w2.
  destruct answer as [[|]|err].
  - destruct (deleteUploadsWithProgress_trace script sched selected
                {| ticks := ticks w1;
                   trace := trace w1 ++ [Printed (DeletionSummary (length selected)
                              (sumSizes selected) (countBy MultipartUpload.Bucket selected))] |})
      as (new & -> & Hnew).
    cbn [trace]. rewrite Htrace. eexists. rewrite <- app_assoc. split; [done|].
    split; [|by intros _; split_and!; [..|right]].
    apply Forall_cons. split; [done|]. by apply Hbatch.
  - rewrite ret_run. cbn [snd trace]. rewrite Htrace. eexists [Printed _].
    split; [done|]. split; [by repeat constructor|apply Hprinted].
  - rewrite ret_run. cbn [snd trace]. rewrite Htrace. eexists [Printed _].
    split; [done|]. split; [by repeat constructor|apply Hprinted].
Qed.

End AbortSafetyFacts.

(** [DeleteUploads] never aborts without consent: for every input, if the
    call sends any [AbortMultipartUpload] request, then the options are
    valid, [DryRun] is off, and either [Force] is set or the answer read
    from the confirmation reader was y or yes. *)
Theorem DeleteUploads_aborts_only_confirmed lib clock abortReply stdin dryRunService
    formatDuration formatBytes ctxDone script sched uploads opts w :
  exists new,
    trace (DeleteUploads lib clock abortReply stdin dryRunService formatDuration formatBytes
             ctxDone script sched uploads opts w).2 = trace w ++ new
    /\ (Exists (fun e => isAbort e = true) new ->
        DeleteOptions_Validate opts = None
        /\ DeleteOptions.DryRun opts = false
        /\ confirmed lib stdin opts (filterUploadsForDeletion clock uploads opts w).1
             (filterUploadsForDeletion clock uploads opts w).2).
Proof.
  destruct (DeleteUploads_trace lib clock abortReply stdin dryRunService formatDuration
              formatBytes ctxDone script sched uploads opts w)
    as (new & Htrace & _ & Hconfirmed).
  by exists new.
Qed.

(** [DeleteUploads] never aborts anything else than what was selected:
    every [AbortMultipartUpload] request it sends names the bucket, key
    and upload id of a valid record of the list that the options select. *)
Theorem DeleteUploads_aborts_only_selected lib clock abortReply stdin dryRunService
    formatDuration formatBytes ctxDone script sched uploads opts w :
  exists new,
    trace (DeleteUploads lib clock abortReply stdin dryRunService formatDuration formatBytes
             ctxDone script sched uploads opts w).2 = trace w ++ new
    /\ Forall (fun e =>
         isAbort e = true ->
         exists worker u,
           e = AbortMultipartUpload worker (MultipartUpload.Bucket u)
                 (MultipartUpload.Key u) (MultipartUpload.UploadID u)
           /\ u ∈ uploads
           /\ u ∈ (filterUploadsForDeletion clock uploads opts w).1
           /\ withinBounds opts u = true
           /\ MultipartUpload_Validate u = None) new.
Proof.
  destruct (DeleteUploads_trace lib clock abortReply stdin dryRunService formatDuration
              formatBytes ctxDone script sched uploads opts w) as (new & Htrace & Hsel & _).
  exists new. split; [done|].
  destruct (filterUploadsForDeletion_run clock uploads opts w) as (Hsub & _).
  eapply Forall_impl; [exact Hsel|]. intros e He Habort.
  destruct (He Habort) as (worker & u & -> & Hin & Hvalid).
  exists worker, u. split; [done|].
  pose proof (elem_of_sublist _ _ _ Hin Hsub) as Hb.
  apply list_elem_of_filter in Hb as [Hb Hu]. by split_and!.
Qed.

Section DeclinedFacts.
Context (lib : GoLib).
Context (clock : nat -> GoTime.Time).
Context (abortReply : nat -> MultipartUpload.t -> option error).
Context (stdin : string).
Context (dryRunService : option DryRunService).
Context (formatDuration : GoTime.Duration -> string).
Context (formatBytes : Z -> string).

(** The answer typed at the prompt counts as yes. *)
Definition saysYes (response : string) : bool :=
  let response := GoStrings.TrimSpace (ToLower lib response) in
  String.eqb response "y" || String.eqb response "yes".

Lemma promptForConfirmation_answer selected totalSize w :
  (promptForConfirmation lib stdin selected totalSize w).1
  = match ReadString stdin with
    | Err err => Err (ReadInputFailed err)
    | Ok response => Ok (saysYes response)
    end.
Proof.
  unfold promptForConfirmation. rewrite bind_run. unfold emit.
  by destruct (ReadString stdin).
Qed.

End DeclinedFacts.

(** The default answer is no.  With valid options, no [DryRun], no
    [Force] and a non-empty selection, [DeleteUploads] prints the summary
    and reads one line: unless the line is y or yes (in any case, with any
    surrounding white space) it returns the cancellation error, and when
    the reader ends before a newline it returns the read error; in both
    cases it does nothing else. *)
Theorem DeleteUploads_declined lib clock abortReply stdin dryRunService formatDuration
    formatBytes ctxDone script sched uploads opts w :
  DeleteOptions_Validate opts = None ->
  DeleteOptions.DryRun opts = false ->
  DeleteOptions.Force opts = false ->
  (filterUploadsForDeletion clock uploads opts w).1 <> [] ->
  (forall response, ReadString stdin = Ok response -> saysYes lib response = false) ->
  let selected := (filterUploadsForDeletion clock uploads opts w).1 in
  let run := DeleteUploads lib clock abortReply stdin dryRunService formatDuration
               formatBytes ctxDone script sched uploads opts w in
  run.1 = match ReadString stdin with
          | Err err => Returns (Some (ConfirmationFailed (ReadInputFailed err)))
          | Ok _ => Returns (Some Cancelled)
          end
  /\ trace run.2
     = trace w ++ [Printed (DeletionSummary (length selected) (sumSizes selected)
                              (countBy MultipartUpload.Bucket selected))].
Proof.
  intros Hvalid Hdry Hforce Hsome Hno. cbn zeta. unfold DeleteUploads.
  rewrite Hvalid, bind_run.
  pose proof (filterUploadsForDeletion_trace clock uploads opts w) as Htrace.
  destruct (filterUploadsForDeletion clock uploads opts w) as [selected w1].
  cbn [fst snd] in *. destruct selected as [|u0 us] eqn:Hsel; [done|].
  rewrite <- Hsel. clear Hsel Hsome. rewrite Hdry, Hforce, bind_run.
  pose proof (promptForConfirmation_spec lib stdin selected (sumSizes selected) w1) as Hw.
  pose proof (promptForConfirmation_answer lib stdin selected (sumSizes selected) w1) as Ha.
  destruct (promptForConfirmation lib stdin selected (sumSizes selected) w1) as [answer w2].
  cbn [fst snd] in *. subst answer w2.
  destruct (ReadString stdin) as [response|err].
  - rewrite (Hno response eq_refl), ret_run. cbn [fst snd trace]. by rewrite Htrace.
  - rewrite ret_run. cbn [fst snd trace]. by rewrite Htrace.
Qed.

(** Pressing return at the prompt cancels the sample batch. *)
Lemma DeleteUploads_declined_witness :
  let run := DeleteUploads RefLib.lib SampleDeletion.clock SampleDeletion.abortReply
               SampleDecline.justReturn SampleDeletion.dryRunService
               SampleDeletion.formatDuration SampleDeletion.formatBytes
               SampleBatch.uncancelled SampleBatch.script Sample.order
               Sample.batch (SampleDeletion.options false false) SampleDeletion.start in
  run.1 = Returns (Some Cancelled)
  /\ trace run.2
     = [Printed (DeletionSummary 3 60 (countBy MultipartUpload.Bucket Sample.batch))].
Proof.
  apply (DeleteUploads_declined RefLib.lib SampleDeletion.clock SampleDeletion.abortReply
           SampleDecline.justReturn SampleDeletion.dryRunService
           SampleDeletion.formatDuration SampleDeletion.formatBytes
           SampleBatch.uncancelled SampleBatch.script Sample.order
           Sample.batch (SampleDeletion.options false false) SampleDeletion.start).
  - reflexivity.
  - reflexivity.
  - reflexivity.
  - vm_compute. discriminate.
  - intros response [= <-]. vm_compute. reflexivity.
Defined.

(** A reader that ends before a newline is a read error, even if what was
    typed is yes. *)
Example DeleteUploads_closed_reader :
  (DeleteUploads RefLib.lib SampleDeletion.clock SampleDeletion.abortReply
     SampleDecline.closed SampleDeletion.dryRunService
     SampleDeletion.formatDuration SampleDeletion.formatBytes
     SampleBatch.uncancelled SampleBatch.script Sample.order
     Sample.batch (SampleDeletion.options false false) SampleDeletion.start).1
  = Returns (Some (ConfirmationFailed (ReadInputFailed EOF))).
Proof. vm_compute. reflexivity. Qed.

(* ===================================================================== *)
(** * Listing: limits, windows and provenance *)
(* ===================================================================== *)

Section ListingLimitFacts.
Import UploadService.
Context (getRegionalClient : string -> result RegionalClient).

(** The client honours [MaxUploads]: a page never has more entries than
    the request allows. *)
Definition honoursMaxUploads : Prop :=
  forall region client page input output maxUploads,
    getRegionalClient region = Ok client ->
    ListMultipartUploads client page input = Ok output ->
    ListMultipartUploadsInput.MaxUploads input = Some maxUploads ->
    Z.of_nat (length (ListMultipartUploadsOutput.Uploads output)) <= maxUploads.

Lemma omap_length_le {A B} (f : A -> option B) (l : list A) :
  (length (omap f l) <= length l)%nat.
Proof. induction l as [|x l IH]; cbn; [lia|]. destruct (f x); cbn; lia. Qed.

Lemma requestPage_limit bucket page keyMarker uploadIDMarker maxUploads output :
  honoursMaxUploads ->
  requestPage getRegionalClient bucket page keyMarker uploadIDMarker (Some maxUploads)
    = Ok output ->
  Z.of_nat (length (ListMultipartUploadsOutput.Uploads output)) <= maxUploads.
Proof.
  intros Hserver. unfold requestPage.
  destruct (getRegionalClient (Bucket.Region bucket)) as [client|] eqn:Hc; [|done].
  destruct (ListMultipartUploads client page _) as [out|] eqn:Ho; [|done].
  intros [= <-]. by eapply Hserver.
Qed.

Lemma listPages_limit fuel bucket opts :
  honoursMaxUploads ->
  0 < ListOptions.MaxResults opts <= 2 ^ 31 - 1 ->
  forall page allUploads keyMarker uploadIDMarker uploads,
    Z.of_nat (length allUploads) <= ListOptions.MaxResults opts ->
    listPages getRegionalClient fuel bucket opts page allUploads keyMarker uploadIDMarker
      = Some (Ok uploads) ->
    Z.of_nat (length uploads) <= ListOptions.MaxResults opts.
Proof.
  intros Hserver Hmax.
  induction fuel as [|fuel IH]; intros page allUploads keyMarker uploadIDMarker uploads Hlen;
    [done|].
  cbn [listPages].
  destruct (Z.ltb_spec 0 (ListOptions.MaxResults opts)) as [_|]; [|lia]. cbn [andb].
  destruct (Z.leb_spec (ListOptions.MaxResults opts - Z.of_nat (length allUploads)) 0)
    as [|Hremaining]; [by intros [= <-]|].
  assert (Hwrap : Int32.wrap (ListOptions.MaxResults opts - Z.of_nat (length allUploads))
                  = ListOptions.MaxResults opts - Z.of_nat (length allUploads)).
  { unfold Int32.wrap. rewrite Z.mod_small; lia. }
  rewrite Hwrap.
  destruct (requestPage _ _ _ _ _ _) as [output|err] eqn:Hreq; [|done].
  pose proof (requestPage_limit _ _ _ _ _ _ Hserver Hreq) as Hpage.
  pose proof (omap_length_le (convert bucket) (ListMultipartUploadsOutput.Uploads output)).
  assert (Hnew : Z.of_nat (length (allUploads
                   ++ omap (convert bucket) (ListMultipartUploadsOutput.Uploads output)))
                 <= ListOptions.MaxResults opts)
    by (rewrite length_app; lia).
  destruct (isTruncated output); [by apply IH|]. by intros [= <-].
Qed.

End ListingLimitFacts.

(** With a positive [MaxResults] that fits the request's 32-bit field and
    a client that honours [MaxUploads], the listing of one bucket returns
    at most [MaxResults] records, however many pages it takes. *)
Theorem listUploadsForBucket_at_most_MaxResults getRegionalClient fuel bucket opts uploads :
  honoursMaxUploads getRegionalClient ->
  0 < ListOptions.MaxResults opts <= 2 ^ 31 - 1 ->
  UploadService.listUploadsForBucket getRegionalClient fuel bucket opts = Some (Ok uploads) ->
  Z.of_nat (length uploads) <= ListOptions.MaxResults opts.
Proof.
  intros Hserver Hmax. unfold UploadService.listUploadsForBucket.
  apply (listPages_limit getRegionalClient fuel bucket opts Hserver Hmax). cbn. lia.
Qed.

Lemma listUploadsForBucket_at_most_MaxResults_witness :
  UploadService.listUploadsForBucket SamplePaging.getRegionalClient 5
    (SampleListing.bucket "logs") (SampleListing.options 4 0)
  = Some (Ok (omap (UploadService.convert (SampleListing.bucket "logs"))
                (SamplePaging.entries ++ [SampleListing.entry "a.bin"])))
  /\ Z.of_nat (length (omap (UploadService.convert (SampleListing.bucket "logs"))
                         (SamplePaging.entries ++ [SampleListing.entry "a.bin"])))
     <= ListOptions.MaxResults (SampleListing.options 4 0).
Proof.
  split; [reflexivity|].
  apply (listUploadsForBucket_at_most_MaxResults SamplePaging.getRegionalClient 5
           (SampleListing.bucket "logs") (SampleListing.options 4 0)).
  - intros region client page input output maxUploads [= <-] Hout Hmax.
    cbn in Hout. rewrite Hmax in Hout.
    destruct (Z.ltb_spec maxUploads 0); [done|]. injection Hout as <-.
    cbn [ListMultipartUploadsOutput.Uploads SamplePaging.page]. rewrite length_take. lia.
  - cbn. lia.
  - reflexivity.
Defined.

Section WindowFacts.
Import UploadService.

Lemma slice_window {A} (s : list A) lo hi :
  0 <= lo <= hi -> hi <= Z.of_nat (length s) ->
  slice s lo hi = Returns (take (Z.to_nat (hi - lo)) (drop (Z.to_nat lo) s)).
Proof.
  intros H1 H2. unfold slice.
  destruct (Z.leb_spec 0 lo); [|lia]. destruct (Z.leb_spec lo hi); [|lia].
  destruct (Z.leb_spec hi (Z.of_nat (length s))); [|lia]. done.
Qed.

End WindowFacts.

(** [applyPagination] cuts exactly the window: for a non-negative offset
    and maximum whose sum fits the int, it returns the records after the
    first [Offset] ones, in their order, and of these the first
    [MaxResults] when the maximum is positive; an offset beyond the end
    gives the empty list. *)
Theorem applyPagination_window uploads opts :
  0 <= ListOptions.Offset opts ->
  0 <= ListOptions.MaxResults opts ->
  ListOptions.Offset opts + ListOptions.MaxResults opts <= Int64.max ->
  UploadService.applyPagination uploads opts
  = Returns (let rest := drop (Z.to_nat (ListOptions.Offset opts)) uploads in
             if 0 <? ListOptions.MaxResults opts
             then take (Z.to_nat (ListOptions.MaxResults opts)) rest
             else rest).
Proof.
  intros Hoff Hmax Hsum. unfold UploadService.applyPagination. cbn zeta.
  set (start := ListOptions.Offset opts) in *.
  set (m := ListOptions.MaxResults opts) in *.
  destruct (Z.leb_spec (Z.of_nat (length uploads)) start) as [Hout|Hin].
  { rewrite drop_ge by lia. by destruct (0 <? m); rewrite ?take_nil. }
  unfold Int64.add. rewrite (wrap_inRange (start + m))
    by (unfold Int64.inRange, Int64.min, Int64.max in *; lia).
  destruct (Z.ltb_spec 0 m) as [Hpos|Hzero]; cbn [andb].
  - destruct (Z.ltb_spec (start + m) (Z.of_nat (length uploads))) as [Hcut|Hall].
    + rewrite slice_window by lia. do 2 f_equal. lia.
    + rewrite slice_window by lia. f_equal.
      rewrite !take_ge; [done|rewrite length_drop; lia|rewrite length_drop; lia].
  - rewrite slice_window by lia. f_equal. rewrite take_ge; [done|]. rewrite length_drop. lia.
Qed.

Lemma applyPagination_window_witness :
  UploadService.applyPagination Sample.batch (SampleListing.options 1 1)
  = Returns [Sample.upload "logs" "b.bin" 20].
Proof.
  apply (applyPagination_window Sample.batch (SampleListing.options 1 1));
    vm_compute; discriminate.
Defined.

Section NamedBucketFacts.
Import UploadService.
Context (getRegionalClient : string -> result RegionalClient).
Context (GetBucketRegion : string -> result string).
Context (ListBuckets : string -> result (list Bucket.t)).

(** The paging loop reads nothing of the options but [MaxResults]. *)
Lemma listPages_options fuel bucket opts opts' :
  ListOptions.MaxResults opts = ListOptions.MaxResults opts' ->
  forall page allUploads keyMarker uploadIDMarker,
    listPages getRegionalClient fuel bucket opts page allUploads keyMarker uploadIDMarker
    = listPages getRegionalClient fuel bucket opts' page allUploads keyMarker uploadIDMarker.
Proof.
  intros Hmax. induction fuel as [|fuel IH]; intros page allUploads keyMarker uploadIDMarker;
    [done|].
  cbn [listPages]. rewrite Hmax.
  destruct (_ && _); [done|].
  destruct (requestPage _ _ _ _ _ _); [|done].
  destruct (isTruncated _); [apply IH|done].
Qed.

End NamedBucketFacts.

(** When the options name a bucket, [ListUploads] lists that bucket alone
    and applies no window: the offset, the region option and the schedule
    have no effect on what it returns, and a failure to resolve the
    bucket's region is returned before any listing request. *)
Theorem ListUploads_named_bucket getRegionalClient GetBucketRegion ListBuckets
    fuel sched opts :
  ListOptions.BucketName opts <> "" ->
  ListOptions_Validate opts = None ->
  (forall sched' opts',
     ListOptions.BucketName opts' = ListOptions.BucketName opts ->
     ListOptions.MaxResults opts' = ListOptions.MaxResults opts ->
     0 <= ListOptions.Offset opts' ->
     UploadService.ListUploads getRegionalClient GetBucketRegion ListBuckets fuel sched' opts'
     = UploadService.ListUploads getRegionalClient GetBucketRegion ListBuckets fuel sched opts)
  /\ match GetBucketRegion (ListOptions.BucketName opts) with
     | Err err =>
         UploadService.ListUploads getRegionalClient GetBucketRegion ListBuckets fuel sched opts
         = Some (Returns {| UploadService.listed := [];
                            UploadService.failure :=
                              Some (GetRegionFailed (ListOptions.BucketName opts) err);
                            UploadService.stderr := [] |})
     | Ok region =>
         UploadService.ListUploads getRegionalClient GetBucketRegion ListBuckets fuel sched opts
         = option_map (fun r => Returns (UploadService.listingOf r))
             (UploadService.listUploadsForBucket getRegionalClient fuel
                {| Bucket.Name := ListOptions.BucketName opts; Bucket.Region := region |} opts)
     end.
Proof.
  intros Hname Hvalid.
  assert (Hnamed : String.eqb (ListOptions.BucketName opts) "" = false)
    by (by apply String.eqb_neq).
  split.
  - intros sched' opts' Hname' Hmax' Hoff'.
    apply ListOptions_Validate_None in Hvalid as [Hmax Hoff].
    unfold UploadService.ListUploads, ListOptions_Validate.
    rewrite Hname', Hmax', Hnamed.
    destruct (Z.ltb_spec (ListOptions.MaxResults opts) 0); [lia|].
    destruct (Z.ltb_spec (ListOptions.Offset opts') 0); [lia|].
    destruct (Z.ltb_spec (ListOptions.Offset opts) 0); [lia|].
    cbn [negb]. destruct (GetBucketRegion (ListOptions.BucketName opts)); [|done].
    unfold UploadService.listUploadsForBucket.
    by rewrite (listPages_options getRegionalClient fuel _ opts' opts Hmax').
  - unfold UploadService.ListUploads. rewrite Hvalid, Hnamed. cbn [negb].
    by destruct (GetBucketRegion (ListOptions.BucketName opts)).
Qed.

(** Listing bucket [logs] with offset 2 returns the same four records as
    with offset 0. *)
Lemma ListUploads_named_bucket_witness :
  UploadService.ListUploads SamplePaging.getRegionalClient SampleListing.GetBucketRegion
    SampleListing.ListBuckets 5 [] (SamplePaging.named "logs" 4 2)
  = UploadService.ListUploads SamplePaging.getRegionalClient SampleListing.GetBucketRegion
      SampleListing.ListBuckets 5 Sample.order (SamplePaging.named "logs" 4 0).
Proof.
  destruct (ListUploads_named_bucket SamplePaging.getRegionalClient
              SampleListing.GetBucketRegion SampleListing.ListBuckets 5 Sample.order
              (SamplePaging.named "logs" 4 0)) as [H _]; [discriminate|reflexivity|].
  apply H; [reflexivity|reflexivity|vm_compute; discriminate].
Defined.

Section ProvenanceFacts.
Import UploadService.
Context (getRegionalClient : string -> result RegionalClient).
Context (GetBucketRegion : string -> result string).
Context (ListBuckets : string -> result (list Bucket.t)).

Lemma allFinished_lookup {A} (l : list (option A)) results i r :
  allFinished l = Some results -> results !! i = Some r -> l !! i = Some (Some r).
Proof.
  revert results i. induction l as [|[a|] l IH]; intros results i; cbn;
    [by intros [= <-]| |done].
  destruct (allFinished l) as [rest|] eqn:Hrest; [|done]. intros [= <-].
  destruct i as [|i]; cbn; [by intros [= <-]|]. by apply IH.
Qed.

Lemma arrange_elem_of {A} sched (items : list A) x :
  x ∈ map snd (arrange sched items) -> x ∈ items.
Proof.
  intros ([i y] & <- & Hin%list_elem_of_In)%list_elem_of_In%in_map_iff. unfold arrange in Hin.
  apply list_elem_of_omap in Hin as (j & _ & Hj).
  destruct (items !! j) as [z|] eqn:Hz; [|done]. cbn in Hj. injection Hj as <- <-.
  by eapply list_elem_of_lookup_2.
Qed.

Lemma applyPagination_sublist uploads opts page :
  applyPagination uploads opts = Returns page -> sublist page uploads.
Proof.
  unfold applyPagination, slice. destruct (_ <=? _).
  - intros [= <-]. apply sublist_nil_l.
  - destruct (_ && _ && _); [|done]. intros [= <-].
    etransitivity; [apply sublist_take|apply sublist_drop].
Qed.

Lemma finishListing_elem_of opts received l u :
  finishListing opts received = Returns l ->
  u ∈ listed l -> exists uploads, Ok uploads ∈ received /\ u ∈ uploads.
Proof.
  rewrite finishListing_spec. unfold window.
  destruct (_ || _).
  - destruct (applyPagination _ _) as [page|] eqn:Hpage; [|done]. intros [= <-]. cbn.
    intros Hu. apply applyPagination_sublist in Hpage.
    pose proof (elem_of_sublist _ _ _ Hu Hpage) as Hin.
    apply list_elem_of_In, in_concat in Hin as (uploads & Hok%list_elem_of_In & Hin%list_elem_of_In).
    exists uploads. split; [|done]. unfold oks in Hok.
    apply list_elem_of_omap in Hok as ([x|e] & Hx & Hsome); [|done]. by injection Hsome as <-.
  - intros [= <-]. cbn. intros Hin.
    apply list_elem_of_In, in_concat in Hin as (uploads & Hok%list_elem_of_In & Hin%list_elem_of_In).
    exists uploads. split; [|done]. unfold oks in Hok.
    apply list_elem_of_omap in Hok as ([x|e] & Hx & Hsome); [|done]. by injection Hsome as <-.
Qed.

End ProvenanceFacts.

(** On the multi-bucket path every record that [ListUploads] returns comes
    from the listing of one of the buckets the bucket service reported:
    it carries that bucket's name and region; and when the options name a
    region, the bucket, and so the record, is in that region. *)
Theorem ListUploads_records_of_listed_buckets getRegionalClient GetBucketRegion ListBuckets
    fuel sched opts buckets l :
  ListOptions.BucketName opts = "" ->
  ListBuckets "" = Ok buckets ->
  UploadService.ListUploads getRegionalClient GetBucketRegion ListBuckets fuel sched opts
    = Some (Returns l) ->
  Forall (fun u =>
    exists bucket,
      bucket ∈ buckets
      /\ MultipartUpload.Bucket u = Bucket.Name bucket
      /\ MultipartUpload.Region u = Bucket.Region bucket
      /\ (ListOptions.Region opts <> "" ->
          MultipartUpload.Region u = ListOptions.Region opts)) (UploadService.listed l).
Proof.
  intros Hname Hbuckets. unfold UploadService.ListUploads.
  destruct (ListOptions_Validate opts); [by intros [= <-]|].
  rewrite Hname, Hbuckets. cbn [String.eqb negb].
  unfold UploadService.listUploadsForBuckets.
  set (chosen := if negb (String.eqb (ListOptions.Region opts) "") then _ else buckets).
  destruct (UploadService.allFinished _) as [results|] eqn:Hfin; [|done].
  intros [= Hlist]. apply Forall_forall. intros u Hu.
  destruct (finishListing_elem_of _ _ _ _ Hlist Hu) as (uploads & Hreceived & Hin).
  apply arrange_elem_of, list_elem_of_lookup_1 in Hreceived as [i Hi].
  pose proof (allFinished_lookup _ _ _ _ Hfin Hi) as Hrun.
  apply list_elem_of_lookup_2, list_elem_of_In, in_map_iff in Hrun
    as (bucket & Hrun & Hbucket%list_elem_of_In).
  apply listPages_converted in Hrun as (entries & _ & ->). rewrite app_nil_l in Hin.
  apply list_elem_of_omap in Hin as (entry & _ & Hconv).
  apply convert_record in Hconv as ((_ & _ & Hb & Hr) & _).
  exists bucket. subst chosen.
  destruct (String.eqb_spec (ListOptions.Region opts) "") as [Hnone|Hsome]; cbn [negb] in Hbucket.
  - by split_and!.
  - apply list_elem_of_filter in Hbucket as [Hregion Hbucket].
    apply String.eqb_eq in Hregion. split_and!; [done|done|done|]. congruence.
Qed.

(** With the region option [eu-west-1], the two records come from bucket
    [logs], the only bucket of that region. *)
Lemma ListUploads_records_of_listed_buckets_witness :
  Forall (fun u =>
    exists bucket,
      bucket ∈ [ {| Bucket.Name := "logs"; Bucket.Region := "eu-west-1" |};
                 {| Bucket.Name := "backup"; Bucket.Region := "us-east-1" |} ]
      /\ MultipartUpload.Bucket u = Bucket.Name bucket
      /\ MultipartUpload.Region u = Bucket.Region bucket
      /\ (ListOptions.Region (SamplePaging.inRegion "eu-west-1") <> "" ->
          MultipartUpload.Region u = ListOptions.Region (SamplePaging.inRegion "eu-west-1")))
    [Sample.upload "logs" "a.bin" 0; Sample.upload "logs" "b.bin" 0].
Proof.
  apply (ListUploads_records_of_listed_buckets SampleListing.getRegionalClient
           SampleListing.GetBucketRegion SamplePaging.ListBuckets 1 [0%nat]
           (SamplePaging.inRegion "eu-west-1") _
           {| UploadService.listed :=
                [Sample.upload "logs" "a.bin" 0; Sample.upload "logs" "b.bin" 0];
              UploadService.failure := None; UploadService.stderr := [] |});
    reflexivity.
Defined.

(* ===================================================================== *)
(** * The size of one upload *)
(* ===================================================================== *)

Section UploadSizeFacts.
Import UploadParts.
Context (ListParts : nat -> ListPartsInput.t -> result ListPartsOutput.t).

Lemma wrap_add_l a b : Int64.wrap (Int64.wrap a + b) = Int64.wrap (a + b).
Proof.
  unfold Int64.wrap. f_equal.
  replace ((a + 2 ^ 63) mod 2 ^ 64 - 2 ^ 63 + b + 2 ^ 63)
    with ((a + 2 ^ 63) mod 2 ^ 64 + b) by lia.
  rewrite Zplus_mod_idemp_l. f_equal. lia.
Qed.

(** The size a part counts for: 0 when the part carries none. *)
Definition partSize (part : S3Part.t) : Z :=
  match S3Part.Size part with Some size => size | None => 0 end.

Definition sizeOfParts (parts : list S3Part.t) : Z :=
  foldr (fun part total => partSize part + total) 0 parts.

Lemma addParts_wrap parts : forall total,
  addParts (Int64.wrap total) parts = Int64.wrap (total + sizeOfParts parts).
Proof.
  induction parts as [|part parts IH]; intros total.
  - cbn. by rewrite Z.add_0_r.
  - change (addParts (Int64.wrap total) (part :: parts))
      with (addParts (match S3Part.Size part with
                      | Some size => Int64.add (Int64.wrap total) size
                      | None => Int64.wrap total
                      end) parts).
    change (sizeOfParts (part :: parts)) with (partSize part + sizeOfParts parts).
    unfold partSize. destruct (S3Part.Size part) as [size|].
    + unfold Int64.add. rewrite wrap_add_l, IH. f_equal. lia.
    + rewrite IH. f_equal.
Qed.

Lemma sizeOfParts_app parts parts' :
  sizeOfParts (parts ++ parts') = sizeOfParts parts + sizeOfParts parts'.
Proof.
  induction parts as [|p parts IH]; [done|].
  change (sizeOfParts ((p :: parts) ++ parts'))
    with (partSize p + sizeOfParts (parts ++ parts')).
  change (sizeOfParts (p :: parts)) with (partSize p + sizeOfParts parts).
  rewrite IH. lia.
Qed.

(** The marker of the [i]-th request: none for the first, then the next
    marker of the page before. *)
Definition markerOf (pages : list ListPartsOutput.t) (i : nat) : option string :=
  match i with
  | O => None
  | S j => pages !! j ≫= ListPartsOutput.NextPartNumberMarker
  end.

(** The client served [pages], all of them truncated, as the answers to
    the requests that follow one another's markers. *)
Definition servedPages (upload : MultipartUpload.t) (pages : list ListPartsOutput.t)
  : Prop :=
  forall i output, pages !! i = Some output ->
    ListParts i (request upload (markerOf pages i)) = Ok output
    /\ isTruncated output = true.

Lemma sumPages_served upload pages : forall fuel,
  servedPages upload pages ->
  forall done total,
    (done <= length pages)%nat ->
    sumPages ListParts (length pages - done + fuel) upload done
      (Int64.wrap total) (markerOf pages done)
    = sumPages ListParts fuel upload (length pages)
        (Int64.wrap (total + sizeOfParts (concat (map ListPartsOutput.Parts (drop done pages)))))
        (markerOf pages (length pages)).
Proof.
  intros fuel Hserved done total Hdone.
  remember (length pages - done)%nat as left eqn:Hleft.
  revert done total Hdone Hleft. induction left as [|left IH]; intros done total Hdone Hleft.
  - assert (done = length pages) as -> by lia.
    rewrite drop_all. cbn. by rewrite Z.add_0_r.
  - destruct (lookup_lt_is_Some_2 pages done) as [output Hout]; [lia|].
    destruct (Hserved done output Hout) as [Hreq Htrunc].
    cbn [Nat.add sumPages]. rewrite Hreq, Htrunc, addParts_wrap.
    replace (ListPartsOutput.NextPartNumberMarker output) with (markerOf pages (S done))
      by (cbn; by rewrite Hout).
    rewrite (IH (S done)) by lia. do 2 f_equal.
    rewrite (drop_S pages output done Hout). cbn. rewrite sizeOfParts_app. lia.
Qed.

End UploadSizeFacts.

(** [GetUploadSize] refuses a record that fails [Validate] before any
    request: whatever the client and however little fuel, the result is the
    wrapped validation error.  For a valid record it follows the
    part-number markers through the truncated pages, and when the last page
    arrives it returns the sum (in int64) of the sizes of all the parts of
    all the pages, a part without a size counting 0; when a request fails
    it returns the wrapped error and no partial sum. *)
Theorem GetUploadSize_sums_all_pages ListParts fuel upload :
  (forall err,
     MultipartUpload_Validate upload = Some err ->
     forall ListParts' fuel',
       UploadParts.GetUploadSize ListParts' fuel' upload = Some (Err (InvalidUpload err)))
  /\ (MultipartUpload_Validate upload = None ->
      forall pages,
        servedPages ListParts upload pages ->
        (length pages < fuel)%nat ->
        let last := ListParts (length pages)
                      (UploadParts.request upload (markerOf pages (length pages))) in
        (forall output, last = Ok output -> UploadParts.isTruncated output = false ->
           UploadParts.GetUploadSize ListParts fuel upload
           = Some (Ok (Int64.wrap
                         (sizeOfParts (concat (map ListPartsOutput.Parts (pages ++ [output])))))))
        /\ (forall err, last = Err err ->
              UploadParts.GetUploadSize ListParts fuel upload
              = Some (Err (ListPartsFailed (MultipartUpload.UploadID upload)
                             (MultipartUpload.Bucket upload) err)))).
Proof.
  split.
  { intros err Hinvalid ListParts' fuel'. unfold UploadParts.GetUploadSize.
    by rewrite Hinvalid. }
  intros Hvalid pages Hserved Hfuel last. unfold UploadParts.GetUploadSize. rewrite Hvalid.
  assert (Hrun : UploadParts.sumPages ListParts fuel upload 0 0 None
                 = UploadParts.sumPages ListParts (fuel - length pages) upload (length pages)
                     (Int64.wrap (sizeOfParts (concat (map ListPartsOutput.Parts pages))))
                     (markerOf pages (length pages))).
  { pose proof (sumPages_served ListParts upload pages (fuel - length pages) Hserved 0 0) as H.
    rewrite drop_0, Nat.sub_0_r, Z.add_0_l in H.
    replace (length pages + (fuel - length pages))%nat with fuel in H by lia.
    apply H. lia. }
  rewrite Hrun. destruct (fuel - length pages)%nat as [|fuel'] eqn:Hleft; [lia|].
  cbn [UploadParts.sumPages]. fold last. split.
  - intros output -> Hlast. rewrite Hlast, addParts_wrap. do 3 f_equal.
    rewrite map_app, concat_app, sizeOfParts_app. cbn. by rewrite app_nil_r.
  - by intros err ->.
Qed.

(** The sample upload has parts of 5, 3 and 1 MiB over two pages; the same
    record with an empty key is refused by a client that would fail, with
    no fuel at all. *)
Lemma GetUploadSize_sums_all_pages_witness :
  UploadParts.GetUploadSize SampleParts.ListParts 2 (Sample.upload "logs" "a.bin" 0)
  = Some (Ok (9 * 1024 * 1024))
  /\ UploadParts.GetUploadSize (fun _ _ => Err Sample.accessDenied) 0
       (Sample.upload "logs" "" 0)
     = Some (Err (InvalidUpload
                    (Validation {| Field := "Key"; Message := "key cannot be empty" |}))).
Proof.
  split.
  - destruct (GetUploadSize_sums_all_pages SampleParts.ListParts 2
                (Sample.upload "logs" "a.bin" 0)) as [_ Hvalid].
    destruct (Hvalid eq_refl [SampleParts.first]) as [H _].
    + intros [|[|i]] output; cbn; [intros [= <-]; by split|done|done].
    + cbn. lia.
    + apply (H SampleParts.second); reflexivity.
  - destruct (GetUploadSize_sums_all_pages SampleParts.ListParts 2
                (Sample.upload "logs" "" 0)) as [Hinvalid _].
    apply Hinvalid. reflexivity.
Defined.

(** A record with an empty key, as the listing can produce it, is refused
    without a request, and a listing that never ends is never summed. *)
Example GetUploadSize_edges :
  UploadParts.GetUploadSize SampleParts.ListParts 2 (Sample.upload "logs" "" 0)
  = Some (Err (InvalidUpload
                 (Validation {| Field := "Key"; Message := "key cannot be empty" |})))
  /\ UploadParts.GetUploadSize (fun _ _ => Ok SampleParts.first) 50
       (Sample.upload "logs" "a.bin" 0) = None.
Proof. split; reflexivity. Qed.

(* ===================================================================== *)
(** * The size report *)
(* ===================================================================== *)

Section SizeReportFacts.
Import SizeReporting.

(** The plain sum of the sizes of the records for which [p] holds. *)
Definition sizeWhere (p : MultipartUpload.t -> bool) (uploads : list MultipartUpload.t) : Z :=
  foldr (fun u total => if p u then MultipartUpload.Size u + total else total) 0 uploads.

Definition totalOf (uploads : list MultipartUpload.t) : Z := sizeWhere (fun _ => true) uploads.

Definition keyed (key : MultipartUpload.t -> string) (k : string) (u : MultipartUpload.t)
  : bool := String.eqb (key u) k.

Lemma sizeWhere_app p us vs : sizeWhere p (us ++ vs) = sizeWhere p us + sizeWhere p vs.
Proof.
  induction us as [|u us IH]; [done|].
  change (sizeWhere p ((u :: us) ++ vs))
    with (if p u then MultipartUpload.Size u + sizeWhere p (us ++ vs)
          else sizeWhere p (us ++ vs)).
  change (sizeWhere p (u :: us))
    with (if p u then MultipartUpload.Size u + sizeWhere p us else sizeWhere p us).
  rewrite IH. destruct (p u); lia.
Qed.

Lemma sizeWhere_bounds p us :
  Forall (fun u => 0 <= MultipartUpload.Size u) us ->
  0 <= sizeWhere p us <= totalOf us.
Proof.
  induction 1 as [|u us Hu _ IH]; [done|].
  change (sizeWhere p (u :: us))
    with (if p u then MultipartUpload.Size u + sizeWhere p us else sizeWhere p us).
  change (totalOf (u :: us)) with (MultipartUpload.Size u + totalOf us).
  destruct (p u); lia.
Qed.

(** The entry of a breakdown for key [k]: the sum of the sizes of the
    records with that key, if there is such a record. *)
Definition breakdownOf (key : MultipartUpload.t -> string) (uploads : list MultipartUpload.t)
    (k : string) : option Z :=
  if existsb (keyed key k) uploads then Some (sizeWhere (keyed key k) uploads) else None.

(** What the report holds when nothing overflows. *)
Definition exactReport (uploads : list MultipartUpload.t) (report : SizeReport.t) : Prop :=
  SizeReport.TotalSize report = totalOf uploads
  /\ SizeReport.TotalCount report = Z.of_nat (length uploads)
  /\ (forall k, SizeReport.ByBucket report !! k = breakdownOf MultipartUpload.Bucket uploads k)
  /\ (forall k, SizeReport.ByStorageClass report !! k
                = breakdownOf MultipartUpload.StorageClass uploads k).

Lemma sizeWhere_none p us : existsb p us = false -> sizeWhere p us = 0.
Proof.
  induction us as [|u us IH]; [done|]. cbn [existsb].
  change (sizeWhere p (u :: us))
    with (if p u then MultipartUpload.Size u + sizeWhere p us else sizeWhere p us).
  destruct (p u); [done|]. apply IH.
Qed.

Lemma breakdownOf_snoc key us u k :
  breakdownOf key (us ++ [u]) k
  = if String.eqb (key u) k
    then Some (default 0 (breakdownOf key us k) + MultipartUpload.Size u)
    else breakdownOf key us k.
Proof.
  unfold breakdownOf. rewrite existsb_app, sizeWhere_app.
  change (existsb (keyed key k) [u]) with (String.eqb (key u) k || false).
  change (sizeWhere (keyed key k) [u])
    with (if String.eqb (key u) k then MultipartUpload.Size u + 0 else 0).
  destruct (String.eqb (key u) k).
  - rewrite orb_true_r. destruct (existsb (keyed key k) us) eqn:Hex; cbn [default from_option id].
    + f_equal. unfold id. lia.
    + rewrite (sizeWhere_none _ _ Hex). f_equal. lia.
  - rewrite !orb_false_r. destruct (existsb (keyed key k) us); [f_equal; lia|done].
Qed.

Lemma generateSizeReport_snoc us u inaccessible :
  generateSizeReport (us ++ [u]) inaccessible
  = addUpload (generateSizeReport us inaccessible) u.
Proof. unfold generateSizeReport. by rewrite foldl_app. Qed.

Lemma totalOf_snoc us u : totalOf (us ++ [u]) = totalOf us + MultipartUpload.Size u.
Proof.
  unfold totalOf. rewrite sizeWhere_app.
  change (sizeWhere (fun _ => true) [u]) with (MultipartUpload.Size u + 0). lia.
Qed.

Lemma breakdown_insert key us u (m : gmap string Z) :
  Forall (fun u => 0 <= MultipartUpload.Size u) us ->
  0 <= MultipartUpload.Size u ->
  totalOf us + MultipartUpload.Size u <= Int64.max ->
  (forall k, m !! k = breakdownOf key us k) ->
  forall k,
    <[key u := Int64.add (default 0 (m !! key u)) (MultipartUpload.Size u)]> m !! k
    = breakdownOf key (us ++ [u]) k.
Proof.
  intros Hus Hu Hmax Hm k. rewrite breakdownOf_snoc.
  destruct (String.eqb_spec (key u) k) as [<-|Hne].
  - rewrite lookup_insert_eq, Hm. f_equal. unfold Int64.add. apply wrap_inRange.
    assert (0 <= default 0 (breakdownOf key us (key u)) <= totalOf us).
    { unfold breakdownOf. destruct (existsb _ us); cbn.
      - unfold id. by apply sizeWhere_bounds.
      - pose proof (sizeWhere_bounds (fun _ => true) us Hus). unfold totalOf in *. lia. }
    unfold Int64.inRange, Int64.min, Int64.max in *. lia.
  - by rewrite lookup_insert_ne.
Qed.

(** Without overflow the report holds the plain sums. *)
Lemma generateSizeReport_exact uploads inaccessible :
  Forall (fun u => 0 <= MultipartUpload.Size u) uploads ->
  totalOf uploads <= Int64.max ->
  exactReport uploads (generateSizeReport uploads inaccessible).
Proof.
  induction uploads as [|u us IH] using rev_ind; intros Hsizes Hmax.
  - by repeat split.
  - apply Forall_app in Hsizes as [Hus Hu]. apply Forall_inv in Hu.
    rewrite totalOf_snoc in Hmax.
    pose proof (sizeWhere_bounds (fun _ => true) us Hus) as Hbound. fold (totalOf us) in Hbound.
    destruct IH as (Htotal & Hcount & Hbucket & Hclass); [done|lia|].
    rewrite generateSizeReport_snoc. unfold exactReport, addUpload.
    cbn [SizeReport.TotalSize SizeReport.TotalCount SizeReport.ByBucket
         SizeReport.ByStorageClass].
    split_and!.
    + rewrite Htotal, totalOf_snoc. unfold Int64.add. apply wrap_inRange.
      unfold Int64.inRange, Int64.min, Int64.max in *. lia.
    + rewrite Hcount, length_app. cbn. lia.
    + by apply breakdown_insert.
    + by apply breakdown_insert.
Qed.

Lemma filter_none {A} (P : A -> Prop) `{forall x, Decision (P x)} (l : list A) :
  Forall (fun x => ~ P x) l -> filter P l = [].
Proof.
  induction 1 as [|x l Hx _ IH]; [done|]. by rewrite filter_cons_False.
Qed.

Lemma negativeEntry_None (m : gmap string Z) :
  (forall k v, m !! k = Some v -> 0 <= v) -> negativeEntry m = None.
Proof.
  intros Hm. unfold negativeEntry.
  assert (filter (fun kv : string * Z => kv.2 < 0) (map_to_list m) = []) as ->; [|done].
  apply filter_none, Forall_forall. intros [k v] Hkv%elem_of_map_to_list.
  cbn. specialize (Hm k v Hkv). lia.
Qed.

Lemma exactReport_valid uploads report :
  Forall (fun u => 0 <= MultipartUpload.Size u) uploads ->
  exactReport uploads report -> SizeReport_Validate report = None.
Proof.
  intros Hsizes (Htotal & Hcount & Hbucket & Hclass). unfold SizeReport_Validate.
  pose proof (sizeWhere_bounds (fun _ => true) uploads Hsizes) as Hbound.
  fold (totalOf uploads) in Hbound.
  destruct (Z.ltb_spec (SizeReport.TotalSize report) 0); [lia|].
  destruct (Z.ltb_spec (SizeReport.TotalCount report) 0); [lia|].
  rewrite !negativeEntry_None; [done| |].
  - intros k v. rewrite Hbucket. unfold breakdownOf.
    destruct (existsb _ uploads); [|done]. intros [= <-]. by apply sizeWhere_bounds.
  - intros k v. rewrite Hclass. unfold breakdownOf.
    destruct (existsb _ uploads); [|done]. intros [= <-]. by apply sizeWhere_bounds.
Qed.

(** The sum of the entries of a breakdown. *)
Definition mapSum (m : gmap string Z) : Z := map_fold (fun _ v total => v + total) 0 m.

Lemma mapSum_insert_new (m : gmap string Z) k v :
  m !! k = None -> mapSum (<[k := v]> m) = v + mapSum m.
Proof.
  intros Hk. unfold mapSum. apply map_fold_insert_L; [|done]. intros. lia.
Qed.

Lemma mapSum_insert (m : gmap string Z) k v :
  mapSum (<[k := v]> m) = v + mapSum m - default 0 (m !! k).
Proof.
  destruct (m !! k) as [old|] eqn:Hk; cbn.
  - rewrite <- (insert_delete_id m k old Hk) at 2.
    rewrite <- insert_delete_eq.
    rewrite !mapSum_insert_new by apply lookup_delete_eq. unfold id. lia.
  - rewrite mapSum_insert_new by done. lia.
Qed.

Lemma wrap_add_r a b : Int64.wrap (a + Int64.wrap b) = Int64.wrap (a + b).
Proof. rewrite (Z.add_comm a), wrap_add_l. f_equal. lia. Qed.

Lemma breakdown_sum_insert (m : gmap string Z) k size total :
  Int64.wrap (mapSum m) = total ->
  Int64.wrap (mapSum (<[k := Int64.add (default 0 (m !! k)) size]> m))
  = Int64.add total size.
Proof.
  intros <-. rewrite mapSum_insert. unfold Int64.add.
  rewrite wrap_add_l.
  replace (Int64.wrap (default 0 (m !! k) + size) + mapSum m - default 0 (m !! k))
    with (Int64.wrap (default 0 (m !! k) + size) + (mapSum m - default 0 (m !! k))) by lia.
  rewrite wrap_add_l. f_equal. lia.
Qed.

(** In int64 arithmetic each breakdown adds up to the total. *)
Lemma generateSizeReport_sums uploads inaccessible :
  let report := generateSizeReport uploads inaccessible in
  SizeReport.TotalCount report = Z.of_nat (length uploads)
  /\ SizeReport.InaccessibleBuckets report = inaccessible
  /\ SizeReport.TotalSize report = Int64.wrap (totalOf uploads)
  /\ Int64.wrap (mapSum (SizeReport.ByBucket report)) = SizeReport.TotalSize report
  /\ Int64.wrap (mapSum (SizeReport.ByStorageClass report)) = SizeReport.TotalSize report.
Proof.
  induction uploads as [|u us IH] using rev_ind; cbn zeta.
  - by repeat split.
  - rewrite generateSizeReport_snoc. cbn zeta in IH.
    destruct IH as (Hcount & Hin & Htotal & Hbucket & Hclass).
    unfold addUpload.
    cbn [SizeReport.TotalSize SizeReport.TotalCount SizeReport.ByBucket
         SizeReport.ByStorageClass SizeReport.InaccessibleBuckets].
    split_and!.
    + rewrite Hcount, length_app. cbn. lia.
    + done.
    + rewrite Htotal, totalOf_snoc. unfold Int64.add. by rewrite wrap_add_l.
    + by apply breakdown_sum_insert.
    + by apply breakdown_sum_insert.
Qed.

End SizeReportFacts.

(** Whatever the sizes, the report of [generateSizeReport] counts every
    record, passes the inaccessible buckets on, and its total and its two
    breakdowns agree: the total is the int64 sum of the sizes, and the
    entries of the breakdown by bucket, and of the breakdown by storage
    class, add up to it in int64 arithmetic. *)
Theorem generateSizeReport_breakdowns_add_up uploads inaccessibleBuckets :
  let report := SizeReporting.generateSizeReport uploads inaccessibleBuckets in
  SizeReport.TotalCount report = Z.of_nat (length uploads)
  /\ SizeReport.InaccessibleBuckets report = inaccessibleBuckets
  /\ SizeReport.TotalSize report = Int64.wrap (totalOf uploads)
  /\ Int64.wrap (mapSum (SizeReport.ByBucket report)) = SizeReport.TotalSize report
  /\ Int64.wrap (mapSum (SizeReport.ByStorageClass report)) = SizeReport.TotalSize report.
Proof. apply generateSizeReport_sums. Qed.

(** When no size is negative and the sizes add up to at most the largest
    int64, the report is exact and valid: its total is the sum of the
    sizes, each breakdown has one entry for every bucket (storage class)
    that has a record, holding the sum of the sizes of its records, and
    [Validate] accepts the report. *)
Theorem generateSizeReport_exact_and_valid uploads inaccessibleBuckets :
  Forall (fun u => 0 <= MultipartUpload.Size u) uploads ->
  totalOf uploads <= Int64.max ->
  let report := SizeReporting.generateSizeReport uploads inaccessibleBuckets in
  SizeReport.TotalSize report = totalOf uploads
  /\ (forall bucket,
        SizeReport.ByBucket report !! bucket
        = breakdownOf MultipartUpload.Bucket uploads bucket)
  /\ (forall storageClass,
        SizeReport.ByStorageClass report !! storageClass
        = breakdownOf MultipartUpload.StorageClass uploads storageClass)
  /\ SizeReport_Validate report = None.
Proof.
  intros Hsizes Hmax report.
  pose proof (generateSizeReport_exact uploads inaccessibleBuckets Hsizes Hmax) as Hexact.
  pose proof (exactReport_valid _ _ Hsizes Hexact) as Hvalid.
  destruct Hexact as (Htotal & _ & Hbucket & Hclass). by split_and!.
Qed.

(** The sample batch: 30 bytes in bucket [logs], 30 in [media], 60 in
    class STANDARD. *)
Lemma generateSizeReport_exact_and_valid_witness :
  let report := SizeReporting.generateSizeReport Sample.batch [] in
  SizeReport.TotalSize report = 60
  /\ (forall bucket,
        SizeReport.ByBucket report !! bucket
        = breakdownOf MultipartUpload.Bucket Sample.batch bucket)
  /\ (forall storageClass,
        SizeReport.ByStorageClass report !! storageClass
        = breakdownOf MultipartUpload.StorageClass Sample.batch storageClass)
  /\ SizeReport_Validate report = None.
Proof.
  apply (generateSizeReport_exact_and_valid Sample.batch []).
  - repeat constructor; vm_compute; discriminate.
  - vm_compute. discriminate.
Defined.

(** A negative size makes the report invalid. *)
Example generateSizeReport_negative_size :
  SizeReport_Validate (SizeReporting.generateSizeReport [Sample.upload "logs" "a.bin" (-1)] [])
  = Some (Validation {| Field := "TotalSize"; Message := "total size cannot be negative" |}).
Proof. reflexivity. Qed.
Section CalculateTotalSizeFacts.
Import SizeService SizeReporting.
Context (ListUploads : ListOptions.t -> list MultipartUpload.t * option error).
Context (GetUploadSize : nat -> MultipartUpload.t -> result Z).

(** The batch size calculation returns the records whose lookup
    succeeded, in the order of the schedule, and a nil error. *)
Lemma calculateUploadSizes_sized sched uploads :
  exists inaccessible,
    calculateUploadSizes GetUploadSize sched uploads
    = (omap (sizedRecord GetUploadSize) (arrange sched uploads), inaccessible, None).
Proof.
  unfold calculateUploadSizes. destruct uploads as [|u0 us].
  - exists []. by rewrite arrange_nil.
  - set (uploads := u0 :: us).
    set (received := map _ (arrange sched uploads)).
    destruct (collect_results received start start_mirrors) as (Hsized & _).
    eexists. rewrite Hsized. subst received. by rewrite sized_received.
Qed.

Lemma totalOf_Permutation us vs : Permutation us vs -> totalOf us = totalOf vs.
Proof.
  induction 1 as [|x l k Hlk IH|x y l|l k m Hlk IH1 Hkm IH2]; [done| | |congruence].
  - change (totalOf (x :: l)) with (MultipartUpload.Size x + totalOf l).
    change (totalOf (x :: k)) with (MultipartUpload.Size x + totalOf k). lia.
  - change (totalOf (y :: x :: l))
      with (MultipartUpload.Size y + (MultipartUpload.Size x + totalOf l)).
    change (totalOf (x :: y :: l))
      with (MultipartUpload.Size x + (MultipartUpload.Size y + totalOf l)). lia.
Qed.

Lemma sizedRecord_nonneg (l : list (nat * MultipartUpload.t)) :
  (forall i u size, GetUploadSize i u = Ok size -> 0 <= size) ->
  Forall (fun u => 0 <= MultipartUpload.Size u) (omap (sizedRecord GetUploadSize) l).
Proof.
  intros Hsize. apply Forall_forall. intros u ([i x] & _ & Hu)%list_elem_of_omap.
  unfold sizedRecord in Hu. cbn [fst snd] in Hu.
  destruct (GetUploadSize i x) as [size|] eqn:Hx; [|done]. injection Hu as <-.
  cbn. by eapply Hsize.
Qed.

End CalculateTotalSizeFacts.

(** [CalculateTotalSize] gives up on any listing error, even one that comes
    with records; when the listing succeeds, the records whose size lookup
    fails are left out and do not fail the call: if the sizes found are not
    negative and add up to at most the largest int64, the call returns a
    valid report that counts the records whose lookup succeeded and totals
    their sizes. *)
Theorem CalculateTotalSize_outcome ListUploads GetUploadSize sched opts :
  match ListUploads opts with
  | (_, Some err) =>
      SizeReporting.CalculateTotalSize ListUploads GetUploadSize sched opts
      = inr (SizeReporting.ListUploadsFailed err)
  | (uploads, None) =>
      let sized := omap (sizedRecord GetUploadSize) (numbered uploads) in
      validSchedule sched (length uploads) ->
      (forall i u size, GetUploadSize i u = Ok size -> 0 <= size) ->
      totalOf sized <= Int64.max ->
      exists report,
        SizeReporting.CalculateTotalSize ListUploads GetUploadSize sched opts = inl report
        /\ SizeReport.TotalCount report = Z.of_nat (length sized)
        /\ SizeReport.TotalSize report = totalOf sized
        /\ SizeReport_Validate report = None
  end.
Proof.
  unfold SizeReporting.CalculateTotalSize.
  destruct (ListUploads opts) as [uploads [err|]]; [done|].
  intros Hsched Hsize Hmax.
  set (sized := omap (sizedRecord GetUploadSize) (numbered uploads)) in *.
  destruct (calculateUploadSizes_sized GetUploadSize sched uploads) as (inaccessible & ->).
  set (arrived := omap (sizedRecord GetUploadSize) (arrange sched uploads)).
  assert (Hperm : Permutation arrived sized)
    by (by apply omap_Permutation, arrange_Permutation).
  assert (Hnonneg : Forall (fun u => 0 <= MultipartUpload.Size u) arrived)
    by (by apply sizedRecord_nonneg).
  assert (Hbound : totalOf arrived <= Int64.max) by (by rewrite (totalOf_Permutation _ _ Hperm)).
  pose proof (generateSizeReport_exact arrived inaccessible Hnonneg Hbound) as Hexact.
  pose proof (exactReport_valid _ _ Hnonneg Hexact) as Hvalid. rewrite Hvalid.
  destruct Hexact as (Htotal & Hcount & _).
  eexists. split; [done|]. split_and!.
  - by rewrite Hcount, (Permutation_length Hperm).
  - by rewrite Htotal, (totalOf_Permutation _ _ Hperm).
  - exact Hvalid.
Qed.

(** The sample batch, where the sizes of bucket [logs] cannot be looked
    up: the report counts the one record of bucket [media]. *)
Lemma CalculateTotalSize_outcome_witness :
  exists report,
    SizeReporting.CalculateTotalSize SampleSizes.listsAll Sample.getUploadSize Sample.order
      (SampleListing.options 0 0) = inl report
    /\ SizeReport.TotalCount report = 1
    /\ SizeReport.TotalSize report = 4096
    /\ SizeReport_Validate report = None.
Proof.
  apply (CalculateTotalSize_outcome SampleSizes.listsAll Sample.getUploadSize Sample.order
           (SampleListing.options 0 0)).
  - exact Sample.order_valid.
  - intros i u size. unfold Sample.getUploadSize.
    destruct (String.eqb _ _); [done|]. by intros [= <-].
  - vm_compute. discriminate.
Defined.

(** A listing that returns records together with an aggregate error fails
    the size report. *)
Example CalculateTotalSize_partial_listing :
  SizeReporting.CalculateTotalSize SampleSizes.listsSome Sample.getUploadSize Sample.order
    (SampleListing.options 0 0)
  = inr (SizeReporting.ListUploadsFailed (SomeBucketsFailed 1)).
Proof. reflexivity. Qed.

(* ===================================================================== *)
(** * The region cache: what holds in every state of the service *)
(* ===================================================================== *)

Section CacheInvariantFacts.
Import BucketService.
Context (clock : nat -> GoTime.Time).
Context (location : nat -> string -> result string).

(** A call of one of the two methods that touch the cache. *)
Inductive CacheCall : Type :=
| Resolve (bucketName : string)   (* [GetBucketRegion] *)
| Clear.                          (* [ClearRegionCache] *)

Definition call (s : t) (c : CacheCall) : t :=
  match c with
  | Resolve bucketName => (GetBucketRegion clock location bucketName s).2
  | Clear => ClearRegionCache s
  end.

(** The state of a new service after the calls [history]. *)
Definition after (history : list CacheCall) : t := foldl call NewBucketService history.

Definition isResolve (c : CacheCall) : bool :=
  match c with Resolve _ => true | Clear => false end.

(** The number of [GetBucketRegion] calls among [history]. *)
Definition resolutions (history : list CacheCall) : nat :=
  length (filter (fun c => isResolve c = true) history).

(** The two maps of the cache have the same keys, no cached region is
    empty, and the expiry is the constructor's. *)
Definition coherent (s : t) : Prop :=
  (forall b, is_Some (regionCache s !! b) <-> is_Some (cacheTime s !! b))
  /\ (forall b region, regionCache s !! b = Some region -> region <> "")
  /\ cacheExpiry s = 1 * GoTime.Hour.

Lemma regionOf_not_empty constraint : regionOf constraint <> "".
Proof. unfold regionOf. by destruct (String.eqb_spec constraint ""). Qed.

Lemma fetch_coherent bucketName s :
  coherent s ->
  coherent (fetch clock location bucketName s).2
  /\ (forall region, (fetch clock location bucketName s).1 = Ok region -> region <> "")
  /\ length (calls (fetch clock location bucketName s).2) = S (length (calls s)).
Proof.
  intros (Hkeys & Hregions & Hexpiry). unfold fetch.
  destruct (location (length (calls s)) bucketName) as [constraint|err].
  - fold (regionOf constraint). cbn [fst snd]. split_and!.
    + split_and!; cbn; [| |done].
      * intros b. destruct (decide (b = bucketName)) as [->|Hne].
        -- rewrite !lookup_insert_eq. split; eauto.
        -- rewrite !lookup_insert_ne by done. apply Hkeys.
      * intros b region. destruct (decide (b = bucketName)) as [->|Hne].
        -- rewrite lookup_insert_eq. intros [= <-]. apply regionOf_not_empty.
        -- rewrite lookup_insert_ne by done. apply Hregions.
    + intros region [= <-]. apply regionOf_not_empty.
    + cbn. rewrite length_app. cbn. lia.
  - cbn [fst snd]. split_and!; [done|done|]. cbn. rewrite length_app. cbn. lia.
Qed.

Lemma GetBucketRegion_coherent bucketName s :
  coherent s ->
  coherent (GetBucketRegion clock location bucketName s).2
  /\ (forall region,
        (GetBucketRegion clock location bucketName s).1 = Ok region -> region <> "")
  /\ (length (calls (GetBucketRegion clock location bucketName s).2)
      <= S (length (calls s)))%nat.
Proof.
  intros Hs. pose proof Hs as (Hkeys & Hregions & Hexpiry).
  unfold BucketService.GetBucketRegion.
  assert (Htick : coherent (tick s)) by done.
  destruct (regionCache s !! bucketName) as [cached|] eqn:Hr;
    [destruct (cacheTime s !! bucketName) as [cachedAt|] eqn:Ht|].
  - destruct (_ <? _).
    + cbn [fst snd]. split_and!; [done| |cbn; lia].
      intros region [= <-]. by eapply Hregions.
    + destruct (fetch_coherent bucketName (tick s) Htick) as (? & ? & Hcalls).
      split_and!; [done|done|]. rewrite Hcalls. cbn. lia.
  - destruct (fetch_coherent bucketName s Hs) as (? & ? & Hcalls).
    split_and!; [done|done|]. rewrite Hcalls. lia.
  - destruct (fetch_coherent bucketName s Hs) as (? & ? & Hcalls).
    split_and!; [done|done|]. rewrite Hcalls. lia.
Qed.

Lemma after_coherent history :
  coherent (after history)
  /\ (length (calls (after history)) <= resolutions history)%nat.
Proof.
  unfold after, resolutions.
  induction history as [|c history IH] using rev_ind.
  - cbn. split; [|lia]. split_and!; [|done|done].
    intros b. cbn. rewrite !lookup_empty. split; intros [? ?]; done.
  - rewrite foldl_app, filter_app, length_app. cbn [foldl].
    destruct IH as [Hs Hcalls]. destruct c as [bucketName|]; cbn [call].
    + destruct (GetBucketRegion_coherent bucketName _ Hs) as (Hs' & _ & Hcalls').
      split; [done|]. rewrite filter_cons_True by done. cbn [length filter]. lia.
    + split; [|cbn; lia]. destruct Hs as (_ & _ & Hexpiry).
      split_and!; [|done|done].
      intros b. cbn. rewrite !lookup_empty. split; intros [? ?]; done.
Qed.

End CacheInvariantFacts.

(** In every state a new bucket service can reach by calls of
    [GetBucketRegion] and [ClearRegionCache], whatever the clock and the
    client do: the region cache and the time cache have the same keys, no
    cached region is empty, the expiry is one hour, the service has sent at
    most one [GetBucketLocation] request per [GetBucketRegion] call, and
    the next [GetBucketRegion] does not return an empty region. *)
Theorem region_cache_coherent clock location history :
  let s := after clock location history in
  (forall b, is_Some (BucketService.regionCache s !! b)
             <-> is_Some (BucketService.cacheTime s !! b))
  /\ (forall b region, BucketService.regionCache s !! b = Some region -> region <> "")
  /\ BucketService.cacheExpiry s = 1 * GoTime.Hour
  /\ (length (BucketService.calls s) <= resolutions history)%nat
  /\ (forall bucketName region,
        (BucketService.GetBucketRegion clock location bucketName s).1 = Ok region ->
        region <> "").
Proof.
  destruct (after_coherent clock location history) as [Hs Hcalls]. cbn zeta.
  pose proof Hs as (Hkeys & Hregions & Hexpiry). split_and!; [done|done|done|done|].
  intros bucketName. by destruct (GetBucketRegion_coherent clock location bucketName _ Hs)
    as (_ & H & _).
Qed.

(** After [ClearRegionCache] nothing is served from the cache: the next
    [GetBucketRegion] of any bucket sends a request, however recently the
    bucket was resolved; and a request that fails leaves the cache as it
    was. *)
Theorem region_cache_clear_and_failure clock location bucketName s :
  BucketService.calls
    (BucketService.GetBucketRegion clock location bucketName
       (BucketService.ClearRegionCache s)).2
  = BucketService.calls s ++ [bucketName]
  /\ (forall err,
        (BucketService.GetBucketRegion clock location bucketName s).1 = Err err ->
        BucketService.regionCache (BucketService.GetBucketRegion clock location bucketName s).2
        = BucketService.regionCache s
        /\ BucketService.cacheTime (BucketService.GetBucketRegion clock location bucketName s).2
           = BucketService.cacheTime s
        /\ exists cause, err = GetBucketLocationFailed bucketName cause).
Proof.
  split.
  - unfold BucketService.GetBucketRegion, BucketService.ClearRegionCache.
    cbn [BucketService.regionCache BucketService.cacheTime]. rewrite lookup_empty.
    by rewrite fetch_calls.
  - intros err. unfold BucketService.GetBucketRegion, BucketService.fetch.
    repeat case_match; simplify_eq/=; intros; simplify_eq; eauto.
Qed.

(* ===================================================================== *)
(** * Listing the buckets *)
(* ===================================================================== *)

Section BucketListingFacts2.
Import BucketListing.
Context (GetBucketRegion : nat -> string -> result string).

Lemma collectBuckets_spec received : forall buckets errors,
  collectBuckets received buckets errors
  = (buckets ++ omap (fun r => match r with Ok b => Some b | Err _ => None end) received,
     errors ++ omap (fun r => match r with Err e => Some e | Ok _ => None end) received).
Proof.
  induction received as [|[b|e] rest IH]; intros buckets errors; cbn [collectBuckets].
  - by rewrite !app_nil_r.
  - rewrite IH. cbn. by rewrite <- app_assoc.
  - rewrite IH. cbn. by rewrite <- app_assoc.
Qed.

(** The bucket a goroutine reports, and the error it reports. *)
Definition inRegion (targetRegion : string) (job : nat * string) : option Bucket.t :=
  match GetBucketRegion job.1 job.2 with
  | Ok region =>
      if String.eqb region targetRegion
      then Some {| Bucket.Name := job.2; Bucket.Region := targetRegion |}
      else None
  | Err _ => None
  end.

Definition lookupError (job : nat * string) : option error :=
  match GetBucketRegion job.1 job.2 with
  | Ok _ => None
  | Err err => Some err
  end.

Lemma omap_omap {A B C} (f : A -> option B) (g : B -> option C) (l : list A) :
  omap g (omap f l) = omap (fun x => f x ≫= g) l.
Proof.
  induction l as [|x l IH]; [done|]. cbn. destruct (f x) as [y|]; cbn; [|done].
  destruct (g y); by rewrite IH.
Qed.

Lemma received_buckets targetRegion (l : list (nat * (nat * string))) :
  omap (fun x : nat * (nat * string) =>
          message GetBucketRegion targetRegion x.2
          ≫= (fun r => match r with Ok b => Some b | Err _ => None end)) l
  = omap (inRegion targetRegion) (map snd l).
Proof.
  induction l as [|[i job] l IH]; [done|].
  cbn [omap list_omap map snd]. rewrite <- IH. unfold message, inRegion.
  destruct (GetBucketRegion job.1 job.2) as [region|]; cbn; [|done].
  destruct (String.eqb_spec region targetRegion) as [->|]; cbn; done.
Qed.

Lemma received_errors targetRegion (l : list (nat * (nat * string))) :
  omap (fun x : nat * (nat * string) =>
          message GetBucketRegion targetRegion x.2
          ≫= (fun r => match r with Err e => Some e | Ok _ => None end)) l
  = omap lookupError (map snd l).
Proof.
  induction l as [|[i job] l IH]; [done|].
  cbn [omap list_omap map snd]. rewrite <- IH. unfold message, lookupError.
  destruct (GetBucketRegion job.1 job.2) as [region|]; cbn; [|done].
  destruct (String.eqb region targetRegion); cbn; done.
Qed.

Lemma filterBucketsByRegion_spec sched awsBuckets targetRegion :
  let arrived := map snd (arrange sched (jobs awsBuckets)) in
  filterBucketsByRegion GetBucketRegion sched awsBuckets targetRegion
  = (omap (inRegion targetRegion) arrived,
     match length (omap lookupError arrived) with
     | O => None
     | S n => Some (SomeRegionsFailed (S n))
     end).
Proof.
  cbn zeta. unfold filterBucketsByRegion. rewrite collectBuckets_spec. cbn [app].
  rewrite !omap_omap, received_buckets, received_errors.
  by destruct (omap lookupError _).
Qed.

End BucketListingFacts2.

(** What [ListBuckets] does with a bucket whose region cannot be resolved.
    Without a region it skips the bucket silently: the call returns a nil
    error and, in the order of the client's listing, the named buckets
    whose region was resolved.  With a region every failed lookup counts:
    the buckets of that region are still returned (all with that region,
    in the order the goroutines deliver), together with one aggregate error
    that counts the failed lookups, nil only if there was none. *)
Theorem ListBuckets_lookup_failures GetBucketRegion awsBuckets sched region :
  validSchedule sched (length (BucketListing.jobs awsBuckets)) ->
  let listed := BucketListing.ListBuckets (Ok awsBuckets) GetBucketRegion sched region in
  (region = "" ->
   listed = (omap (BucketListing.convertBucket GetBucketRegion) (numbered awsBuckets), None))
  /\ (region <> "" ->
      Permutation listed.1 (omap (inRegion GetBucketRegion region) (BucketListing.jobs awsBuckets))
      /\ Forall (fun b => Bucket.Region b = region) listed.1
      /\ listed.2
         = match length (omap (lookupError GetBucketRegion) (BucketListing.jobs awsBuckets)) with
           | O => None
           | S n => Some (BucketListing.SomeRegionsFailed (S n))
           end).
Proof.
  intros Hsched. cbn zeta. unfold BucketListing.ListBuckets. split.
  - by intros ->.
  - intros Hregion. apply String.eqb_neq in Hregion. rewrite Hregion. cbn [negb].
    rewrite filterBucketsByRegion_spec. cbn [fst snd].
    pose proof (arrange_snd_Permutation sched (BucketListing.jobs awsBuckets) Hsched) as Hperm.
    split_and!.
    + by apply omap_Permutation.
    + apply Forall_forall. intros b (job & _ & Hb)%list_elem_of_omap.
      unfold inRegion in Hb. destruct (GetBucketRegion job.1 job.2) as [found|]; [|done].
      destruct (String.eqb found region); [|done]. by injection Hb as <-.
    + by rewrite (Permutation_length (omap_Permutation _ _ _ Hperm)).
Qed.

(** The sample account: without a region, [logs] and [backup] are listed
    and the failure for [media] is not reported; with the region
    [eu-west-1], [logs] is listed and the failure is reported. *)
Lemma ListBuckets_lookup_failures_witness :
  BucketListing.ListBuckets SampleBuckets.clientListBuckets SampleBuckets.GetBucketRegion
    Sample.order ""
  = ([ {| Bucket.Name := "logs"; Bucket.Region := "eu-west-1" |};
       {| Bucket.Name := "backup"; Bucket.Region := "us-east-1" |} ], None)
  /\ (BucketListing.ListBuckets SampleBuckets.clientListBuckets SampleBuckets.GetBucketRegion
        Sample.order "eu-west-1").2
     = Some (BucketListing.SomeRegionsFailed 1).
Proof.
  destruct (ListBuckets_lookup_failures SampleBuckets.GetBucketRegion
              [Some "logs"; None; Some "media"; Some "backup"] Sample.order "")
    as [Hall _]; [exact Sample.order_valid|].
  destruct (ListBuckets_lookup_failures SampleBuckets.GetBucketRegion
              [Some "logs"; None; Some "media"; Some "backup"] Sample.order "eu-west-1")
    as [_ Hregion]; [exact Sample.order_valid|].
  split.
  - by apply Hall.
  - destruct Hregion as (_ & _ & Herr); [discriminate|]. exact Herr.
Defined.

(* ===================================================================== *)
(** * The age distribution *)
(* ===================================================================== *)

Section AgeDistributionFacts.
Import AgeService.

(** The bucket an age belongs to: none for a negative age. *)
Definition bucketIndex (age : GoTime.Duration) : option nat :=
  if age <? 0 then None
  else if age <? 24 * GoTime.Hour then Some 0%nat
  else if age <? 7 * 24 * GoTime.Hour then Some 1%nat
  else if age <? 30 * 24 * GoTime.Hour then Some 2%nat
  else if age <? 90 * 24 * GoTime.Hour then Some 3%nat
  else if age <? 180 * 24 * GoTime.Hour then Some 4%nat
  else Some 5%nat.

(** What never changes of a bucket. *)
Definition bounds (b : AgeBucket.t) : string * GoTime.Duration * GoTime.Duration :=
  (AgeBucket.Label b, AgeBucket.MinAge b, AgeBucket.MaxAge b).

Definition takes (i : nat) (age : GoTime.Duration) : bool :=
  match bucketIndex age with
  | Some j => Nat.eqb i j
  | None => false
  end.

(** The ranges of the six buckets do not overlap, so the first bucket
    that fits is the only one. *)
Lemma place_spec age size bs :
  map bounds bs = map bounds buckets ->
  place age size bs = imap (fun i b => if takes i age then add b size else b) bs.
Proof.
  intros Hbs.
  destruct bs as [|b0 [|b1 [|b2 [|b3 [|b4 [|b5 [|]]]]]]]; try discriminate Hbs.
  injection Hbs; intros.
  cbn [place imap compose]. unfold fits.
  repeat match goal with
         | H : AgeBucket.MinAge _ = _ |- _ => rewrite H; clear H
         | H : AgeBucket.MaxAge _ = _ |- _ => rewrite H; clear H
         end.
  unfold takes, bucketIndex.
  change (24 * GoTime.Hour =? 0) with false. change (7 * 24 * GoTime.Hour =? 0) with false.
  change (30 * 24 * GoTime.Hour =? 0) with false. change (90 * 24 * GoTime.Hour =? 0) with false.
  change (180 * 24 * GoTime.Hour =? 0) with false. change (0 =? 0) with true. cbv iota.
  assert (Hday : 0 < 24 * GoTime.Hour) by done.
  destruct (Z.ltb_spec age 0), (Z.ltb_spec age (24 * GoTime.Hour)),
    (Z.ltb_spec age (7 * 24 * GoTime.Hour)), (Z.ltb_spec age (30 * 24 * GoTime.Hour)),
    (Z.ltb_spec age (90 * 24 * GoTime.Hour)), (Z.ltb_spec age (180 * 24 * GoTime.Hour));
    try lia;
    destruct (Z.leb_spec 0 age), (Z.leb_spec (24 * GoTime.Hour) age),
      (Z.leb_spec (7 * 24 * GoTime.Hour) age), (Z.leb_spec (30 * 24 * GoTime.Hour) age),
      (Z.leb_spec (90 * 24 * GoTime.Hour) age), (Z.leb_spec (180 * 24 * GoTime.Hour) age);
    try lia; reflexivity.
Qed.

Lemma place_bounds age size bs : map bounds (place age size bs) = map bounds bs.
Proof.
  induction bs as [|b bs IH]; [done|]. cbn [place].
  destruct (fits b age); cbn [map]; [done|]. by rewrite IH.
Qed.

(** The records of [uploads] that bucket [i] takes. *)
Definition takenBy (now : GoTime.Time) (i : nat) (u : MultipartUpload.t) : bool :=
  takes i (GoTime.Sub now (MultipartUpload.Initiated u)).

Definition countWhere (p : MultipartUpload.t -> bool) (uploads : list MultipartUpload.t) : Z :=
  foldr (fun u n => if p u then 1 + n else n) 0 uploads.

Lemma countWhere_app p us vs : countWhere p (us ++ vs) = countWhere p us + countWhere p vs.
Proof.
  induction us as [|u us IH]; [done|].
  change (countWhere p ((u :: us) ++ vs))
    with (if p u then 1 + countWhere p (us ++ vs) else countWhere p (us ++ vs)).
  change (countWhere p (u :: us)) with (if p u then 1 + countWhere p us else countWhere p us).
  rewrite IH. destruct (p u); lia.
Qed.

Lemma countWhere_nonneg p us : 0 <= countWhere p us.
Proof.
  induction us as [|u us IH]; [done|].
  change (countWhere p (u :: us)) with (if p u then 1 + countWhere p us else countWhere p us).
  destruct (p u); lia.
Qed.

Lemma CalculateAgeDistribution_snoc now us u :
  CalculateAgeDistribution now (us ++ [u])
  = place (GoTime.Sub now (MultipartUpload.Initiated u)) (MultipartUpload.Size u)
      (CalculateAgeDistribution now us).
Proof. unfold CalculateAgeDistribution. by rewrite foldl_app. Qed.

Lemma CalculateAgeDistribution_counts now uploads :
  map bounds (CalculateAgeDistribution now uploads) = map bounds buckets
  /\ forall i b,
       CalculateAgeDistribution now uploads !! i = Some b ->
       AgeBucket.Count b = countWhere (takenBy now i) uploads
       /\ AgeBucket.TotalSize b = Int64.wrap (sizeWhere (takenBy now i) uploads).
Proof.
  induction uploads as [|u us IH] using rev_ind.
  - split; [done|]. intros i b Hb.
    assert (Hin : b ∈ buckets) by (by eapply list_elem_of_lookup_2).
    unfold buckets in Hin. repeat (apply elem_of_cons in Hin as [->|Hin]); try done.
    by apply elem_of_nil in Hin.
  - destruct IH as [Hbounds Hcounts]. rewrite CalculateAgeDistribution_snoc.
    split; [by rewrite place_bounds|].
    intros i b. rewrite (place_spec _ _ _ Hbounds), list_lookup_imap.
    destruct (CalculateAgeDistribution now us !! i) as [b0|] eqn:Hb0; [|done].
    cbn. intros [= <-]. destruct (Hcounts i b0 Hb0) as [Hcount Hsize].
    rewrite countWhere_app, sizeWhere_app.
    change (countWhere (takenBy now i) [u]) with (if takenBy now i u then 1 + 0 else 0).
    change (sizeWhere (takenBy now i) [u])
      with (if takenBy now i u then MultipartUpload.Size u + 0 else 0).
    unfold takenBy in *. destruct (takes i _); cbn.
    + split; [lia|]. rewrite Hsize. unfold Int64.add. rewrite wrap_add_l. f_equal. lia.
    + split; [lia|]. rewrite Hsize. f_equal. lia.
Qed.

End AgeDistributionFacts.

Local Ltac in_range :=
  eexists; split; [reflexivity|]; split; [|done];
  unfold AgeService.fits, AgeService.bucket; cbn [AgeBucket.MaxAge AgeBucket.MinAge];
  first [ change (0 =? 0) with true; cbv iota; apply Z.leb_le; lia
        | match goal with
          | |- (if ?c then _ else _) = true => change c with false; cbv iota
          end;
          apply andb_true_iff; split; [apply Z.leb_le|apply Z.ltb_lt]; lia ].

(** [CalculateAgeDistribution] returns the six buckets with their labels
    and bounds, and puts every record whose age is not negative into
    exactly one of them: bucket [i] counts the records whose age lies in
    its range (from its minimum up to, but not including, its maximum;
    from 180 days on for the last one) and totals their sizes in int64.
    A record initiated after the clock reading is counted in no bucket. *)
Theorem CalculateAgeDistribution_partition now uploads :
  let distribution := AgeService.CalculateAgeDistribution now uploads in
  map bounds distribution = map bounds AgeService.buckets
  /\ (forall i b,
        distribution !! i = Some b ->
        AgeBucket.Count b = countWhere (takenBy now i) uploads
        /\ AgeBucket.TotalSize b = Int64.wrap (sizeWhere (takenBy now i) uploads))
  /\ (forall u,
        let age := GoTime.Sub now (MultipartUpload.Initiated u) in
        (age < 0 -> forall i, takenBy now i u = false)
        /\ (0 <= age ->
            exists i b, AgeService.buckets !! i = Some b
                        /\ AgeService.fits b age = true
                        /\ forall j, takenBy now j u = Nat.eqb j i)).
Proof.
  destruct (CalculateAgeDistribution_counts now uploads) as [Hbounds Hcounts].
  cbn zeta. split_and!; [done|done|].
  intros u. unfold takenBy, takes, bucketIndex.
  set (age := GoTime.Sub now (MultipartUpload.Initiated u)). split.
  - intros Hneg i. by destruct (Z.ltb_spec age 0); [|lia].
  - intros Hage. destruct (Z.ltb_spec age 0); [lia|].
    destruct (Z.ltb_spec age (24 * GoTime.Hour)); [exists 0%nat; in_range|].
    destruct (Z.ltb_spec age (7 * 24 * GoTime.Hour)); [exists 1%nat; in_range|].
    destruct (Z.ltb_spec age (30 * 24 * GoTime.Hour)); [exists 2%nat; in_range|].
    destruct (Z.ltb_spec age (90 * 24 * GoTime.Hour)); [exists 3%nat; in_range|].
    destruct (Z.ltb_spec age (180 * 24 * GoTime.Hour)); [exists 4%nat; in_range|].
    exists 5%nat. in_range.
Qed.

(** Five records, one of them from the future: four are counted. *)
Example CalculateAgeDistribution_sample :
  map (fun b => (AgeBucket.Label b, AgeBucket.Count b, AgeBucket.TotalSize b))
    (AgeService.CalculateAgeDistribution SampleAge.now SampleAges.uploads)
  = [("1 day", 1, 1); ("1 week", 1, 10); ("1 month", 0, 0); ("3 months", 1, 100);
     ("6 months", 0, 0); ("1 year+", 1, 1000)].
Proof. vm_compute. reflexivity. Qed.

Section AgeDistributionValidFacts.

Lemma AgeDistribution_ValidateFrom_None i bs :
  Forall (fun b => AgeBucket_Validate b = None) bs ->
  AgeDistribution_ValidateFrom i bs = None.
Proof.
  intros Hbs. revert i. induction Hbs as [|b bs Hb _ IH]; intros i; [done|].
  cbn [AgeDistribution_ValidateFrom]. by rewrite Hb.
Qed.

Lemma AgeBucket_Validate_bounds b :
  bounds b ∈ map bounds AgeService.buckets ->
  0 <= AgeBucket.Count b -> 0 <= AgeBucket.TotalSize b ->
  AgeBucket_Validate b = None.
Proof.
  intros Hin Hcount Hsize. unfold AgeBucket_Validate.
  destruct (Z.ltb_spec (AgeBucket.Count b) 0); [lia|].
  destruct (Z.ltb_spec (AgeBucket.TotalSize b) 0); [lia|].
  cbn in Hin. unfold bounds in Hin.
  repeat (apply elem_of_cons in Hin as [[= -> -> ->]|Hin]); try reflexivity.
  by apply elem_of_nil in Hin.
Qed.

Lemma countWhere_cons p u us :
  countWhere p (u :: us) = (if p u then 1 else 0) + countWhere p us.
Proof. unfold countWhere. cbn [foldr]. destruct (p u); lia. Qed.

(** An age that is not negative lies in the range of exactly one bucket. *)
Lemma takes_once age :
  (if takes 0 age then 1 else 0) + (if takes 1 age then 1 else 0)
  + (if takes 2 age then 1 else 0) + (if takes 3 age then 1 else 0)
  + (if takes 4 age then 1 else 0) + (if takes 5 age then 1 else 0)
  = if 0 <=? age then 1 else 0.
Proof.
  unfold takes, bucketIndex.
  destruct (Z.leb_spec 0 age), (Z.ltb_spec age 0); try lia; try reflexivity.
  repeat match goal with
         | |- context [if ?a <? ?b then _ else _] => destruct (a <? b)
         end; reflexivity.
Qed.

End AgeDistributionValidFacts.

(** When no size is negative and the sizes add up within int64, the
    distribution that [CalculateAgeDistribution] returns passes
    [AgeDistribution.Validate], and its counts add up to the number of
    records whose age is not negative. *)
Theorem CalculateAgeDistribution_valid now uploads :
  Forall (fun u => 0 <= MultipartUpload.Size u) uploads ->
  totalOf uploads <= Int64.max ->
  let distribution := AgeService.CalculateAgeDistribution now uploads in
  AgeDistribution_Validate distribution = None
  /\ foldr (fun b n => AgeBucket.Count b + n) 0 distribution
     = countWhere (fun u => 0 <=? GoTime.Sub now (MultipartUpload.Initiated u)) uploads.
Proof.
  intros Hsizes Htotal. cbn zeta.
  destruct (CalculateAgeDistribution_counts now uploads) as [Hbounds Hcounts]. split.
  - apply AgeDistribution_ValidateFrom_None, Forall_lookup. intros i b Hb.
    destruct (Hcounts i b Hb) as [Hcount Hsize].
    apply AgeBucket_Validate_bounds.
    + rewrite <- Hbounds. apply list_elem_of_In, in_map, list_elem_of_In.
      by eapply list_elem_of_lookup_2.
    + rewrite Hcount. apply countWhere_nonneg.
    + rewrite Hsize, wrap_inRange; [by apply sizeWhere_bounds|].
      pose proof (sizeWhere_bounds (takenBy now i) uploads Hsizes).
      unfold Int64.inRange, Int64.min. lia.
  - destruct (AgeService.CalculateAgeDistribution now uploads)
      as [|b0 [|b1 [|b2 [|b3 [|b4 [|b5 [|]]]]]]]; try discriminate Hbounds.
    cbn [foldr].
    rewrite (proj1 (Hcounts 0%nat b0 eq_refl)), (proj1 (Hcounts 1%nat b1 eq_refl)),
      (proj1 (Hcounts 2%nat b2 eq_refl)), (proj1 (Hcounts 3%nat b3 eq_refl)),
      (proj1 (Hcounts 4%nat b4 eq_refl)), (proj1 (Hcounts 5%nat b5 eq_refl)).
    clear. induction uploads as [|u us IH]; [done|].
    rewrite !countWhere_cons.
    pose proof (takes_once (GoTime.Sub now (MultipartUpload.Initiated u))) as Honce.
    unfold takenBy at 1 3 5 7 9 11. lia.
Qed.

Lemma CalculateAgeDistribution_valid_witness :
  AgeDistribution_Validate (AgeService.CalculateAgeDistribution SampleAge.now SampleAges.uploads)
  = None
  /\ foldr (fun b n => AgeBucket.Count b + n) 0
       (AgeService.CalculateAgeDistribution SampleAge.now SampleAges.uploads) = 4.
Proof.
  destruct (CalculateAgeDistribution_valid SampleAge.now SampleAges.uploads) as [Hvalid Hsum].
  - repeat constructor; vm_compute; discriminate.
  - vm_compute. discriminate.
  - split; [exact Hvalid|]. etransitivity; [exact Hsum|]. vm_compute. reflexivity.
Defined.

(* ===================================================================== *)
(** * Human-readable sizes *)
(* ===================================================================== *)

Section ByteFormatFacts.
Import ByteFormat.

Lemma scale_steps k : forall fuel n div exp,
  (k < fuel)%nat ->
  0 <= n -> (k = 0%nat \/ 1024 ^ Z.of_nat k <= n) -> n < 1024 ^ (Z.of_nat k + 1) ->
  scale fuel n div exp
  = Some (Nat.iter k (fun div => Int64.wrap (div * unit)) div, (exp + k)%nat).
Proof.
  induction k as [|k IH]; intros fuel n div exp Hfuel Hn Hlo Hhi.
  - destruct fuel as [|fuel]; [lia|]. cbn [scale Nat.iter]. unfold unit.
    change (1024 ^ (Z.of_nat 0 + 1)) with 1024 in Hhi.
    destruct (Z.leb_spec 1024 n); [lia|]. do 2 f_equal. lia.
  - destruct fuel as [|fuel]; [lia|]. cbn [scale]. unfold unit at 1.
    destruct Hlo as [|Hlo]; [lia|].
    assert (Hpow : 1024 ^ Z.of_nat (S k) = 1024 * 1024 ^ Z.of_nat k)
      by (rewrite Nat2Z.inj_succ, Z.pow_succ_r; lia).
    assert (Hpow' : 1024 ^ (Z.of_nat (S k) + 1) = 1024 * 1024 ^ (Z.of_nat k + 1))
      by (rewrite Nat2Z.inj_succ, <- Z.add_1_r, (Z.pow_add_r _ _ 1); lia).
    assert (Hpos : 0 < 1024 ^ Z.of_nat k) by (apply Z.pow_pos_nonneg; lia).
    rewrite Hpow in Hlo. rewrite Hpow' in Hhi.
    destruct (Z.leb_spec 1024 n); [|lia].
    unfold unit at 1. rewrite Z.quot_div_nonneg by lia.
    rewrite (IH fuel (n / 1024)); [| lia | apply Z.div_pos; lia | .. ].
    + rewrite Nat.iter_succ_r. do 2 f_equal. lia.
    + right. apply Z.div_le_lower_bound; lia.
    + apply Z.div_lt_upper_bound; lia.
Qed.

End ByteFormatFacts.

Local Ltac scaled k :=
  let lo := eval cbv in (1024 ^ Z.of_nat k) in
  let hi := eval cbv in (1024 ^ (Z.of_nat k + 1)) in
  match goal with
  | Hfuel : (7 <= ?fuel)%nat |- context [ByteFormat.scale ?fuel ?n ?div ?exp] =>
      rewrite (scale_steps k fuel n div exp);
      [ | lia | lia
        | first [ left; reflexivity | right; change (1024 ^ Z.of_nat k) with lo; lia ]
        | change (1024 ^ (Z.of_nat k + 1)) with hi; lia ]
  end.



(** 1.5 KB, and the largest int64 under both formatters. *)
Example FormatBytes_samples :
  ByteFormat.FormatBytes 7 1536 = Some (Returns (ByteFormat.Scaled 1536 1024 "KB"))
  /\ ByteFormat.FormatBytes 7 Int64.max
     = Some (Returns (ByteFormat.Scaled Int64.max (1024 ^ 6) "EB"))
  /\ ByteFormat.FormatSize 7 Int64.max
     = Some (Returns (ByteFormat.Scaled Int64.max (1024 ^ 5) "PB")).
Proof. vm_compute. done. Qed.

(* ===================================================================== *)
(** * The duration flag *)
(* ===================================================================== *)

Section DurationFlagFacts.
Import DurationFlag.

(** The number a string of decimal digits denotes. *)
Definition decimal (ds : list ascii) : Z := foldl (fun v d => v * 10 + Strconv.digitVal d) 0 ds.

(** The nanoseconds of one unit. *)
Definition multiplier (u : ascii) : option Z :=
  if Ascii.eqb u "s" then Some GoTime.Second
  else if Ascii.eqb u "m" then Some GoTime.Minute
  else if Ascii.eqb u "h" then Some GoTime.Hour
  else if Ascii.eqb u "d" then Some (24 * GoTime.Hour)
  else if Ascii.eqb u "w" then Some (7 * 24 * GoTime.Hour)
  else None.

Lemma wrap_mul_l a b : Int64.wrap (Int64.wrap a * b) = Int64.wrap (a * b).
Proof.
  unfold Int64.wrap. f_equal.
  rewrite (Z.mod_eq (a + 2 ^ 63) (2 ^ 64)) by lia.
  replace ((a + 2 ^ 63 - 2 ^ 64 * ((a + 2 ^ 63) / 2 ^ 64) - 2 ^ 63) * b + 2 ^ 63)
    with (a * b + 2 ^ 63 + (- ((a + 2 ^ 63) / 2 ^ 64) * b) * 2 ^ 64) by lia.
  apply Z_mod_plus_full.
Qed.

Lemma length_ofBytes l : String.length (GoStrings.ofBytes l) = length l.
Proof. induction l as [|c l IH]; [done|]. cbn. by rewrite <- IH. Qed.

Lemma digits_decimal ds : forall v,
  forallb Strconv.isDigit ds = true ->
  digits ds (Int64.wrap v)
  = Some (Int64.wrap (foldl (fun v d => v * 10 + Strconv.digitVal d) v ds)).
Proof.
  induction ds as [|r ds IH]; intros v Hds; [done|].
  cbn [forallb] in Hds. apply andb_true_iff in Hds as [Hr Hds].
  cbn [digits foldl]. unfold Strconv.isDigit, GoStrings.between in Hr.
  apply andb_true_iff in Hr as [Hlo Hhi].
  apply N.leb_le in Hlo. apply N.leb_le in Hhi.
  destruct (N.ltb_spec (GoStrings.code r) 48); [lia|].
  destruct (N.ltb_spec 57 (GoStrings.code r)); [lia|]. cbn [orb].
  unfold Int64.add. rewrite wrap_mul_l, wrap_add_l.
  fold (Strconv.digitVal r). by apply IH.
Qed.

Lemma digits_Some ds : forall v value,
  digits ds v = Some value -> forallb Strconv.isDigit ds = true.
Proof.
  induction ds as [|r ds IH]; intros v value Hds; [done|].
  cbn [digits] in Hds. cbn [forallb]. unfold Strconv.isDigit at 1, GoStrings.between.
  destruct (N.ltb_spec (GoStrings.code r) 48); [done|].
  destruct (N.ltb_spec 57 (GoStrings.code r)); [done|]. cbn [orb] in Hds.
  apply andb_true_iff. split; [|by eapply IH].
  apply andb_true_iff. split; apply N.leb_le; lia.
Qed.

(** What [parseDuration] does with a string of at least two bytes. *)
Lemma parseDuration_split ds u :
  ds <> [] ->
  parseDuration (GoStrings.ofBytes (ds ++ [u]))
  = match digits ds 0 with
    | None => inr InvalidDurationFormat
    | Some value =>
        if Ascii.eqb u "s" then inl (times value GoTime.Second)
        else if Ascii.eqb u "m" then inl (times value GoTime.Minute)
        else if Ascii.eqb u "h" then inl (times value GoTime.Hour)
        else if Ascii.eqb u "d" then inl (times (times value 24) GoTime.Hour)
        else if Ascii.eqb u "w" then inl (times (times (times value 7) 24) GoTime.Hour)
        else inr (UnsupportedUnit (String u ""))
    end.
Proof.
  intros Hds. unfold parseDuration, GoStrings.len, GoStrings.from, GoStrings.upto.
  rewrite length_ofBytes, !bytes_ofBytes, length_app. cbn [length].
  assert (0 < length ds)%nat by (destruct ds; [done|cbn; lia]).
  destruct (Z.ltb_spec (Z.of_nat (length ds + 1)) 2); [lia|].
  replace (length ds + 1 - 1)%nat with (length ds) by lia.
  rewrite take_app_length, drop_app_length.
  destruct (digits ds 0) as [value|]; [|done].
  change (GoStrings.ofBytes [u]) with (String u "").
  change (String u "" =? "s")%string with (Ascii.eqb u "s" && true).
  change (String u "" =? "m")%string with (Ascii.eqb u "m" && true).
  change (String u "" =? "h")%string with (Ascii.eqb u "h" && true).
  change (String u "" =? "d")%string with (Ascii.eqb u "d" && true).
  change (String u "" =? "w")%string with (Ascii.eqb u "w" && true).
  by rewrite !andb_true_r.
Qed.

Lemma split_last (l : list ascii) :
  (2 <= length l)%nat -> exists ds u, l = ds ++ [u] /\ ds <> [].
Proof.
  intros Hl. destruct l as [|c l] using rev_ind; [cbn in Hl; lia|].
  exists l, c. split; [done|]. intros ->. cbn in Hl. lia.
Qed.

End DurationFlagFacts.

(** [parseDuration] accepts exactly a non-empty run of decimal digits
    followed by one of the unit letters s, m, h, d and w, and returns the
    number times the unit's nanoseconds, wrapped to int64: a sign, a
    fraction, a blank or a missing number is refused, and a number too
    large for int64 is not refused but wraps around. *)
Theorem parseDuration_accepts_digits_and_unit :
  (forall ds u m,
     ds <> [] -> forallb Strconv.isDigit ds = true -> multiplier u = Some m ->
     DurationFlag.parseDuration (GoStrings.ofBytes (ds ++ [u]))
     = inl (Int64.wrap (decimal ds * m)))
  /\ (forall s d,
        DurationFlag.parseDuration s = inl d ->
        exists ds u m,
          s = GoStrings.ofBytes (ds ++ [u]) /\ ds <> [] /\ forallb Strconv.isDigit ds = true
          /\ multiplier u = Some m /\ d = Int64.wrap (decimal ds * m))
  /\ (forall ds u m,
        ds <> [] -> forallb Strconv.isDigit ds = true -> multiplier u = Some m ->
        decimal ds * m <= Int64.max ->
        DurationFlag.parseDuration (GoStrings.ofBytes (ds ++ [u])) = inl (decimal ds * m)
        /\ 0 <= decimal ds * m).
Proof.
  assert (Hforward : forall ds u m,
     ds <> [] -> forallb Strconv.isDigit ds = true -> multiplier u = Some m ->
     DurationFlag.parseDuration (GoStrings.ofBytes (ds ++ [u]))
     = inl (Int64.wrap (decimal ds * m))).
  { intros ds u m Hne Hds Hm. rewrite parseDuration_split by done.
    change 0 with (Int64.wrap 0) at 1. rewrite digits_decimal by done.
    fold (decimal ds). unfold multiplier in Hm. unfold DurationFlag.times.
    destruct (Ascii.eqb u "s"); [injection Hm as <-; by rewrite wrap_mul_l|].
    destruct (Ascii.eqb u "m"); [injection Hm as <-; by rewrite wrap_mul_l|].
    destruct (Ascii.eqb u "h"); [injection Hm as <-; by rewrite wrap_mul_l|].
    destruct (Ascii.eqb u "d");
      [injection Hm as <-; rewrite (wrap_mul_l (decimal ds)), wrap_mul_l;
       f_equal; f_equal; lia|].
    destruct (Ascii.eqb u "w");
      [injection Hm as <-;
       rewrite (wrap_mul_l (decimal ds)), (wrap_mul_l (decimal ds * 7)), wrap_mul_l;
       f_equal; f_equal; lia|].
    discriminate Hm. }
  split_and!; [exact Hforward| |].
  - intros s d Hs.
    assert (Hlen : (2 <= length (GoStrings.bytes s))%nat).
    { unfold DurationFlag.parseDuration, GoStrings.len in Hs.
      destruct (Z.ltb_spec (Z.of_nat (String.length s)) 2); [discriminate Hs|].
      rewrite <- (length_ofBytes (GoStrings.bytes s)), ofBytes_bytes. lia. }
    destruct (split_last _ Hlen) as (ds & u & Hl & Hne).
    assert (Heq : s = GoStrings.ofBytes (ds ++ [u])) by (by rewrite <- Hl, ofBytes_bytes).
    rewrite Heq, parseDuration_split in Hs by done.
    destruct (DurationFlag.digits ds 0) as [value|] eqn:Hdigits; [|discriminate Hs].
    pose proof (digits_Some _ _ _ Hdigits) as Hds.
    destruct (multiplier u) as [m|] eqn:Hm.
    + exists ds, u, m. split_and!; try done.
      specialize (Hforward ds u m Hne Hds Hm).
      rewrite parseDuration_split, Hdigits in Hforward by done. congruence.
    + unfold multiplier in Hm.
      destruct (Ascii.eqb u "s"); [discriminate Hm|].
      destruct (Ascii.eqb u "m"); [discriminate Hm|].
      destruct (Ascii.eqb u "h"); [discriminate Hm|].
      destruct (Ascii.eqb u "d"); [discriminate Hm|].
      destruct (Ascii.eqb u "w"); [discriminate Hm|]. discriminate Hs.
  - intros ds u m Hne Hds Hm Hmax.
    assert (Hdec : forall l v, 0 <= v -> forallb Strconv.isDigit l = true ->
                               0 <= foldl (fun v d => v * 10 + Strconv.digitVal d) v l).
    { induction l as [|c l IH]; intros v Hv Hl; [done|].
      cbn [forallb] in Hl. apply andb_true_iff in Hl as [Hc Hl].
      cbn [foldl]. apply IH; [|done]. unfold Strconv.isDigit, GoStrings.between in Hc.
      apply andb_true_iff in Hc as [Hlo _]. apply N.leb_le in Hlo. unfold Strconv.digitVal. lia. }
    assert (0 <= decimal ds) by (by apply Hdec).
    assert (0 < m).
    { unfold multiplier in Hm. repeat (destruct (Ascii.eqb u _); [by injection Hm as <-|]).
      discriminate Hm. }
    split; [|nia]. rewrite (Hforward ds u m) by done. f_equal.
    apply wrap_inRange. unfold Int64.inRange, Int64.min. split; [nia|done].
Qed.

(** "7d" is a week; "1.5h", "-5d", "h" and "10 m" are refused, "5x" has an
    unknown unit, and 9223372037 seconds wrap around to a negative duration. *)
Example parseDuration_samples :
  DurationFlag.parseDuration "7d" = inl (7 * 24 * GoTime.Hour)
  /\ DurationFlag.parseDuration "1.5h" = inr DurationFlag.InvalidDurationFormat
  /\ DurationFlag.parseDuration "-5d" = inr DurationFlag.InvalidDurationFormat
  /\ DurationFlag.parseDuration "h" = inr DurationFlag.InvalidDurationFormat
  /\ DurationFlag.parseDuration "10 m" = inr DurationFlag.InvalidDurationFormat
  /\ DurationFlag.parseDuration "5x" = inr (DurationFlag.UnsupportedUnit "x")
  /\ DurationFlag.parseDuration "9223372037s" = inl (-9223372036709551616).
Proof. vm_compute. done. Qed.

(* ===================================================================== *)
(** * The CSV fields of a dry-run report *)
(* ===================================================================== *)

Section EscapeCSVFacts.
Import DryRunCSV.

(** The number of quote characters of a byte string. *)
Definition quotes (l : list ascii) : nat :=
  foldr (fun c n => if Ascii.eqb c quote then S n else n) 0%nat l.

Lemma quotes_cons c l :
  quotes (c :: l) = ((if Ascii.eqb c quote then 1 else 0) + quotes l)%nat.
Proof. unfold quotes. cbn [foldr]. by destruct (Ascii.eqb c quote). Qed.

Lemma quotes_app l k : quotes (l ++ k) = (quotes l + quotes k)%nat.
Proof.
  induction l as [|c l IH]; [done|]. cbn [app]. rewrite !quotes_cons, IH. lia.
Qed.

Lemma quotes_ReplaceAll l :
  quotes (ReplaceAll l quote [quote; quote]) = (2 * quotes l)%nat.
Proof.
  induction l as [|c l IH]; [done|].
  change (ReplaceAll (c :: l) quote [quote; quote])
    with ((if Ascii.eqb c quote then [quote; quote] else [c])
          ++ ReplaceAll l quote [quote; quote]).
  rewrite quotes_app, IH, quotes_cons.
  destruct (Ascii.eqb c quote) eqn:Hc.
  - change (quotes [quote; quote]) with 2%nat. lia.
  - rewrite quotes_cons, Hc. change (quotes []) with 0%nat. lia.
Qed.

Lemma quotes_none l : existsb (Ascii.eqb quote) l = false -> quotes l = 0%nat.
Proof.
  induction l as [|c l IH]; [done|]. cbn [existsb]. intros H.
  apply orb_false_iff in H as [Hc Hl]. rewrite quotes_cons, Ascii.eqb_sym, Hc.
  by rewrite IH.
Qed.

Lemma ReplaceAll_inj a : forall b,
  ReplaceAll a quote [quote; quote] = ReplaceAll b quote [quote; quote] -> a = b.
Proof.
  unfold ReplaceAll.
  induction a as [|c a IH]; intros [|d b]; cbn [flat_map].
  - done.
  - by destruct (Ascii.eqb d quote).
  - by destruct (Ascii.eqb c quote).
  - destruct (Ascii.eqb_spec c quote) as [->|Hc], (Ascii.eqb_spec d quote) as [->|Hd];
      cbn [app]; intros Heq; injection Heq; intros; subst; try done;
      f_equal; by apply IH.
Qed.

Lemma Contains_quote_ofBytes l : Contains (GoStrings.ofBytes (quote :: l)) quote = true.
Proof. unfold Contains. by rewrite bytes_ofBytes. Qed.

End EscapeCSVFacts.

(** [escapeCSV] never maps two values to the same field, the field it
    returns always holds an even number of quote characters, and a comma
    or a line feed appears only in a field that is wrapped in quotes. *)
Theorem escapeCSV_injective_and_balanced :
  (forall a b, DryRunCSV.escapeCSV a = DryRunCSV.escapeCSV b -> a = b)
  /\ (forall value, Nat.even (quotes (GoStrings.bytes (DryRunCSV.escapeCSV value))) = true)
  /\ (forall value,
        DryRunCSV.Contains (DryRunCSV.escapeCSV value) DryRunCSV.comma
        || DryRunCSV.Contains (DryRunCSV.escapeCSV value) DryRunCSV.newline = true ->
        exists body,
          GoStrings.bytes (DryRunCSV.escapeCSV value)
          = DryRunCSV.quote :: body ++ [DryRunCSV.quote]).
Proof.
  split_and!.
  - intros a b. unfold DryRunCSV.escapeCSV.
    destruct (DryRunCSV.Contains a DryRunCSV.comma || DryRunCSV.Contains a DryRunCSV.quote
              || DryRunCSV.Contains a DryRunCSV.newline) eqn:Ha;
      destruct (DryRunCSV.Contains b DryRunCSV.comma || DryRunCSV.Contains b DryRunCSV.quote
                || DryRunCSV.Contains b DryRunCSV.newline) eqn:Hb; cbn zeta.
    + intros Heq. apply (f_equal GoStrings.bytes) in Heq. rewrite !bytes_ofBytes in Heq.
      injection Heq as Heq. apply app_inj_tail in Heq as [Heq _].
      apply ReplaceAll_inj in Heq.
      by rewrite <- (ofBytes_bytes a), <- (ofBytes_bytes b), Heq.
    + intros <-. rewrite Contains_quote_ofBytes, orb_true_r in Hb. discriminate Hb.
    + intros ->. rewrite Contains_quote_ofBytes, orb_true_r in Ha. discriminate Ha.
    + done.
  - intros value. unfold DryRunCSV.escapeCSV.
    destruct (DryRunCSV.Contains value DryRunCSV.comma
              || DryRunCSV.Contains value DryRunCSV.quote
              || DryRunCSV.Contains value DryRunCSV.newline) eqn:Hv; cbn zeta.
    + rewrite bytes_ofBytes.
      change (DryRunCSV.quote :: ?l ++ [DryRunCSV.quote])
        with ([DryRunCSV.quote] ++ l ++ [DryRunCSV.quote]).
      rewrite !quotes_app, quotes_ReplaceAll.
      change (quotes [DryRunCSV.quote]) with 1%nat.
      replace (1 + (2 * quotes (GoStrings.bytes value) + 1))%nat
        with (2 * (1 + quotes (GoStrings.bytes value)))%nat by lia.
      apply Nat.even_spec. by eexists.
    + apply orb_false_iff in Hv as [Hv _]. apply orb_false_iff in Hv as [_ Hv].
      unfold DryRunCSV.Contains in Hv. by rewrite quotes_none.
  - intros value. unfold DryRunCSV.escapeCSV.
    destruct (DryRunCSV.Contains value DryRunCSV.comma
              || DryRunCSV.Contains value DryRunCSV.quote
              || DryRunCSV.Contains value DryRunCSV.newline) eqn:Hv; cbn zeta.
    + intros _. rewrite bytes_ofBytes. by eexists.
    + intros H. apply orb_false_iff in Hv as [Hv Hn]. apply orb_false_iff in Hv as [Hc _].
      rewrite Hc, Hn in H. discriminate H.
Qed.

(** A plain value is left alone; a value with a comma is wrapped; a quote
    is doubled; a carriage return alone does not make a field quoted. *)
Example escapeCSV_samples :
  DryRunCSV.escapeCSV "logs/a.bin" = "logs/a.bin"
  /\ GoStrings.bytes (DryRunCSV.escapeCSV "a,b")
     = DryRunCSV.quote :: GoStrings.bytes "a,b" ++ [DryRunCSV.quote]
  /\ GoStrings.bytes (DryRunCSV.escapeCSV (String DryRunCSV.quote "x"))
     = [DryRunCSV.quote; DryRunCSV.quote; DryRunCSV.quote; "x"%char; DryRunCSV.quote]
  /\ DryRunCSV.escapeCSV (String "013"%char "x") = String "013"%char "x".
Proof. vm_compute. done. Qed.

(* ===================================================================== *)
(** * The totals of the age report *)
(* ===================================================================== *)

Section AgeReportFacts.

Lemma sizeWhere_cons p u us :
  sizeWhere p (u :: us) = (if p u then MultipartUpload.Size u else 0) + sizeWhere p us.
Proof.
  change (sizeWhere p (u :: us))
    with (if p u then MultipartUpload.Size u + sizeWhere p us else sizeWhere p us).
  destruct (p u); lia.
Qed.

Lemma countWhere_le_length p us : countWhere p us <= Z.of_nat (length us).
Proof.
  induction us as [|u us IH]; [done|]. rewrite countWhere_cons. cbn [length].
  destruct (p u); lia.
Qed.

(** The buckets from "1 month" on hold the ages of seven days or more. *)
Lemma takes_old age (x : Z) :
  (if takes 2 age then x else 0) + (if takes 3 age then x else 0)
  + (if takes 4 age then x else 0) + (if takes 5 age then x else 0)
  = if AgeReport.sevenDays <=? age then x else 0.
Proof.
  unfold takes, bucketIndex, AgeReport.sevenDays.
  assert (0 < 24 * GoTime.Hour) by done.
  destruct (Z.leb_spec (7 * 24 * GoTime.Hour) age), (Z.ltb_spec age 0),
    (Z.ltb_spec age (24 * GoTime.Hour)), (Z.ltb_spec age (7 * 24 * GoTime.Hour));
    try lia; try reflexivity.
  repeat match goal with
         | |- context [if ?a <? ?b then _ else _] => destruct (a <? b)
         end; cbn [Nat.eqb]; lia.
Qed.

Lemma takes_any age (x : Z) :
  (if takes 0 age then x else 0) + (if takes 1 age then x else 0)
  + (if takes 2 age then x else 0) + (if takes 3 age then x else 0)
  + (if takes 4 age then x else 0) + (if takes 5 age then x else 0)
  = if 0 <=? age then x else 0.
Proof.
  unfold takes, bucketIndex.
  destruct (Z.leb_spec 0 age), (Z.ltb_spec age 0); try lia; try reflexivity.
  repeat match goal with
         | |- context [if ?a <? ?b then _ else _] => destruct (a <? b)
         end; cbn [Nat.eqb]; lia.
Qed.

Lemma wrap_count p (us : list MultipartUpload.t) :
  Z.of_nat (length us) <= Int64.max -> Int64.wrap (countWhere p us) = countWhere p us.
Proof.
  intros Hlen. apply wrap_inRange.
  pose proof (countWhere_nonneg p us). pose proof (countWhere_le_length p us).
  unfold Int64.inRange, Int64.min. lia.
Qed.

Lemma counts_by_age now us :
  countWhere (takenBy now 0) us + countWhere (takenBy now 1) us
  + countWhere (takenBy now 2) us + countWhere (takenBy now 3) us
  + countWhere (takenBy now 4) us + countWhere (takenBy now 5) us
  = countWhere (fun u => 0 <=? GoTime.Sub now (MultipartUpload.Initiated u)) us
  /\ countWhere (takenBy now 2) us + countWhere (takenBy now 3) us
     + countWhere (takenBy now 4) us + countWhere (takenBy now 5) us
     = countWhere
         (fun u => AgeReport.sevenDays <=? GoTime.Sub now (MultipartUpload.Initiated u)) us.
Proof.
  induction us as [|u us [IHall IHold]]; [done|]. rewrite !countWhere_cons.
  pose proof (takes_any (GoTime.Sub now (MultipartUpload.Initiated u)) 1).
  pose proof (takes_old (GoTime.Sub now (MultipartUpload.Initiated u)) 1).
  unfold takenBy at 1 3 5 7 9 11 13 15 17 19. split; lia.
Qed.

Lemma sizes_by_age now us :
  sizeWhere (takenBy now 0) us + sizeWhere (takenBy now 1) us
  + sizeWhere (takenBy now 2) us + sizeWhere (takenBy now 3) us
  + sizeWhere (takenBy now 4) us + sizeWhere (takenBy now 5) us
  = sizeWhere (fun u => 0 <=? GoTime.Sub now (MultipartUpload.Initiated u)) us
  /\ sizeWhere (takenBy now 2) us + sizeWhere (takenBy now 3) us
     + sizeWhere (takenBy now 4) us + sizeWhere (takenBy now 5) us
     = sizeWhere
         (fun u => AgeReport.sevenDays <=? GoTime.Sub now (MultipartUpload.Initiated u)) us.
Proof.
  induction us as [|u us [IHall IHold]]; [done|]. rewrite !sizeWhere_cons.
  pose proof (takes_any (GoTime.Sub now (MultipartUpload.Initiated u))
                (MultipartUpload.Size u)).
  pose proof (takes_old (GoTime.Sub now (MultipartUpload.Initiated u))
                (MultipartUpload.Size u)).
  unfold takenBy at 1 3 5 7 9 11 13 15 17 19. split; lia.
Qed.

Lemma add_wrap a b : Int64.add (Int64.wrap a) (Int64.wrap b) = Int64.wrap (a + b).
Proof. unfold Int64.add. by rewrite wrap_add_l, wrap_add_r. Qed.

Lemma add_0_wrap b : Int64.add 0 (Int64.wrap b) = Int64.wrap b.
Proof. unfold Int64.add. by rewrite wrap_add_r. Qed.

End AgeReportFacts.

(** On the distribution that [CalculateAgeDistribution] returns, the
    totals of the age report count the records whose age is not negative
    (a record initiated after the clock reading is missing from the
    total), and the warning about old uploads counts the records whose
    age is seven days or more, with their sizes added in int64.  Every
    record that [IsOlderThanSevenDays] accepts at the same clock reading
    is among them, but a record exactly seven days old is counted in the
    warning although [IsOlderThanSevenDays] rejects it. *)
Theorem age_report_counts now uploads :
  Z.of_nat (length uploads) <= Int64.max ->
  let distribution := AgeService.CalculateAgeDistribution now uploads in
  let age u := GoTime.Sub now (MultipartUpload.Initiated u) in
  AgeReport.totals distribution
  = (countWhere (fun u => 0 <=? age u) uploads,
     Int64.wrap (sizeWhere (fun u => 0 <=? age u) uploads))
  /\ AgeReport.old distribution
     = (countWhere (fun u => AgeReport.sevenDays <=? age u) uploads,
        Int64.wrap (sizeWhere (fun u => AgeReport.sevenDays <=? age u) uploads))
  /\ (forall u, AgeReport.IsOlderThanSevenDays now u = true ->
                (AgeReport.sevenDays <=? age u) = true)
  /\ (forall u, MultipartUpload.Initiated u = now - AgeReport.sevenDays ->
                AgeReport.IsOlderThanSevenDays now u = false
                /\ (AgeReport.sevenDays <=? age u) = true).
Proof.
  intros Hlen. cbn zeta.
  destruct (CalculateAgeDistribution_counts now uploads) as [Hbounds Hcounts].
  destruct (counts_by_age now uploads) as [Hcount_all Hcount_old].
  destruct (sizes_by_age now uploads) as [Hsize_all Hsize_old].
  split_and!.
  - destruct (AgeService.CalculateAgeDistribution now uploads)
      as [|b0 [|b1 [|b2 [|b3 [|b4 [|b5 [|]]]]]]]; try discriminate Hbounds.
    destruct (Hcounts 0%nat b0 eq_refl) as [Hc0 Hs0], (Hcounts 1%nat b1 eq_refl) as [Hc1 Hs1],
      (Hcounts 2%nat b2 eq_refl) as [Hc2 Hs2], (Hcounts 3%nat b3 eq_refl) as [Hc3 Hs3],
      (Hcounts 4%nat b4 eq_refl) as [Hc4 Hs4], (Hcounts 5%nat b5 eq_refl) as [Hc5 Hs5].
    unfold AgeReport.totals. cbn [foldl fst snd].
    rewrite Hc0, Hc1, Hc2, Hc3, Hc4, Hc5, Hs0, Hs1, Hs2, Hs3, Hs4, Hs5.
    rewrite <- (wrap_count (takenBy now 0) uploads Hlen),
      <- (wrap_count (takenBy now 1) uploads Hlen),
      <- (wrap_count (takenBy now 2) uploads Hlen),
      <- (wrap_count (takenBy now 3) uploads Hlen),
      <- (wrap_count (takenBy now 4) uploads Hlen),
      <- (wrap_count (takenBy now 5) uploads Hlen).
    rewrite !add_0_wrap, !add_wrap, Hcount_all, Hsize_all.
    by rewrite wrap_count.
  - destruct (AgeService.CalculateAgeDistribution now uploads)
      as [|b0 [|b1 [|b2 [|b3 [|b4 [|b5 [|]]]]]]]; try discriminate Hbounds.
    destruct (Hcounts 2%nat b2 eq_refl) as [Hc2 Hs2], (Hcounts 3%nat b3 eq_refl) as [Hc3 Hs3],
      (Hcounts 4%nat b4 eq_refl) as [Hc4 Hs4], (Hcounts 5%nat b5 eq_refl) as [Hc5 Hs5].
    unfold AgeReport.old. cbn [foldl]. cbv beta. injection Hbounds; intros.
    repeat match goal with
           | H : AgeBucket.MinAge _ = _ |- _ => rewrite H; clear H
           end.
    change (AgeReport.sevenDays <=? 0) with false.
    change (AgeReport.sevenDays <=? 24 * GoTime.Hour) with false.
    change (AgeReport.sevenDays <=? 7 * 24 * GoTime.Hour) with true.
    change (AgeReport.sevenDays <=? 30 * 24 * GoTime.Hour) with true.
    change (AgeReport.sevenDays <=? 90 * 24 * GoTime.Hour) with true.
    change (AgeReport.sevenDays <=? 180 * 24 * GoTime.Hour) with true.
    cbv beta iota. cbn [fst snd]. rewrite Hc2, Hc3, Hc4, Hc5, Hs2, Hs3, Hs4, Hs5.
    rewrite <- (wrap_count (takenBy now 2) uploads Hlen),
      <- (wrap_count (takenBy now 3) uploads Hlen),
      <- (wrap_count (takenBy now 4) uploads Hlen),
      <- (wrap_count (takenBy now 5) uploads Hlen).
    rewrite !add_0_wrap, !add_wrap, Hcount_old, Hsize_old.
    by rewrite wrap_count.
  - intros u. unfold AgeReport.IsOlderThanSevenDays, AgeReport.sevenDays, GoTime.Sub,
      Int64.clamp, Int64.min, Int64.max.
    intros Hold. apply Z.ltb_lt in Hold. apply Z.leb_le.
    assert (7 * 24 * GoTime.Hour = 604800000000000) as -> by reflexivity.
    change (- 7 * 24 * GoTime.Hour) with (- 604800000000000) in Hold. lia.
  - intros u Hu. unfold AgeReport.IsOlderThanSevenDays, GoTime.Sub. rewrite Hu.
    unfold AgeReport.sevenDays, Int64.clamp, Int64.min, Int64.max.
    assert (7 * 24 * GoTime.Hour = 604800000000000) as -> by reflexivity.
    change (- 7 * 24 * GoTime.Hour) with (- 604800000000000).
    split; [apply Z.ltb_ge|apply Z.leb_le]; lia.
Qed.

Lemma age_report_counts_witness :
  AgeReport.totals (AgeService.CalculateAgeDistribution SampleAge.now SampleAges.uploads)
  = (4, 1111)
  /\ AgeReport.old (AgeService.CalculateAgeDistribution SampleAge.now SampleAges.uploads)
     = (2, 1100).
Proof.
  destruct (age_report_counts SampleAge.now SampleAges.uploads) as (Htotals & Hold & _).
  - vm_compute. discriminate.
  - split; [etransitivity; [exact Htotals|]|etransitivity; [exact Hold|]];
      vm_compute; reflexivity.
Defined.

(* ===================================================================== *)
(** * Table cells *)
(* ===================================================================== *)

Section TruncateFacts.

Lemma len_ofBytes l : GoStrings.len (GoStrings.ofBytes l) = Z.of_nat (length l).
Proof. unfold GoStrings.len. by rewrite length_ofBytes. Qed.

Lemma len_bytes s : Z.of_nat (length (GoStrings.bytes s)) = GoStrings.len s.
Proof. by rewrite <- len_ofBytes, ofBytes_bytes. Qed.

Lemma len_upto n s :
  Z.of_nat n <= GoStrings.len s -> GoStrings.len (GoStrings.upto n s) = Z.of_nat n.
Proof.
  intros Hn. unfold GoStrings.upto. rewrite len_ofBytes, length_take.
  rewrite <- len_bytes in Hn. lia.
Qed.

Lemma len_append s t : GoStrings.len (s +:+ t) = GoStrings.len s + GoStrings.len t.
Proof.
  unfold GoStrings.len. induction s as [|c s IH].
  - change ("" +:+ t) with t. change (String.length "") with 0%nat. lia.
  - change (String c s +:+ t) with (String c (s +:+ t)).
    change (String.length (String c (s +:+ t))) with (S (String.length (s +:+ t))).
    change (String.length (String c s)) with (S (String.length s)). lia.
Qed.

End TruncateFacts.

(** For a limit that is not negative [truncateString] returns a string
    of [min(len(s), maxLen)] bytes: the string itself when it fits, else
    its first bytes, the last three of them replaced by "..." when the
    limit is above 3.  With a negative limit it panics on every string. *)
Theorem truncateString_bounded s maxLen :
  (0 <= maxLen ->
   exists cell,
     TableText.truncateString s maxLen = Returns cell
     /\ GoStrings.len cell = Z.min (GoStrings.len s) maxLen
     /\ (GoStrings.len s <= maxLen -> cell = s)
     /\ (maxLen < GoStrings.len s ->
         cell = if maxLen <=? 3 then GoStrings.upto (Z.to_nat maxLen) s
                else GoStrings.upto (Z.to_nat (maxLen - 3)) s +:+ "..."))
  /\ (maxLen < 0 -> TableText.truncateString s maxLen = Panics).
Proof.
  assert (Hlen : 0 <= GoStrings.len s) by (unfold GoStrings.len; lia).
  unfold TableText.truncateString, TableText.sliceTo. split.
  - intros Hmax. destruct (Z.leb_spec (GoStrings.len s) maxLen).
    + exists s. split_and!; [done|lia|done|lia].
    + destruct (Z.leb_spec maxLen 3).
      * destruct (Z.ltb_spec maxLen 0); [lia|].
        destruct (Z.ltb_spec (GoStrings.len s) maxLen); [lia|]. cbn [orb].
        eexists. split_and!; [done| |lia|done].
        rewrite len_upto; lia.
      * destruct (Z.ltb_spec (maxLen - 3) 0); [lia|].
        destruct (Z.ltb_spec (GoStrings.len s) (maxLen - 3)); [lia|]. cbn [orb].
        eexists. split_and!; [done| |lia|done].
        rewrite len_append, len_upto by lia. change (GoStrings.len "...") with 3. lia.
  - intros Hneg. destruct (Z.leb_spec (GoStrings.len s) maxLen); [lia|].
    destruct (Z.leb_spec maxLen 3); [|lia].
    by destruct (Z.ltb_spec maxLen 0); [|lia].
Qed.

(** A key of 46 bytes in a column of 40, and a short one. *)
Example truncateString_samples :
  TableText.truncateString "uploads/2024/03/archive-part-000017.tar.gz.tmp" 40
  = Returns "uploads/2024/03/archive-part-000017.t..."
  /\ TableText.truncateString "a.bin" 40 = Returns "a.bin"
  /\ TableText.truncateString "a.bin" 2 = Returns "a."
  /\ TableText.truncateString "a.bin" (-1) = Panics.
Proof. vm_compute. done. Qed.
